(* ===== verification/_CoqProject ===== *)
-Q . S2P
Prelude.v
Bytes.v
StableSort.v
RowId.v
RowIndex.v
Text.v
OrdMap.v
Storage.v
Json.v
Arrow.v
Schema.v
FieldIds.v
Manifest.v
RowGroupMeta.v
AggCache.v
AggRetract.v
AggGroups.v
Prune.v
PruneSound.v
History.v
CommitDelta.v
RowIndexStore.v
LruCache.v
MutationWal.v
SnapshotCatalog.v
TransactionLog.v
Transactions.v
Gc.v
BTreeIndex.v
BinaryIndex.v
Stats.v
StatsSound.v
SecondaryIndex.v
DatabaseCatalog.v
IndexMaintainer.v
Commit.v
Disk.v
CommitSafe.v
FaultyDisk.v
Total.v
CommitDurable.v
CommitAtomic.v
CommitCrash.v
CommitLive.v
Instances.v
Witnesses.v
WitnessesIndex.v
WitnessesAgg.v
WitnessesMeta.v
WitnessesCommit.v
WitnessesTx.v
