(* ===== verification/Prelude.v ===== *)
(** * IcefallDB: verification library

    IcefallDB keeps a table as a directory of immutable Parquet files described
    by numbered JSON manifests.  This library models the parts of the program
    that decide what a table contains and prove that they agree with each
    other.  Everything below is translated from [src/crates].

    ** How the program fits together

    A commit writes new fragments (row groups with their sidecars), then a
    manifest that lists all live fragments and the deletion vector of each, then
    moves the pointer [_manifest.json] to it.  Manifests carry their own SHA-256
    and that of their predecessor, which [doctor] checks.  Small mutations may
    instead be appended to a mutation log that readers replay over the last
    manifest until a checkpoint folds it into a new one.  Rows have stable ids;
    the row index maps ids to physical addresses and is a cache that can be
    rebuilt from the manifest.  Secondary indexes map values to row ids, stored
    as a base plus deltas.  Garbage collection removes what no retained manifest
    refers to.  Readers plan scans by pruning fragments on statistics, and
    answer aggregates from per-fragment partials.

    ** The files, in dependency order

    - [Prelude]: integers and wrap-around, errors and the result monad [res] (a
      [Panic] of the release build is an outcome), list lemmas, tactics.
    - [Bytes] (integers in little-endian, slices), [StableSort] ([sort_by_key],
      [partition_point], [dedup]), [Text] ([str], [Path] and [format!]),
      [OrdMap] ([BTreeMap<String, _>] as a sorted association list): what the
      source uses of the Rust standard library.
    - [RowId]: [rowid.rs], [deletion.rs].  [RowIndex]: the codec, readers and
      layered map of [rowindex/].  [RowIndexStore]: deriving, rebuilding and
      verifying the index of a manifest.
    - [Storage]: [storage/path.rs], the trait of [storage/mod.rs] as the class
      [Storage] with its laws [StorageLaws], and [MemoryStorage], which is
      proved to satisfy them.  Every client is proved against the class.
    - [Json]: [metadata/checksum.rs] and the derived serialization (class
      [Serde]); [Manifest]: [metadata/manifest.rs]; [RowGroupMeta]:
      [metadata/row_group_meta.rs] and [checkpoint.rs]; [History]:
      [verify_history] of [doctor.rs]; [CommitDelta]: [commit_delta.rs].
    - [MutationWal]: [mutation_wal.rs].  [Gc]: [gc.rs].
    - [BTreeIndex], [BinaryIndex], [SecondaryIndex], [IndexMaintainer]:
      [index.rs] and [index/binary.rs].  [DatabaseCatalog]:
      [database_catalog.rs].
    - [Arrow]: data types, arrays as lists of cells, record batches, binary64
      arithmetic from the standard library's [SpecFloat].  [AggCache]: the
      definitions of [agg_cache.rs]; [AggRetract] proves the retraction of
      deleted rows, [AggGroups] the partials per group and their merge.
    - [LruCache]: the algorithm shared by [meta_cache.rs], the [AggStateCache]
      of [agg_cache.rs] and [metadata_cache.rs], with the interleavings of its
      lock sections as a step relation.
    - [Schema]: [schema_util.rs] and the type parser of [metadata/schema.rs];
      [FieldIds] proves what holds of field ids through schema versions.
    - [Stats]: the statistics and partition values that [writer.rs] computes for
      a batch or merges from a Parquet footer.  [Prune]: the predicates and the
      pruning of [reader.rs], its [predicate_eval], and the translation of
      filters of [icefalldb-query/src/predicate.rs].  [PruneSound] says what
      predicates and metadata mean and proves pruning sound for metadata that
      tells the truth; [StatsSound] proves that the writer's does.
    - [Commit]: the commit protocol of [writer.rs] and its [commit_deletes].
      [Disk] describes a storage that fails and loses power, [FaultyDisk] is
      one.  [CommitSafe] says which paths each routine may touch,
      [CommitDurable] what it leaves durable when it succeeds; [CommitAtomic]
      and [CommitCrash] conclude that a delete happens or does not.  [Total] and
      [CommitLive] show that it happens on a disk that works.
    - [SnapshotCatalog]: [catalog.rs], how a table's current snapshot is loaded.
      [TransactionLog]: [wal.rs] and [recovery.rs]; [Transactions]:
      [icefalldb-server/src/transaction.rs] and the replay when the server
      starts.  The insert path of the table writer is the interface
      [TableWriter], of which the theorems use that it touches its own table.
    - [Instances]: instances of the interfaces to other crates, on which
      [Witnesses], [WitnessesIndex], [WitnessesAgg], [WitnessesMeta],
      [WitnessesCommit] and [WitnessesTx] evaluate every theorem that has
      hypotheses, so that none holds vacuously.

    Inside a file the definitions come first and keep the names of the source;
    a Rust struct is a Record whose fields carry a prefix, a method [T::f] is
    [T_f] or [f], [&mut self] is explicit state passing, and a fallible function
    returns [res].

    ** Conventions

    Integers are [Z] with the wrap-around of the release profile written out
    where the source can reach it; lengths of in-memory buffers are exact.  A
    [HashMap] is a [gmap] unless its iteration order reaches the output, where
    the order is a parameter.  Loops whose recursion is not structural take
    fuel: 20 digits print any [u64], 64 halvings finish any binary search over
    [usize] positions, and splitting a buffer into words takes at most its
    length many steps; each fuel is a lemma of its file, and
    [lookup_checked_terminates] relates the fuel to the loop as a relation.

    Other crates are classes whose laws state their documentation:
    [SerdeJson] (text of a JSON value), [Sha256] and [Hex], [RoaringBitmap],
    [Rkyv], [Parquet] (the batches of a column), [ParquetReader] (projected and
    selected batches), [ArrowCompute] (the
    min and max kernels), [ParquetFooter], [Unicode], [DebugType],
    [ArrowIpc], [HashOrder].
    The parser of JSON text may read a float back off by a unit in the last
    place: theorems about stored floats ask for floats that are read exactly
    ([json_float_exact]).  Digest collisions
    are never excluded: where a theorem needs their absence it concludes with
    the colliding inputs instead.

    ** What the theorems show

    - Storage of the history: a rewritten manifest shows as a broken chain or a
      digest collision; the mutation log reads back what was appended, loses
      only a torn tail, and a checkpoint preserves what readers see; garbage
      collection never removes a file of a retained snapshot.
    - Row index: encoding round-trips and detects any changed byte; the derived
      index maps exactly the live rows, and verification accepts exactly the
      correct index; the two lookups agree.
    - Secondary indexes: the binary file, the overlay of deltas, the learned
      model and the in-memory index answer alike; maintenance after inserts and
      updates keeps an index equal to the table's live entries and unique
      indexes unique.
    - Commits: a delete interrupted anywhere, by failing operations or a loss of
      power, leaves the old snapshot or the complete new one, and an
      acknowledged delete is durable; on a working disk a delete succeeds
      whatever was left behind.
    - Transactions: the log reads back what was appended and recovery decides by
      the first commit or rollback; the manager's buffers are what the log holds
      for its active transactions.  Three theorems show defects: a restart writes
      committed batches again, it also writes inserts that were refused, and a
      torn last line blocks it.
    - Catalog: what a refresh shows is verified and complete; a checkpoint of the
      mutation log is invisible to it.
    - Aggregates: the partial of a fragment, less the deleted rows, is that of
      its live rows, whole and per group; merged partials are those of all rows
      unless a sum overflows.  Caches: what any interleaving of calls leaves in
      an LRU cache.
    - Schemas: type strings round-trip and their parser ends on every input;
      field ids are stable and never reused.
    - Scans: no row group with a matching row is pruned, from the batch the
      writer was given to the filter the query was given, on columns whose
      values JSON represents exactly: integers of [i64] and finite floats.
      [prune_u64_wrong] and [infinite_float_pruned] show what happens beyond.
    ** Not modelled

    The paths that turn Arrow batches into Parquet files (inserts, updates and
    merges in [writer.rs], [compaction.rs], [mutate.rs]), the DataFusion plans and optimizer rules of
    [icefalldb-query], encryption, Iceberg export, the local and S3 storage
    backends, the HTTP handlers of the server, the command line and the Python bindings: they
    are dominated by calls into other crates whose behaviour cannot be stated
    here without inventing it.
    Within the parts that are modelled: [create_table] of the catalog (it calls
    the table writer), the serialized form of an aggregate partial (serde_json's
    128-bit integers), the optional [sketches] feature, the reading of a
    snapshot into a scan plan, and the repair of sidecars from footers. *)

From stdpp Require Export prelude gmap strings list sorting.
From Stdlib Require Export ZArith Lia.
From Stdlib Require Strings.Byte.

#[global] Open Scope Z_scope.
#[global] Set Default Goal Selector "!".

(** ** Values of the Rust program *)

(** Rust's unsigned and signed integers are [Z] with their width written out;
    [usize] is 64 bits wide. *)
Abbreviation u64 := Z (only parsing).
Abbreviation u32 := Z (only parsing).
Abbreviation i64 := Z (only parsing).
Abbreviation i128 := Z (only parsing).
Abbreviation usize := Z (only parsing).
(** [u8]s and byte buffers ([Vec<u8>], [&[u8]]). *)
Abbreviation byte := Init.Byte.byte.
Abbreviation bytes := (list byte).

#[export] Instance byte_eq_dec : EqDecision byte := Byte.byte_eq_dec.

Definition in_u64 (x : Z) : Prop := 0 <= x < 2 ^ 64.
Definition in_u32 (x : Z) : Prop := 0 <= x < 2 ^ 32.
Definition in_i64 (x : Z) : Prop := - 2 ^ 63 <= x < 2 ^ 63.
Definition in_i128 (x : Z) : Prop := - 2 ^ 127 <= x < 2 ^ 127.

#[export] Instance in_u64_dec x : Decision (in_u64 x) := _.
#[export] Instance in_u32_dec x : Decision (in_u32 x) := _.
#[export] Instance in_i64_dec x : Decision (in_i64 x) := _.
#[export] Instance in_i128_dec x : Decision (in_i128 x) := _.

(** Release-profile wrap-around of [u64] / [usize] and [u32]. *)
Definition wrap64 (x : Z) : Z := x mod 2 ^ 64.
Definition wrap32 (x : Z) : Z := x mod 2 ^ 32.

(** [x.checked_add(y)] and friends: [None] when the mathematical result is not
    representable. *)
Definition checked (P : Z → Prop) `{∀ x, Decision (P x)} (x : Z) : option Z :=
  if decide (P x) then Some x else None.
Definition saturating_sub (x y : Z) : Z := Z.max 0 (x - y).
Definition saturating_add64 (x y : Z) : Z := Z.min (2 ^ 64 - 1) (x + y).

Lemma wrap64_small x : in_u64 x → wrap64 x = x.
Proof. intros ?. by apply Z.mod_small. Qed.
Lemma wrap32_small x : in_u32 x → wrap32 x = x.
Proof. intros ?. by apply Z.mod_small. Qed.
Lemma wrap64_range x : in_u64 (wrap64 x).
Proof. apply Z.mod_pos_bound. lia. Qed.
Lemma wrap32_range x : in_u32 (wrap32 x).
Proof. apply Z.mod_pos_bound. lia. Qed.
Lemma checked_Some P `{∀ x, Decision (P x)} x y :
  checked P x = Some y ↔ P x ∧ y = x.
Proof. unfold checked. case_decide; naive_solver. Qed.
Lemma checked_None P `{∀ x, Decision (P x)} x : checked P x = None ↔ ¬ P x.
Proof. unfold checked. case_decide; naive_solver. Qed.

(** ** Errors, results and effects *)

(** The variants of [IcefallDBError] the modelled code raises
    (crates/icefalldb-core/src/error.rs).  Payloads that only carry a rendered
    message of another crate are collapsed into a string. *)
Inductive error :=
  | Io (msg : string)
  | Serialization (msg : string)
  | ChecksumMismatch (path : string)
  | SchemaNotFound (path : string)
  | NotFound (path : string)
  | InvalidPath (msg : string)
  | InvalidManifestPointer (msg : string)
  | MissingManifestPointer (path : string)
  | LockTimeout (path : string)
  | RangeReadError (path reason : string)
  | ParquetDecode (msg : string)
  | TypeNotSupported (ty : string)
  | LegacyIndex (table name : string)
  | TableNotFound (table : string)
  | TableAlreadyExists (table : string)
  | UniqueKeyViolation (table index key : string)
  | SchemaMismatch (column expected path : string)
  | InvalidSchema (reason path : string)
  | InvalidSchemaPointer (path : string)
  | ManifestNotFound (path : string)
  | RowGroupChecksumMismatch (path : string)
  | SequenceCollision (seq : u64)
  | Other (msg : string).

#[export] Instance error_eq_dec : EqDecision error.
Proof. solve_decision. Defined.

Definition is_not_found (e : error) : bool :=
  match e with NotFound _ => true | _ => false end.

(** The outcome of a Rust call: [Ok], [Err], or a panic (an out-of-range slice,
    a failed assertion, an [unwrap] of [None]). *)
Inductive res (A : Type) :=
  | Ok (a : A)
  | Err (e : error)
  | Panic.
Arguments Ok {A} a.
Arguments Err {A} e.
Arguments Panic {A}.

#[export] Instance res_eq_dec {A} `{EqDecision A} : EqDecision (res A).
Proof. solve_decision. Defined.

Definition res_bind {A B} (r : res A) (f : A → res B) : res B :=
  match r with Ok a => f a | Err e => Err e | Panic => Panic end.
Definition of_option {A} (e : error) (o : option A) : res A :=
  match o with Some a => Ok a | None => Err e end.
Definition or_panic {A} (o : option A) : res A :=
  match o with Some a => Ok a | None => Panic end.

(** A state-and-error monad: the effect of an [async fn] on the storage it
    borrows. *)
Definition M (St A : Type) : Type := St → res A * St.
Definition m_ret {St A} (a : A) : M St A := λ s, (Ok a, s).
Definition m_lift {St A} (r : res A) : M St A := λ s, (r, s).
Definition m_bind {St A B} (m : M St A) (f : A → M St B) : M St B := λ s,
  match m s with
  | (Ok a, s') => f a s'
  | (Err e, s') => (Err e, s')
  | (Panic, s') => (Panic, s')
  end.
(** [match m.await { Ok(a) => .., Err(e) => .. }]: the caller inspects the
    result instead of propagating it. *)
Definition m_try {St A B} (m : M St A) (f : res A → M St B) : M St B := λ s,
  let (r, s') := m s in f r s'.

Declare Scope icefall_scope.
Delimit Scope icefall_scope with icefall.
#[global] Open Scope icefall_scope.
Notation "'let?' x := e 'in' k" := (res_bind e (λ x, k))
  (at level 10, x binder, e at level 100, k at level 200) : icefall_scope.
Notation "'let!' x := e 'in' k" := (m_bind e (λ x, k))
  (at level 10, x binder, e at level 100, k at level 200) : icefall_scope.
Notation "'match!' e 'as' x 'in' k" := (m_try e (λ x, k))
  (at level 10, x binder, e at level 100, k at level 200) : icefall_scope.

(** [for x in xs { acc = body(acc, x)?; }] in either monad. *)
Fixpoint res_fold {A B} (f : A → B → res A) (acc : A) (xs : list B) : res A :=
  match xs with
  | [] => Ok acc
  | x :: xs => let? acc' := f acc x in res_fold f acc' xs
  end.
(** A loop whose steps only fail in a given way fails in that way. *)
Definition fails_with {A} (P : error → Prop) (r : res A) : Prop :=
  match r with Ok _ => True | Err e => P e | Panic => False end.
Fixpoint m_fold {St A B} (f : A → B → M St A) (acc : A) (xs : list B) : M St A :=
  match xs with
  | [] => m_ret acc
  | x :: xs => let! acc' := f acc x in m_fold f acc' xs
  end.

Lemma res_fold_fails {A B} (P : error → Prop) (f : A → B → res A) acc xs :
  (∀ a x, fails_with P (f a x)) → fails_with P (res_fold f acc xs).
Proof.
  intros Hf. revert acc. induction xs as [|x xs IH]; intros acc; [done|]. simpl.
  specialize (Hf acc x). destruct (f acc x); simpl in *; auto.
Qed.
(** An invariant of a loop that succeeds. *)
Lemma res_fold_inv {A B} (P : A → Prop) (f : A → B → res A) acc xs r :
  (∀ a x a', x ∈ xs → P a → f a x = Ok a' → P a') → P acc → res_fold f acc xs = Ok r → P r.
Proof.
  revert acc. induction xs as [|x xs IH]; intros acc Hf Ha E; cbn [res_fold] in E; [by injection E as <-|].
  destruct (f acc x) as [a| |] eqn:Ex; [|done..]. cbn [res_bind] in E. apply (IH a); [|by eauto using list_elem_of_here|done].
  intros b y b' Hy. apply Hf. by apply list_elem_of_further.
Qed.
Lemma m_bind_ok {St A B} (m : M St A) (f : A → M St B) s a s' :
  m s = (Ok a, s') → m_bind m f s = f a s'.
Proof. unfold m_bind. by intros ->. Qed.
Lemma m_try_eq {St A B} (m : M St A) (f : res A → M St B) s r s' :
  m s = (r, s') → m_try m f s = f r s'.
Proof. unfold m_try. by intros ->. Qed.
Lemma bind_inv {St A B} (m : M St A) (f : A → M St B) s b s' :
  m_bind m f s = (Ok b, s') → ∃ a s1, m s = (Ok a, s1) ∧ f a s1 = (Ok b, s').
Proof. unfold m_bind. destruct (m s) as [[a|e|] s1]; [eauto|done..]. Qed.
Lemma try_inv {St A B} (m : M St A) (f : res A → M St B) s r s' :
  m_try m f s = (r, s') → ∃ a s1, m s = (a, s1) ∧ f a s1 = (r, s').
Proof. unfold m_try. destruct (m s) as [a s1]. eauto. Qed.
Lemma m_fold_app {St A B} (f : A → B → M St A) acc xs ys s :
  m_fold f acc (xs ++ ys) s = m_bind (m_fold f acc xs) (λ a, m_fold f a ys) s.
Proof.
  revert acc s. induction xs as [|x xs IH]; intros acc s; [done|].
  simpl. unfold m_bind in *. destruct (f acc x s) as [[a|e|] s']; [|done..].
  apply IH.
Qed.

(** ** Lists *)

(** [Vec::windows(2)]: the adjacent pairs of a list. *)
Fixpoint windows2 {A} (l : list A) : list (A * A) :=
  match l with
  | x :: ((y :: _) as t) => (x, y) :: windows2 t
  | _ => []
  end.

Lemma windows2_cons {A} (x y : A) l :
  windows2 (x :: y :: l) = (x, y) :: windows2 (y :: l).
Proof. done. Qed.

(** [iter().find(p)] and [iter().position(p)]. *)
Definition find_first {A} (p : A → bool) (l : list A) : option A := List.find p l.

(** Replacing the first element satisfying a predicate
    ([iter_mut().find(p)] followed by an assignment through the reference). *)
Fixpoint update_first {A} (p : A → bool) (f : A → A) (l : list A) : list A :=
  match l with
  | [] => []
  | x :: l => if p x then f x :: l else x :: update_first p f l
  end.

Lemma length_update_first {A} (p : A → bool) f l :
  length (update_first p f l) = length l.
Proof. induction l as [|x l IH]; simpl; [done|]. destruct (p x); simpl; lia. Qed.

Lemma update_first_none {A} (p : A → bool) f l :
  Forall (λ x, p x = false) l → update_first p f l = l.
Proof. induction 1 as [|x l Hx _ IH]; simpl; [done|]. by rewrite Hx, IH. Qed.

Lemma find_none_Forall {A} (p : A → bool) l :
  List.find p l = None ↔ Forall (λ x, p x = false) l.
Proof.
  induction l as [|x l IH]; simpl; [by split|].
  destruct (p x) eqn:E; split; [done| | |].
  - intros Hf. inversion Hf; congruence.
  - intros. constructor; [done|by apply IH].
  - intros Hf. apply IH. by inversion Hf.
Qed.

(** [iter().enumerate()]. *)
Fixpoint indexed_from {A} (i : Z) (l : list A) : list (Z * A) :=
  match l with [] => [] | x :: l => (i, x) :: indexed_from (i + 1) l end.
Definition indexed {A} (l : list A) : list (Z * A) := indexed_from 0 l.
Lemma indexed_from_lookup {A} (l : list A) i j :
  indexed_from i l !! j = (λ x, (i + Z.of_nat j, x)) <$> l !! j.
Proof.
  revert i j. induction l as [|x l IH]; intros i [|j]; cbn [indexed_from]; [done..| |].
  - simpl. do 2 f_equal. lia.
  - change (indexed_from (i + 1) l !! j = (λ x, (i + Z.of_nat (S j), x)) <$> l !! j).
    rewrite IH. destruct (l !! j); simpl; [|done]. do 2 f_equal. lia.
Qed.

Lemma filter_all {A} (P : A → Prop) `{∀ x, Decision (P x)} (l : list A) :
  (∀ x, x ∈ l → P x) → filter P l = l.
Proof.
  induction l as [|x l IH]; intros Hl; [done|]. rewrite filter_cons, decide_True by set_solver.
  f_equal. apply IH. set_solver.
Qed.

Lemma filter_nil_in {A} (P : A → Prop) `{∀ x, Decision (P x)} (l : list A) :
  (∀ x, x ∈ l → ¬ P x) → filter P l = [].
Proof.
  induction l as [|x l IH]; intros Hl; [done|]. rewrite filter_cons, decide_False by set_solver.
  apply IH. set_solver.
Qed.
Lemma filter_ext_in {A} (P Q : A → Prop) `{∀ x, Decision (P x), ∀ x, Decision (Q x)} (l : list A) :
  (∀ x, x ∈ l → P x ↔ Q x) → filter P l = filter Q l.
Proof.
  induction l as [|x l IH]; intros Hl; [done|]. rewrite !filter_cons, IH by set_solver.
  destruct (decide (P x)), (decide (Q x)); set_solver.
Qed.
Lemma filter_fmap {A B} (f : A → B) (P : B → Prop) `{∀ x, Decision (P x)} (l : list A) :
  filter P (f <$> l) = f <$> filter (λ x, P (f x)) l.
Proof.
  induction l as [|x l IH]; [done|]. rewrite fmap_cons, !filter_cons, IH. by case_decide.
Qed.

Lemma bind_ext_in {A B} (f g : A → list B) (l : list A) :
  (∀ x, x ∈ l → f x = g x) → l ≫= f = l ≫= g.
Proof.
  induction l as [|x l IH]; intros Hl; [done|]. cbn. rewrite Hl by apply list_elem_of_here.
  f_equal. apply IH. intros y Hy. apply Hl. by apply list_elem_of_further.
Qed.

(** A list is put together from its parts. *)
Lemma bind_filter_perm {A B} `{!EqDecision B} (f : A → B) (ks : list B) (l : list A) :
  NoDup ks → (∀ x, x ∈ l → f x ∈ ks) → ks ≫= (λ k, filter (λ x, f x = k) l) ≡ₚ l.
Proof.
  intros Hn. revert l. induction Hn as [|k ks Hk _ IH]; intros l Hl.
  { destruct l as [|x l]; [done|]. by destruct (not_elem_of_nil (f x)); apply Hl, list_elem_of_here. }
  change (filter (λ x, f x = k) l ++ (ks ≫= λ k, filter (λ x, f x = k) l) ≡ₚ l).
  etrans; [|apply (filter_app_complement (λ x, f x = k))]. f_equiv.
  rewrite (bind_ext_in _ (λ k', filter (λ x, f x = k') (filter (λ x, f x ≠ k) l))).
  - apply IH. intros x [Hx Hin]%list_elem_of_filter. by apply Hl, elem_of_cons in Hin as [?|?].
  - intros k' Hk'. rewrite list_filter_filter. apply filter_ext_in. intros x _.
    split; [|naive_solver]. intros E. split; [done|]. congruence.
Qed.

(** The library's search procedure: case analysis on every [match] and [if] of
    a hypothesis or of the goal, contradictions discharged. *)
Ltac case_res H :=
  repeat match type of H with
         | context [match ?x with _ => _ end] => destruct x eqn:?; simplify_eq/=
         | context [if ?x then _ else _] => destruct x eqn:?; simplify_eq/=
         end.
Ltac case_goal :=
  repeat match goal with
         | |- context [match ?x with _ => _ end] => destruct x eqn:?; simplify_eq/=
         | |- context [if ?x then _ else _] => destruct x eqn:?; simplify_eq/=
         end.
(** Boolean comparisons to propositions. *)
Ltac zbool :=
  repeat match goal with
         | H : (_ <=? _) = true |- _ => apply Z.leb_le in H
         | H : (_ <=? _) = false |- _ => apply Z.leb_gt in H
         | H : (_ <? _) = true |- _ => apply Z.ltb_lt in H
         | H : (_ <? _) = false |- _ => apply Z.ltb_ge in H
         | H : (_ =? _) = true |- _ => apply Z.eqb_eq in H
         | H : (_ =? _) = false |- _ => apply Z.eqb_neq in H
         | H : (_ && _)%bool = true |- _ => apply andb_true_iff in H as [? ?]
         | H : (_ || _)%bool = false |- _ => apply orb_false_iff in H as [? ?]
         | H : negb _ = true |- _ => apply negb_true_iff in H
         | H : negb _ = false |- _ => apply negb_false_iff in H
         | H : bool_decide _ = true |- _ => apply bool_decide_eq_true in H
         | H : bool_decide _ = false |- _ => apply bool_decide_eq_false in H
         end.

Create HintDb icefall.
#[export] Hint Rewrite @length_update_first @length_app @length_take @length_drop
  @length_replicate @length_fmap : icefall.
#[export] Hint Resolve wrap64_range wrap32_range : icefall.
