(* ===== verification/Bytes.v ===== *)
(** * Byte buffers: little-endian integers and bounds-checked slices

    [uN::to_le_bytes] / [from_le_bytes] are coqutil's [le_split] / [le_combine];
    [buf.get(a..b)] is [slice_get]. *)

From S2P Require Import Prelude.
From coqutil Require LittleEndianList.

Definition to_le_bytes (n : nat) (x : Z) : bytes := LittleEndianList.le_split n x.
Definition from_le_bytes (b : bytes) : Z := LittleEndianList.le_combine b.

Definition len {A} (l : list A) : Z := Z.of_nat (length l).

(** [l.get(a..b)]: [None] unless [a <= b <= l.len()]. *)
Definition slice_get {A} (l : list A) (a b : Z) : option (list A) :=
  if (0 <=? a) && (a <=? b) && (b <=? len l)
  then Some (take (Z.to_nat (b - a)) (drop (Z.to_nat a) l))
  else None.

(** [&l[a..b]]: panics out of range. *)
Definition slice {A} (l : list A) (a b : Z) : res (list A) := or_panic (slice_get l a b).

(** [buf[a..a + v.len()].copy_from_slice(v)]. *)
Definition splice (l : bytes) (a : nat) (v : bytes) : bytes :=
  take a l ++ v ++ drop (a + length v) l.

Lemma length_to_le_bytes n x : length (to_le_bytes n x) = n.
Proof. apply LittleEndianList.length_le_split. Qed.

Lemma from_to_le_bytes n x :
  from_le_bytes (to_le_bytes n x) = x mod 2 ^ (8 * Z.of_nat n).
Proof.
  unfold from_le_bytes, to_le_bytes.
  rewrite LittleEndianList.le_combine_split. f_equal. f_equal. lia.
Qed.

Lemma from_to_le_u64 x : in_u64 x → from_le_bytes (to_le_bytes 8 x) = x.
Proof. intros ?. rewrite from_to_le_bytes. by apply Z.mod_small. Qed.
Lemma from_to_le_u32 x : in_u32 x → from_le_bytes (to_le_bytes 4 x) = x.
Proof. intros ?. rewrite from_to_le_bytes. by apply Z.mod_small. Qed.

Lemma to_from_le_bytes n b : length b = n → to_le_bytes n (from_le_bytes b) = b.
Proof. intros <-. apply LittleEndianList.split_le_combine. Qed.

Lemma from_le_bytes_range n b :
  length b = n → 0 <= from_le_bytes b < 2 ^ (8 * Z.of_nat n).
Proof. intros <-. apply LittleEndianList.le_combine_bound. Qed.

Lemma to_le_bytes_inj n x y :
  0 <= x < 2 ^ (8 * Z.of_nat n) → 0 <= y < 2 ^ (8 * Z.of_nat n) →
  to_le_bytes n x = to_le_bytes n y → x = y.
Proof.
  intros Hx Hy E. apply (f_equal from_le_bytes) in E.
  rewrite !from_to_le_bytes in E. by rewrite !Z.mod_small in E.
Qed.

Lemma len_nonneg {A} (l : list A) : 0 <= len l.
Proof. unfold len. lia. Qed.
Lemma len_app {A} (l k : list A) : len (l ++ k) = len l + len k.
Proof. unfold len. rewrite length_app. lia. Qed.

Lemma slice_get_Some {A} (l : list A) a b r :
  slice_get l a b = Some r ↔
  0 <= a <= b ∧ b <= len l ∧ r = take (Z.to_nat (b - a)) (drop (Z.to_nat a) l).
Proof.
  unfold slice_get. case_goal; zbool; split; intros; destruct_and?; simplify_eq; auto.
  all: exfalso; repeat match goal with H : (_ && _)%bool = false |- _ =>
    apply andb_false_iff in H as [?|?] end; zbool; lia.
Qed.

(** A slice that lies exactly on one piece of a concatenation. *)
Lemma slice_get_app {A} (p m q : list A) a b :
  a = len p → b = len p + len m → slice_get (p ++ m ++ q) a b = Some m.
Proof.
  intros -> ->. apply slice_get_Some. rewrite !len_app. unfold len.
  split; [lia|]. split; [lia|].
  rewrite drop_app_length' by lia. by rewrite take_app_length' by lia.
Qed.

Lemma slice_get_length {A} (l : list A) a b r :
  slice_get l a b = Some r → len r = b - a.
Proof.
  intros (?&?&->)%slice_get_Some. unfold len in *.
  rewrite length_take, length_drop. lia.
Qed.

Lemma slice_get_range {A} (l : list A) a b :
  0 <= a <= b → b <= len l → ∃ r, slice_get l a b = Some r ∧ len r = b - a.
Proof.
  intros. exists (take (Z.to_nat (b - a)) (drop (Z.to_nat a) l)).
  assert (slice_get l a b = Some (take (Z.to_nat (b - a)) (drop (Z.to_nat a) l))) as E
    by (by apply slice_get_Some).
  split; [done|]. by apply slice_get_length in E.
Qed.

Lemma length_splice l a v : (a + length v ≤ length l)%nat → length (splice l a v) = length l.
Proof.
  intros. unfold splice. rewrite !length_app, length_take, length_drop. lia.
Qed.

(** Overwriting exactly the middle piece of a concatenation. *)
Lemma splice_app p m v q a :
  a = length p → length m = length v → splice (p ++ m ++ q) a v = p ++ v ++ q.
Proof.
  intros -> E. unfold splice. rewrite take_app_length.
  rewrite <-drop_drop, drop_app_length, <-E, drop_app_length. done.
Qed.

#[export] Hint Rewrite length_to_le_bytes : icefall.
#[export] Hint Resolve len_nonneg : icefall.

(** ** Lines *)

(** [data.split(|&b| b == c)]: always at least one piece. *)
Fixpoint split_bytes (c : byte) (l : bytes) : list bytes :=
  match l with
  | [] => [[]]
  | b :: l' =>
      if decide (b = c) then [] :: split_bytes c l'
      else match split_bytes c l' with
           | [] => [[b]]
           | p :: ps => (b :: p) :: ps
           end
  end.
Lemma split_bytes_clean c l : c ∉ l → split_bytes c l = [l].
Proof.
  induction l as [|b l IH]; [done|]. rewrite not_elem_of_cons. intros [? ?]. simpl.
  rewrite decide_False by done. by rewrite IH.
Qed.
Lemma split_bytes_app c p q :
  c ∉ p → split_bytes c (p ++ c :: q) = p :: split_bytes c q.
Proof.
  induction p as [|b p IH]; simpl; [by rewrite decide_True|].
  rewrite not_elem_of_cons. intros [? ?]. rewrite decide_False by done. by rewrite IH.
Qed.
Lemma split_bytes_lines c ls q :
  Forall (λ l, c ∉ l) ls → c ∉ q →
  split_bytes c (concat ((λ l, l ++ [c]) <$> ls) ++ q) = ls ++ [q].
Proof.
  intros Hls Hq. induction Hls as [|l ls Hl _ IH]; [by apply split_bytes_clean|].
  rewrite fmap_cons, concat_cons, <-app_assoc, <-app_assoc. simpl.
  rewrite split_bytes_app by done. f_equal. exact IH.
Qed.
