(* ===== verification/StableSort.v ===== *)
(** * The standard library's stable sort, and its specification

    [slice::sort_by_key] is a stable sort: its result is determined by its
    specification, so an insertion sort stands for it.  [partition_point] and
    [dedup] are here too. *)

From S2P Require Import Prelude.

Section sort_by_key.
Context {A : Type} (key : A → Z).

Fixpoint insert_by_key (x : A) (l : list A) : list A :=
  match l with
  | [] => [x]
  | y :: l' => if key x <=? key y then x :: l else y :: insert_by_key x l'
  end.
Definition sort_by_key (l : list A) : list A := foldr insert_by_key [] l.

Definition key_sorted (l : list A) : Prop := StronglySorted (λ x y, key x <= key y) l.

Lemma insert_by_key_perm x l : insert_by_key x l ≡ₚ x :: l.
Proof.
  induction l as [|y l IH]; simpl; [done|]. case_match; [done|].
  rewrite IH. constructor.
Qed.
Lemma sort_by_key_perm l : sort_by_key l ≡ₚ l.
Proof. induction l as [|x l IH]; simpl; [done|]. by rewrite insert_by_key_perm, IH. Qed.
Lemma length_sort_by_key l : length (sort_by_key l) = length l.
Proof. by rewrite sort_by_key_perm. Qed.
Lemma elem_of_sort_by_key x l : x ∈ sort_by_key l ↔ x ∈ l.
Proof. by rewrite sort_by_key_perm. Qed.

Lemma insert_by_key_sorted x l : key_sorted l → key_sorted (insert_by_key x l).
Proof.
  unfold key_sorted. induction 1 as [|y l Hl IH Hy]; simpl; [repeat constructor|].
  case_match; zbool.
  - constructor; [by constructor|]. constructor; [done|].
    eapply Forall_impl; [done|]. simpl. lia.
  - constructor; [done|]. rewrite insert_by_key_perm. constructor; [lia|done].
Qed.
Lemma sort_by_key_sorted l : key_sorted (sort_by_key l).
Proof.
  induction l as [|x l IH]; simpl; [constructor|]. by apply insert_by_key_sorted.
Qed.

Lemma insert_by_key_filter x l k :
  filter (λ y, key y = k) (insert_by_key x l) = filter (λ y, key y = k) (x :: l).
Proof.
  induction l as [|y l IH]; [done|]. simpl insert_by_key. case_match; zbool; [done|].
  rewrite filter_cons, IH, !filter_cons.
  repeat case_decide; try done; lia.
Qed.
(** Stability: elements of equal key keep their order. *)
Lemma sort_by_key_stable l k :
  filter (λ y, key y = k) (sort_by_key l) = filter (λ y, key y = k) l.
Proof.
  induction l as [|x l IH]; [done|]. simpl.
  rewrite insert_by_key_filter, !filter_cons, IH. done.
Qed.

(** A sorted list is left as it is. *)
Lemma insert_by_key_head x l :
  Forall (λ y, key x <= key y) l → insert_by_key x l = x :: l.
Proof. destruct 1; simpl; [done|]. case_match; [done|]. zbool. lia. Qed.
Lemma sort_by_key_id l : key_sorted l → sort_by_key l = l.
Proof.
  unfold key_sorted. induction 1 as [|x l Hl IH Hx]; simpl; [done|].
  rewrite IH. by apply insert_by_key_head.
Qed.
(** The one list of its elements in strictly increasing order of keys. *)
Lemma strictly_sorted_inj es x y :
  StronglySorted (λ x y, key x < key y) es → x ∈ es → y ∈ es → key x = key y → x = y.
Proof.
  induction 1 as [|z es _ IH Hz]; [by intros ?%elem_of_nil|].
  rewrite Forall_forall in Hz.
  intros [->|Hx]%elem_of_cons [->|Hy]%elem_of_cons E; [done| | |by apply IH].
  - apply Hz in Hy. lia.
  - apply Hz in Hx. lia.
Qed.
Lemma sort_by_key_unique l es :
  l ≡ₚ es → StronglySorted (λ x y, key x < key y) es → sort_by_key l = es.
Proof.
  intros Hp Hs. apply (StronglySorted_unique_strong (λ x y, key x <= key y)).
  - intros x y Hx Hy ??. rewrite elem_of_sort_by_key, Hp in Hx.
    eapply strictly_sorted_inj; [done..|lia].
  - apply sort_by_key_sorted.
  - clear Hp. induction Hs as [|x es Hs IH Hx]; constructor; [done|].
    eapply Forall_impl; [exact Hx|]. intros y Hy. simpl in *. lia.
  - by rewrite sort_by_key_perm.
Qed.
Lemma Forall_sort_by_key (P : A → Prop) l : Forall P (sort_by_key l) ↔ Forall P l.
Proof. by rewrite sort_by_key_perm. Qed.
End sort_by_key.

(** [l.partition_point(p)]: the length of the first part of a partitioned
    slice (its documented contract: all elements satisfying [p] come first). *)
Fixpoint partition_point {A} (p : A → bool) (l : list A) : nat :=
  match l with
  | [] => 0
  | x :: l => if p x then S (partition_point p l) else 0
  end%nat.

Lemma partition_point_le {A} (p : A → bool) l : (partition_point p l ≤ length l)%nat.
Proof. induction l; simpl; [done|]. case_match; lia. Qed.

Lemma partition_point_before {A} (p : A → bool) l i x :
  l !! i = Some x → (i < partition_point p l)%nat → p x = true.
Proof.
  revert i. induction l as [|y l IH]; intros [|i]; simpl; try done.
  - intros [= ->]. case_match; [done|lia].
  - intros. case_match; [|lia]. apply (IH i); [done|lia].
Qed.

Lemma partition_point_at {A} (p : A → bool) l x :
  l !! partition_point p l = Some x → p x = false.
Proof. induction l as [|y l IH]; simpl; [done|]. case_match; naive_solver. Qed.

(** On a slice sorted by [key], the point for [key <= k] splits it exactly. *)
Lemma partition_point_sorted {A} (key : A → Z) l k i x :
  key_sorted key l → l !! i = Some x →
  (i < partition_point (λ y, (key y <=? k)%Z) l)%nat ↔ key x <= k.
Proof.
  unfold key_sorted. intros Hl. revert i. induction Hl as [|y l Hl IH Hy]; intros i; [done|].
  destruct i as [|i]; simpl.
  - intros [= ->]. case_match; zbool; split; intros; lia.
  - intros Hi. case_match; zbool.
    + rewrite <-(IH i Hi). lia.
    + rewrite Forall_lookup in Hy. specialize (Hy _ _ Hi). split; intros; lia.
Qed.

(** [Vec::dedup]: consecutive duplicates removed. *)
Fixpoint dedup (l : list Z) : list Z :=
  match l with
  | x :: ((y :: _) as t) => if x =? y then dedup t else x :: dedup t
  | _ => l
  end.

Lemma dedup_cons2 x y l :
  dedup (x :: y :: l) = if x =? y then dedup (y :: l) else x :: dedup (y :: l).
Proof. done. Qed.
Lemma elem_of_dedup x l : x ∈ dedup l ↔ x ∈ l.
Proof.
  induction l as [|y [|z l] IH]; [done..|]. rewrite dedup_cons2. case_match; zbool.
  - subst. rewrite IH. set_solver.
  - rewrite !elem_of_cons, IH. set_solver.
Qed.
Lemma dedup_sorted_NoDup l : StronglySorted Z.le l → NoDup (dedup l).
Proof.
  induction 1 as [|y l Hl IH Hy]; [constructor|].
  destruct l as [|z l]; [apply NoDup_singleton|]. rewrite dedup_cons2. case_match; zbool; [done|].
  constructor; [|done]. rewrite elem_of_dedup. intros Hin.
  assert (z <= y); [|inversion Hy; lia].
  apply elem_of_cons in Hin as [->|Hin]; [lia|].
  inversion Hl; subst. rewrite Forall_forall in *. auto.
Qed.

#[export] Hint Rewrite @length_sort_by_key : icefall.
#[export] Hint Resolve sort_by_key_sorted : icefall.
