(* ===== verification/RowId.v ===== *)
(** * Row identifiers and deletion vectors

    [rowid.rs]: stable row-id segments and their allocation; [deletion.rs]: the
    per-fragment set of deleted row offsets, over the roaring bitmaps of the
    [roaring] crate, which are a parameter of the model. *)

From S2P Require Import Prelude.

Inductive RowIdSegment :=
  | Range (start count : u64)
  | Sorted (ids : list u64).

#[export] Instance RowIdSegment_eq_dec : EqDecision RowIdSegment.
Proof. solve_decision. Defined.

(** [allocate_range(&mut next, count)]: the segment and the bumped counter. *)
Definition allocate_range (next count : u64) : RowIdSegment * u64 :=
  (Range next count, wrap64 (next + count)).

(** [segment_ids]: the ids in iteration order; the range [start..start + count]
    is empty when the sum wraps below [start]. *)
Definition segment_ids (seg : RowIdSegment) : list u64 :=
  match seg with
  | Range start count => seqZ start (wrap64 (start + count) - start)
  | Sorted ids => ids
  end.

(** A segment whose ids are representable and listed in ascending order. *)
Definition segment_wf (seg : RowIdSegment) : Prop :=
  match seg with
  | Range start count => 0 <= start ∧ 0 <= count ∧ start + count < 2 ^ 64
  | Sorted ids => StronglySorted Z.lt ids ∧ Forall in_u64 ids
  end.

Lemma segment_ids_range start count :
  segment_wf (Range start count) → segment_ids (Range start count) = seqZ start count.
Proof.
  intros (?&?&?). simpl. rewrite wrap64_small by (unfold in_u64; lia). f_equal. lia.
Qed.

Lemma seqZ_strongly_sorted m n : StronglySorted Z.lt (seqZ m n).
Proof.
  destruct (decide (0 <= n)) as [Hn|]; [|rewrite seqZ_nil by lia; constructor].
  rewrite <-(Z2Nat.id n) by done. generalize (Z.to_nat n) as k. clear n Hn.
  intros k. revert m. induction k as [|k IH]; intros m; [constructor|].
  rewrite seqZ_cons by lia. constructor.
  - replace (Z.pred (Z.of_nat (S k))) with (Z.of_nat k) by lia. apply IH.
  - apply Forall_forall. intros x Hx%elem_of_seqZ. lia.
Qed.

(** Allocation: consecutive calls hand out the ids [next, next + count), in
    order, and never an id below the counter again. *)
Lemma allocate_range_ids next count seg next' :
  0 <= next → 0 <= count → next + count < 2 ^ 64 →
  allocate_range next count = (seg, next') →
  segment_ids seg = seqZ next count ∧ next' = next + count ∧ segment_wf seg.
Proof.
  unfold allocate_range. intros ??? [= <- <-].
  rewrite segment_ids_range by (simpl; lia). rewrite wrap64_small by (unfold in_u64; lia).
  repeat split; simpl; lia.
Qed.

(** Allocating for every fragment of a commit, as the writers do in a loop. *)
Fixpoint allocate_ranges (next : u64) (counts : list u64) : list RowIdSegment * u64 :=
  match counts with
  | [] => ([], next)
  | c :: cs =>
      let (seg, next1) := allocate_range next c in
      let (segs, next2) := allocate_ranges next1 cs in
      (seg :: segs, next2)
  end.

(** Ranges allocated one after another cover exactly the next row ids, without gap or
    overlap, as long as the counter does not reach 2^64. *)
Lemma allocate_ranges_ids next counts segs next' :
  0 <= next → Forall (λ c, 0 <= c) counts → next + foldr Z.add 0 counts < 2 ^ 64 →
  allocate_ranges next counts = (segs, next') →
  concat (segment_ids <$> segs) = seqZ next (foldr Z.add 0 counts)
  ∧ next' = next + foldr Z.add 0 counts.
Proof.
  intros Hn Hc. revert next segs next' Hn.
  induction Hc as [|c cs Hc Hcs IH]; intros next segs next' Hn Hlt; simpl.
  { intros [= <- <-]. rewrite seqZ_nil by lia. split; [done|lia]. }
  assert (0 <= foldr Z.add 0 cs) by (clear -Hcs; induction Hcs; simpl; lia).
  simpl in Hlt. rewrite wrap64_small by (unfold in_u64; lia).
  destruct (allocate_ranges (next + c) cs) as [segs1 n2] eqn:E2.
  intros [= <- <-]. apply IH in E2 as [E2 ->]; [|lia..].
  rewrite fmap_cons, concat_cons, segment_ids_range by (simpl; lia).
  rewrite E2, seqZ_app by lia. split; [done|lia].
Qed.

(** ** Deletion vectors *)

(** What the code relies on of [roaring::RoaringBitmap]: a finite set of [u32]
    values, iterated in ascending order, that survives its own serialization. *)
Class RoaringBitmap (B : Type) := {
  rb_empty : B;
  rb_insert : u32 → B → B;
  rb_len : B → u64;
  rb_contains : B → u32 → bool;
  rb_iter : B → list u32;
  rb_serialize : B → bytes;
  rb_deserialize : bytes → option B;
}.

Class RoaringBitmapLaws (B : Type) `{!RoaringBitmap B} := {
  rb_contains_empty x : rb_contains rb_empty x = false;
  rb_contains_insert x b y :
    rb_contains (rb_insert x b) y = (bool_decide (x = y) || rb_contains b y)%bool;
  rb_iter_sorted b : StronglySorted Z.lt (rb_iter b);
  rb_iter_contains b x : rb_contains b x = true ↔ x ∈ rb_iter b;
  rb_len_iter b : rb_len b = Z.of_nat (length (rb_iter b));
  rb_deserialize_serialize b : rb_deserialize (rb_serialize b) = Some b;
}.

Record DeletionVector (B : Type) := mkDV { dv_bitmap : B }.
Arguments mkDV {B} dv_bitmap.
Arguments dv_bitmap {B} d.

Section deletion_vector.
Context {B : Type} `{!RoaringBitmap B}.
Implicit Types dv : DeletionVector B.

Definition dv_default : DeletionVector B := mkDV rb_empty.
Definition union_offsets dv (offsets : list u32) : DeletionVector B :=
  foldl (λ d off, mkDV (rb_insert off (dv_bitmap d))) dv offsets.
Definition cardinality dv : u64 := rb_len (dv_bitmap dv).
Definition dv_contains dv (off : u32) : bool := rb_contains (dv_bitmap dv) off.
Definition dv_iter dv : list u32 := rb_iter (dv_bitmap dv).
Definition dv_serialize dv : bytes := rb_serialize (dv_bitmap dv).
Definition dv_deserialize (b : bytes) : res (DeletionVector B) :=
  let? bitmap := of_option (Io "roaring") (rb_deserialize b) in Ok (mkDV bitmap).

Context `{!RoaringBitmapLaws B}.

Lemma dv_contains_union dv offs x :
  dv_contains (union_offsets dv offs) x = (bool_decide (x ∈ offs) || dv_contains dv x)%bool.
Proof.
  unfold dv_contains, union_offsets. revert dv. induction offs as [|o offs IH]; intros dv;
    cbn [foldl].
  - by rewrite bool_decide_eq_false_2 by set_solver.
  - rewrite IH. cbn [dv_bitmap]. rewrite rb_contains_insert.
    repeat case_bool_decide; simpl; try done; set_solver.
Qed.
Lemma dv_contains_iter dv x : dv_contains dv x = true ↔ x ∈ dv_iter dv.
Proof. apply rb_iter_contains. Qed.
Lemma dv_iter_NoDup dv : NoDup (dv_iter dv).
Proof.
  unfold dv_iter. pose proof (rb_iter_sorted (dv_bitmap dv)) as Hs.
  induction Hs as [|x l Hl IH Hx]; constructor; [|done].
  intros Hin. rewrite Forall_forall in Hx. specialize (Hx _ Hin). lia.
Qed.
Lemma cardinality_iter dv : cardinality dv = Z.of_nat (length (dv_iter dv)).
Proof. apply rb_len_iter. Qed.
Lemma dv_iter_ext dv1 dv2 :
  (∀ x, dv_contains dv1 x = dv_contains dv2 x) → dv_iter dv1 ≡ₚ dv_iter dv2.
Proof.
  intros E. apply NoDup_Permutation; [apply dv_iter_NoDup..|].
  intros x. by rewrite <-!dv_contains_iter, E.
Qed.

(** Adding offsets to a deletion vector counts every offset once, duplicates and
    offsets already deleted included. *)
Lemma union_offsets_cardinality dv offs :
  cardinality (union_offsets dv offs)
  = Z.of_nat (size (list_to_set (C:=gset Z) offs ∪ list_to_set (dv_iter dv))).
Proof.
  rewrite cardinality_iter. f_equal.
  rewrite <-(size_list_to_set (C:=gset Z) (dv_iter (union_offsets dv offs)))
    by apply dv_iter_NoDup.
  f_equal. apply set_eq. intros x.
  rewrite elem_of_union, !elem_of_list_to_set, <-!dv_contains_iter, dv_contains_union.
  rewrite orb_true_iff, bool_decide_eq_true. done.
Qed.

Lemma dv_deserialize_serialize dv : dv_deserialize (dv_serialize dv) = Ok dv.
Proof.
  unfold dv_deserialize, dv_serialize. rewrite rb_deserialize_serialize.
  by destruct dv.
Qed.
End deletion_vector.
