(* ===== verification/RowIndex.v ===== *)
(** * The [_rowindex] file format and its readers

    [rowindex/writer.rs] and [rowindex/reader.rs]: the address segments, CRC32,
    [encode_idx] / [decode_idx], the predecessor search [lookup_in_base], the
    mmap reader and the LSM-style [AddressMap]. *)

From S2P Require Import Prelude Bytes StableSort.
From Stdlib Require Import Strings.Byte.

Record AddrSegment := mkSeg {
  start_row_id : u64;
  seg_fragment_id : u64;
  start_offset : u32;
  seg_len : u32;
}.

#[export] Instance AddrSegment_eq_dec : EqDecision AddrSegment.
Proof. solve_decision. Defined.

(** Field widths of [AddrSegment]. *)
Definition seg_in_range (s : AddrSegment) : Prop :=
  in_u64 (start_row_id s) ∧ in_u64 (seg_fragment_id s)
  ∧ in_u32 (start_offset s) ∧ in_u32 (seg_len s).

Definition MAGIC : bytes := [x4d; x52; x49; x58].
Definition FORMAT_VERSION : Z := 1.
Definition HEADER_LEN : Z := 32.
Definition SEGMENT_LEN : Z := 24.
Definition BLOCK_ENTRY_LEN : Z := 12.
Definition TRAILER_LEN : Z := 4.
Definition BLOCK_STRIDE : Z := 1024.

(** ** CRC32 *)

Definition crc_bit (c : u32) : u32 :=
  if negb (Z.land c 1 =? 0) then Z.lxor 0xEDB88320 (Z.shiftr c 1) else Z.shiftr c 1.
Definition make_crc_table : list u32 :=
  (λ i, Nat.iter 8 crc_bit i) <$> seqZ 0 256.

Definition crc_step (table : list u32) (crc : u32) (b : byte) : u32 :=
  let idx := Z.land (Z.lxor crc (Z.of_N (Byte.to_N b))) 0xFF in
  Z.lxor (Z.shiftr crc 8) (default 0 (table !! Z.to_nat idx)).
Definition crc32 (data : bytes) : u32 :=
  Z.lxor (foldl (crc_step make_crc_table) 0xFFFFFFFF data) 0xFFFFFFFF.

(** ** Encoder *)

Definition encode_segment (seg : AddrSegment) : bytes :=
  to_le_bytes 8 (start_row_id seg) ++ to_le_bytes 8 (seg_fragment_id seg)
  ++ to_le_bytes 4 (start_offset seg) ++ to_le_bytes 4 (seg_len seg).

(** One block-index entry per [BLOCK_STRIDE] segments: the loop
    [for (i, seg) in sorted.iter().enumerate()]. *)
Fixpoint encode_block_index (i : Z) (sorted : list AddrSegment) : bytes :=
  match sorted with
  | [] => []
  | seg :: rest =>
      (if i mod BLOCK_STRIDE =? 0
       then to_le_bytes 8 (start_row_id seg)
            ++ to_le_bytes 4 (wrap32 (HEADER_LEN + i * SEGMENT_LEN))
       else [])
      ++ encode_block_index (i + 1) rest
  end.

Definition encode_header (seg_count total_len block_index_offset : Z) : bytes :=
  MAGIC ++ to_le_bytes 2 FORMAT_VERSION ++ to_le_bytes 2 0
  ++ to_le_bytes 8 seg_count ++ to_le_bytes 8 total_len
  ++ to_le_bytes 8 block_index_offset.

Definition block_count_of (seg_count : Z) : Z :=
  if seg_count =? 0 then 0 else (seg_count - 1) / BLOCK_STRIDE + 1.

Definition encode_idx (segs : list AddrSegment) : bytes :=
  let sorted := sort_by_key start_row_id segs in
  let seg_count := len sorted in
  let block_index_offset := HEADER_LEN + seg_count * SEGMENT_LEN in
  let file_len_no_trailer := block_index_offset + block_count_of seg_count * BLOCK_ENTRY_LEN in
  let total_len := file_len_no_trailer + TRAILER_LEN in
  let body := encode_header seg_count total_len block_index_offset
              ++ concat (encode_segment <$> sorted)
              ++ encode_block_index 0 sorted in
  body ++ to_le_bytes 4 (crc32 body).

(** ** Decoder *)

Definition fmt_err (msg : string) : error := Other msg.

(** [u64::from_le_bytes(buf[a..b].try_into()..)]. *)
Definition le_field (buf : bytes) (a b : Z) : res Z :=
  let? s := slice buf a b in Ok (from_le_bytes s).

Definition decode_segment (buf : bytes) (off : Z) : res AddrSegment :=
  let? start := le_field buf off (off + 8) in
  let? frag := le_field buf (off + 8) (off + 16) in
  let? soff := le_field buf (off + 16) (off + 20) in
  let? sl := le_field buf (off + 20) (off + 24) in
  Ok (mkSeg start frag soff sl).

(** [for i in 0..seg_count]: [n] iterations from index [i] on. *)
Fixpoint decode_segments (buf : bytes) (i : Z) (n : nat) : res (list AddrSegment) :=
  match n with
  | O => Ok []
  | S n =>
      let? seg := decode_segment buf (HEADER_LEN + i * SEGMENT_LEN) in
      let? rest := decode_segments buf (i + 1) n in
      Ok (seg :: rest)
  end.

(** Allocating [Vec::with_capacity(n)] for [n] 24-byte segments panics when the
    size exceeds [isize::MAX]. *)
Definition with_capacity (n : Z) : res unit :=
  if n * SEGMENT_LEN <=? 2 ^ 63 - 1 then Ok tt else Panic.

Definition decode_idx (buf : bytes) : res (list AddrSegment) :=
  if len buf <? HEADER_LEN + TRAILER_LEN
  then Err (fmt_err "rowindex: buffer too short for header+trailer") else
  let? magic := slice buf 0 4 in
  if negb (bool_decide (magic = MAGIC))
  then Err (fmt_err "rowindex: bad magic bytes") else
  let? body := slice buf 0 (len buf - TRAILER_LEN) in
  let? stored_crc := le_field buf (len buf - TRAILER_LEN) (len buf) in
  if negb (stored_crc =? crc32 body)
  then Err (fmt_err "rowindex: CRC32 mismatch") else
  let? _version := le_field buf 4 6 in
  let? seg_count := le_field buf 8 16 in
  let? file_len := le_field buf 16 24 in
  let? block_index_offset := le_field buf 24 32 in
  if negb (len buf =? file_len)
  then Err (fmt_err "rowindex: buffer length != recorded file_length") else
  let expected_seg_end := wrap64 (HEADER_LEN + wrap64 (seg_count * SEGMENT_LEN)) in
  if negb (block_index_offset =? expected_seg_end)
  then Err (fmt_err "rowindex: block_index_offset is inconsistent with segment count") else
  if len buf <? expected_seg_end
  then Err (fmt_err "rowindex: buffer truncated within segments region") else
  let? _ := with_capacity seg_count in
  decode_segments buf 0 (Z.to_nat seg_count).

(** ** Lookup *)

Definition lookup_in_base (segments : list AddrSegment) (row_id : u64) : option (u64 * u32) :=
  let idx := partition_point (λ s, start_row_id s <=? row_id) segments in
  match idx with
  | O => None
  | S i =>
      match segments !! i with
      | None => None
      | Some seg =>
          if row_id <? saturating_add64 (start_row_id seg) (seg_len seg)
          then Some (seg_fragment_id seg,
                     wrap32 (start_offset seg + wrap32 (row_id - start_row_id seg)))
          else None
      end
  end.

(** ** The mmap reader *)

Record MmapBase := mkMmap { mmap : bytes; seg_count : usize }.

Definition HDR_OFF_SEG_COUNT : Z := 8.

Definition MmapBase_open (file : bytes) : res MmapBase :=
  if len file <? HEADER_LEN
  then Err (Other "rowindex: file too short for header") else
  let? n := le_field file HDR_OFF_SEG_COUNT (HDR_OFF_SEG_COUNT + 8) in
  Ok (mkMmap file n).

Definition seg_start_row_id (b : MmapBase) (i : Z) : res u64 :=
  let off := HEADER_LEN + i * SEGMENT_LEN in le_field (mmap b) off (off + 8).

Definition decode_seg (b : MmapBase) (i : Z) : res AddrSegment :=
  decode_segment (mmap b) (HEADER_LEN + i * SEGMENT_LEN).

(** [while lo + 1 < hi]: the distance halves at every turn, so 64 turns are
    enough for a 64-bit [hi]; running out is a panic, which the theorems below
    exclude. *)
Fixpoint mmap_search (fuel : nat) (b : MmapBase) (row_id lo hi : Z) : res Z :=
  if lo + 1 <? hi then
    match fuel with
    | O => Panic
    | S fuel =>
        let mid := lo + (hi - lo) / 2 in
        let? s := seg_start_row_id b mid in
        if s <=? row_id then mmap_search fuel b row_id mid hi
        else mmap_search fuel b row_id lo mid
    end
  else Ok lo.

Definition MmapBase_lookup (b : MmapBase) (row_id : u64) : res (option (u64 * u32)) :=
  if seg_count b =? 0 then Ok None else
  let? lo := mmap_search 64 b row_id 0 (seg_count b) in
  let? s := seg_start_row_id b lo in
  if row_id <? s then Ok None else
  let? seg := decode_seg b lo in
  Ok (lookup_in_base [seg] row_id).

(** ** AddressMap: base plus deltas, newest delta first *)

Record AddressMap := mkAddressMap {
  am_base : list AddrSegment;
  am_deltas : list (list AddrSegment);
}.

Definition from_parts (base : list AddrSegment) (deltas : list (list AddrSegment)) : AddressMap :=
  mkAddressMap base deltas.

Fixpoint first_hit (layers : list (list AddrSegment)) (row_id : u64) : option (u64 * u32) :=
  match layers with
  | [] => None
  | d :: rest => match lookup_in_base d row_id with
                 | Some r => Some r
                 | None => first_hit rest row_id
                 end
  end.
Definition AddressMap_lookup (am : AddressMap) (row_id : u64) : option (u64 * u32) :=
  match first_hit (reverse (am_deltas am)) row_id with
  | Some r => Some r
  | None => lookup_in_base (am_base am) row_id
  end.

(** ** Fields of a concatenation *)

Lemma le_field_app p n x q a b :
  a = len p → b = len p + Z.of_nat n → 0 <= x < 2 ^ (8 * Z.of_nat n) →
  le_field (p ++ to_le_bytes n x ++ q) a b = Ok x.
Proof.
  intros -> -> Hx. unfold le_field, slice.
  erewrite (slice_get_app p (to_le_bytes n x) q) by
    (try done; unfold len; by rewrite length_to_le_bytes). simpl.
  by rewrite from_to_le_bytes, Z.mod_small.
Qed.

Lemma le_field_ok buf a b :
  0 <= a <= b → b <= len buf → ∃ x, le_field buf a b = Ok x.
Proof.
  intros. unfold le_field, slice. destruct (slice_get_range buf a b) as (r&->&?); [done..|].
  simpl. eauto.
Qed.

Lemma len_to_le_bytes n x : len (to_le_bytes n x) = Z.of_nat n.
Proof. unfold len. by rewrite length_to_le_bytes. Qed.

Lemma length_encode_segment s : length (encode_segment s) = 24%nat.
Proof. unfold encode_segment. rewrite !length_app, !length_to_le_bytes. done. Qed.

Lemma len_encode_segments l : len (concat (encode_segment <$> l)) = len l * SEGMENT_LEN.
Proof.
  unfold len. induction l as [|s l IH]; [done|].
  rewrite fmap_cons, concat_cons, length_app, length_encode_segment. simpl length.
  unfold SEGMENT_LEN in *. lia.
Qed.

Lemma len_encode_header n t b : len (encode_header n t b) = HEADER_LEN.
Proof. unfold encode_header. rewrite !len_app, !len_to_le_bytes. done. Qed.

Lemma decode_segment_app p s q off :
  off = len p → seg_in_range s → decode_segment (p ++ encode_segment s ++ q) off = Ok s.
Proof.
  intros -> (H1&H2&H3&H4). unfold decode_segment, encode_segment. rewrite <-!app_assoc.
  rewrite (le_field_app p 8) by (try done;lia). cbn [res_bind].
  set (b0 := to_le_bytes 8 (start_row_id s)).
  rewrite (app_assoc p b0), (le_field_app (p ++ b0) 8)
    by (try done; unfold b0; rewrite len_app, len_to_le_bytes;lia). cbn [res_bind].
  set (b1 := to_le_bytes 8 (seg_fragment_id s)).
  rewrite (app_assoc _ b1), (le_field_app ((p ++ b0) ++ b1) 4)
    by (try done; unfold b0, b1; rewrite !len_app, !len_to_le_bytes;lia). cbn [res_bind].
  set (b2 := to_le_bytes 4 (start_offset s)).
  rewrite (app_assoc _ b2), (le_field_app (((p ++ b0) ++ b1) ++ b2) 4)
    by (try done; unfold b0, b1, b2; rewrite !len_app, !len_to_le_bytes;lia). cbn [res_bind].
  by destruct s.
Qed.

Lemma decode_segments_app p l q i :
  HEADER_LEN + i * SEGMENT_LEN = len p → Forall seg_in_range l →
  decode_segments (p ++ concat (encode_segment <$> l) ++ q) i (length l) = Ok l.
Proof.
  intros Hp Hl. revert p i Hp. induction Hl as [|s l Hs Hl IH]; intros p i Hp; [done|].
  rewrite fmap_cons, concat_cons, <-app_assoc. simpl length. cbn [decode_segments].
  rewrite decode_segment_app by done. cbn [res_bind].
  rewrite app_assoc, IH; [done|].
  rewrite len_app. unfold len at 2. rewrite length_encode_segment, <-Hp.
  unfold SEGMENT_LEN. lia.
Qed.

Lemma len_encode_block_index l i :
  0 <= i →
  len (encode_block_index i l)
  = BLOCK_ENTRY_LEN * ((i + len l + BLOCK_STRIDE - 1) / BLOCK_STRIDE
                       - (i + BLOCK_STRIDE - 1) / BLOCK_STRIDE).
Proof.
  unfold BLOCK_STRIDE, BLOCK_ENTRY_LEN. revert i.
  induction l as [|s l IH]; intros i Hi; cbn [encode_block_index].
  { unfold len. simpl length. rewrite Z.add_0_r. lia. }
  rewrite len_app, IH by lia.
  replace (i + len (s :: l)) with (i + 1 + len l) by (unfold len; simpl length; lia).
  unfold BLOCK_STRIDE. case_match; zbool.
  - rewrite len_app, !len_to_le_bytes.
    assert ((i + 1 + 1024 - 1) / 1024 = (i + 1024 - 1) / 1024 + 1) by (Z.to_euclidean_division_equations; lia).
    lia.
  - unfold len at 1. simpl length.
    assert ((i + 1 + 1024 - 1) / 1024 = (i + 1024 - 1) / 1024) by (Z.to_euclidean_division_equations; lia).
    lia.
Qed.

Lemma len_block_index_of l :
  len (encode_block_index 0 l) = block_count_of (len l) * BLOCK_ENTRY_LEN.
Proof.
  rewrite len_encode_block_index by lia. unfold block_count_of.
  pose proof (len_nonneg l). unfold BLOCK_STRIDE, BLOCK_ENTRY_LEN. case_match; zbool.
  - replace (len l) with 0 by done. done.
  - assert ((0 + len l + 1024 - 1) / 1024 = (len l - 1) / 1024 + 1)
      by (Z.to_euclidean_division_equations; lia).
    change ((0 + 1024 - 1) / 1024) with 0. lia.
Qed.

Lemma block_count_of_bounds n : 0 <= n → 0 <= block_count_of n <= n.
Proof.
  intros. unfold block_count_of, BLOCK_STRIDE. case_match; zbool; [lia|].
  Z.to_euclidean_division_equations. lia.
Qed.

(** ** CRC32 stays in 32 bits *)

Lemma lxor_range n x y :
  0 <= n → 0 <= x < 2 ^ n → 0 <= y < 2 ^ n → 0 <= Z.lxor x y < 2 ^ n.
Proof.
  intros Hn Hx Hy. split; [apply Z.lxor_nonneg; lia|].
  rewrite <-(Z.mod_small x (2 ^ n)), <-(Z.mod_small y (2 ^ n)) by done.
  rewrite <-!Z.land_ones by done.
  assert (Z.lxor (Z.land x (Z.ones n)) (Z.land y (Z.ones n))
          = Z.land (Z.lxor x y) (Z.ones n)) as ->.
  { apply Z.bits_inj'. intros i Hi. rewrite Z.lxor_spec, !Z.land_spec, Z.lxor_spec.
    by destruct (Z.testbit x i), (Z.testbit y i), (Z.testbit (Z.ones n) i). }
  rewrite Z.land_ones by done. apply Z.mod_pos_bound. lia.
Qed.

Lemma crc_table_range : Forall in_u32 make_crc_table.
Proof. apply (bool_decide_unpack _). vm_compute. done. Qed.

Lemma crc_table_lookup i :
  0 <= i < 256 → ∃ t, make_crc_table !! Z.to_nat i = Some t ∧ in_u32 t.
Proof.
  intros Hi. destruct (lookup_lt_is_Some_2 make_crc_table (Z.to_nat i)) as [t Ht].
  { unfold make_crc_table. rewrite length_fmap, length_seqZ. lia. }
  exists t. split; [done|]. pose proof crc_table_range as Hr. rewrite Forall_lookup in Hr. eauto.
Qed.

Lemma byte_range b : 0 <= Z.of_N (Byte.to_N b) < 256.
Proof. pose proof (Byte.to_N_bounded b). lia. Qed.

Lemma crc_index_range c b : 0 <= Z.land (Z.lxor c b) 255 < 256.
Proof.
  change 255 with (Z.ones 8). rewrite Z.land_ones by lia. apply Z.mod_pos_bound. lia.
Qed.

Lemma crc_step_eq c b :
  ∃ t, make_crc_table !! Z.to_nat (Z.land (Z.lxor c (Z.of_N (Byte.to_N b))) 255) = Some t
       ∧ in_u32 t ∧ crc_step make_crc_table c b = Z.lxor (Z.shiftr c 8) t.
Proof.
  destruct (crc_table_lookup (Z.land (Z.lxor c (Z.of_N (Byte.to_N b))) 255)) as (t&Ht&?).
  { apply crc_index_range. }
  exists t. unfold crc_step. by rewrite Ht.
Qed.

Lemma shiftr8_range c : in_u32 c → 0 <= Z.shiftr c 8 < 2 ^ 24.
Proof.
  unfold in_u32. intros. rewrite Z.shiftr_div_pow2 by lia.
  split; [apply Z.div_pos; lia|]. apply Z.div_lt_upper_bound; lia.
Qed.

Lemma crc_step_range c b : in_u32 c → in_u32 (crc_step make_crc_table c b).
Proof.
  intros Hc. destruct (crc_step_eq c b) as (t&_&Ht&->).
  pose proof (shiftr8_range c Hc). apply lxor_range; unfold in_u32 in *; lia.
Qed.

Lemma crc_fold_range d c :
  in_u32 c → in_u32 (foldl (crc_step make_crc_table) c d).
Proof. revert c. induction d; intros; simpl; [done|]. auto using crc_step_range. Qed.

Lemma crc32_range d : in_u32 (crc32 d).
Proof.
  apply lxor_range; [lia| |lia]. apply crc_fold_range. unfold in_u32. lia.
Qed.

(** ** Round trip *)

(** The whole file fits in [isize::MAX] bytes, as any Rust buffer does. *)
Definition idx_fits (segs : list AddrSegment) : Prop := 36 + 36 * len segs < 2 ^ 63.

Definition encode_body (sorted : list AddrSegment) : bytes :=
  let n := len sorted in
  let off := HEADER_LEN + n * SEGMENT_LEN in
  encode_header n (off + block_count_of n * BLOCK_ENTRY_LEN + TRAILER_LEN) off
  ++ concat (encode_segment <$> sorted) ++ encode_block_index 0 sorted.

Lemma encode_idx_eq segs :
  encode_idx segs = encode_body (sort_by_key start_row_id segs)
    ++ to_le_bytes 4 (crc32 (encode_body (sort_by_key start_row_id segs))).
Proof. done. Qed.

Lemma len_encode_body l :
  len (encode_body l)
  = HEADER_LEN + len l * SEGMENT_LEN + block_count_of (len l) * BLOCK_ENTRY_LEN.
Proof.
  unfold encode_body.
  rewrite !len_app, len_encode_header, len_encode_segments, len_block_index_of. lia.
Qed.

Lemma slice_app_l {A} (p q : list A) n : n = len p → slice (p ++ q) 0 n = Ok p.
Proof.
  intros ->. unfold slice.
  pose proof (slice_get_app [] p q 0 (len p)) as E. rewrite app_nil_l in E.
  by rewrite E by (unfold len; simpl; lia).
Qed.

(** The header fields read back from any buffer that starts with a header. *)
Lemma header_fields n t o rest :
  in_u64 n → in_u64 t → in_u64 o →
  let buf := encode_header n t o ++ rest in
  slice buf 0 4 = Ok MAGIC ∧ le_field buf 4 6 = Ok FORMAT_VERSION
  ∧ le_field buf 8 16 = Ok n ∧ le_field buf 16 24 = Ok t ∧ le_field buf 24 32 = Ok o.
Proof.
  intros Hn Ht Ho buf. unfold buf, encode_header. rewrite <-!app_assoc.
  set (v := to_le_bytes 2 FORMAT_VERSION). set (r := to_le_bytes 2 0).
  set (bn := to_le_bytes 8 n). set (bt := to_le_bytes 8 t).
  assert (len MAGIC = 4 ∧ len v = 2 ∧ len r = 2 ∧ len bn = 8 ∧ len bt = 8)
    as (L1&L2&L3&L4&L5) by (unfold v, r, bn, bt; rewrite !len_to_le_bytes; done).
  split; [by apply slice_app_l|].
  split; [apply (le_field_app MAGIC 2); unfold FORMAT_VERSION; lia|].
  split; [rewrite (app_assoc MAGIC), (app_assoc _ r); apply (le_field_app ((MAGIC ++ v) ++ r) 8);
          unfold in_u64 in *; rewrite ?len_app; lia|].
  split.
  - rewrite (app_assoc MAGIC), (app_assoc _ r), (app_assoc _ bn).
    apply (le_field_app (((MAGIC ++ v) ++ r) ++ bn) 8); unfold in_u64 in *; rewrite ?len_app; lia.
  - rewrite (app_assoc MAGIC), (app_assoc _ r), (app_assoc _ bn), (app_assoc _ bt).
    apply (le_field_app ((((MAGIC ++ v) ++ r) ++ bn) ++ bt) 8);
      unfold in_u64 in *; rewrite ?len_app; lia.
Qed.

Lemma decode_encode segs :
  Forall seg_in_range segs → idx_fits segs →
  decode_idx (encode_idx segs) = Ok (sort_by_key start_row_id segs).
Proof.
  intros Hr Hfit. rewrite encode_idx_eq.
  set (l := sort_by_key start_row_id segs).
  assert (len l = len segs) as Hl by (unfold len, l; by rewrite length_sort_by_key).
  assert (Forall seg_in_range l) as Hrl by (by apply Forall_sort_by_key).
  pose proof (len_nonneg l) as Hn. unfold idx_fits in Hfit. rewrite <-Hl in Hfit.
  pose proof (block_count_of_bounds (len l) Hn) as Hb.
  pose proof (len_encode_body l) as Hbody. set (body := encode_body l) in *.
  set (crc := to_le_bytes 4 (crc32 body)).
  assert (len crc = 4) as Hcrc by apply len_to_le_bytes.
  unfold HEADER_LEN, SEGMENT_LEN, BLOCK_ENTRY_LEN, TRAILER_LEN in *.
  destruct (header_fields (len l) (32 + len l * 24 + block_count_of (len l) * 12 + 4)
              (32 + len l * 24)
              ((concat (encode_segment <$> l) ++ encode_block_index 0 l) ++ crc))
    as (F1&F2&F3&F4&F5); [unfold in_u64; lia..|].
  rewrite app_assoc in F1, F2, F3, F4, F5. change (_ ++ _ ++ _) with body in F1 at 1.
  change (encode_header _ _ _ ++ _ ++ _) with body in F2, F3, F4, F5.
  unfold decode_idx, HEADER_LEN, SEGMENT_LEN, TRAILER_LEN.
  rewrite len_app, Hcrc.
  destruct (Z.ltb_spec (len body + 4) (32 + 4)); [lia|].
  rewrite F1. cbn [res_bind]. rewrite bool_decide_eq_true_2 by done. cbn [negb].
  rewrite slice_app_l by lia. cbn [res_bind].
  assert (le_field (body ++ crc) (len body + 4 - 4) (len body + 4) = Ok (crc32 body)) as ->.
  { rewrite <-(app_nil_r crc). apply (le_field_app body 4); [lia|lia|]. apply crc32_range. }
  cbn [res_bind]. rewrite Z.eqb_refl. cbn [negb].
  rewrite F2, F3, F4, F5. cbn [res_bind].
  rewrite (wrap64_small (len l * 24)) by (unfold in_u64; lia).
  rewrite wrap64_small by (unfold in_u64; lia).
  destruct (Z.eqb_spec (len body + 4) (32 + len l * 24 + block_count_of (len l) * 12 + 4)); [|lia].
  cbn [negb]. rewrite Z.eqb_refl. cbn [negb].
  destruct (Z.ltb_spec (len body + 4) (32 + len l * 24)); [lia|].
  unfold with_capacity, SEGMENT_LEN. destruct (Z.leb_spec (len l * 24) (2 ^ 63 - 1)); [|lia].
  cbn [res_bind]. replace (Z.to_nat (len l)) with (length l) by (unfold len; lia).
  unfold body, encode_body. rewrite <-!app_assoc.
  apply decode_segments_app; [|done]. rewrite len_encode_header. unfold HEADER_LEN. lia.
Qed.

(** ** Single-byte corruption is detected *)

Lemma crc_table_high_bytes :
  NoDup ((λ t, Z.shiftr t 24) <$> make_crc_table).
Proof. apply (bool_decide_unpack _). vm_compute. done. Qed.

Lemma crc_table_inj i j t u :
  make_crc_table !! i = Some t → make_crc_table !! j = Some u →
  Z.shiftr t 24 = Z.shiftr u 24 → i = j.
Proof.
  intros Hi Hj E. pose proof crc_table_high_bytes as Hnd.
  rewrite NoDup_alt in Hnd. apply (Hnd i j (Z.shiftr t 24)); rewrite list_lookup_fmap.
  - by rewrite Hi.
  - rewrite Hj. simpl. by rewrite E.
Qed.

Lemma shiftr_high x : in_u32 x → Z.shiftr (Z.shiftr x 8) 24 = 0.
Proof.
  intros Hx. pose proof (shiftr8_range x Hx). rewrite Z.shiftr_div_pow2 by lia.
  apply Z.div_small. lia.
Qed.

(** The update step determines both the table index and the rest of the state. *)
Lemma crc_step_inv c b c' b' :
  in_u32 c → in_u32 c' →
  crc_step make_crc_table c b = crc_step make_crc_table c' b' →
  Z.shiftr c 8 = Z.shiftr c' 8
  ∧ Z.land (Z.lxor c (Z.of_N (Byte.to_N b))) 255
    = Z.land (Z.lxor c' (Z.of_N (Byte.to_N b'))) 255.
Proof.
  intros Hc Hc'. destruct (crc_step_eq c b) as (t&Ht&_&->).
  destruct (crc_step_eq c' b') as (u&Hu&_&->). intros E.
  assert (Z.shiftr t 24 = Z.shiftr u 24) as Eh.
  { apply (f_equal (λ x, Z.shiftr x 24)) in E. rewrite !Z.shiftr_lxor in E.
    by rewrite !shiftr_high, !Z.lxor_0_l in E by done. }
  pose proof (crc_table_inj _ _ _ _ Ht Hu Eh) as Ei.
  pose proof (crc_index_range c (Z.of_N (Byte.to_N b))).
  pose proof (crc_index_range c' (Z.of_N (Byte.to_N b'))).
  assert (t = u) as -> by (rewrite Ei in Ht; congruence).
  split; [|lia].
  apply (f_equal (λ x, Z.lxor x u)) in E.
  by rewrite !Z.lxor_assoc, Z.lxor_nilpotent, !Z.lxor_0_r in E.
Qed.

Lemma byte_to_Z_inj b b' : Z.of_N (Byte.to_N b) = Z.of_N (Byte.to_N b') → b = b'.
Proof.
  intros E%N2Z.inj. apply (f_equal Byte.of_N) in E. rewrite !Byte.of_to_N in E. congruence.
Qed.

Lemma land_lxor_cancel_l c x y :
  Z.land (Z.lxor c x) 255 = Z.land (Z.lxor c y) 255 → Z.land x 255 = Z.land y 255.
Proof.
  intros E. apply (f_equal (Z.lxor (Z.land c 255))) in E.
  assert (∀ z, Z.lxor (Z.land c 255) (Z.land (Z.lxor c z) 255) = Z.land z 255) as Hx.
  { intros z. apply Z.bits_inj'. intros i Hi. rewrite Z.lxor_spec, !Z.land_spec, Z.lxor_spec.
    by destruct (Z.testbit c i), (Z.testbit z i), (Z.testbit 255 i). }
  by rewrite !Hx in E.
Qed.

Lemma land_255 x : Z.land x 255 = x mod 256.
Proof. change 255 with (Z.ones 8). by rewrite Z.land_ones. Qed.

Lemma crc_step_byte_inj c b b' :
  in_u32 c → crc_step make_crc_table c b = crc_step make_crc_table c b' → b = b'.
Proof.
  intros Hc [_ E]%crc_step_inv; [|done..]. apply land_lxor_cancel_l in E.
  rewrite !land_255, !Z.mod_small in E by apply byte_range. by apply byte_to_Z_inj.
Qed.

Lemma crc_step_state_inj c c' b :
  in_u32 c → in_u32 c' →
  crc_step make_crc_table c b = crc_step make_crc_table c' b → c = c'.
Proof.
  intros Hc Hc' [E1 E2]%crc_step_inv; [|done..].
  rewrite !(Z.lxor_comm _ (Z.of_N _)) in E2. apply land_lxor_cancel_l in E2.
  rewrite !land_255 in E2. rewrite !Z.shiftr_div_pow2 in E1 by lia. change (2 ^ 8) with 256 in E1.
  rewrite (Z.div_mod c 256), (Z.div_mod c' 256) by lia. congruence.
Qed.

Lemma crc_fold_state_inj d c c' :
  in_u32 c → in_u32 c' →
  foldl (crc_step make_crc_table) c d = foldl (crc_step make_crc_table) c' d → c = c'.
Proof.
  revert c c'. induction d as [|b d IH]; intros c c' Hc Hc'; simpl; [done|].
  intros E%IH; [|by apply crc_step_range..]. by eapply crc_step_state_inj.
Qed.

Lemma crc32_single_byte p b b' q :
  crc32 (p ++ b :: q) = crc32 (p ++ b' :: q) → b = b'.
Proof.
  unfold crc32. intros E. apply (f_equal (λ x, Z.lxor x 0xFFFFFFFF)) in E.
  rewrite !Z.lxor_assoc, Z.lxor_nilpotent, !Z.lxor_0_r, !foldl_app in E. simpl in E.
  assert (in_u32 (foldl (crc_step make_crc_table) 0xFFFFFFFF p)) as Hp
    by (apply crc_fold_range; unfold in_u32; lia).
  apply crc_fold_state_inj in E; [|by apply crc_step_range..].
  by eapply crc_step_byte_inj.
Qed.

(** Buffers that differ in exactly one byte. *)
Lemma insert_split (l : bytes) i b x :
  l !! i = Some x → ∃ p q, l = p ++ x :: q ∧ <[i:=b]> l = p ++ b :: q ∧ length p = i.
Proof.
  intros Hi. exists (take i l), (drop (S i) l).
  assert (i < length l)%nat by (by eapply lookup_lt_Some).
  split; [by rewrite take_drop_middle|]. split; [by apply insert_take_drop|].
  rewrite length_take. lia.
Qed.

(** A body whose CRC trailer does not match is rejected with an error. *)
Lemma decode_idx_bad_crc body trailer :
  length trailer = 4%nat → from_le_bytes trailer ≠ crc32 body →
  ∃ e, decode_idx (body ++ trailer) = Err e.
Proof.
  intros Ht Hne. unfold decode_idx. rewrite len_app.
  assert (len trailer = 4) as Hlt by (unfold len; lia). rewrite Hlt.
  unfold TRAILER_LEN, HEADER_LEN. case_match; [eauto|]. zbool.
  destruct (slice_get_range (body ++ trailer) 0 4) as (m&Em&_); [lia|rewrite len_app; lia|].
  unfold slice at 1. rewrite Em. cbn [or_panic res_bind]. case_match; [eauto|].
  rewrite slice_app_l by lia. cbn [res_bind]. unfold le_field at 1, slice at 1.
  pose proof (slice_get_app body trailer [] (len body + 4 - 4) (len body + 4)) as E.
  rewrite app_nil_r in E. rewrite E by (unfold len; lia). cbn [or_panic res_bind].
  destruct (Z.eqb_spec (from_le_bytes trailer) (crc32 body)); [done|]. eauto.
Qed.

Lemma decode_idx_short buf : len buf < 36 → ∃ e, decode_idx buf = Err e.
Proof.
  intros. unfold decode_idx, HEADER_LEN, TRAILER_LEN.
  destruct (Z.ltb_spec (len buf) (32 + 4)); [eauto|lia].
Qed.

(** Decoding the encoding of segments yields them sorted by first row id. *)
Theorem decode_encode_idx segs :
  Forall seg_in_range segs → idx_fits segs →
  decode_idx (encode_idx segs) = Ok (sort_by_key start_row_id segs).
Proof. apply decode_encode. Qed.

(** C36: Changing any single byte of an encoded index, checksum included, makes decoding
    fail with an error. *)
Theorem decode_idx_detects_corruption segs i x b :
  encode_idx segs !! i = Some x → b ≠ x →
  ∃ e, decode_idx (<[i:=b]> (encode_idx segs)) = Err e.
Proof.
  rewrite encode_idx_eq. set (body := encode_body _). intros Hi Hb.
  assert (from_le_bytes (to_le_bytes 4 (crc32 body)) = crc32 body) as Hcrc
    by (apply from_to_le_u32, crc32_range).
  set (t := to_le_bytes 4 (crc32 body)) in *.
  assert (length t = 4%nat) as Ht by apply length_to_le_bytes.
  destruct (decide (i < length body)%nat) as [Hlt|Hge].
  - rewrite lookup_app_l in Hi by done. rewrite insert_app_l by done.
    apply decode_idx_bad_crc; [done|]. rewrite Hcrc.
    destruct (insert_split body i b x Hi) as (p&q&->&->&_).
    intros E%crc32_single_byte. congruence.
  - rewrite lookup_app_r in Hi by lia. rewrite insert_app_r_alt by lia.
    apply decode_idx_bad_crc; [by rewrite length_insert|]. rewrite <-Hcrc. intros E.
    assert (<[(i - length body)%nat:=b]> t = t) as E'.
    { rewrite <-(to_from_le_bytes 4 t) at 2 by done.
      rewrite <-E, to_from_le_bytes; [done|]. by rewrite length_insert. }
    apply (f_equal (lookup (i - length body)%nat)) in E'.
    rewrite list_lookup_insert_eq in E' by (by eapply lookup_lt_Some). congruence.
Qed.

(** ** The decoder's only panic *)

Lemma decode_segment_ok buf off :
  0 <= off → off + SEGMENT_LEN <= len buf → ∃ s, decode_segment buf off = Ok s.
Proof.
  unfold SEGMENT_LEN, decode_segment. intros.
  destruct (le_field_ok buf off (off + 8)) as [? ->]; [lia..|].
  destruct (le_field_ok buf (off + 8) (off + 16)) as [? ->]; [lia..|].
  destruct (le_field_ok buf (off + 16) (off + 20)) as [? ->]; [lia..|].
  destruct (le_field_ok buf (off + 20) (off + 24)) as [? ->]; [lia..|].
  simpl. eauto.
Qed.

Lemma decode_segments_ok buf i n :
  0 <= i → HEADER_LEN + (i + Z.of_nat n) * SEGMENT_LEN <= len buf →
  ∃ l, decode_segments buf i n = Ok l.
Proof.
  unfold HEADER_LEN, SEGMENT_LEN. revert i. induction n as [|n IH]; intros i Hi Hle; [eauto|].
  cbn [decode_segments]. unfold HEADER_LEN, SEGMENT_LEN.
  destruct (decode_segment_ok buf (32 + i * 24)) as [s ->]; unfold SEGMENT_LEN; [lia..|].
  destruct (IH (i + 1)) as [l ->]; [lia..|]. simpl. eauto.
Qed.

(** Decoding never panics on an input below 2^63 bytes unless the header claims so many
    segments that their size overflows both the allocation limit and 64 bits. *)
Theorem decode_idx_panics_only_on_capacity buf :
  len buf < 2 ^ 63 → decode_idx buf = Panic →
  ∃ n, le_field buf 8 16 = Ok n ∧ 2 ^ 63 <= n * SEGMENT_LEN
       ∧ 2 ^ 64 <= HEADER_LEN + n * SEGMENT_LEN.
Proof.
  intros Hbuf. unfold decode_idx, HEADER_LEN, TRAILER_LEN. case_match; [done|]. zbool.
  destruct (slice_get_range buf 0 4) as (m&Em&_); [lia..|].
  unfold slice at 1. rewrite Em. cbn [or_panic res_bind]. case_match; [done|].
  destruct (slice_get_range buf 0 (len buf - 4)) as (bd&Eb&_); [lia..|].
  unfold slice at 1. rewrite Eb. cbn [or_panic res_bind].
  destruct (le_field_ok buf (len buf - 4) (len buf)) as [c ->]; [lia..|].
  cbn [res_bind]. case_match; [done|].
  destruct (le_field_ok buf 4 6) as [v ->]; [lia..|].
  destruct (slice_get_range buf 8 16) as (sn&En&Ln); [lia..|].
  assert (le_field buf 8 16 = Ok (from_le_bytes sn)) as ->
    by (unfold le_field, slice; by rewrite En).
  destruct (le_field_ok buf 16 24) as [fl ->]; [lia..|].
  destruct (le_field_ok buf 24 32) as [bo ->]; [lia..|].
  cbn [res_bind]. set (n := from_le_bytes sn).
  assert (0 <= n < 2 ^ 64) as Hn
    by (apply (from_le_bytes_range 8 sn); unfold len in Ln; lia).
  case_match; [done|]. case_match; [done|]. case_match; [done|]. zbool. subst.
  unfold with_capacity, SEGMENT_LEN in *. case_match; zbool; cbn [res_bind].
  - rewrite (wrap64_small (n * 24)) in * by (unfold in_u64; lia).
    rewrite wrap64_small in * by (unfold in_u64; lia).
    destruct (decode_segments_ok buf 0 (Z.to_nat n)) as [l ->]; [lia| |done].
    unfold HEADER_LEN, SEGMENT_LEN. lia.
  - intros _. exists n. split; [done|]. split; [lia|].
    destruct (decide (2 ^ 64 <= 32 + n * 24)) as [|Hc]; [done|].
    rewrite (wrap64_small (n * 24)) in * by (unfold in_u64; lia).
    rewrite wrap64_small in * by (unfold in_u64; lia). lia.
Qed.

(** The file of the crash: 36 bytes whose header announces [2^61] segments, an
    amount whose byte size wraps to 0, with a valid CRC. *)
Definition crafted_idx : bytes :=
  let body := encode_header (2 ^ 61) 36 32 in body ++ to_le_bytes 4 (crc32 body).

(** A 36-byte file with a valid checksum and a crafted segment count makes decoding
    panic instead of returning an error. *)
Theorem decode_idx_crafted_panics : decode_idx crafted_idx = Panic.
Proof. vm_compute. done. Qed.

(** ** Lookup *)

(** [seg] maps the row id to the physical address [(f, o)]. *)
Definition seg_maps (seg : AddrSegment) (row f o : Z) : Prop :=
  start_row_id seg <= row < start_row_id seg + seg_len seg
  ∧ f = seg_fragment_id seg ∧ o = start_offset seg + (row - start_row_id seg).

(** A segment whose row ids and offsets stay representable. *)
Definition seg_fits (s : AddrSegment) : Prop :=
  seg_in_range s ∧ start_row_id s + seg_len s <= 2 ^ 64 - 1
  ∧ start_offset s + seg_len s <= 2 ^ 32.

(** Sorted by start, and no two segments overlap. *)
Definition base_wf (segs : list AddrSegment) : Prop :=
  Forall seg_fits segs
  ∧ StronglySorted (λ a b, start_row_id a + seg_len a <= start_row_id b) segs.

Lemma base_wf_sorted segs : base_wf segs → key_sorted start_row_id segs.
Proof.
  unfold key_sorted. intros [Hf Hs]. induction Hs as [|s l Hl IH Hs]; constructor.
  - apply IH. by inversion Hf.
  - inversion Hf as [|?? [(?&?&?&Hlen) _]]; subst.
    apply (Forall_impl _ _ _ Hs). unfold in_u32 in *. simpl. lia.
Qed.

(** The answer of a segment for a row id at or after its start. *)
Definition seg_lookup (seg : AddrSegment) (row_id : Z) : option (Z * Z) :=
  if row_id <? saturating_add64 (start_row_id seg) (seg_len seg)
  then Some (seg_fragment_id seg,
             wrap32 (start_offset seg + wrap32 (row_id - start_row_id seg)))
  else None.

Lemma seg_lookup_spec seg row f o :
  seg_fits seg → start_row_id seg <= row →
  seg_lookup seg row = Some (f, o) ↔ seg_maps seg row f o.
Proof.
  intros ((H1&H2&H3&H4)&H5&H6) Hle. unfold seg_lookup, seg_maps, saturating_add64.
  unfold in_u64, in_u32 in *. rewrite Z.min_r by lia.
  destruct (Z.ltb_spec row (start_row_id seg + seg_len seg)); [|split; [done|lia]].
  rewrite (wrap32_small (row - _)), wrap32_small by (unfold in_u32; lia).
  split; [intros [= <- <-]; lia|]. intros (_&->&->). done.
Qed.

Lemma lookup_in_base_unfold segs row :
  lookup_in_base segs row =
  match partition_point (λ s, start_row_id s <=? row) segs with
  | O => None
  | S i => match segs !! i with Some seg => seg_lookup seg row | None => None end
  end.
Proof. unfold lookup_in_base, seg_lookup. repeat case_match; done. Qed.

(** The predecessor: the last segment starting at or before [row]. *)
Lemma predecessor_lookup segs row i seg :
  key_sorted start_row_id segs → segs !! i = Some seg → start_row_id seg <= row →
  (∀ j s, segs !! j = Some s → (i < j)%nat → row < start_row_id s) →
  lookup_in_base segs row = seg_lookup seg row.
Proof.
  intros Hs Hi Hle Hnext. rewrite lookup_in_base_unfold.
  assert (partition_point (λ s, start_row_id s <=? row) segs = S i) as ->; [|by rewrite Hi].
  set (p := partition_point _ segs).
  assert (i < p)%nat by (by apply (partition_point_sorted start_row_id segs row i seg)).
  destruct (decide (S i < p)%nat) as [Hlt|]; [|lia].
  destruct (lookup_lt_is_Some_2 segs (S i)) as [s Hsi].
  { pose proof (partition_point_le (λ s, start_row_id s <=? row) segs). lia. }
  apply (partition_point_sorted start_row_id segs row (S i) s) in Hlt; [|done..].
  specialize (Hnext _ _ Hsi). lia.
Qed.

Lemma lookup_in_base_lt segs row :
  (∀ s, s ∈ segs → row < start_row_id s) → lookup_in_base segs row = None.
Proof.
  intros H. rewrite lookup_in_base_unfold. destruct segs as [|s segs]; [done|]. simpl.
  destruct (Z.leb_spec (start_row_id s) row); [|done].
  specialize (H s ltac:(set_solver)). lia.
Qed.

Lemma base_wf_lookup_order segs i j a b :
  base_wf segs → segs !! i = Some a → segs !! j = Some b → (i < j)%nat →
  start_row_id a + seg_len a <= start_row_id b.
Proof.
  intros [_ Hs]. revert i j. induction Hs as [|s l Hl IH Hs]; intros i j Hi Hj Hlt; [done|].
  destruct j as [|j]; [lia|]. destruct i as [|i]; simpl in *.
  - simplify_eq. rewrite Forall_lookup in Hs. eauto.
  - eapply IH; eauto; lia.
Qed.

Lemma lookup_in_base_iff segs row f o :
  base_wf segs →
  lookup_in_base segs row = Some (f, o) ↔ ∃ seg, seg ∈ segs ∧ seg_maps seg row f o.
Proof.
  intros Hwf. pose proof (base_wf_sorted segs Hwf) as Hs. split.
  - rewrite lookup_in_base_unfold. destruct (partition_point _ _) as [|i] eqn:Hp; [done|].
    destruct (segs !! i) as [seg|] eqn:Hi; [|done]. intros Hl. exists seg.
    split; [by eapply list_elem_of_lookup_2|].
    apply seg_lookup_spec; [|by eapply (partition_point_sorted start_row_id segs row i seg); [..|lia]|done].
    destruct Hwf as [Hf _]. rewrite Forall_lookup in Hf. eauto.
  - intros (seg&(i&Hi)%list_elem_of_lookup&Hm).
    rewrite (predecessor_lookup segs row i seg); [|done|done|by destruct Hm; lia|].
    + apply seg_lookup_spec; [|by destruct Hm; lia|done].
      destruct Hwf as [Hf _]. rewrite Forall_lookup in Hf. eauto.
    + intros j s Hj Hlt. pose proof (base_wf_lookup_order segs i j seg s Hwf Hi Hj Hlt).
      destruct Hm. lia.
Qed.

(** ** The mmap reader agrees with the decoded array *)

Lemma decode_segment_at buf l i seg :
  decode_segments buf 0 (length l) = Ok l → l !! i = Some seg →
  decode_segment buf (HEADER_LEN + Z.of_nat i * SEGMENT_LEN) = Ok seg.
Proof.
  assert (∀ k, decode_segments buf k (length l) = Ok l → l !! i = Some seg →
    decode_segment buf (HEADER_LEN + (k + Z.of_nat i) * SEGMENT_LEN) = Ok seg) as H.
  { revert i. induction l as [|s l IH]; intros i k; [done|].
    simpl length. cbn [decode_segments].
    destruct (decode_segment buf (HEADER_LEN + k * SEGMENT_LEN)) as [s'| |] eqn:Es; [|done..].
    cbn [res_bind]. destruct (decode_segments buf (k + 1) (length l)) as [l'| |] eqn:El; [|done..].
    cbn [res_bind]. intros [= -> ->]. destruct i as [|i]; simpl.
    - intros [= ->]. by rewrite Z.add_0_r.
    - intros Hi. rewrite <-(IH i (k + 1)); [f_equal; lia|done..]. }
  apply (H 0).
Qed.

Lemma le_field_decode_segment buf off s :
  decode_segment buf off = Ok s → le_field buf off (off + 8) = Ok (start_row_id s).
Proof.
  unfold decode_segment. destruct (le_field buf off (off + 8)); [|done..]. simpl.
  destruct (le_field buf (off + 8) _); [|done..]. simpl.
  destruct (le_field buf (off + 16) _); [|done..]. simpl.
  destruct (le_field buf (off + 20) _); [|done..]. simpl. by intros [= <-].
Qed.

Section mmap.
Context (buf : bytes) (l : list AddrSegment).
Context (Hdec : decode_segments buf 0 (length l) = Ok l).
Context (Hsorted : key_sorted start_row_id l).
Let b := mkMmap buf (len l).

Lemma mmap_start i : 0 <= i < len l →
  ∃ s, l !! Z.to_nat i = Some s ∧ seg_start_row_id b i = Ok (start_row_id s)
       ∧ decode_seg b i = Ok s.
Proof.
  intros Hi. destruct (lookup_lt_is_Some_2 l (Z.to_nat i)) as [s Hs]; [unfold len in Hi; lia|].
  exists s. pose proof (decode_segment_at buf l (Z.to_nat i) s Hdec Hs) as Hd.
  rewrite Z2Nat.id in Hd by lia. split; [done|]. split; [|done].
  unfold seg_start_row_id. simpl. by apply le_field_decode_segment.
Qed.

(** The loop's invariant: everything at or after [hi] starts past the row,
    and if [lo > 0] segment [lo] starts at or before it. *)
Lemma mmap_search_spec fuel row lo hi :
  0 <= lo < hi → hi <= len l → hi - lo <= 2 ^ Z.of_nat fuel →
  (∀ j s, l !! j = Some s → hi <= Z.of_nat j → row < start_row_id s) →
  (0 < lo → ∀ s, l !! Z.to_nat lo = Some s → start_row_id s <= row) →
  ∃ r, mmap_search fuel b row lo hi = Ok r ∧ 0 <= r < len l
    ∧ (∀ j s, l !! j = Some s → r < Z.of_nat j → row < start_row_id s)
    ∧ (0 < r → ∀ s, l !! Z.to_nat r = Some s → start_row_id s <= row).
Proof.
  revert lo hi. induction fuel as [|fuel IH]; intros lo hi Hlo Hhi Hfuel Hup Hdn;
    cbn [mmap_search]; destruct (Z.ltb_spec (lo + 1) hi) as [Hlt|Hge].
  1: { simpl in Hfuel. lia. }
  1, 3: exists lo; repeat split; [lia..|intros; eapply Hup; [done|lia]|done].
  set (mid := lo + (hi - lo) / 2).
  rewrite Nat2Z.inj_succ, Z.pow_succ_r in Hfuel by lia.
  assert (lo < mid < hi ∧ mid - lo <= 2 ^ Z.of_nat fuel ∧ hi - mid <= 2 ^ Z.of_nat fuel)
    as (Hm&Hm1&Hm2) by (unfold mid; Z.to_euclidean_division_equations; lia).
  destruct (mmap_start mid) as (s&Hs&->&_); [lia|]. cbn [res_bind].
  destruct (Z.leb_spec (start_row_id s) row).
  - apply IH; [lia..|done|]. intros _ s' Hs'. congruence.
  - apply IH; [lia..| |done]. intros j s' Hj Hle.
    assert (start_row_id s <= start_row_id s'); [|lia].
    destruct (decide (j = Z.to_nat mid)) as [->|]; [simplify_eq; lia|].
    assert (¬ (j < partition_point (λ y, (start_row_id y <=? start_row_id s - 1)%Z) l)%nat).
    { intros Hj'. assert (Z.to_nat mid < partition_point (λ y, (start_row_id y <=? start_row_id s - 1)%Z) l)%nat by lia.
      rewrite (partition_point_sorted start_row_id l _ (Z.to_nat mid) s) in * by done. lia. }
    rewrite (partition_point_sorted start_row_id l _ j s') in * by done. lia.
Qed.

Lemma mmap_lookup_eq row :
  len l < 2 ^ 64 → MmapBase_lookup b row = Ok (lookup_in_base l row).
Proof.
  intros Hlen. unfold MmapBase_lookup. cbn [seg_count b].
  pose proof (len_nonneg l). destruct (Z.eqb_spec (len l) 0) as [E|Hne].
  { assert (l = []) as -> by (destruct l; [done|unfold len in E; simpl in E; lia]). done. }
  destruct (mmap_search_spec 64 row 0 (len l)) as (r&Er&Hr&Hup&Hdn); [lia..| |lia|].
  { intros j s Hj Hle. apply lookup_lt_Some in Hj. unfold len in Hle. lia. }
  rewrite Er. cbn [res_bind]. destruct (mmap_start r) as (s&Hs&->&->); [done|]. cbn [res_bind].
  destruct (Z.ltb_spec row (start_row_id s)) as [Hlt|Hle].
  - rewrite lookup_in_base_lt; [done|]. intros s' (j&Hj)%list_elem_of_lookup.
    destruct (decide (0 < r)); [specialize (Hdn ltac:(done) s Hs); lia|].
    assert (r = 0) as -> by lia. destruct (decide (j = O)) as [->|].
    + change (Z.to_nat 0) with 0%nat in Hs. by simplify_eq.
    + apply (Hup j s' Hj). lia.
  - rewrite (predecessor_lookup l row (Z.to_nat r) s); [|done..|].
    + f_equal. apply (predecessor_lookup [s] row 0 s); [repeat constructor|done..|].
      intros [|j] ?; [lia|done].
    + intros j s' Hj Hlt. apply (Hup j s' Hj). lia.
Qed.
End mmap.

(** C37: The lookup through the memory-mapped file, by binary search over raw bytes without
    decoding, agrees with the lookup in the decoded base. *)
Theorem mmap_lookup_agrees segs row :
  Forall seg_in_range segs → idx_fits segs →
  (let? b := MmapBase_open (encode_idx segs) in MmapBase_lookup b row)
  = Ok (lookup_in_base (sort_by_key start_row_id segs) row).
Proof.
  intros Hr Hfit. rewrite encode_idx_eq. unfold encode_body.
  set (l := sort_by_key start_row_id segs).
  assert (len l = len segs) as Hl by (unfold len, l; by rewrite length_sort_by_key).
  assert (Forall seg_in_range l) as Hrl by (by apply Forall_sort_by_key).
  unfold idx_fits in Hfit. rewrite <-Hl in Hfit. pose proof (len_nonneg l) as Hn.
  pose proof (block_count_of_bounds (len l) Hn) as Hb.
  set (crc := to_le_bytes 4 _). rewrite <-!app_assoc. set (h := encode_header _ _ _).
  set (buf := h ++ _).
  assert (len h = HEADER_LEN) as Lh by apply len_encode_header.
  unfold MmapBase_open. destruct (Z.ltb_spec (len buf) HEADER_LEN) as [Hlt|_].
  { unfold buf in Hlt. rewrite len_app, Lh in Hlt.
    pose proof (len_nonneg (concat (encode_segment <$> l) ++ encode_block_index 0 l ++ crc)). lia. }
  assert (le_field buf HDR_OFF_SEG_COUNT (HDR_OFF_SEG_COUNT + 8) = Ok (len l)) as ->.
  { unfold HEADER_LEN, SEGMENT_LEN, BLOCK_ENTRY_LEN, TRAILER_LEN in *.
    apply (header_fields (len l)); unfold in_u64, SEGMENT_LEN, TRAILER_LEN, HEADER_LEN, BLOCK_ENTRY_LEN; lia. }
  cbn [res_bind]. apply mmap_lookup_eq.
  - apply decode_segments_app; [|done]. by rewrite Lh.
  - apply sort_by_key_sorted.
  - lia.
Qed.

(** In a sorted, non-overlapping base the binary search finds an address exactly when
    some segment maps the row to it. *)
Theorem lookup_in_base_spec segs row f o :
  base_wf segs →
  lookup_in_base segs row = Some (f, o) ↔ ∃ seg, seg ∈ segs ∧ seg_maps seg row f o.
Proof. apply lookup_in_base_iff. Qed.

(** ** AddressMap *)

Lemma first_hit_app l1 l2 row :
  first_hit (l1 ++ l2) row
  = match first_hit l1 row with Some r => Some r | None => first_hit l2 row end.
Proof. induction l1 as [|d l1 IH]; simpl; [done|]. by destruct (lookup_in_base d row). Qed.

Lemma AddressMap_lookup_layers base deltas row :
  AddressMap_lookup (from_parts base deltas) row = first_hit (reverse (base :: deltas)) row.
Proof.
  unfold AddressMap_lookup, from_parts. simpl.
  rewrite reverse_cons, first_hit_app. simpl. by destruct (first_hit _ row), (lookup_in_base base row).
Qed.

(** The layered lookup answers with the newest layer that maps the row, and with the
    base when no delta does. *)
Theorem AddressMap_newest_wins base deltas row r :
  AddressMap_lookup (from_parts base deltas) row = Some r ↔
  ∃ older layer newer, base :: deltas = older ++ layer :: newer
    ∧ lookup_in_base layer row = Some r
    ∧ Forall (λ d, lookup_in_base d row = None) newer.
Proof.
  rewrite AddressMap_lookup_layers. generalize (base :: deltas) as ls. clear base deltas. intros ls.
  split.
  - induction ls as [|x ls IH] using rev_ind; [done|].
    rewrite reverse_snoc. simpl. destruct (lookup_in_base x row) eqn:E.
    + intros [= ->]. exists ls, x, []. auto.
    + intros (o&y&n&->&?&?)%IH. exists o, y, (n ++ [x]). rewrite <-app_assoc.
      split; [done|]. split; [done|]. apply Forall_app. auto.
  - intros (o&y&n&->&Hy&Hn). rewrite reverse_app, reverse_cons, <-app_assoc, first_hit_app.
    assert (first_hit (reverse n) row = None) as ->.
    { assert (Forall (λ d, lookup_in_base d row = None) (reverse n)) as Hr
        by (by apply Forall_reverse).
      induction Hr as [|d k Hd _ IH]; simpl; [done|]. by rewrite Hd. }
    simpl. by rewrite Hy.
Qed.
