(* ===== verification/Text.v ===== *)
(** * Strings of the standard library: affixes, splitting, paths, decimals

    What the code uses of [str] ([strip_prefix], [strip_suffix], [ends_with],
    [split], [parse]), of [std::path::Path] ([components], [file_name]) and of
    [format!] ([{}] and [{:09}] of an integer).  Rust strings are Rocq strings
    of bytes. *)

From S2P Require Import Prelude.
From Stdlib Require Import Ascii String.

#[global] Open Scope string_scope.
#[global] Open Scope list_scope.
#[global] Open Scope Z_scope.
#[global] Arguments String.append !_ _ : simpl nomatch.

(** ** Affixes *)

Fixpoint strip_prefix (p s : string) : option string :=
  match p, s with
  | EmptyString, _ => Some s
  | String a p, String b s => if decide (a = b) then strip_prefix p s else None
  | String _ _, EmptyString => None
  end.

Fixpoint strip_suffix (suf s : string) : option string :=
  if decide (s = suf) then Some "" else
  match s with
  | EmptyString => None
  | String a s' => String a <$> strip_suffix suf s'
  end.

Definition starts_with (p s : string) : bool := bool_decide (is_Some (strip_prefix p s)).
Definition ends_with (suf s : string) : bool := bool_decide (is_Some (strip_suffix suf s)).

Lemma string_app_assoc (a b c : string) : a +:+ (b +:+ c) = (a +:+ b) +:+ c.
Proof. induction a as [|x a IH]; simpl; [done|]. by rewrite IH. Qed.
Lemma string_app_nil_r (a : string) : a +:+ "" = a.
Proof. induction a as [|x a IH]; simpl; [done|]. by rewrite IH. Qed.
Lemma string_length_app (a b : string) :
  String.length (a +:+ b) = (String.length a + String.length b)%nat.
Proof. induction a; simpl; [done|]. lia. Qed.

Lemma strip_prefix_Some p s r : strip_prefix p s = Some r ↔ s = p +:+ r.
Proof.
  revert s. induction p as [|a p IH]; intros s; simpl; [naive_solver|].
  destruct s as [|b s]; simpl; [naive_solver|]. case_decide; subst.
  - rewrite IH. naive_solver.
  - naive_solver.
Qed.

Lemma strip_suffix_Some suf s r : strip_suffix suf s = Some r ↔ s = r +:+ suf.
Proof.
  revert r. induction s as [|a s IH]; intros r; simpl; case_decide as E.
  - split; [by intros [= <-]|]. intros Hr. f_equal. destruct r; [done|done].
  - split; [done|]. intros Hr. destruct r; simpl in Hr; congruence.
  - split; [intros [= <-]; done|]. intros Hr.
    assert (String.length r = 0%nat) as Hl.
    { apply (f_equal String.length) in Hr. rewrite string_length_app, <-E in Hr. lia. }
    destruct r; [done|simpl in Hl; lia].
  - rewrite fmap_Some. split.
    + intros (r'&Hr'&->). apply IH in Hr' as ->. done.
    + intros Hr. destruct r as [|b r]; simpl in Hr; [congruence|].
      injection Hr as -> Hs. exists r. split; [by apply IH|done].
Qed.

Lemma ends_with_spec suf s : ends_with suf s = true ↔ ∃ r, s = r +:+ suf.
Proof.
  unfold ends_with. rewrite bool_decide_eq_true. unfold is_Some.
  by setoid_rewrite strip_suffix_Some.
Qed.
Lemma strip_suffix_app r suf : strip_suffix suf (r +:+ suf) = Some r.
Proof. by apply strip_suffix_Some. Qed.
Lemma strip_prefix_app p r : strip_prefix p (p +:+ r) = Some r.
Proof. by apply strip_prefix_Some. Qed.

(** ** Splitting *)

(** [s.split(c)]: always at least one piece. *)
Fixpoint split_on (c : ascii) (s : string) : list string :=
  match s with
  | EmptyString => [""]
  | String a s' =>
      if decide (a = c) then "" :: split_on c s'
      else match split_on c s' with
           | [] => [String a ""]
           | p :: ps => String a p :: ps
           end
  end.

(** [s.split_once(c)]. *)
Fixpoint split_once (c : ascii) (s : string) : option (string * string) :=
  match s with
  | EmptyString => None
  | String a s' =>
      if decide (a = c) then Some ("", s')
      else '(p, q) ← split_once c s'; Some (String a p, q)
  end.

Fixpoint contains_char (c : ascii) (s : string) : bool :=
  match s with
  | EmptyString => false
  | String a s' => (bool_decide (a = c) || contains_char c s')%bool
  end.

Lemma split_on_not_nil c s : split_on c s ≠ [].
Proof. destruct s; simpl; [done|]. case_decide; [done|]. by destruct (split_on c s). Qed.

Lemma split_on_app c a b :
  split_on c (a +:+ String c b) = split_on c a ++ split_on c b.
Proof.
  induction a as [|x a IH]; simpl.
  - by rewrite decide_True.
  - rewrite IH. case_decide; [done|]. pose proof (split_on_not_nil c a).
    by destruct (split_on c a).
Qed.

Lemma split_on_clean c s : contains_char c s = false → split_on c s = [s].
Proof.
  induction s as [|a s IH]; simpl; [done|]. intros [Ha Hs]%orb_false_iff.
  apply bool_decide_eq_false in Ha. rewrite decide_False by done. by rewrite IH.
Qed.

Lemma contains_char_app c a b :
  contains_char c (a +:+ b) = (contains_char c a || contains_char c b)%bool.
Proof. induction a as [|x a IH]; simpl; [done|]. by rewrite IH, orb_assoc. Qed.

(** ** Paths *)

Inductive component := RootDir | CurDir | ParentDir | Normal (name : string).

(** The pieces between slashes after the root: empty pieces vanish, and so do
    [.] pieces that are not the leading one. *)
Definition piece_component (p : string) : option component :=
  if decide (p = "") then None else
  if decide (p = ".") then None else
  if decide (p = "..") then Some ParentDir else Some (Normal p).

Definition is_absolute (raw : string) : bool := starts_with "/" raw.

(** [Path::components] on Unix. *)
Definition components (raw : string) : list component :=
  let pieces := split_on "/" raw in
  (if is_absolute raw then [RootDir] else [])
  ++ match pieces with
     | p :: _ => if decide (p = ".") then [CurDir] else []
     | [] => []
     end
  ++ omap piece_component pieces.

(** [Path::new(entry).file_name().and_then(|s| s.to_str())]. *)
Definition file_name (raw : string) : option string :=
  match last (components raw) with Some (Normal p) => Some p | _ => None end.

(** ** Decimal notation *)

Definition digit_char (d : Z) : ascii := ascii_of_N (Z.to_N (48 + d)).
Definition char_digit (a : ascii) : option Z :=
  let n := Z.of_N (N_of_ascii a) in
  if (48 <=? n) && (n <=? 57) then Some (n - 48) else None.

(** The digits of a number of at most [fuel] digits, most significant first;
    20 digits are enough for 64-bit integers. *)
Fixpoint fmt_digits (fuel : nat) (n : Z) (acc : string) : string :=
  match fuel with
  | O => acc
  | S fuel =>
      let acc' := String (digit_char (n mod 10)) acc in
      if n <? 10 then acc' else fmt_digits fuel (n / 10) acc'
  end.
Definition fmt_u64 (n : u64) : string := fmt_digits 20 n "".
Definition fmt_i64 (n : i64) : string :=
  if n <? 0 then "-" +:+ fmt_u64 (- n) else fmt_u64 n.

Fixpoint pad_zeros (k : nat) (s : string) : string :=
  match k with O => s | S k => String "0" (pad_zeros k s) end.
(** [format!("{:09}", n)]. *)
Definition fmt_09 (n : u64) : string :=
  let s := fmt_u64 n in pad_zeros (9 - String.length s) s.

(** Accumulating the digits of [s] after those read so far. *)
Fixpoint parse_digits (s : string) (acc : Z) : option Z :=
  match s with
  | EmptyString => Some acc
  | String a s => d ← char_digit a; parse_digits s (10 * acc + d)
  end.
Definition parse_nat (s : string) : option Z :=
  match s with EmptyString => None | _ => parse_digits s 0 end.

(** [s.parse::<u64>()] and [s.parse::<i64>()]: an optional sign, at least one
    digit, an error on overflow. *)
Definition parse_u64 (s : string) : option u64 :=
  let s' := default s (strip_prefix "+" s) in
  n ← parse_nat s'; checked in_u64 n.
Definition parse_i64 (s : string) : option i64 :=
  match strip_prefix "-" s with
  | Some s' => n ← parse_nat s'; checked in_i64 (- n)
  | None => let s' := default s (strip_prefix "+" s) in
            n ← parse_nat s'; checked in_i64 n
  end.

Lemma char_digit_digit d : 0 <= d < 10 → char_digit (digit_char d) = Some d.
Proof.
  intros. unfold char_digit, digit_char.
  rewrite N_ascii_embedding by lia. rewrite Z2N.id by lia.
  destruct (Z.leb_spec 48 (48 + d)); [|lia]. destruct (Z.leb_spec (48 + d) 57); [|lia].
  simpl. f_equal. lia.
Qed.

Lemma parse_fmt_digits fuel n acc s0 :
  0 <= n < 10 ^ Z.of_nat fuel → (0 < fuel)%nat →
  ∃ k, 0 <= k ∧ parse_digits (fmt_digits fuel n acc) s0 = parse_digits acc (s0 * 10 ^ k + n).
Proof.
  revert n acc. induction fuel as [|fuel IH]; intros n acc Hn Hf; [lia|].
  cbn [fmt_digits]. rewrite Nat2Z.inj_succ, Z.pow_succ_r in Hn by lia.
  pose proof (Z.mod_pos_bound n 10 ltac:(lia)). destruct (Z.ltb_spec n 10).
  - exists 1. split; [lia|]. cbn [parse_digits]. rewrite char_digit_digit by lia. simpl.
    rewrite Z.mod_small by lia. f_equal. lia.
  - assert (fuel ≠ 0%nat) by (intros ->; simpl in Hn; lia).
    destruct (IH (n / 10) (String (digit_char (n mod 10)) acc)) as (k&Hk&->); [|lia|].
    { split; [apply Z.div_pos; lia|]. apply Z.div_lt_upper_bound; lia. }
    cbn [parse_digits]. rewrite char_digit_digit by lia. simpl. exists (k + 1).
    split; [lia|]. f_equal. rewrite Z.pow_add_r by lia. pose proof (Z.div_mod n 10). lia.
Qed.

Lemma fmt_digits_not_empty fuel n acc : (0 < fuel)%nat → fmt_digits fuel n acc ≠ "".
Proof.
  revert n acc. induction fuel as [|fuel IH]; intros n acc; [lia|]. intros _. simpl.
  case_match; [done|]. destruct fuel as [|fuel]; [done|]. apply IH. lia.
Qed.

Lemma fmt_digits_head fuel n acc c :
  (0 < fuel)%nat → 0 <= n →
  strip_prefix (String c "") (fmt_digits fuel n acc) ≠ None →
  ∃ d, 0 <= d < 10 ∧ c = digit_char d.
Proof.
  revert n acc. induction fuel as [|fuel IH]; intros n acc; [lia|]. intros _ Hn. cbn [fmt_digits].
  pose proof (Z.mod_pos_bound n 10 ltac:(lia)). destruct (Z.ltb_spec n 10).
  - simpl. case_decide; [|done]. eauto.
  - destruct fuel as [|fuel].
    + simpl. case_decide; [|done]. eauto.
    + apply IH; [lia|]. apply Z.div_pos; lia.
Qed.

Lemma fmt_u64_no_sign c n :
  0 <= n → char_digit c = None → strip_prefix (String c "") (fmt_u64 n) = None.
Proof.
  intros Hn Hc. destruct (strip_prefix _ _) eqn:E; [|done].
  destruct (fmt_digits_head 20 n "" c) as (d&Hd&->); [lia|done|unfold fmt_u64 in E; congruence|].
  rewrite char_digit_digit in Hc by done. done.
Qed.

Lemma parse_pad_zeros k s acc : parse_digits (pad_zeros k s) (0 * acc) = parse_digits s 0.
Proof. rewrite Z.mul_0_l. by induction k. Qed.

Lemma parse_nat_fmt n : in_u64 n → parse_nat (fmt_u64 n) = Some n.
Proof.
  intros Hn. unfold parse_nat, fmt_u64. pose proof (fmt_digits_not_empty 20 n "" ltac:(lia)).
  destruct (parse_fmt_digits 20 n "" 0) as (k&_&E).
  { unfold in_u64 in Hn. change (10 ^ Z.of_nat 20) with 100000000000000000000. lia. }
  { lia. }
  destruct (fmt_digits 20 n "") eqn:Es; [done|]. rewrite E. simpl. f_equal. 
Qed.

Lemma parse_u64_fmt n : in_u64 n → parse_u64 (fmt_u64 n) = Some n.
Proof.
  intros Hn. unfold parse_u64. rewrite fmt_u64_no_sign by (unfold in_u64 in Hn; done || lia).
  cbn [default]. rewrite parse_nat_fmt by done. simpl. by apply checked_Some.
Qed.

Lemma parse_u64_fmt_09 n : in_u64 n → parse_u64 (fmt_09 n) = Some n.
Proof.
  intros Hn. unfold parse_u64, fmt_09. set (k := (9 - _)%nat).
  assert (strip_prefix "+" (pad_zeros k (fmt_u64 n)) = None) as ->.
  { destruct k; simpl; [|done]. apply (fmt_u64_no_sign "+"); [unfold in_u64 in Hn; lia|done]. }
  cbn [default].
  assert (parse_nat (pad_zeros k (fmt_u64 n)) = Some n) as ->.
  { rewrite <-(parse_nat_fmt n Hn). unfold parse_nat.
    pose proof (fmt_digits_not_empty 20 n "" ltac:(lia)) as Hne. unfold fmt_u64.
    destruct k as [|k]; [done|]. cbn [pad_zeros].
    destruct (fmt_digits 20 n "") eqn:E; [done|]. rewrite <-E.
    change (String "0" (pad_zeros k (fmt_digits 20 n "")))
      with (pad_zeros (S k) (fmt_digits 20 n "")).
    rewrite <-(Z.mul_0_l 1). apply parse_pad_zeros. }
  simpl. by apply checked_Some.
Qed.

Lemma parse_i64_fmt n : in_i64 n → parse_i64 (fmt_i64 n) = Some n.
Proof.
  unfold in_i64. intros Hn. unfold fmt_i64, parse_i64. destruct (Z.ltb_spec n 0).
  - rewrite strip_prefix_app, parse_nat_fmt by (unfold in_u64; lia). simpl.
    apply checked_Some. unfold in_i64. lia.
  - rewrite !fmt_u64_no_sign by (done || lia). cbn [default].
    rewrite parse_nat_fmt by (unfold in_u64; lia). simpl. apply checked_Some. unfold in_i64. lia.
Qed.

(** Rendered numbers contain only digits. *)
Lemma digit_char_ne c d : 0 <= d < 10 → char_digit c = None → digit_char d ≠ c.
Proof. intros Hd Hc <-. by rewrite char_digit_digit in Hc. Qed.
Lemma fmt_digits_no_char c fuel n acc :
  char_digit c = None → contains_char c acc = false →
  contains_char c (fmt_digits fuel n acc) = false.
Proof.
  intros Hc. revert n acc. induction fuel as [|fuel IH]; intros n acc Ha; [done|].
  cbn [fmt_digits].
  assert (contains_char c (String (digit_char (n mod 10)) acc) = false) as Ha'.
  { cbn [contains_char]. rewrite Ha, orb_false_r. apply bool_decide_eq_false.
    apply digit_char_ne; [|done]. apply Z.mod_pos_bound. lia. }
  case_match; [done|]. by apply IH.
Qed.
Lemma fmt_u64_no_char c n : char_digit c = None → contains_char c (fmt_u64 n) = false.
Proof. intros. by apply fmt_digits_no_char. Qed.
Lemma pad_zeros_no_char c k s :
  char_digit c = None → contains_char c s = false → contains_char c (pad_zeros k s) = false.
Proof.
  intros Hc Hs. induction k as [|k IH]; [done|]. cbn [pad_zeros contains_char].
  rewrite IH, orb_false_r. apply bool_decide_eq_false. by intros <-.
Qed.
Lemma fmt_09_no_char c n : char_digit c = None → contains_char c (fmt_09 n) = false.
Proof. intros Hc. by apply pad_zeros_no_char, fmt_u64_no_char. Qed.
Lemma fmt_09_not_empty n : fmt_09 n ≠ "".
Proof.
  unfold fmt_09. pose proof (fmt_digits_not_empty 20 n "" ltac:(lia)).
  by destruct (9 - String.length (fmt_u64 n))%nat.
Qed.
Lemma fmt_09_inj n m : in_u64 n → in_u64 m → fmt_09 n = fmt_09 m → n = m.
Proof. intros Hn Hm E. apply parse_u64_fmt_09 in Hn, Hm. congruence. Qed.

Lemma string_last_inj a b c d :
  a +:+ String c "" = b +:+ String d "" → a = b ∧ c = d.
Proof.
  revert b. induction a as [|x a IH]; intros [|y b]; simpl; intros E.
  - by injection E.
  - by destruct b.
  - by destruct a.
  - injection E as -> E. by apply IH in E as [-> ->].
Qed.
(** A temporary is not taken for what it will become. *)
Lemma strip_json_tmp r : strip_suffix ".json" (r +:+ ".json.tmp") = None.
Proof.
  destruct (strip_suffix _ _) as [y|] eqn:E; [|done]. apply strip_suffix_Some in E.
  change ".json.tmp" with (".json.tm" +:+ "p") in E. change ".json" with (".jso" +:+ "n") in E.
  rewrite !string_app_assoc in E. by apply string_last_inj in E as [_ E].
Qed.

Lemma string_app_inj_l (a b c : string) : a +:+ b = a +:+ c → b = c.
Proof.
  intros E. apply (f_equal (strip_prefix a)) in E. rewrite !strip_prefix_app in E. congruence.
Qed.
