(* ===== verification/OrdMap.v ===== *)
(** * Ordered maps keyed by strings ([BTreeMap<String, V>])

    A sorted association list: iteration order is key order, which the code
    relies on (binary indexes, recovery order, lock order). *)

From S2P Require Import Prelude Text.
From Stdlib Require Import Ascii String.

(** [str::cmp]: lexicographic on the UTF-8 bytes. *)
Fixpoint str_ltb (a b : string) : bool :=
  match a, b with
  | _, EmptyString => false
  | EmptyString, String _ _ => true
  | String x a, String y b =>
      let n := Z.of_N (N_of_ascii x) in
      let m := Z.of_N (N_of_ascii y) in
      ((n <? m) || ((n =? m) && str_ltb a b))%bool
  end.
Definition str_lt (a b : string) : Prop := str_ltb a b = true.
#[export] Instance str_lt_dec a b : Decision (str_lt a b).
Proof. unfold str_lt. apply _. Defined.

Lemma ascii_Z_inj a b : Z.of_N (N_of_ascii a) = Z.of_N (N_of_ascii b) → a = b.
Proof.
  intros E%N2Z.inj. apply (f_equal ascii_of_N) in E. by rewrite !ascii_N_embedding in E.
Qed.

Lemma str_lt_cons x a y b :
  str_lt (String x a) (String y b) ↔
  Z.of_N (N_of_ascii x) < Z.of_N (N_of_ascii y) ∨ (x = y ∧ str_lt a b).
Proof.
  unfold str_lt. simpl. rewrite orb_true_iff, andb_true_iff, Z.ltb_lt, Z.eqb_eq.
  split; intros [?|[E ?]]; auto; right; split; auto; [by apply ascii_Z_inj|by subst].
Qed.
Lemma str_lt_irrefl a : ¬ str_lt a a.
Proof.
  induction a as [|x a IH]; [done|]. intros [?|[_ ?]]%str_lt_cons; [lia|done].
Qed.
Lemma str_lt_trans a b c : str_lt a b → str_lt b c → str_lt a c.
Proof.
  revert b c. induction a as [|x a IH]; intros [|y b] [|z c]; try done.
  rewrite !str_lt_cons. intros [?|[-> ?]] [?|[-> ?]]; [left; lia|by left|by left|right; eauto].
Qed.
Lemma str_lt_total a b : str_lt a b ∨ a = b ∨ str_lt b a.
Proof.
  revert b. induction a as [|x a IH]; intros [|y b]; [auto|by left|by right; right|].
  rewrite !str_lt_cons.
  destruct (Z.lt_trichotomy (Z.of_N (N_of_ascii x)) (Z.of_N (N_of_ascii y))) as [?|[E|?]]; auto.
  apply ascii_Z_inj in E as ->. destruct (IH b) as [?|[->|?]]; auto.
Qed.
#[export] Instance str_lt_strict : StrictOrder str_lt.
Proof. split; [intros a; apply str_lt_irrefl|intros a b c; apply str_lt_trans]. Qed.

Abbreviation bmap V := (list (string * V)).

Section bmap.
Context {V : Type}.
Implicit Types m : bmap V.

Fixpoint bm_get (k : string) m : option V :=
  match m with
  | [] => None
  | (k', v) :: m => if decide (k = k') then Some v else bm_get k m
  end.
Fixpoint bm_insert (k : string) (v : V) m : bmap V :=
  match m with
  | [] => [(k, v)]
  | (k', v') :: m' =>
      if decide (k = k') then (k, v) :: m'
      else if str_ltb k k' then (k, v) :: m
      else (k', v') :: bm_insert k v m'
  end.
Definition bm_remove (k : string) m : bmap V := filter (λ kv, kv.1 ≠ k) m.
Definition bm_contains (k : string) m : bool := bool_decide (is_Some (bm_get k m)).
Definition bm_sorted m : Prop := StronglySorted (λ a b, str_lt a.1 b.1) m.
(** [m.retain(|_, v| p(v))]. *)
Definition bm_retain (p : V → bool) m : bmap V := filter (λ kv, p kv.2 = true) m.

Lemma bm_get_insert_eq k v m : bm_get k (bm_insert k v m) = Some v.
Proof.
  induction m as [|[k' v'] m IH]; simpl; [by rewrite decide_True|].
  case_decide as E; simpl; [by rewrite decide_True|].
  case_match; simpl; [by rewrite decide_True|]. by rewrite decide_False.
Qed.
Lemma bm_get_insert_ne k k' v m : k ≠ k' → bm_get k (bm_insert k' v m) = bm_get k m.
Proof.
  intros Hk. induction m as [|[k1 v1] m IH]; simpl; [by rewrite decide_False|].
  case_decide as E; simpl.
  - subst. by rewrite !(decide_False (P:=k = k1)).
  - case_match; simpl; [by rewrite (decide_False (P:=k = k'))|]. by rewrite IH.
Qed.
Lemma bm_get_insert k k' v m :
  bm_get k (bm_insert k' v m) = if decide (k = k') then Some v else bm_get k m.
Proof. case_decide; subst; auto using bm_get_insert_eq, bm_get_insert_ne. Qed.

Lemma bm_insert_Forall (P : string * V → Prop) k v m :
  P (k, v) → Forall P m → Forall P (bm_insert k v m).
Proof.
  intros Hk. induction 1 as [|[k' v'] m Hx Hm IH]; simpl; [by constructor|].
  case_decide; [by constructor|]. case_match; repeat constructor; done.
Qed.
Lemma bm_insert_sorted k v m : bm_sorted m → bm_sorted (bm_insert k v m).
Proof.
  unfold bm_sorted. induction 1 as [|[k' v'] m Hm IH Hx]; simpl; [repeat constructor|].
  case_decide as E; subst; [by constructor|]. destruct (str_ltb k k') eqn:Hlt.
  - constructor; [by constructor|]. constructor; [done|].
    eapply Forall_impl; [exact Hx|]. simpl. intros [a b] Hab. by eapply str_lt_trans.
  - constructor; [done|]. apply bm_insert_Forall; [|done]. simpl in *.
    destruct (str_lt_total k k') as [H|[H|H]]; [unfold str_lt in H; congruence|done|done].
Qed.
Lemma filter_sorted (P : string * V → Prop) `{∀ x, Decision (P x)} m :
  bm_sorted m → bm_sorted (filter P m).
Proof.
  unfold bm_sorted. induction 1 as [|x m Hm IH Hx]; [constructor|].
  rewrite filter_cons. case_decide; [|done]. constructor; [done|].
  rewrite Forall_forall in *. intros y [_ Hy]%list_elem_of_filter. auto.
Qed.

Lemma bm_get_Some_elem k v m : bm_get k m = Some v → (k, v) ∈ m.
Proof.
  induction m as [|[k' v'] m IH]; simpl; [done|]. case_decide; subst.
  - intros [= ->]. constructor.
  - intros. constructor. auto.
Qed.
Lemma bm_sorted_head k v m k' v' :
  bm_sorted ((k, v) :: m) → (k', v') ∈ m → k ≠ k'.
Proof.
  inversion_clear 1 as [|?? Hm Hx]. intros Hin ->. rewrite Forall_forall in Hx.
  by apply Hx, str_lt_irrefl in Hin.
Qed.
Lemma bm_elem_get k v m : bm_sorted m → (k, v) ∈ m → bm_get k m = Some v.
Proof.
  intros Hs. induction m as [|[k' v'] m IH]; [by intros ?%elem_of_nil|].
  intros [[= -> ->]|Hin]%elem_of_cons; simpl; [by rewrite decide_True|].
  pose proof (bm_sorted_head _ _ _ _ _ Hs Hin). rewrite decide_False by done.
  apply IH; [by inversion Hs|done].
Qed.
Lemma bm_get_elem k v m : bm_sorted m → bm_get k m = Some v ↔ (k, v) ∈ m.
Proof. split; [apply bm_get_Some_elem|by apply bm_elem_get]. Qed.
Lemma bm_get_None k m : bm_get k m = None ↔ ∀ v, (k, v) ∉ m.
Proof.
  induction m as [|[k' v'] m IH]; simpl; [set_solver|]. case_decide; subst.
  - split; [done|]. intros Hn. destruct (Hn v'). constructor.
  - rewrite IH. split; intros Hn v Hin; [|by apply (Hn v); constructor].
    apply elem_of_cons in Hin as [[= -> ->]|?]; [done|by apply (Hn v)].
Qed.

Lemma bm_get_filter (P : string * V → Prop) `{∀ x, Decision (P x)} k m :
  bm_sorted m →
  bm_get k (filter P m)
  = match bm_get k m with Some v => if decide (P (k, v)) then Some v else None | None => None end.
Proof.
  intros Hs. destruct (bm_get k m) as [v|] eqn:E.
  - apply bm_get_Some_elem in E. case_decide.
    + apply bm_elem_get; [by apply filter_sorted|]. by apply list_elem_of_filter.
    + apply bm_get_None. intros v' [Hp Hin]%list_elem_of_filter.
      apply bm_elem_get in E; [|done]. apply bm_elem_get in Hin; [|done]. congruence.
  - apply bm_get_None. intros v [_ Hin]%list_elem_of_filter.
    by apply bm_get_None with (v:=v) in E.
Qed.
Lemma bm_get_remove k k' m :
  bm_sorted m → bm_get k (bm_remove k' m) = if decide (k = k') then None else bm_get k m.
Proof.
  intros. unfold bm_remove. rewrite bm_get_filter by done.
  destruct (bm_get k m); repeat case_decide; simpl in *; naive_solver.
Qed.

(** Sorted maps are determined by their lookups. *)
Lemma bm_ext m1 m2 :
  bm_sorted m1 → bm_sorted m2 → (∀ k, bm_get k m1 = bm_get k m2) → m1 = m2.
Proof.
  intros H1. revert m2. induction m1 as [|[k v] m1 IH]; intros m2 H2 E.
  - destruct m2 as [|[k v] m2]; [done|]. specialize (E k). simpl in E.
    by rewrite decide_True in E.
  - destruct m2 as [|[k2 v2] m2].
    { specialize (E k). simpl in E. by rewrite decide_True in E. }
    assert (∀ a x b y l l', bm_sorted ((a, x) :: l) → bm_sorted ((b, y) :: l') →
      (∀ k, bm_get k ((a, x) :: l) = bm_get k ((b, y) :: l')) → ¬ str_lt a b) as Hno.
    { intros a x b y l l' Ha Hb Hg Hlt. specialize (Hg a). simpl in Hg.
      rewrite decide_True in Hg by done. case_decide; [by subst; apply str_lt_irrefl in Hlt|].
      symmetry in Hg. apply bm_get_Some_elem in Hg.
      inversion Hb as [|?? _ Hx]; subst. rewrite Forall_forall in Hx.
      apply Hx in Hg. simpl in Hg. by destruct (str_lt_irrefl a (str_lt_trans _ _ _ Hlt Hg)). }
    assert (k = k2) as ->.
    { destruct (str_lt_total k k2) as [Hlt|[?|Hlt]]; [|done|].
      - by destruct (Hno _ _ _ _ _ _ H1 H2 E Hlt).
      - by destruct (Hno _ _ _ _ _ _ H2 H1 (λ k, eq_sym (E k)) Hlt). }
    pose proof (E k2) as Ek. simpl in Ek. rewrite !decide_True in Ek by done.
    injection Ek as ->. f_equal. apply IH; [by inversion H1|by inversion H2|].
    intros k. specialize (E k). simpl in E. case_decide as Hk; [|done]. subst k.
    assert (∀ m (v : V), bm_sorted ((k2, v) :: m) → bm_get k2 m = None) as Hn.
    { intros m w Hm. apply bm_get_None. intros w' Hw. by destruct (bm_sorted_head _ _ _ _ _ Hm Hw). }
    by rewrite (Hn _ _ H1), (Hn _ _ H2).
Qed.

(** [collect] into a map: later entries win. *)
Definition bm_collect (l : list (string * V)) : bmap V :=
  foldl (λ m kv, bm_insert kv.1 kv.2 m) [] l.
End bmap.

Lemma bm_collect_sorted {V} (l : list (string * V)) : bm_sorted (bm_collect l).
Proof.
  unfold bm_collect. assert (bm_sorted ([] : bmap V)) as H by constructor.
  revert H. generalize ([] : bmap V). induction l; intros m Hm; simpl; [done|].
  apply IHl. by apply bm_insert_sorted.
Qed.
Lemma bm_insert_perm {V} k (v : V) (m : bmap V) :
  k ∉ m.*1 → bm_insert k v m ≡ₚ (k, v) :: m.
Proof.
  induction m as [|[k' v'] m IH]; simpl; [done|]. intros Hk.
  rewrite decide_False by set_solver. case_match; [done|].
  rewrite IH by set_solver. apply Permutation_swap.
Qed.
Lemma bm_collect_perm {V} (l : list (string * V)) : NoDup l.*1 → bm_collect l ≡ₚ l.
Proof.
  intros Hl. unfold bm_collect.
  assert (∀ m : bmap V, (∀ k, k ∈ l.*1 → k ∉ m.*1) →
    foldl (λ m kv, bm_insert kv.1 kv.2 m) m l ≡ₚ m ++ l) as H.
  { induction l as [|[k v] l IH]; intros m Hm; simpl; [by rewrite app_nil_r|].
    inversion Hl as [|?? Hk Hl']; subst.
    pose proof (bm_insert_perm k v m ltac:(apply Hm; simpl; set_solver)) as Hp.
    rewrite IH; [rewrite Hp; simpl; by rewrite Permutation_middle|done|].
    intros k' Hk'. rewrite Hp. simpl. rewrite not_elem_of_cons.
    split; [by intros ->|]. apply Hm. simpl. set_solver. }
  rewrite H; [done|]. set_solver.
Qed.
Lemma bm_sorted_NoDup {V} (m : bmap V) : bm_sorted m → NoDup m.*1.
Proof.
  unfold bm_sorted. induction 1 as [|[k v] m Hm IH Hx]; constructor; [|done].
  intros ([k' v']&E&Hin)%list_elem_of_fmap. simpl in E; subst k'. rewrite Forall_forall in Hx.
  by apply Hx, str_lt_irrefl in Hin.
Qed.
(** Collecting what is already in key order changes nothing. *)
Lemma bm_collect_id {V} (m : bmap V) : bm_sorted m → bm_collect m = m.
Proof.
  intros Hs. pose proof (bm_sorted_NoDup m Hs) as Hn.
  pose proof (bm_collect_perm m Hn) as Hp.
  apply bm_ext; [apply bm_collect_sorted|done|]. intros k.
  destruct (bm_get k m) as [v|] eqn:E.
  - apply bm_elem_get; [apply bm_collect_sorted|]. rewrite Hp. by apply bm_get_Some_elem.
  - apply bm_get_None. intros v. rewrite Hp. revert v. by apply bm_get_None.
Qed.
(** The result does not depend on the order of entries with distinct keys. *)
Lemma bm_collect_permut {V} (l l' : list (string * V)) :
  NoDup l.*1 → l ≡ₚ l' → bm_collect l = bm_collect l'.
Proof.
  intros Hl Hp. assert (NoDup l'.*1) as Hl' by (by rewrite <-Hp).
  apply bm_ext; [apply bm_collect_sorted..|]. intros k.
  destruct (bm_get k (bm_collect l')) as [v|] eqn:E.
  - apply bm_elem_get; [apply bm_collect_sorted|].
    rewrite (bm_collect_perm l), Hp by done. rewrite <-(bm_collect_perm l') by done.
    by apply bm_get_Some_elem.
  - apply bm_get_None. intros v. rewrite (bm_collect_perm l), Hp by done.
    rewrite <-(bm_collect_perm l') by done. revert v. by apply bm_get_None.
Qed.

(** [m.entry(k).or_default().push(x)] on a map of vectors. *)
Definition bm_push {V} (k : string) (x : V) (m : bmap (list V)) : bmap (list V) :=
  bm_insert k (default [] (bm_get k m) ++ [x]) m.

Lemma bm_push_sorted {V} k (x : V) m : bm_sorted m → bm_sorted (bm_push k x m).
Proof. apply bm_insert_sorted. Qed.
Lemma bm_get_push {V} k k' (x : V) m :
  default [] (bm_get k (bm_push k' x m))
  = default [] (bm_get k m) ++ (if decide (k = k') then [x] else []).
Proof.
  unfold bm_push. rewrite bm_get_insert. case_decide; subst; simpl; [done|].
  by rewrite app_nil_r.
Qed.
(** Later entries have greater keys. *)
Lemma bm_sorted_lookup {V} (m : bmap V) i j a b :
  bm_sorted m → m !! i = Some a → m !! j = Some b → (i < j)%nat → str_lt a.1 b.1.
Proof.
  unfold bm_sorted. intros Hs. revert i j. induction Hs as [|x m Hm IH Hx]; intros i j Hi Hj Hlt;
    [done|]. destruct j as [|j]; [lia|]. destruct i as [|i]; simpl in *.
  - simplify_eq. rewrite Forall_lookup in Hx. eauto.
  - apply (IH i j); [done|done|lia].
Qed.
Lemma bm_sorted_nil {V} : bm_sorted ([] : bmap V).
Proof. constructor. Qed.

#[export] Hint Resolve bm_insert_sorted bm_push_sorted bm_sorted_nil : icefall.

(** Maps of values. *)
Lemma bm_fmap_sorted {V W} (f : V → W) (m : bmap V) :
  bm_sorted m → bm_sorted (prod_map id f <$> m).
Proof.
  unfold bm_sorted. induction 1 as [|x m Hm IH Hx]; cbn; constructor; [done|].
  apply Forall_fmap. exact Hx.
Qed.
Lemma bm_get_fmap {V W} (f : V → W) k (m : bmap V) :
  bm_get k (prod_map id f <$> m) = f <$> bm_get k m.
Proof. induction m as [|[k' v] m IH]; cbn; [done|]. by case_decide. Qed.
Lemma bm_sorted_keys {V W} (m : bmap V) (o : bmap W) : m.*1 = o.*1 → bm_sorted o → bm_sorted m.
Proof.
  unfold bm_sorted. intros E Ho. revert m E.
  induction Ho as [|x o Ho IH Hx]; intros [|y m] E; simplify_eq/=; [constructor|].
  constructor; [by apply IH|]. apply Forall_forall. intros z Hz.
  assert (z.1 ∈ o.*1) as (w&Hw&Hin)%list_elem_of_fmap by (rewrite <-H0; by apply list_elem_of_fmap_2).
  rewrite Forall_forall in Hx. rewrite Hw, H. by apply Hx.
Qed.
