(* ===== verification/Storage.v ===== *)
(** * Storage: path validation, the storage interface, the in-memory backend

    [storage/path.rs], [storage/mod.rs] and [storage/memory.rs].  The trait
    [Storage] is the class [Storage]; what its clients rely on is the class
    [StorageLaws], a file system seen as a finite map from clean paths to
    contents, which [MemoryStorage] implements. *)

From S2P Require Import Prelude Bytes StableSort Text OrdMap.
From Stdlib Require Import Ascii String.

#[local] Open Scope list_scope.
#[local] Open Scope Z_scope.

(** ** [validate_path] *)

Fixpoint clean_components (raw : string) (cs : list component) (cleaned : string) : res string :=
  match cs with
  | [] => Ok cleaned
  | Normal c :: cs =>
      clean_components raw cs (if decide (cleaned = "") then c else cleaned +:+ "/" +:+ c)
  | CurDir :: cs => clean_components raw cs cleaned
  | ParentDir :: _ => Err (InvalidPath ("path traversal is not allowed: " +:+ raw))
  | RootDir :: _ => Err (InvalidPath ("absolute paths are not allowed: " +:+ raw))
  end.

Definition validate_path (raw : string) : res string :=
  if decide (raw = "") then Err (InvalidPath "path cannot be empty") else
  if is_absolute raw
  then Err (InvalidPath ("absolute paths are not allowed: " +:+ raw)) else
  let? cleaned := clean_components raw (components raw) "" in
  if decide (cleaned = "") then Err (InvalidPath ("path cannot be empty: " +:+ raw))
  else Ok cleaned.

(** ** The interface *)

Class Storage (St : Type) := {
  st_read : string → M St bytes;
  st_size : string → M St u64;
  st_read_range : string → u64 → u64 → M St bytes;
  st_write : string → bytes → M St unit;
  st_append : string → bytes → M St unit;
  st_delete : string → M St unit;
  st_rename : string → string → M St unit;
  st_list : string → M St (list string);
  st_exists : string → M St bool;
  st_sync : string → M St unit;
  st_sync_data : string → M St unit;
  st_sync_root : M St unit;
  st_lock_exclusive : string → M St string;
  st_unlock : string → St → St;
}.

(** Direct children of the directory [n] (a clean path followed by a slash, or
    the empty string): the first path component after [n] of every key. *)
Definition child_of (n key : string) : option string :=
  rest ← strip_prefix n key;
  Some (match split_once "/" rest with
        | Some (comp, _) => n +:+ comp
        | None => n +:+ rest
        end).
Definition list_children (fs : gmap string bytes) (n : string) : list string :=
  fst <$> bm_collect ((λ c, (c, tt)) <$> omap (child_of n) (fst <$> map_to_list fs)).

Definition read_result (fs : gmap string bytes) (q : string) : res bytes :=
  of_option (NotFound q) (fs !! q).

(** What clients rely on: the contents of the store are a finite map from clean
    paths to bytes, and the operations act on it as named. *)
Class StorageLaws (St : Type) `{!Storage St} := {
  files : St → gmap string bytes;
  st_read_spec p q s :
    validate_path p = Ok q → st_read p s = (read_result (files s) q, s);
  st_exists_spec p q s :
    validate_path p = Ok q → st_exists p s = (Ok (bool_decide (is_Some (files s !! q))), s);
  st_write_spec p q d s :
    validate_path p = Ok q →
    ∃ s', st_write p d s = (Ok tt, s') ∧ files s' = <[q := d]> (files s);
  st_append_spec p q d s :
    validate_path p = Ok q →
    ∃ s', st_append p d s = (Ok tt, s')
          ∧ files s' = <[q := default [] (files s !! q) ++ d]> (files s);
  st_delete_spec p q s :
    validate_path p = Ok q →
    ∃ s', st_delete p s = ((if files s !! q then Ok tt else Err (NotFound q)), s')
          ∧ files s' = delete q (files s);
  st_rename_spec p q p' q' s :
    validate_path p = Ok q → validate_path p' = Ok q' →
    match files s !! q with
    | Some d => ∃ s', st_rename p p' s = (Ok tt, s')
                      ∧ files s' = <[q' := d]> (delete q (files s))
    | None => st_rename p p' s = (Err (NotFound q), s)
    end;
  st_list_spec p q s :
    validate_path p = Ok q →
    st_list p s = ((if decide (list_children (files s) (q +:+ "/") = [])
                    then Err (NotFound p) else Ok (list_children (files s) (q +:+ "/"))), s);
  st_sync_spec p s : ∃ s', st_sync p s = (Ok tt, s') ∧ files s' = files s;
  st_sync_data_spec p s : ∃ s', st_sync_data p s = (Ok tt, s') ∧ files s' = files s;
  st_sync_root_spec s : ∃ s', st_sync_root s = (Ok tt, s') ∧ files s' = files s;
  st_lock_spec p q s :
    validate_path p = Ok q →
    ∃ r s', st_lock_exclusive p s = (r, s') ∧ files s' = files s
            ∧ (r = Ok q ∨ r = Err (LockTimeout q));
  st_unlock_spec q s : files (st_unlock q s) = files s;
}.

(** ** The in-memory backend *)

(** [data] is the map of the source; [held] abstracts the per-path semaphores:
    the paths whose permit is taken. *)
Record MemoryStorage := mkMem { data : gmap string bytes; held : gset string }.

Definition MemoryStorage_new : MemoryStorage := mkMem ∅ ∅.

Definition with_path {A} (path : string) (f : string → M MemoryStorage A) : M MemoryStorage A :=
  let! q := m_lift (validate_path path) in f q.
Definition set_data (d : gmap string bytes) (s : MemoryStorage) : MemoryStorage :=
  mkMem d (held s).

Definition mem_read (path : string) : M MemoryStorage bytes :=
  with_path path (λ q s, (of_option (NotFound q) (data s !! q), s)).
Definition mem_size (path : string) : M MemoryStorage u64 :=
  with_path path (λ q s, ((let? b := of_option (NotFound q) (data s !! q) in Ok (len b)), s)).
Definition mem_read_range (path : string) (offset length : u64) : M MemoryStorage bytes :=
  with_path path (λ q s,
    (let? b := of_option (NotFound q) (data s !! q) in
     let? stop := of_option (RangeReadError q "range length overflow")
                    (checked in_u64 (offset + length)) in
     if len b <? stop then Err (RangeReadError q "range exceeds object size")
     else slice b offset stop, s)).
Definition mem_write (path : string) (d : bytes) : M MemoryStorage unit :=
  with_path path (λ q s, (Ok tt, set_data (<[q := d]> (data s)) s)).
Definition mem_append (path : string) (d : bytes) : M MemoryStorage unit :=
  with_path path (λ q s, (Ok tt, set_data (<[q := default [] (data s !! q) ++ d]> (data s)) s)).
Definition mem_delete (path : string) : M MemoryStorage unit :=
  with_path path (λ q s,
    match data s !! q with
    | None => (Err (NotFound q), s)
    | Some _ => (Ok tt, set_data (delete q (data s)) s)
    end).
Definition mem_list (prefix : string) : M MemoryStorage (list string) :=
  let! normalized :=
    m_lift (if decide (prefix = "") then Ok ""
            else let? cleaned := validate_path prefix in
                 if ends_with "/" cleaned then Ok cleaned else Ok (cleaned +:+ "/")) in
  λ s,
    let children := list_children (data s) normalized in
    if (bool_decide (children = []) && negb (bool_decide (prefix = "")))%bool
    then (Err (NotFound prefix), s) else (Ok children, s).
Definition mem_rename (from to : string) : M MemoryStorage unit :=
  with_path from (λ q, with_path to (λ q' s,
    match data s !! q with
    | None => (Err (NotFound q), s)
    | Some v => (Ok tt, set_data (<[q' := v]> (delete q (data s))) s)
    end)).
Definition mem_exists (path : string) : M MemoryStorage bool :=
  with_path path (λ q s, (Ok (bool_decide (is_Some (data s !! q))), s)).
(** The permit is taken if free; a holder that never lets go makes the timed
    acquisition fail. *)
Definition mem_lock_exclusive (path : string) : M MemoryStorage string :=
  with_path path (λ q s,
    if decide (q ∈ held s) then (Err (LockTimeout q), s)
    else (Ok q, mkMem (data s) ({[q]} ∪ held s))).
Definition mem_unlock (q : string) (s : MemoryStorage) : MemoryStorage :=
  mkMem (data s) (held s ∖ {[q]}).
Definition mem_sync (_path : string) : M MemoryStorage unit := m_ret tt.
Definition mem_sync_data (_path : string) : M MemoryStorage unit := m_ret tt.
(** [sync_root]'s default body. *)
Definition mem_sync_root : M MemoryStorage unit := m_ret tt.

#[export] Instance MemoryStorage_Storage : Storage MemoryStorage := {
  st_read := mem_read; st_size := mem_size; st_read_range := mem_read_range;
  st_write := mem_write; st_append := mem_append; st_delete := mem_delete;
  st_rename := mem_rename; st_list := mem_list; st_exists := mem_exists;
  st_sync := mem_sync; st_sync_data := mem_sync_data;
  st_sync_root := mem_sync_root;
  st_lock_exclusive := mem_lock_exclusive; st_unlock := mem_unlock;
}.

(** [Storage::append]'s default body, for backends that do not override it. *)
Definition default_append {St} `{!Storage St} (path : string) (d : bytes) : M St unit :=
  match! st_read path as r in
  match r with
  | Ok existing => st_write path (existing ++ d)
  | Err e => if is_not_found e then st_write path d else m_lift (Err e)
  | Panic => m_lift Panic
  end.

(** ** Clean paths *)

(** A piece that survives validation as it is. *)
Definition good_piece (p : string) : Prop := piece_component p = Some (Normal p).
Definition clean (p : string) : Prop := Forall good_piece (split_on "/" p).
#[export] Instance good_piece_dec p : Decision (good_piece p).
Proof.
  unfold good_piece, piece_component.
  destruct (decide (p = "")), (decide (p = ".")), (decide (p = ".."));
    first [by left | right; congruence].
Defined.
#[export] Instance clean_dec p : Decision (clean p) := _.

Lemma clean_bool p : bool_decide (clean p) = true → clean p.
Proof. apply bool_decide_eq_true. Qed.

Fixpoint join_pieces (ps : list string) : string :=
  match ps with
  | [] => ""
  | [p] => p
  | p :: ps => p +:+ "/" +:+ join_pieces ps
  end.

Lemma join_split s : join_pieces (split_on "/" s) = s.
Proof.
  induction s as [|a s IH]; [done|]. cbn [split_on]. case_decide; subst.
  - pose proof (split_on_not_nil "/" s). destruct (split_on "/" s) eqn:E; [done|].
    cbn [join_pieces]. cbn [join_pieces] in IH. by rewrite IH.
  - destruct (split_on "/" s) as [|p ps] eqn:E; [by destruct (split_on_not_nil "/" s)|].
    destruct ps; cbn [join_pieces] in *; by rewrite <-IH.
Qed.

Lemma good_piece_nonempty p : good_piece p → p ≠ "".
Proof. by intros H ->. Qed.

Lemma omap_good ps : Forall good_piece ps → omap piece_component ps = Normal <$> ps.
Proof.
  induction 1 as [|p ps Hp _ IH]; [done|].
  unfold good_piece in Hp. cbn. rewrite Hp. cbn. f_equal. exact IH.
Qed.

Lemma clean_components_good raw ps acc :
  Forall good_piece ps → acc ≠ "" →
  clean_components raw (Normal <$> ps) acc
  = Ok (match ps with [] => acc | _ => acc +:+ "/" +:+ join_pieces ps end).
Proof.
  intros Hp. revert acc. induction Hp as [|p ps Hp Hps IH]; intros acc Ha; [done|].
  cbn [fmap list_fmap clean_components]. rewrite decide_False by done.
  rewrite IH by (by destruct acc). destruct ps; [done|].
  cbn [join_pieces]. by rewrite !string_app_assoc.
Qed.

Lemma clean_not_absolute p : clean p → is_absolute p = false.
Proof.
  intros Hc. unfold is_absolute, starts_with. apply bool_decide_eq_false.
  intros [r Hr]. apply strip_prefix_Some in Hr as ->. by inversion Hc.
Qed.

Lemma components_clean p : clean p → components p = Normal <$> split_on "/" p.
Proof.
  intros Hc. unfold components. rewrite clean_not_absolute by done. simpl.
  rewrite omap_good by done. unfold clean in Hc.
  destruct (split_on "/" p) as [|x xs]; [done|]. inversion Hc as [|?? Hx]; subst.
  rewrite decide_False; [done|]. intros ->. done.
Qed.

Lemma clean_validate p : clean p → validate_path p = Ok p.
Proof.
  intros Hc. unfold validate_path. rewrite decide_False by (intros ->; by inversion Hc).
  rewrite clean_not_absolute, components_clean by done.
  assert (clean_components p (Normal <$> split_on "/" p) "" = Ok p) as ->.
  { rewrite <-(join_split p) at 3. unfold clean in Hc.
    destruct (split_on "/" p) as [|x xs] eqn:E; [by destruct (split_on_not_nil "/" p)|].
    inversion Hc as [|?? Hx Hxs]; subst. cbn [fmap list_fmap clean_components].
    rewrite decide_True by done.
    rewrite clean_components_good by (done || by apply good_piece_nonempty).
    by destruct xs. }
  cbn [res_bind]. rewrite decide_False; [done|]. intros ->. by inversion Hc.
Qed.

Lemma clean_join a b : clean a → clean b → clean (a +:+ "/" +:+ b).
Proof.
  intros. unfold clean. change ("/" +:+ b) with (String "/" b).
  rewrite split_on_app. by apply Forall_app.
Qed.

(** Validation yields a clean path. *)
Lemma clean_append_piece acc p : clean acc → good_piece p → contains_char "/" p = false →
  clean (acc +:+ "/" +:+ p).
Proof.
  intros. apply clean_join; [done|]. unfold clean. rewrite split_on_clean by done. by constructor.
Qed.

Lemma split_on_no_char c s : Forall (λ p, contains_char c p = false) (split_on c s).
Proof.
  induction s as [|a s IH]; simpl; [by constructor|]. case_decide; [by constructor|].
  destruct (split_on c s) as [|p ps]; [by repeat constructor; simpl; rewrite bool_decide_eq_false_2|].
  inversion IH; subst. constructor; [|done]. simpl. by rewrite bool_decide_eq_false_2.
Qed.

Lemma clean_components_clean raw ps acc q :
  Forall (λ p, contains_char "/" p = false) ps → acc = "" ∨ clean acc →
  clean_components raw (omap piece_component ps) acc = Ok q → q = "" ∨ clean q.
Proof.
  intros Hp. revert acc. induction Hp as [|p ps Hp Hps IH]; intros acc Ha; simpl.
  { by intros [= <-]. }
  destruct (piece_component p) as [c|] eqn:Ec; [|by apply IH].
  unfold piece_component in Ec. repeat case_decide; simplify_eq/=; [done|].
  assert (good_piece p) as Hg by (unfold good_piece, piece_component; by rewrite !decide_False).
  apply IH. right. case_decide as Hacc.
  - unfold clean. rewrite split_on_clean by done. by constructor.
  - apply clean_append_piece; [by destruct Ha|done..].
Qed.

(** A validated path is a nonempty sequence of plain components: no root, no parent, no
    empty or current-directory component survives. *)
Theorem validate_path_clean raw q : validate_path raw = Ok q → clean q.
Proof.
  unfold validate_path. case_decide; [done|]. destruct (is_absolute raw) eqn:Habs; [done|].
  unfold components. rewrite Habs. simpl app.
  assert (∀ cs, clean_components raw (match split_on "/" raw with
             | p :: _ => if decide (p = ".") then [CurDir] else [] | [] => [] end ++ cs) ""
           = clean_components raw cs "") as ->.
  { intros cs. destruct (split_on "/" raw); [done|]. by case_decide. }
  destruct (clean_components _ _ _) as [c| |] eqn:E; [|done..]. simpl. case_decide; [done|].
  intros [= <-]. eapply clean_components_clean in E; [|apply split_on_no_char|by left].
  by destruct E.
Qed.

#[export] Hint Resolve clean_validate clean_join : icefall.

(** ** Children *)

Lemma bm_collect_dom {V} (l : list (string * V)) k :
  k ∈ (bm_collect l).*1 ↔ k ∈ l.*1.
Proof.
  unfold bm_collect.
  assert (∀ m : bmap V, bm_sorted m →
    k ∈ (foldl (λ m kv, bm_insert kv.1 kv.2 m) m l).*1 ↔ k ∈ l.*1 ∨ k ∈ m.*1) as H.
  { induction l as [|[a v] l IH]; intros m Hm; simpl; [set_solver|].
    rewrite IH by (by apply bm_insert_sorted). rewrite elem_of_cons.
    assert (∀ (m' : bmap V), bm_sorted m' → k ∈ m'.*1 ↔ is_Some (bm_get k m')) as Hd.
    { intros m' Hm'. rewrite list_elem_of_fmap. split.
      - intros ([k' w]&->&Hin). exists w. by apply bm_elem_get.
      - intros [w Hw%bm_get_Some_elem]. by exists (k, w). }
    rewrite (Hd (bm_insert a v m)), (Hd m) by (try apply bm_insert_sorted; done).
    rewrite bm_get_insert. case_decide; naive_solver. }
  rewrite H by constructor. set_solver.
Qed.

Lemma elem_of_list_children fs n c :
  c ∈ list_children fs n ↔ ∃ key d, fs !! key = Some d ∧ child_of n key = Some c.
Proof.
  unfold list_children. rewrite bm_collect_dom. rewrite <-list_fmap_compose.
  assert (∀ l : list string, (fst ∘ (λ c, (c, tt))) <$> l = l) as Hid
    by (intros l; induction l; simpl; f_equal; auto).
  rewrite Hid. rewrite list_elem_of_omap. split.
  - intros (key&(kv&->&Hin)%list_elem_of_fmap&Hc). destruct kv as [key d].
    apply elem_of_map_to_list in Hin. eauto.
  - intros (key&d&Hk&Hc). exists key. split; [|done]. apply list_elem_of_fmap.
    exists (key, d). split; [done|]. by apply elem_of_map_to_list.
Qed.

(** A file whose name has no slash is its own child entry. *)
Lemma split_once_none c s : contains_char c s = false → split_once c s = None.
Proof.
  induction s as [|a s IH]; simpl; [done|]. intros [Ha Hs]%orb_false_iff.
  apply bool_decide_eq_false in Ha. rewrite decide_False by done. by rewrite IH.
Qed.
Lemma child_of_file n f :
  contains_char "/" f = false → child_of n (n +:+ f) = Some (n +:+ f).
Proof.
  intros Hf. unfold child_of. rewrite strip_prefix_app. simpl. by rewrite split_once_none.
Qed.

(** ** The in-memory backend implements the interface *)

Lemma ends_with_slash_clean q : clean q → ends_with "/" q = false.
Proof.
  intros Hc. destruct (ends_with "/" q) eqn:E; [|done].
  apply ends_with_spec in E as [r ->]. unfold clean in Hc.
  change (r +:+ "/") with (r +:+ String "/" "") in Hc. rewrite split_on_app in Hc.
  apply Forall_app in Hc as [_ Hc]. by inversion Hc.
Qed.

#[export] Program Instance MemoryStorage_laws : StorageLaws MemoryStorage :=
  {| files := data |}.
Next Obligation.
  intros p q s Hp. simpl. unfold mem_read, with_path, m_bind, m_lift. by rewrite Hp.
Qed.
Next Obligation.
  intros p q s Hp. simpl. unfold mem_exists, with_path, m_bind, m_lift. by rewrite Hp.
Qed.
Next Obligation.
  intros p q d s Hp. simpl. unfold mem_write, with_path, m_bind, m_lift. rewrite Hp. eauto.
Qed.
Next Obligation.
  intros p q d s Hp. simpl. unfold mem_append, with_path, m_bind, m_lift. rewrite Hp. eauto.
Qed.
Next Obligation.
  intros p q s Hp. simpl. unfold mem_delete, with_path, m_bind, m_lift. rewrite Hp.
  destruct (data s !! q) eqn:E; [eauto|]. exists s. split; [done|].
  by rewrite delete_id.
Qed.
Next Obligation.
  intros p q p' q' s Hp Hp'. simpl. unfold mem_rename, with_path, m_bind, m_lift. rewrite Hp, Hp'.
  destruct (data s !! q) eqn:E; eauto.
Qed.
Next Obligation.
  intros p q s Hp. simpl. unfold mem_list, m_bind, m_lift.
  rewrite decide_False by (intros ->; done). rewrite Hp. cbn [res_bind].
  rewrite ends_with_slash_clean by (by eapply validate_path_clean).
  rewrite (bool_decide_eq_false_2 (p = "")) by (intros ->; done).
  case_bool_decide; case_decide; done.
Qed.
Next Obligation. intros p s. exists s. done. Qed.
Next Obligation. intros p s. exists s. done. Qed.
Next Obligation. intros s. exists s. done. Qed.
Next Obligation.
  intros p q s Hp. simpl. unfold mem_lock_exclusive, with_path, m_bind, m_lift. rewrite Hp.
  case_decide; eauto 10.
Qed.
Next Obligation. done. Qed.

(** ** File names *)

(** A single path component. *)
Definition file_piece (f : string) : Prop := good_piece f ∧ contains_char "/" f = false.
Lemma file_piece_clean f : file_piece f → clean f.
Proof. intros [??]. unfold clean. rewrite split_on_clean by done. by constructor. Qed.
Lemma file_piece_suffix f x suf :
  contains_char "/" f = false → contains_char "/" (String x suf) = false →
  x ≠ "."%char ∨ (2 < String.length (f +:+ String x suf))%nat →
  file_piece (f +:+ String x suf).
Proof.
  intros Hf Hs Hn. split; [|by rewrite contains_char_app, Hf, Hs].
  unfold good_piece, piece_component. rewrite !decide_False; [done|..].
  - intros E. rewrite E in Hn. simpl in Hn. destruct Hn as [Hn|]; [|lia].
    destruct f as [|a [|b f]]; simpl in E; simplify_eq. by destruct f.
  - intros E. rewrite E in Hn. simpl in Hn. destruct Hn as [Hn|]; [|lia].
    destruct f as [|a f]; simpl in E; simplify_eq. by destruct f.
  - by destruct f.
Qed.

Lemma file_name_join d f : clean d → file_piece f → file_name (d +:+ "/" +:+ f) = Some f.
Proof.
  intros Hd [Hg Hf]. unfold file_name. rewrite components_clean.
  - change ("/" +:+ f) with (String "/" f). rewrite split_on_app, fmap_app.
    rewrite (split_on_clean "/" f) by done. cbn [fmap list_fmap]. by rewrite last_snoc.
  - apply clean_join; [done|]. by apply file_piece_clean.
Qed.

(** A file directly below a directory is listed there. *)
Lemma list_children_file fs d f b :
  contains_char "/" f = false → fs !! (d +:+ "/" +:+ f) = Some b →
  (d +:+ "/" +:+ f) ∈ list_children fs (d +:+ "/").
Proof.
  intros Hf Hb. apply elem_of_list_children. exists (d +:+ "/" +:+ f), b. split; [done|].
  rewrite string_app_assoc. by apply child_of_file.
Qed.

(** ** Trees of files *)

(** Every key is a clean path, and no file is also a directory. *)
Definition tidy (fs : gmap string bytes) : Prop :=
  (∀ p, is_Some (fs !! p) → clean p)
  ∧ ∀ p r, is_Some (fs !! p) → fs !! (p +:+ "/" +:+ r) = None.

Lemma tidy_sub fs fs' : fs' ⊆ fs → tidy fs → tidy fs'.
Proof.
  intros Hs [Hc Ht]. split.
  - intros p [b Hb]. apply Hc. exists b. by eapply lookup_weaken.
  - intros p r [b Hb]. destruct (fs' !! (p +:+ "/" +:+ r)) eqn:E; [|done].
    assert (is_Some (fs !! p)) as Hp by (exists b; by eapply lookup_weaken).
    specialize (Ht p r Hp). eapply lookup_weaken in E; [|done]. congruence.
Qed.

Lemma split_once_Some c s a b : split_once c s = Some (a, b) → s = a +:+ String c b.
Proof.
  revert a b. induction s as [|x s IH]; intros a b; simpl; [done|]. case_decide; subst.
  - by intros [= <- <-].
  - destruct (split_once c s) as [[p q]|] eqn:E; [|done]. simpl. intros [= <- <-].
    simpl. by rewrite (IH p q).
Qed.
(** A listed child is a file or the directory of one. *)
Lemma child_of_cases n key e :
  child_of n key = Some e → key = e ∨ ∃ r, key = e +:+ "/" +:+ r.
Proof.
  unfold child_of. intros (rest&Hrest&E)%bind_Some. apply strip_prefix_Some in Hrest as ->.
  destruct (split_once "/" rest) as [[comp r]|] eqn:Hs; simplify_eq; [right|by left].
  apply split_once_Some in Hs as ->. exists r. by rewrite <-string_app_assoc.
Qed.
Lemma child_of_prefix n key e : child_of n key = Some e → ∃ c, e = n +:+ c ∧ contains_char "/" c = false.
Proof.
  unfold child_of. intros (rest&Hrest&E)%bind_Some. clear Hrest.
  assert (∀ s, match split_once "/" s with
               | Some (c, _) => contains_char "/" c = false
               | None => contains_char "/" s = false
               end) as H.
  { clear. induction s as [|x s IH]; [done|]. simpl. case_decide; [done|].
    rewrite bool_decide_eq_false_2 by done. by destruct (split_once "/" s) as [[]|]; simpl;
      rewrite ?bool_decide_eq_false_2. }
  specialize (H rest). destruct (split_once "/" rest) as [[comp r]|]; simplify_eq; eauto.
Qed.
Lemma clean_prefix a b : clean (a +:+ "/" +:+ b) → clean a.
Proof.
  unfold clean. change ("/" +:+ b) with (String "/" b). rewrite split_on_app.
  by intros [? _]%Forall_app.
Qed.
Lemma child_clean fs n e : tidy fs → e ∈ list_children fs n → clean e.
Proof.
  intros [Hc _] (key&d&Hk&Hch)%elem_of_list_children.
  assert (clean key) as Hkey by (apply Hc; eauto).
  apply child_of_cases in Hch as [->|[r ->]]; [done|by apply clean_prefix in Hkey].
Qed.
(** What was a file stays one, as long as it is listed. *)
Lemma child_still_file fs fs' n e :
  fs' ⊆ fs → tidy fs → e ∈ list_children fs' n → is_Some (fs !! e) → is_Some (fs' !! e).
Proof.
  intros Hs [_ Ht] (key&d&Hk&Hch)%elem_of_list_children He.
  apply child_of_cases in Hch as [->|[r ->]]; [eauto|].
  eapply lookup_weaken in Hk; [|done]. by rewrite Ht in Hk.
Qed.
Lemma list_children_mono fs fs' n e :
  fs' ⊆ fs → e ∈ list_children fs' n → e ∈ list_children fs n.
Proof.
  intros Hs (key&d&Hk&Hch)%elem_of_list_children. apply elem_of_list_children.
  exists key, d. split; [by eapply lookup_weaken|done].
Qed.
Lemma list_children_NoDup fs n : NoDup (list_children fs n).
Proof. unfold list_children. apply bm_sorted_NoDup, bm_collect_sorted. Qed.
