(* ===== verification/Json.v ===== *)
(** * JSON values, canonical form, checksums and derived (de)serialization

    [metadata/checksum.rs], the [serde_json::Value] it works on, and what the
    [#[derive(Serialize, Deserialize)]] of the metadata structs produces: the
    class [Serde].  The text format of [serde_json] and the digest of [sha2] and
    [hex] are parameters ([SerdeJson], [Sha256]). *)

From S2P Require Import Prelude Bytes Text OrdMap.
From Stdlib Require Import Ascii String.

#[local] Open Scope list_scope.
#[local] Open Scope Z_scope.

(** ** [serde_json::Value] *)

(** Floats are kept as their IEEE bit pattern. *)
Inductive Number :=
  | PosInt (n : u64)
  | NegInt (n : i64)
  | Float (bits : u64).

(** [serde_json::Map] is a [BTreeMap<String, Value>]. *)
Inductive Value :=
  | VNull
  | VBool (b : bool)
  | VNumber (n : Number)
  | VString (s : string)
  | VArray (l : list Value)
  | VObject (m : list (string * Value)).

#[export] Instance Number_eq_dec : EqDecision Number.
Proof. solve_decision. Defined.

Section value_ind.
Variable P : Value → Prop.
Hypothesis Hnull : P VNull.
Hypothesis Hbool : ∀ b, P (VBool b).
Hypothesis Hnum : ∀ n, P (VNumber n).
Hypothesis Hstr : ∀ s, P (VString s).
Hypothesis Harr : ∀ l, Forall P l → P (VArray l).
Hypothesis Hobj : ∀ m, Forall (λ kv, P kv.2) m → P (VObject m).

Fixpoint value_ind (v : Value) : P v :=
  match v with
  | VNull => Hnull
  | VBool b => Hbool b
  | VNumber n => Hnum n
  | VString s => Hstr s
  | VArray l =>
      Harr l ((fix go l : Forall P l :=
                 match l with
                 | [] => Forall_nil_2 _
                 | x :: l => Forall_cons_2 _ _ _ (value_ind x) (go l)
                 end) l)
  | VObject m =>
      Hobj m ((fix go m : Forall (λ kv, P kv.2) m :=
                 match m with
                 | [] => Forall_nil_2 _
                 | kv :: m => Forall_cons_2 _ _ _ (value_ind kv.2) (go m)
                 end) m)
  end.
End value_ind.

(** Values as the crate builds them: objects in key order, without duplicates,
    numbers in range. *)
Definition number_wf (n : Number) : Prop :=
  match n with
  | PosInt n => in_u64 n
  | NegInt n => - 2 ^ 63 <= n < 0
  | Float b => in_u64 b
  end.
Inductive value_wf : Value → Prop :=
  | wf_null : value_wf VNull
  | wf_bool b : value_wf (VBool b)
  | wf_num n : number_wf n → value_wf (VNumber n)
  | wf_str s : value_wf (VString s)
  | wf_arr l : Forall value_wf l → value_wf (VArray l)
  | wf_obj m : bm_sorted m → Forall (λ kv, value_wf kv.2) m → value_wf (VObject m).

(** The same without the order: what a printer streams, fields in declaration
    order and hash maps in iteration order. *)
Inductive value_distinct : Value → Prop :=
  | distinct_null : value_distinct VNull
  | distinct_bool b : value_distinct (VBool b)
  | distinct_num n : number_wf n → value_distinct (VNumber n)
  | distinct_str s : value_distinct (VString s)
  | distinct_arr l : Forall value_distinct l → value_distinct (VArray l)
  | distinct_obj m : NoDup m.*1 → Forall (λ kv, value_distinct kv.2) m → value_distinct (VObject m).

(** ** Canonical form and checksums *)

Definition key_le (a b : string * Value) : Prop := str_ltb b.1 a.1 = false.
#[export] Instance key_le_dec a b : Decision (key_le a b).
Proof. unfold key_le. apply _. Defined.

(** [items.sort_by(|a, b| a.0.cmp(b.0))]: stable insertion. *)
Fixpoint insert_item (x : string * Value) (l : list (string * Value)) : list (string * Value) :=
  match l with
  | [] => [x]
  | y :: l' => if str_ltb y.1 x.1 then y :: insert_item x l' else x :: l
  end.
Definition sort_items (l : list (string * Value)) : list (string * Value) :=
  foldr insert_item [] l.

Fixpoint canonicalize (v : Value) : Value :=
  match v with
  | VObject m => VObject (bm_collect (sort_items (map (λ kv, (kv.1, canonicalize kv.2)) m)))
  | VArray l => VArray (map canonicalize l)
  | other => other
  end.

(** The SHA-256 digest in hexadecimal. *)
Class Sha256 := sha256_hex : bytes → string.

(** The text format: compact and pretty printers and the parser.  A float is
    printed with the shortest digits that determine it; the parser, without the
    crate's [float_roundtrip] feature, may read other digits back off by a unit
    in the last place: [json_float_exact] says it does not for this float (by
    its bits). *)
Class SerdeJson := {
  json_to_vec : Value → bytes;
  json_to_vec_pretty : Value → bytes;
  json_parse : bytes → option Value;
  json_float_exact : u64 → Prop;
}.
(** Values whose floats, at any depth, are read back exactly. *)
Inductive value_exact `{!SerdeJson} : Value → Prop :=
  | exact_null : value_exact VNull
  | exact_bool b : value_exact (VBool b)
  | exact_num n : (∀ b, n = Float b → json_float_exact b) → value_exact (VNumber n)
  | exact_str s : value_exact (VString s)
  | exact_arr l : Forall value_exact l → value_exact (VArray l)
  | exact_obj m : Forall (λ kv, value_exact kv.2) m → value_exact (VObject m).
(** The parser builds well-formed values; printing a value and reading it back
    gives its canonical form, objects being read into ordered maps; equal texts
    are of equal values; compact output is one line and a proper prefix of an
    object is not a document. *)
Class SerdeJsonLaws `{!SerdeJson} := {
  json_parse_wf b v : json_parse b = Some v → value_wf v;
  json_parse_stream v :
    value_distinct v → value_exact v → json_parse (json_to_vec v) = Some (canonicalize v);
  json_parse_stream_pretty v :
    value_distinct v → value_exact v → json_parse (json_to_vec_pretty v) = Some (canonicalize v);
  json_to_vec_inj v w : value_wf v → value_wf w → json_to_vec v = json_to_vec w → v = w;
  json_to_vec_line v : Byte.x0a ∉ json_to_vec v;
  json_to_vec_brace m : head (json_to_vec (VObject m)) = Some Byte.x7b;
  json_to_vec_prefix m p q :
    json_to_vec (VObject m) = p ++ q → q ≠ [] → json_parse p = None;
}.

Definition checksum_bytes `{Sha256} (data : bytes) : string :=
  "sha256:" +:+ sha256_hex data.
Definition checksum_json `{Sha256, SerdeJson} (value : Value) : string :=
  checksum_bytes (json_to_vec (canonicalize value)).

(** ** Derived serialization *)

(** [serde_json::to_value] and [serde_json::from_value] of a type. *)
Class Serde (A : Type) := {
  to_value : A → Value;
  of_value : Value → option A;
}.
(** The values of a type that its serialized form determines. *)
Class SerdeLaws (A : Type) `{!Serde A} := {
  serde_wf : A → Prop;
  to_value_wf a : serde_wf a → value_wf (to_value a);
  of_to_value a : serde_wf a → of_value (to_value a) = Some a;
  of_value_wf v a : value_wf v → of_value v = Some a → serde_wf a;
}.
(** Types whose values never print as [null], so that an [Option] of them can
    be read back. *)
Class SerdeNonNull (A : Type) `{!Serde A} := to_value_not_null a : to_value a ≠ VNull.

Definition from_slice {A} `{!SerdeJson, !Serde A} (b : bytes) : option A :=
  v ← json_parse b; of_value v.
Definition to_vec {A} `{!SerdeJson, !Serde A} (a : A) : bytes := json_to_vec (to_value a).
Definition to_vec_pretty {A} `{!SerdeJson, !Serde A} (a : A) : bytes :=
  json_to_vec_pretty (to_value a).

#[export] Instance Serde_u64 : Serde u64 := {
  to_value n := VNumber (PosInt n);
  of_value v := match v with VNumber (PosInt n) => Some n | _ => None end;
}.
#[export] Instance Serde_bool : Serde bool := {
  to_value b := VBool b;
  of_value v := match v with VBool b => Some b | _ => None end;
}.
#[export] Instance Serde_string : Serde string := {
  to_value s := VString s;
  of_value v := match v with VString s => Some s | _ => None end;
}.
#[export] Instance Serde_value : Serde Value := {
  to_value v := v;
  of_value v := Some v;
}.
#[export] Instance Serde_option {A} `{!Serde A} : Serde (option A) := {
  to_value o := match o with Some a => to_value a | None => VNull end;
  of_value v := match v with VNull => Some None | v => Some <$> of_value v end;
}.
#[export] Instance Serde_list {A} `{!Serde A} : Serde (list A) := {
  to_value l := VArray (to_value <$> l);
  of_value v := match v with VArray l => mapM of_value l | _ => None end;
}.
(** [HashMap<String, A>] and [BTreeMap<String, A>]. *)
#[export] Instance Serde_gmap {A} `{!Serde A} : Serde (gmap string A) := {
  to_value m := VObject (bm_collect (prod_map id to_value <$> map_to_list m));
  of_value v :=
    match v with
    | VObject m => list_to_map <$> mapM (λ kv, a ← of_value kv.2; Some (kv.1, a)) m
    | _ => None
    end;
}.

(** *** Struct fields *)

(** A field that is always written, one that is written when [b] holds
    ([skip_serializing_if]), and the three ways of reading one: required,
    [#[serde(default)]], and an [Option]. *)
Definition put {A} `{!Serde A} (k : string) (a : A) (m : bmap Value) : bmap Value :=
  bm_insert k (to_value a) m.
Definition put_if {A} `{!Serde A} (b : bool) (k : string) (a : A) (m : bmap Value) : bmap Value :=
  if b then put k a m else m.
Definition put_some {A} `{!Serde A} (k : string) (o : option A) (m : bmap Value) : bmap Value :=
  match o with Some a => put k a m | None => m end.
Definition field {A} `{!Serde A} (k : string) (m : bmap Value) : option A :=
  v ← bm_get k m; of_value v.
Definition field_default {A} `{!Serde A} (d : A) (k : string) (m : bmap Value) : option A :=
  match bm_get k m with Some v => of_value v | None => Some d end.
Definition field_opt {A} `{!Serde A} (k : string) (m : bmap Value) : option (option A) :=
  field_default None k m.
(** The same for a struct that is printed without going through [Value]: the
    fields in declaration order. *)
Definition stream {A} `{!Serde A} (k : string) (a : A) (l : list (string * Value))
    : list (string * Value) := (k, to_value a) :: l.
Definition stream_if {A} `{!Serde A} (b : bool) (k : string) (a : A)
    (l : list (string * Value)) : list (string * Value) := if b then stream k a l else l.
Definition stream_some {A} `{!Serde A} (k : string) (o : option A)
    (l : list (string * Value)) : list (string * Value) :=
  match o with Some a => stream k a l | None => l end.
Definition as_object (v : Value) : option (bmap Value) :=
  match v with VObject m => Some m | _ => None end.

Definition is_zero_u64 (v : u64) : bool := v =? 0.
Definition is_empty {A} (l : list A) : bool := match l with [] => true | _ => false end.

(** ** Lemmas *)

Lemma bm_get_put {A} `{!Serde A} k k' (a : A) m :
  bm_get k (put k' a m) = if decide (k = k') then Some (to_value a) else bm_get k m.
Proof. apply bm_get_insert. Qed.
Lemma bm_get_put_if {A} `{!Serde A} b k k' (a : A) m :
  bm_get k (put_if b k' a m)
  = if decide (k = k') then (if b then Some (to_value a) else bm_get k m) else bm_get k m.
Proof. destruct b; simpl; [apply bm_get_put|]. by case_decide. Qed.
Lemma bm_get_put_some {A} `{!Serde A} k k' (o : option A) m :
  bm_get k (put_some k' o m)
  = if decide (k = k') then (match o with Some a => Some (to_value a) | None => bm_get k m end)
    else bm_get k m.
Proof. destruct o; simpl; [apply bm_get_put|]. by case_decide. Qed.

Lemma bm_get_stream {A} `{!Serde A} k k' (a : A) l :
  bm_get k (stream k' a l) = if decide (k = k') then Some (to_value a) else bm_get k l.
Proof. done. Qed.
Lemma bm_get_stream_if {A} `{!Serde A} b k k' (a : A) l :
  bm_get k (stream_if b k' a l)
  = if decide (k = k') then (if b then Some (to_value a) else bm_get k l) else bm_get k l.
Proof. destruct b; simpl; [done|]. by case_decide. Qed.
Lemma bm_get_stream_some {A} `{!Serde A} k k' (o : option A) l :
  bm_get k (stream_some k' o l)
  = if decide (k = k') then (match o with Some a => Some (to_value a) | None => bm_get k l end)
    else bm_get k l.
Proof. destruct o; simpl; [done|]. by case_decide. Qed.

(** Objects in the making: sorted, with well-formed values. *)
Definition obj_wf (m : bmap Value) : Prop := bm_sorted m ∧ Forall (λ kv, value_wf kv.2) m.
Lemma bm_insert_values (P : Value → Prop) k v m :
  P v → Forall (λ kv, P kv.2) m → Forall (λ kv, P kv.2) (bm_insert k v m).
Proof.
  intros Hv. induction 1 as [|[k' v'] m Hx Hm IH]; simpl; [by repeat constructor|].
  case_decide; [by constructor|]. case_match; repeat constructor; done.
Qed.
Lemma obj_wf_nil : obj_wf [].
Proof. repeat constructor. Qed.
Lemma obj_wf_value m : obj_wf m → value_wf (VObject m).
Proof. intros []. by constructor. Qed.
Lemma obj_wf_put {A} `{!Serde A} k (a : A) m :
  value_wf (to_value a) → obj_wf m → obj_wf (put k a m).
Proof.
  intros ? []. split; [by apply bm_insert_sorted|].
  by apply (bm_insert_values value_wf).
Qed.
Lemma obj_wf_put_if {A} `{!Serde A} b k (a : A) m :
  value_wf (to_value a) → obj_wf m → obj_wf (put_if b k a m).
Proof. destruct b; simpl; [apply obj_wf_put|done]. Qed.
Lemma obj_wf_put_some {A} `{!Serde A} k (o : option A) m :
  (∀ a, o = Some a → value_wf (to_value a)) → obj_wf m → obj_wf (put_some k o m).
Proof. destruct o; simpl; [|done]. intros H. apply obj_wf_put. auto. Qed.
#[export] Hint Resolve obj_wf_nil obj_wf_put obj_wf_put_if obj_wf_put_some obj_wf_value : icefall.

#[export, refine] Instance SerdeLaws_u64 : SerdeLaws u64 := { serde_wf := in_u64 }.
Proof.
  - intros n Hn. by constructor.
  - done.
  - intros v n Hv. inversion Hv as [| |[]| | |]; simpl; by intros; simplify_eq.
Defined.
#[export, refine] Instance SerdeLaws_bool : SerdeLaws bool := { serde_wf _ := True }.
Proof. - constructor. - done. - done. Defined.
#[export, refine] Instance SerdeLaws_string : SerdeLaws string := { serde_wf _ := True }.
Proof. - constructor. - done. - done. Defined.
#[export, refine] Instance SerdeLaws_value : SerdeLaws Value := { serde_wf := value_wf }.
Proof. - done. - done. - by intros v w ? [= ->]. Defined.
#[export] Instance SerdeNonNull_u64 : SerdeNonNull u64.
Proof. done. Qed.
#[export] Instance SerdeNonNull_string : SerdeNonNull string.
Proof. done. Qed.
#[export] Instance SerdeNonNull_list {A} `{!Serde A} : SerdeNonNull (list A).
Proof. done. Qed.
#[export] Instance SerdeNonNull_gmap {A} `{!Serde A} : SerdeNonNull (gmap string A).
Proof. done. Qed.

#[export, refine] Instance SerdeLaws_option {A} `{!Serde A, !SerdeLaws A, !SerdeNonNull A} :
  SerdeLaws (option A) :=
  { serde_wf o := match o with Some a => serde_wf a | None => True end }.
Proof.
  - intros [a|]; simpl; [|constructor]. apply to_value_wf.
  - intros [a|]; simpl; [|done]. intros Hw. pose proof (of_to_value a Hw) as E.
    pose proof (to_value_not_null a). by destruct (to_value a); simplify_eq; rewrite E.
  - intros v [a|] Hv E; [|done]. apply (of_value_wf v a Hv).
    cbn in E. destruct v; simplify_eq/=; [..|]; by apply fmap_Some in E as (?&?&[= ->]).
Defined.
(** [Option<Value>]: a [null] reads back as [None]. *)
#[export, refine] Instance SerdeLaws_option_value : SerdeLaws (option Value) | 0 :=
  { serde_wf o := match o with Some v => value_wf v ∧ v ≠ VNull | None => True end }.
Proof.
  - intros [v|]; [|constructor]. by intros [].
  - intros [[]|]; by intros [].
  - intros v [w|] Hv E; [|done]. destruct v; by simplify_eq/=.
Defined.

#[export, refine] Instance SerdeLaws_list {A} `{!Serde A, !SerdeLaws A} : SerdeLaws (list A) :=
  { serde_wf := Forall serde_wf }.
Proof.
  - intros l Hl. constructor. apply Forall_fmap. eapply Forall_impl; [exact Hl|].
    intros a Ha. by apply to_value_wf.
  - intros l Hl. apply mapM_Some, Forall2_fmap_l, Forall_Forall2_diag.
    eapply Forall_impl; [exact Hl|]. intros a Ha. by apply of_to_value.
  - intros v l Hv E. destruct v as [| | | |vs|]; try done. apply mapM_Some in E.
    inversion Hv as [| | | |? Hvs|]; subst. clear Hv. induction E as [|v a vs l Ha _ IH].
    + constructor.
    + inversion Hvs; subst. constructor; [by eapply of_value_wf|by apply IH].
Defined.

(** The entries a map prints as. *)
Lemma gmap_entries {A} `{!Serde A} (m : gmap string A) :
  ∃ l, bm_collect (prod_map id to_value <$> map_to_list m) = prod_map id to_value <$> l
       ∧ map_to_list m ≡ₚ l.
Proof.
  set (l := prod_map id to_value <$> map_to_list m).
  assert (NoDup l.*1) as Hn.
  { unfold l. rewrite <-list_fmap_compose. apply (NoDup_fst_map_to_list m). }
  pose proof (bm_collect_perm l Hn) as Hp. unfold l in Hp at 2.
  apply Permutation_map_inv in Hp as (l2&Hl2&Hp). eauto.
Qed.
#[export, refine] Instance SerdeLaws_gmap {A} `{!Serde A, !SerdeLaws A} :
  SerdeLaws (gmap string A) := { serde_wf m := map_Forall (λ _, serde_wf) m }.
Proof.
  - intros m Hm. cbn [to_value Serde_gmap]. constructor; [apply bm_collect_sorted|].
    destruct (gmap_entries m) as (l&->&Hp). apply Forall_fmap, Forall_forall.
    intros [k a] Hin. rewrite <-Hp in Hin. apply elem_of_map_to_list in Hin.
    simpl. apply to_value_wf, (Hm k a Hin).
  - intros m Hm. cbn [of_value to_value Serde_gmap].
    destruct (gmap_entries m) as (l&->&Hp).
    assert (mapM (λ kv : string * Value, a ← of_value kv.2; Some (kv.1, a))
              (prod_map id to_value <$> l) = Some l) as ->.
    { apply mapM_Some, Forall2_fmap_l, Forall_Forall2_diag, Forall_forall.
      intros [k a] Hin. simpl. rewrite <-Hp in Hin. apply elem_of_map_to_list in Hin.
      by rewrite of_to_value by apply (Hm k a Hin). }
    simpl. f_equal. rewrite <-(list_to_map_to_list m). symmetry.
    apply list_to_map_proper; [apply (NoDup_fst_map_to_list m)|done].
  - intros v m Hv E. destruct v as [| | | | |vs]; try done. cbn in E.
    apply fmap_Some in E as (l&E&->). apply mapM_Some in E.
    inversion Hv as [| | | | |? _ Hvs]; subst. clear Hv.
    intros k a Hk. apply elem_of_list_to_map_2 in Hk.
    induction E as [|[k' v] [k2 a'] vs l Ha _ IH]; [by apply elem_of_nil in Hk|].
    inversion Hvs; subst. simpl in *. apply bind_Some in Ha as (a2&Ha&[= <- <-]).
    apply elem_of_cons in Hk as [[= -> ->]|Hk]; [by eapply of_value_wf|by apply IH].
Defined.

(** *** Canonical form *)

Lemma insert_item_perm x l : insert_item x l ≡ₚ x :: l.
Proof.
  induction l as [|y l IH]; simpl; [done|]. case_match; [|done].
  rewrite IH. apply Permutation_swap.
Qed.
Lemma sort_items_perm l : sort_items l ≡ₚ l.
Proof. induction l as [|x l IH]; simpl; [done|]. by rewrite insert_item_perm, IH. Qed.

Lemma bm_sorted_fmap (f : Value → Value) (m : bmap Value) :
  bm_sorted m → bm_sorted (map (λ kv, (kv.1, f kv.2)) m).
Proof.
  unfold bm_sorted. induction 1 as [|x m Hm IH Hx]; simpl; constructor; [done|].
  apply Forall_fmap. exact Hx.
Qed.
(** On the values of the crate, whose objects are ordered maps, canonicalizing
    is the identity. *)
Lemma canonicalize_wf v : value_wf v → canonicalize v = v.
Proof.
  induction v as [| | | |l IH|m IH] using value_ind; intros Hv; try done; simpl.
  - f_equal. inversion Hv as [| | | |? Hl|]; subst. clear Hv.
    induction IH as [|x l Hx _ IHl]; [done|]. inversion Hl; subst. simpl. f_equal; auto.
  - inversion Hv as [| | | | |? Hs Hm]; subst. f_equal.
    assert (map (λ kv, (kv.1, canonicalize kv.2)) m = m) as ->.
    { clear Hv Hs. induction IH as [|[k x] m Hx _ IHm]; [done|]. inversion Hm; subst. simpl.
      simpl in *. f_equal; [by rewrite Hx|auto]. }
    rewrite <-(bm_collect_id m Hs) at 2. apply bm_collect_permut; [|apply sort_items_perm].
    rewrite sort_items_perm. by apply bm_sorted_NoDup.
Qed.

(** The same document with the entries of its objects in another order, at any
    depth. *)
Inductive reordered : Value → Value → Prop :=
  | reordered_refl v : reordered v v
  | reordered_arr l l' : Forall2 reordered l l' → reordered (VArray l) (VArray l')
  | reordered_obj m m1 m' :
      NoDup m.*1 → Forall2 (λ a b, a.1 = b.1 ∧ reordered a.2 b.2) m m1 → m1 ≡ₚ m' →
      reordered (VObject m) (VObject m').

Lemma value_wf_distinct v : value_wf v → value_distinct v.
Proof.
  induction v as [| | | |l IH|m IH] using value_ind; inversion 1 as [| | | |? Hl|? Hs Hm];
    subst; constructor; try done.
  - rewrite Forall_forall in *. auto.
  - by apply bm_sorted_NoDup.
  - rewrite Forall_forall in *. auto.
Qed.
Lemma canonicalize_distinct v : value_distinct v → value_wf (canonicalize v).
Proof.
  induction v as [| | | |l IH|m IH] using value_ind; inversion 1 as [| | | |? Hl|? Hs Hm];
    subst; simpl; constructor; try done.
  - apply Forall_fmap. rewrite Forall_forall in *. simpl. auto.
  - apply bm_collect_sorted.
  - rewrite bm_collect_perm.
    + rewrite sort_items_perm. apply Forall_fmap. rewrite Forall_forall in *. simpl. auto.
    + rewrite sort_items_perm. change (map ?f m) with (f <$> m). by rewrite <-list_fmap_compose.
Qed.

Lemma json_parse_to_vec `{!SerdeJson, !SerdeJsonLaws} v :
  value_wf v → value_exact v → json_parse (json_to_vec v) = Some v.
Proof.
  intros Hv Hx. rewrite json_parse_stream by (done || by apply value_wf_distinct).
  by rewrite canonicalize_wf.
Qed.
Lemma json_parse_pretty `{!SerdeJson, !SerdeJsonLaws} v :
  value_wf v → value_exact v → json_parse (json_to_vec_pretty v) = Some v.
Proof.
  intros Hv Hx. rewrite json_parse_stream_pretty by (done || by apply value_wf_distinct).
  by rewrite canonicalize_wf.
Qed.

(** *** Values without floats, and objects of exact values *)

Class SerdeExact (A : Type) `{!SerdeJson, !Serde A} := to_value_exact (a : A) : value_exact (to_value a).
Section exact.
Context `{!SerdeJson}.
#[export] Instance SerdeExact_u64 : SerdeExact u64.
Proof. by constructor. Qed.
#[export] Instance SerdeExact_bool : SerdeExact bool.
Proof. constructor. Qed.
#[export] Instance SerdeExact_string : SerdeExact string.
Proof. constructor. Qed.
#[export] Instance SerdeExact_option {A} `{!Serde A, !SerdeExact A} : SerdeExact (option A).
Proof. intros [a|]; [apply (to_value_exact a)|constructor]. Qed.
#[export] Instance SerdeExact_list {A} `{!Serde A, !SerdeExact A} : SerdeExact (list A).
Proof. intros l. constructor. apply Forall_fmap, Forall_true. intros a. apply (to_value_exact a). Qed.
Lemma gmap_exact {A} `{!Serde A} (m : gmap string A) :
  map_Forall (λ _ a, value_exact (to_value a)) m → value_exact (to_value m).
Proof.
  intros Hm. cbn [to_value Serde_gmap]. constructor. destruct (gmap_entries m) as (l&->&Hp).
  apply Forall_fmap, Forall_forall. intros [k a] Hin. rewrite <-Hp in Hin.
  apply elem_of_map_to_list in Hin. exact (Hm k a Hin).
Qed.
#[export] Instance SerdeExact_gmap {A} `{!Serde A, !SerdeExact A} : SerdeExact (gmap string A).
Proof. intros m. apply gmap_exact. intros k a _. apply (to_value_exact a). Qed.

Definition obj_exact (m : list (string * Value)) : Prop := Forall (λ kv, value_exact kv.2) m.
Lemma obj_exact_nil : obj_exact [].
Proof. constructor. Qed.
Lemma obj_exact_put {A} `{!Serde A} k (a : A) m :
  value_exact (to_value a) → obj_exact m → obj_exact (put k a m).
Proof. apply (bm_insert_values value_exact). Qed.
Lemma obj_exact_put_if {A} `{!Serde A} b k (a : A) m :
  value_exact (to_value a) → obj_exact m → obj_exact (put_if b k a m).
Proof. destruct b; [apply obj_exact_put|done]. Qed.
Lemma obj_exact_put_some {A} `{!Serde A} k (o : option A) m :
  (∀ a, o = Some a → value_exact (to_value a)) → obj_exact m → obj_exact (put_some k o m).
Proof. destruct o; [|done]. intros Ho. apply obj_exact_put. by apply Ho. Qed.
Lemma obj_exact_stream {A} `{!Serde A} k (a : A) l :
  value_exact (to_value a) → obj_exact l → obj_exact (stream k a l).
Proof. by constructor. Qed.
Lemma obj_exact_stream_if {A} `{!Serde A} b k (a : A) l :
  value_exact (to_value a) → obj_exact l → obj_exact (stream_if b k a l).
Proof. destruct b; [by constructor|done]. Qed.
Lemma obj_exact_stream_some {A} `{!Serde A} k (o : option A) l :
  (∀ a, o = Some a → value_exact (to_value a)) → obj_exact l → obj_exact (stream_some k o l).
Proof. destruct o; [|done]. intros Ho. constructor; [by apply Ho|done]. Qed.
Lemma obj_exact_collect l : NoDup l.*1 → obj_exact l → obj_exact (bm_collect l).
Proof. intros Hn Hl. unfold obj_exact. by rewrite bm_collect_perm. Qed.
End exact.

(** An object whose fields hold no floats. *)
Ltac solve_exact :=
  try apply exact_obj;
  repeat first [ apply obj_exact_put | apply obj_exact_put_if | apply obj_exact_put_some
               | apply obj_exact_stream | apply obj_exact_stream_if | apply obj_exact_stream_some ];
  first [ apply obj_exact_nil | assumption
        | match goal with |- value_exact (@to_value Value _ ?v) =>
            change (value_exact v); first [assumption | apply to_value_exact] end
        | apply to_value_exact | (intros; apply to_value_exact) ].

Lemma insert_items_canonical l l' :
  NoDup l.*1 → l ≡ₚ l' → bm_collect (sort_items l) = bm_collect (sort_items l').
Proof.
  intros Hn Hp. apply bm_collect_permut.
  - by rewrite sort_items_perm.
  - by rewrite !sort_items_perm.
Qed.

(** Documents that differ only in the order of object entries, at any depth, have the
    same canonical form. *)
Theorem canonicalize_reordered v w : reordered v w → canonicalize v = canonicalize w.
Proof.
  revert w. induction v as [| | | |l IH|m IH] using value_ind; intros w Hr;
    inversion Hr as [|? l' Hl|? m1 m' Hn Hm Hp]; subst; try done; simpl.
  - f_equal. clear Hr. revert IH. induction Hl as [|x y l l' Hxy Hl IHl]; intros IH; [done|].
    inversion IH; subst. simpl. f_equal; auto.
  - f_equal.
    assert (map (λ kv, (kv.1, canonicalize kv.2)) m = map (λ kv, (kv.1, canonicalize kv.2)) m1)
      as ->.
    { clear Hr Hn Hp. revert IH. induction Hm as [|[k x] [k' y] m m1 [Hk Hxy] Hm IHm]; intros IH;
        [done|]. inversion IH; subst. simpl in *. subst k'. f_equal; [|by apply IHm].
      f_equal. auto. }
    apply insert_items_canonical; [|by apply Permutation_map].
    assert (m.*1 = m1.*1) as Hk.
    { clear -Hm. induction Hm as [|? ? ? ? [E _] _ IHm]; [done|]. rewrite !fmap_cons. by rewrite E, IHm. }
    rewrite Hk in Hn. change (map ?f m1) with (f <$> m1). by rewrite <-list_fmap_compose.
Qed.

(** Reading back the fields of an object under construction: each lookup skips
    the other fields and hits its own. *)
Ltac find_field :=
  repeat (match goal with
          | |- context [bm_get ?k (put ?k' ?a ?m)] => rewrite (bm_get_put k k' a m)
          | |- context [bm_get ?k (put_if ?b ?k' ?a ?m)] => rewrite (bm_get_put_if b k k' a m)
          | |- context [bm_get ?k (put_some ?k' ?o ?m)] => rewrite (bm_get_put_some k k' o m)
          | |- context [bm_get ?k (stream ?k' ?a ?m)] => rewrite (bm_get_stream k k' a m)
          | |- context [bm_get ?k (stream_if ?b ?k' ?a ?m)] => rewrite (bm_get_stream_if b k k' a m)
          | |- context [bm_get ?k (stream_some ?k' ?o ?m)] => rewrite (bm_get_stream_some k k' o m)
          end;
          match goal with
          | |- context [decide (?k = ?k')] =>
              first [ rewrite (decide_False (P:=k = k')) by discriminate
                    | rewrite (decide_True (P:=k = k')) by reflexivity ]
          end).
Lemma field_put {A} `{!Serde A, !SerdeLaws A} k (a : A) m :
  bm_get k m = Some (to_value a) → serde_wf a → field k m = Some a.
Proof. unfold field. intros ->. apply of_to_value. Qed.
Lemma field_default_put_if {A} `{!Serde A, !SerdeLaws A} (b : bool) k (a d : A) m :
  bm_get k m = (if b then Some (to_value a) else None) → serde_wf a → (b = false → a = d) →
  field_default d k m = Some a.
Proof.
  unfold field_default. intros -> Hw Hd. destruct b; [by apply of_to_value|]. by rewrite Hd.
Qed.
Lemma field_opt_put_some {A} `{!Serde A, !SerdeLaws (option A)} k (o : option A) m :
  bm_get k m = match o with Some a => Some (to_value a) | None => None end → serde_wf o →
  field_opt k m = Some o.
Proof.
  unfold field_opt, field_default. destruct o as [a|]; intros ->; [|done].
  exact (of_to_value (Some a)).
Qed.
Lemma string_wf (o : string) : serde_wf o.
Proof. done. Qed.
Lemma string_value_wf (o : option string) a : o = Some a → value_wf (to_value a).
Proof. constructor. Qed.
Lemma strings_wf (l : list string) : serde_wf l.
Proof. by induction l; constructor. Qed.
Lemma option_string_wf (o : option string) : serde_wf o.
Proof. by destruct o. Qed.
#[export] Hint Resolve string_value_wf to_value_wf : icefall.
Lemma is_zero_default (v : Z) : negb (is_zero_u64 v) = false → v = 0.
Proof. intros H%negb_false_iff%Z.eqb_eq. done. Qed.
Lemma is_empty_default {A} (l : list A) : negb (is_empty l) = false → l = [].
Proof. by destruct l. Qed.
Lemma empty_map_default {A} (m : gmap string A) `{!Decision (m = ∅)} :
  negb (bool_decide (m = ∅)) = false → m = ∅.
Proof. intros H%negb_false_iff. by apply bool_decide_eq_true in H. Qed.
Definition is_empty_string (s : string) : bool := bool_decide (s = "").
Lemma is_empty_string_default (s : string) : negb (is_empty_string s) = false → s = "".
Proof. intros H%negb_false_iff. by apply bool_decide_eq_true in H. Qed.
#[export] Hint Resolve is_empty_string_default is_zero_default is_empty_default empty_map_default : icefall.

(** What is read from a well-formed object is well-formed. *)
Lemma bm_get_value_wf k m v : obj_wf m → bm_get k m = Some v → value_wf v.
Proof.
  intros [_ Hm] Hv%bm_get_Some_elem. rewrite Forall_forall in Hm. exact (Hm _ Hv).
Qed.
Lemma as_object_wf v m : value_wf v → as_object v = Some m → obj_wf m.
Proof. intros []; simpl; intros; simplify_eq. done. Qed.
Lemma field_wf {A} `{!Serde A, !SerdeLaws A} k m (a : A) :
  obj_wf m → field k m = Some a → serde_wf a.
Proof.
  intros Hm (v&Hv&Ha)%bind_Some. eapply of_value_wf, Ha. by eapply bm_get_value_wf.
Qed.
Lemma field_default_wf {A} `{!Serde A, !SerdeLaws A} d k m (a : A) :
  obj_wf m → serde_wf d → field_default d k m = Some a → serde_wf a.
Proof.
  unfold field_default. intros Hm Hd Ha. destruct (bm_get k m) eqn:E; [|by simplify_eq].
  eapply of_value_wf, Ha. by eapply bm_get_value_wf.
Qed.
Lemma field_opt_wf {A} `{!Serde A, !SerdeLaws (option A)} k m (o : option A) :
  obj_wf m → serde_wf (None : option A) → field_opt k m = Some o → serde_wf o.
Proof. apply field_default_wf. Qed.
Lemma field_u64_wf k m (n : u64) : obj_wf m → field k m = Some n → in_u64 n.
Proof. exact (field_wf (A:=Z) k m n). Qed.
Lemma field_default_u64_wf k m (n : u64) : obj_wf m → field_default 0 k m = Some n → in_u64 n.
Proof. intros Hm. exact (field_default_wf (A:=Z) 0 k m n Hm (conj (Z.le_refl 0) eq_refl)). Qed.
(** Inversion of a struct's decoder into its fields. *)
Ltac inv_fields H :=
  repeat (let x := fresh "x" in let Hx := fresh "Hx" in apply bind_Some in H as (x&Hx&H)).
#[export] Hint Resolve as_object_wf field_u64_wf field_default_u64_wf : icefall.

(** The side conditions of the three lemmas above. *)
Ltac solve_field :=
  first [ assumption
        | match goal with |- bm_get _ _ = _ => find_field; reflexivity end
        | match goal with |- serde_wf _ =>
            first [ apply string_wf | apply strings_wf | apply option_string_wf ] end
        | solve [eauto 2 with icefall] ].

(** An object built field by field is well-formed. *)
Ltac solve_object :=
  apply obj_wf_value;
  repeat first [ apply obj_wf_put | apply obj_wf_put_if | apply obj_wf_put_some ];
  first [ apply obj_wf_nil | solve [eauto 3 with icefall]
        | solve [apply to_value_wf; solve_field] ].

(** One field of a named object [m]. *)
Ltac read_field m :=
  first [ apply field_put | apply field_opt_put_some | eapply field_default_put_if ];
  try unfold m; solve_field.

(** ** Structs printed field by field *)

Lemma stream_keys {A} `{!Serde A} k (a : A) l ks :
  l.*1 `sublist_of` ks → (stream k a l).*1 `sublist_of` k :: ks.
Proof. intros. by apply sublist_skip. Qed.
Lemma stream_if_keys {A} `{!Serde A} b k (a : A) l ks :
  l.*1 `sublist_of` ks → (stream_if b k a l).*1 `sublist_of` k :: ks.
Proof. intros. destruct b; [by apply sublist_skip|by apply sublist_cons]. Qed.
Lemma stream_some_keys {A} `{!Serde A} k (o : option A) l ks :
  l.*1 `sublist_of` ks → (stream_some k o l).*1 `sublist_of` k :: ks.
Proof. intros. destruct o; [by apply sublist_skip|by apply sublist_cons]. Qed.
Lemma stream_values {A} `{!Serde A} k (a : A) l :
  value_wf (to_value a) → Forall (λ kv, value_wf kv.2) l →
  Forall (λ kv, value_wf kv.2) (stream k a l).
Proof. by constructor. Qed.
Lemma stream_if_values {A} `{!Serde A} b k (a : A) l :
  value_wf (to_value a) → Forall (λ kv, value_wf kv.2) l →
  Forall (λ kv, value_wf kv.2) (stream_if b k a l).
Proof. destruct b; [by constructor|done]. Qed.
Lemma stream_some_values {A} `{!Serde A} k (o : option A) l :
  (∀ a, o = Some a → value_wf (to_value a)) → Forall (λ kv, value_wf kv.2) l →
  Forall (λ kv, value_wf kv.2) (stream_some k o l).
Proof. destruct o; [|done]. intros Ho. constructor; [by apply Ho|done]. Qed.

Lemma bm_get_collect {V} k (l : list (string * V)) :
  NoDup l.*1 → bm_get k (bm_collect l) = bm_get k l.
Proof.
  intros Hn. pose proof (bm_collect_perm l Hn) as Hp. pose proof (bm_collect_sorted l) as Hs.
  destruct (bm_get k l) as [v|] eqn:E.
  - apply bm_elem_get; [done|]. rewrite Hp. by apply bm_get_Some_elem.
  - apply bm_get_None. intros v. rewrite Hp. revert v. by apply bm_get_None.
Qed.
Lemma json_parse_fields `{!SerdeJson, !SerdeJsonLaws} (l : list (string * Value)) :
  NoDup l.*1 → Forall (λ kv, value_wf kv.2) l → obj_exact l →
  json_parse (json_to_vec (VObject l)) = Some (VObject (bm_collect l)).
Proof.
  intros Hn Hv Hx. rewrite json_parse_stream; [| |by constructor].
  - simpl. do 2 f_equal.
    assert (map (λ kv, (kv.1, canonicalize kv.2)) l = l) as ->.
    { clear Hn Hx. induction Hv as [|[k x] l Hx _ IH]; [done|]. simpl in *.
      by rewrite canonicalize_wf, IH. }
    symmetry. apply bm_collect_permut; [done|]. by rewrite sort_items_perm.
  - constructor; [done|]. eapply Forall_impl; [exact Hv|]. intros kv. apply value_wf_distinct.
Qed.

(** ** Ordered maps *)

(** [BTreeMap<String, A>]. *)
Definition btree_value {A} `{!Serde A} (m : bmap A) : Value := VObject (prod_map id to_value <$> m).
Definition btree_of_value {A} `{!Serde A} (v : Value) : option (bmap A) :=
  m ← as_object v; mapM (λ kv, a ← of_value kv.2; Some (kv.1, a)) m.

Section btree.
Context {A : Type} `{!Serde A, !SerdeLaws A}.
Definition btree_wf (m : bmap A) : Prop := bm_sorted m ∧ Forall (λ kv, serde_wf kv.2) m.
Lemma btree_value_wf m : btree_wf m → value_wf (btree_value m).
Proof.
  intros [Hs Hi]. constructor; [by apply (bm_fmap_sorted to_value)|].
  apply Forall_fmap. eapply Forall_impl; [exact Hi|]. intros e He. by apply to_value_wf.
Qed.
Lemma btree_exact `{!SerdeJson, !SerdeExact A} m : value_exact (btree_value m).
Proof. constructor. apply Forall_fmap, Forall_true. intros [k a]. apply (to_value_exact a). Qed.
Lemma btree_round_trip m : btree_wf m → btree_of_value (btree_value m) = Some m.
Proof.
  intros [_ Hi]. unfold btree_of_value, btree_value. cbn [as_object mbind option_bind].
  apply mapM_Some, Forall2_fmap_l, Forall_Forall2_diag. eapply Forall_impl; [exact Hi|].
  intros [k a] Ha. simpl in Ha. change ((a ← of_value (to_value a); Some (k, a)) = Some (k, a)).
  assert (of_value (to_value a) = Some a) as -> by by apply of_to_value. done.
Qed.
Lemma btree_of_value_wf v m : value_wf v → btree_of_value v = Some m → btree_wf m.
Proof.
  unfold btree_of_value. intros Hv (o&Ho&E)%bind_Some. destruct v; simplify_eq/=.
  apply mapM_Some in E. inversion Hv as [| | | | |? Hs Hvs]; subst.
  assert (m.*1 = o.*1 ∧ Forall (λ kv, serde_wf kv.2) m) as [Hk Hm].
  { clear Hs Hv. induction E as [|[k x] [k' y] o m Hkv _ IH]; [done|]. simpl in *.
    inversion Hvs as [|?? Hx Hvs']; subst. destruct (IH Hvs') as [IHk IHm].
    apply bind_Some in Hkv as (a&Ha&[= -> ->]). split; [f_equal; exact IHk|].
    constructor; [|done]. by eapply of_value_wf. }
  split; [|done]. by eapply bm_sorted_keys.
Qed.
End btree.

(** ** Checksums bind their input *)

(** Two different inputs on which the digest agrees. *)
Definition sha256_collision `{!Sha256} (a b : bytes) : Prop :=
  a ≠ b ∧ sha256_hex a = sha256_hex b.
(** What [checksum_json] feeds the digest. *)
Definition preimage `{!SerdeJson} (v : Value) : bytes := json_to_vec (canonicalize v).

Section checksums.
Context `{!Sha256, !SerdeJson, !SerdeJsonLaws}.

Lemma checksum_bytes_inj a b :
  checksum_bytes a = checksum_bytes b → a = b ∨ sha256_collision a b.
Proof.
  unfold checksum_bytes. intros E. destruct (decide (a = b)); [by left|]. right.
  split; [done|]. by apply (f_equal (strip_prefix "sha256:")) in E as [= ?].
Qed.
(** The checksum of a typed value determines it, short of a collision. *)
Lemma checksum_json_inj {A} `{!Serde A, !SerdeLaws A} (a b : A) :
  serde_wf a → serde_wf b → checksum_json (to_value a) = checksum_json (to_value b) →
  a = b ∨ sha256_collision (preimage (to_value a)) (preimage (to_value b)).
Proof.
  intros Ha Hb. unfold checksum_json, preimage. rewrite !canonicalize_wf by by apply to_value_wf.
  intros [E|]%checksum_bytes_inj; [left|by right].
  apply json_to_vec_inj in E; [|by apply to_value_wf..].
  apply of_to_value in Ha, Hb. rewrite E in Ha. congruence.
Qed.
End checksums.
