(* ===== verification/Arrow.v ===== *)
(** * Column values: IEEE 754 floats, cells, arrays and record batches

    Floats are the standard library's [SpecFloat]: Rust's [f64] arithmetic is
    round-to-nearest binary64 (53, 1024), and [f32 as f64] is exact.  An Arrow
    array is its data type and its cells, [None] for a null; the accessors the
    code uses ([len], [null_count], [is_null], [value]) are functions of them. *)

From S2P Require Import Prelude Text OrdMap Json.
From Stdlib Require Import Floats.SpecFloat.

#[local] Open Scope list_scope.
#[local] Open Scope Z_scope.

Abbreviation f64 := spec_float (only parsing).

(** ** Arithmetic *)

Definition f64_add : f64 → f64 → f64 := SFadd 53 1024.
Definition f64_sub : f64 → f64 → f64 := SFsub 53 1024.
Definition f64_mul : f64 → f64 → f64 := SFmul 53 1024.
(** [n as f64]. *)
Definition f64_of_int (n : Z) : f64 := binary_normalize 53 1024 n 0 false.
(** [f32 as f64]. *)
Definition f64_of_f32 (f : spec_float) : f64 :=
  match f with
  | S754_finite s m e => binary_normalize 53 1024 (cond_Zopp s (Zpos m)) e s
  | _ => f
  end.
Definition is_finite (f : f64) : bool :=
  match f with S754_zero _ | S754_finite _ _ _ => true | _ => false end.

(** ** Bit patterns: what a JSON number holds *)

Definition sign_bit (s : bool) : Z := if s then 2 ^ 63 else 0.
Definition f64_bits (f : f64) : u64 :=
  match f with
  | S754_zero s => sign_bit s
  | S754_infinity s => sign_bit s + 2047 * 2 ^ 52
  | S754_nan => 2047 * 2 ^ 52 + 2 ^ 51
  | S754_finite s m e =>
      if Zpos m <? 2 ^ 52 then sign_bit s + Zpos m
      else sign_bit s + (e + 1075) * 2 ^ 52 + (Zpos m - 2 ^ 52)
  end.
Definition f64_from_bits (b : u64) : f64 :=
  let s := 2 ^ 63 <=? b in
  let r := b mod 2 ^ 63 in
  let ex := r / 2 ^ 52 in
  let fr := r mod 2 ^ 52 in
  if ex =? 0 then
    match fr with Zpos m => S754_finite s m (-1074) | _ => S754_zero s end
  else if ex =? 2047 then if fr =? 0 then S754_infinity s else S754_nan
  else match fr + 2 ^ 52 with Zpos m => S754_finite s m (ex - 1075) | _ => S754_nan end.

(** A float in binary64's canonical form. *)
Definition f64_wf (f : f64) : Prop := valid_binary 53 1024 f = true.

(** ** Data types, cells, arrays *)

Inductive TimeUnit := Second | Millisecond | Microsecond | Nanosecond.

(** [arrow::datatypes]; [OtherType] stands for the variants the code never names. *)
Inductive DataType :=
  | Boolean | Int8 | Int16 | Int32 | Int64 | UInt8 | UInt16 | UInt32 | UInt64
  | Float32 | Float64 | Utf8 | LargeUtf8 | Binary | LargeBinary
  | FixedSizeBinary (n : Z)
  | Timestamp (unit : TimeUnit) (tz : option string)
  | Decimal128 (precision : Z) (scale : Z)
  | List (f : Field) | LargeList (f : Field)
  | Struct (fs : list Field)
  | Map (f : Field) (sorted : bool)
  | OtherType (name : string)
with Field := mkField (f_name : string) (f_type : DataType) (f_nullable : bool).

Definition f_name (f : Field) : string := let '(mkField n _ _) := f in n.
Definition f_type (f : Field) : DataType := let '(mkField _ t _) := f in t.
Definition f_nullable (f : Field) : bool := let '(mkField _ _ b) := f in b.

Definition is_integer_type (t : DataType) : bool :=
  match t with
  | Int8 | Int16 | Int32 | Int64 | UInt8 | UInt16 | UInt32 | UInt64 => true
  | _ => false
  end.
Definition is_float_type (t : DataType) : bool :=
  match t with Float32 | Float64 => true | _ => false end.

(** The values of the primitive types; an integer of any width, a float of
    either width, a timestamp in microseconds is [CInt]. *)
Inductive Cell :=
  | CBool (b : bool)
  | CInt (v : Z)
  | CFloat (f : spec_float)
  | CStr (s : string)
  | COther.

Record Array := mkArray { ar_type : DataType; ar_cells : list (option Cell) }.
Definition null_count (a : Array) : Z := Z.of_nat (length (filter (λ c, c = None) (ar_cells a))).

(** The fields of the schema with their arrays. *)
Abbreviation RecordBatch := (list (string * Array)).
(** [schema.index_of(name)] and the column found there: the first of the name. *)
Definition column_by_name (b : RecordBatch) (name : string) : option Array :=
  snd <$> List.find (λ kv, bool_decide (kv.1 = name)) b.

(** The range of an integer type. *)
Definition int_range (t : DataType) : option (Z * Z) :=
  match t with
  | Int8 => Some (- 2 ^ 7, 2 ^ 7) | Int16 => Some (- 2 ^ 15, 2 ^ 15)
  | Int32 => Some (- 2 ^ 31, 2 ^ 31) | Int64 => Some (- 2 ^ 63, 2 ^ 63)
  | Timestamp Microsecond None => Some (- 2 ^ 63, 2 ^ 63)
  | UInt8 => Some (0, 2 ^ 8) | UInt16 => Some (0, 2 ^ 16)
  | UInt32 => Some (0, 2 ^ 32) | UInt64 => Some (0, 2 ^ 64)
  | _ => None
  end.
Definition cell_typed (t : DataType) (c : Cell) : Prop :=
  match t with
  | Boolean => ∃ b, c = CBool b
  | Utf8 | LargeUtf8 => ∃ s, c = CStr s
  | Float32 => ∃ f, c = CFloat f ∧ valid_binary 24 128 f = true
  | Float64 => ∃ f, c = CFloat f ∧ f64_wf f
  | _ =>
      match int_range t with
      | Some (lo, hi) => ∃ v, c = CInt v ∧ lo <= v < hi
      | None => True
      end
  end.
Definition array_typed (a : Array) : Prop :=
  Forall (λ c, match c with Some c => cell_typed (ar_type a) c | None => True end) (ar_cells a).

(** ** Lemmas on bit patterns *)

Lemma digits2_pos_bounds m :
  2 ^ (Zpos (digits2_pos m) - 1) <= Zpos m < 2 ^ Zpos (digits2_pos m).
Proof.
  induction m as [m IH|m IH|]; cbn [digits2_pos]; [..|done];
    rewrite Pos2Z.inj_succ; replace (Z.succ (Zpos (digits2_pos m)) - 1) with
      (Z.succ (Zpos (digits2_pos m) - 1)) by lia; rewrite !Z.pow_succ_r by lia; lia.
Qed.

Lemma f64_wf_finite s m e :
  f64_wf (S754_finite s m e) →
  (2 ^ 52 <= Zpos m < 2 ^ 53 ∧ -1074 <= e <= 971) ∨ (Zpos m < 2 ^ 52 ∧ e = -1074).
Proof.
  unfold f64_wf, valid_binary, bounded, canonical_mantissa, fexp, emin.
  rewrite andb_true_iff. intros [Hc%Zeq_bool_eq He%Zle_bool_imp_le].
  pose proof (digits2_pos_bounds m) as Hm.
  destruct (decide (Zpos (digits2_pos m) = 53)) as [E|E].
  - left. rewrite E in *. lia.
  - right. assert (Zpos (digits2_pos m) <= 52) by lia. split; [|lia].
    eapply Z.lt_le_trans; [apply Hm|]. apply Z.pow_le_mono_r; lia.
Qed.

(** The fields of a bit pattern. *)
Lemma f64_from_bits_fields s ex fr :
  0 <= ex < 2048 → 0 <= fr < 2 ^ 52 →
  f64_from_bits (sign_bit s + ex * 2 ^ 52 + fr) =
    if ex =? 0 then match fr with Zpos m => S754_finite s m (-1074) | _ => S754_zero s end
    else if ex =? 2047 then if fr =? 0 then S754_infinity s else S754_nan
    else match fr + 2 ^ 52 with Zpos m => S754_finite s m (ex - 1075) | _ => S754_nan end.
Proof.
  intros Hex Hfr. unfold f64_from_bits.
  assert ((sign_bit s + ex * 2 ^ 52 + fr) mod 2 ^ 63 = ex * 2 ^ 52 + fr) as ->.
  { destruct s; unfold sign_bit.
    - replace (2 ^ 63 + ex * 2 ^ 52 + fr) with (ex * 2 ^ 52 + fr + 1 * 2 ^ 63) by lia.
      rewrite Z.mod_add by done. apply Z.mod_small. lia.
    - apply Z.mod_small. lia. }
  assert ((2 ^ 63 <=? sign_bit s + ex * 2 ^ 52 + fr) = s) as ->.
  { destruct s; unfold sign_bit; [apply Z.leb_le|apply Z.leb_gt]; lia. }
  rewrite (Z.add_comm (ex * 2 ^ 52)), Z.div_add, Z.mod_add by done.
  rewrite Z.div_small, Z.mod_small by done. by rewrite Z.add_0_l.
Qed.

Lemma f64_from_bits_bits f : f64_wf f → f64_from_bits (f64_bits f) = f.
Proof.
  intros Hf. destruct f as [s|s| |s m e]; cbn [f64_bits].
  - by destruct s.
  - by destruct s.
  - done.
  - destruct (f64_wf_finite _ _ _ Hf) as [[? ?]|[? ->]].
    + assert ((Zpos m <? 2 ^ 52) = false) as -> by (apply Z.ltb_ge; lia).
      rewrite f64_from_bits_fields by lia.
      assert ((e + 1075 =? 0) = false) as -> by (apply Z.eqb_neq; lia).
      assert ((e + 1075 =? 2047) = false) as -> by (apply Z.eqb_neq; lia).
      replace (Zpos m - 2 ^ 52 + 2 ^ 52) with (Zpos m) by lia. f_equal. lia.
    + assert ((Zpos m <? 2 ^ 52) = true) as -> by by apply Z.ltb_lt.
      replace (sign_bit s + Zpos m) with (sign_bit s + 0 * 2 ^ 52 + Zpos m) by lia.
      by rewrite f64_from_bits_fields by lia.
Qed.

(** ** Order *)

(** A finite number in units of the least subnormal. *)
Definition float_val (f : f64) : Z :=
  match f with S754_finite s m e => cond_Zopp s (Zpos m * 2 ^ (e + 1074)) | _ => 0 end.

(** Scaled mantissas compare as pairs of exponent and mantissa. *)
Lemma scaled_lt m1 m2 e1 e2 :
  0 <= e1 → e1 < e2 → m1 < 2 ^ 53 → 2 ^ 52 <= m2 → m1 * 2 ^ e1 < m2 * 2 ^ e2.
Proof.
  intros He1 He Hm1 Hm2. replace (2 ^ e2) with (2 ^ (e2 - e1 - 1) * 2 * 2 ^ e1).
  - assert (0 < 2 ^ e1) by (apply Z.pow_pos_nonneg; lia).
    assert (0 < 2 ^ (e2 - e1 - 1)) by (apply Z.pow_pos_nonneg; lia).
    set (a := 2 ^ (e2 - e1 - 1)) in *. set (b := 2 ^ e1) in *.
    apply Z.lt_le_trans with ((m2 * 2) * b); [apply Z.mul_lt_mono_pos_r; lia|]. nia.
  - rewrite <- (Z.pow_1_r 2) at 2. rewrite <- !Z.pow_add_r by lia. f_equal. lia.
Qed.

Lemma magnitude_compare s m1 e1 m2 e2 :
  f64_wf (S754_finite s m1 e1) → f64_wf (S754_finite s m2 e2) →
  Z.compare (Zpos m1 * 2 ^ (e1 + 1074)) (Zpos m2 * 2 ^ (e2 + 1074))
  = match Z.compare e1 e2 with Eq => Pos.compare m1 m2 | c => c end.
Proof.
  intros H1%f64_wf_finite H2%f64_wf_finite. destruct (Z.compare_spec e1 e2) as [->|He|He].
  - assert (0 < 2 ^ (e2 + 1074)) by (apply Z.pow_pos_nonneg; lia).
    by rewrite <- Zmult_compare_compat_r by lia.
  - apply Z.compare_lt_iff, scaled_lt; lia.
  - apply Z.compare_gt_iff, scaled_lt; lia.
Qed.

Lemma SFcompare_val x y :
  f64_wf x → f64_wf y → is_finite x = true → is_finite y = true →
  SFcompare x y = Some (Z.compare (float_val x) (float_val y)).
Proof.
  assert (∀ m e, -1074 <= e → 0 < Zpos m * 2 ^ (e + 1074)) as Hpos.
  { intros m e He. apply Z.mul_pos_pos; [done|]. apply Z.pow_pos_nonneg; lia. }
  intros Hx Hy Fx Fy.
  destruct x as [s1| | |s1 m1 e1], y as [s2| | |s2 m2 e2]; try discriminate Fx; try discriminate Fy;
    cbn [SFcompare float_val]; f_equal; symmetry.
  - pose proof (Hpos m2 e2 ltac:(apply f64_wf_finite in Hy; lia)).
    destruct s2; cbn [cond_Zopp]; [apply Z.compare_gt_iff|apply Z.compare_lt_iff]; lia.
  - pose proof (Hpos m1 e1 ltac:(apply f64_wf_finite in Hx; lia)).
    destruct s1; cbn [cond_Zopp]; [apply Z.compare_lt_iff|apply Z.compare_gt_iff]; lia.
  - pose proof (Hpos m1 e1 ltac:(apply f64_wf_finite in Hx; lia)).
    pose proof (Hpos m2 e2 ltac:(apply f64_wf_finite in Hy; lia)).
    destruct s1, s2; cbn [cond_Zopp].
    + rewrite Z.compare_opp, Z.compare_antisym, (magnitude_compare _ _ _ _ _ Hx Hy).
      destruct (Z.compare e1 e2); [|done|done]. done.
    + apply Z.compare_lt_iff. lia.
    + apply Z.compare_gt_iff. lia.
    + rewrite (magnitude_compare _ _ _ _ _ Hx Hy). by destruct (Z.compare e1 e2).
Qed.
