(* ===== verification/Schema.v ===== *)
(** * Schemas: type strings and field ids

    [metadata/schema.rs] and the printer of [schema_util.rs].  A type string is a
    Rust [str], UTF-8 bytes; the parser works on its characters.  Which characters
    are alphabetic, alphanumeric or white space is the Unicode table of the
    standard library, a parameter that is only fixed on ASCII. *)

From S2P Require Import Prelude Bytes Text OrdMap Arrow.
From Stdlib Require Import Ascii String.

#[local] Open Scope list_scope.
#[local] Open Scope Z_scope.

(** ** Characters of a string *)

Definition byte_of (a : ascii) : Z := Z.of_N (N_of_ascii a).
Definition cont (a : ascii) : Z := byte_of a mod 64.

(** [s.chars().next()] and the rest of [s]: the UTF-8 form of one character. *)
Definition next_char (s : string) : option (Z * string) :=
  match s with
  | EmptyString => None
  | String a s1 =>
      let b := byte_of a in
      if b <? 128 then Some (b, s1) else
      match s1 with
      | EmptyString => Some (b, s1)
      | String c s2 =>
          if b <? 224 then Some ((b mod 32) * 64 + cont c, s2) else
          match s2 with
          | EmptyString => Some (b, s2)
          | String d s3 =>
              if b <? 240 then Some ((b mod 16) * 4096 + cont c * 64 + cont d, s3) else
              match s3 with
              | EmptyString => Some (b, s3)
              | String e s4 =>
                  Some ((b mod 8) * 262144 + cont c * 4096 + cont d * 64 + cont e, s4)
              end
          end
      end
  end.

(** [char::is_alphabetic], [is_alphanumeric], [is_whitespace]. *)
Class Unicode := {
  is_alphabetic : Z → bool;
  is_alphanumeric : Z → bool;
  is_whitespace : Z → bool;
}.
Definition ascii_letter (c : Z) : bool :=
  ((65 <=? c) && (c <=? 90)) || ((97 <=? c) && (c <=? 122)).
Definition ascii_digit (c : Z) : bool := (48 <=? c) && (c <=? 57).
Definition ascii_space (c : Z) : bool := ((9 <=? c) && (c <=? 13)) || (c =? 32).
Class UnicodeLaws `{!Unicode} := {
  is_alphabetic_ascii c : 0 <= c < 128 → is_alphabetic c = ascii_letter c;
  is_alphanumeric_ascii c : 0 <= c < 128 → is_alphanumeric c = ascii_letter c || ascii_digit c;
  is_whitespace_ascii c : 0 <= c < 128 → is_whitespace c = ascii_space c;
}.

Definition char_of (a : ascii) : Z := byte_of a.

Section parser.
Context `{!Unicode}.

(** [while let Some(c) = self.peek_char() { if p(c) { self.advance() } else { break } }]:
    the text passed over and the rest; one character consumes at least one
    byte. *)
Fixpoint take_while (fuel : nat) (p : Z → bool) (s : string) : string * string :=
  match fuel with
  | O => (EmptyString, s)
  | S fuel =>
      match next_char s with
      | Some (c, rest) =>
          if p c then
            let '(w, r) := take_while fuel p rest in
            (substring 0 (String.length s - String.length rest) s +:+ w, r)
          else (EmptyString, s)
      | None => (EmptyString, s)
      end
  end.
Definition chars_while (p : Z → bool) (s : string) : string * string :=
  take_while (String.length s) p s.

Definition skip_ws (s : string) : string := snd (chars_while is_whitespace s).
Definition word_char (c : Z) : bool := is_alphanumeric c || (c =? 95).
Definition peek (s : string) : option Z := fst <$> next_char s.

(** The parser's [Result<_, String>]: the caller discards the message, so an
    error is [None].  The remaining input stands for [self]. *)
Definition expect (expected : ascii) (s : string) : option string :=
  match next_char (skip_ws s) with
  | Some (c, rest) => if c =? char_of expected then Some rest else None
  | None => None
  end.

(** The [[us]] of a timestamp. *)
Definition parse_resolution (s : string) : option string :=
  let s := skip_ws s in
  match next_char s with
  | Some (c, rest) =>
      if c =? 91 then
        let '(inner, rest) := chars_while (λ c, negb (c =? 93)) rest in
        match next_char rest with
        | Some (_, rest) => if decide (inner = "us"%string) then Some rest else None
        | None => None
        end
      else Some s
  | None => Some s
  end.

Definition parse_name (s : string) : option (string * string) :=
  let s := skip_ws s in
  match next_char s with
  | Some (c, _) =>
      if negb (is_alphabetic c || (c =? 95)) then None else Some (chars_while word_char s)
  | None => None
  end.
Definition parse_word (s : string) : option (string * string) :=
  wr ← parse_name s;
  let '(word, rest) := wr in
  if decide (word = "timestamp"%string) then rest ← parse_resolution rest; Some (word, rest)
  else Some (word, rest).
Definition parse_field_name (s : string) : option (string * string) := parse_name s.

Definition parse_usize (s : string) : option (Z * string) :=
  let '(num, rest) := chars_while ascii_digit (skip_ws s) in
  n ← parse_u64 num; Some (n, rest).

Definition as_u8 (n : Z) : Z := n mod 2 ^ 8.
Definition as_i8 (n : Z) : Z := (n + 2 ^ 7) mod 2 ^ 8 - 2 ^ 7.
Definition as_i32 (n : Z) : Z := (n + 2 ^ 31) mod 2 ^ 32 - 2 ^ 31.

(** Outcomes of the recursive parsers: [None] when the fuel, one more than the
    number of bytes left, is too small, which it never is. *)
Abbreviation outcome A := (option (option (A * string))).
Definition failed {A} : outcome A := Some None.
Definition parsed {A} (a : A) (s : string) : outcome A := Some (Some (a, s)).
Definition then_ {A B} (o : outcome A) (f : A → string → outcome B) : outcome B :=
  match o with
  | None => None
  | Some None => Some None
  | Some (Some (a, s)) => f a s
  end.
Definition lift {A} (o : option (A * string)) : outcome A := Some o.
Definition expect_ (c : ascii) (s : string) : outcome unit :=
  Some ((λ rest, (tt, rest)) <$> expect c s).

Definition primitive (word : string) : option DataType :=
  if decide (word = "int8"%string) then Some Int8
  else if decide (word = "int16"%string) then Some Int16
  else if decide (word = "int32"%string) then Some Int32
  else if decide (word = "int64"%string) then Some Int64
  else if decide (word = "uint8"%string) then Some UInt8
  else if decide (word = "uint16"%string) then Some UInt16
  else if decide (word = "uint32"%string) then Some UInt32
  else if decide (word = "uint64"%string) then Some UInt64
  else if decide (word = "float32"%string) then Some Float32
  else if decide (word = "float64"%string) then Some Float64
  else if decide (word = "utf8"%string) then Some Utf8
  else if decide (word = "string"%string) then Some Utf8
  else if decide (word = "large_utf8"%string) then Some LargeUtf8
  else if decide (word = "binary"%string) then Some Binary
  else if decide (word = "large_binary"%string) then Some LargeBinary
  else if decide (word = "bool"%string) then Some Boolean
  else if decide (word = "timestamp"%string) then Some (Timestamp Microsecond None)
  else if decide (word = "timestamp[us]"%string) then Some (Timestamp Microsecond None)
  else None.

Fixpoint parse_type (fuel : nat) (s : string) : outcome DataType :=
  match fuel with
  | O => None
  | S fuel =>
      then_ (lift (parse_word (skip_ws s))) (λ word s,
        let s := skip_ws s in
        match primitive word with
        | Some t => parsed t s
        | None =>
            if decide (word = "list"%string) then
              then_ (expect_ "<" s) (λ _ s, then_ (parse_type fuel s) (λ item s,
              then_ (expect_ ">" s) (λ _ s, parsed (List (mkField "item" item true)) s)))
            else if decide (word = "large_list"%string) then
              then_ (expect_ "<" s) (λ _ s, then_ (parse_type fuel s) (λ item s,
              then_ (expect_ ">" s) (λ _ s, parsed (LargeList (mkField "item" item true)) s)))
            else if decide (word = "struct"%string) then
              then_ (expect_ "<" s) (λ _ s, then_ (parse_struct_fields fuel [] s) (λ fields s,
              then_ (expect_ ">" s) (λ _ s, parsed (Struct fields) s)))
            else if decide (word = "map"%string) then
              then_ (expect_ "<" s) (λ _ s, then_ (parse_type fuel s) (λ key s,
              then_ (expect_ "," s) (λ _ s, then_ (parse_type fuel s) (λ value s,
              then_ (expect_ ">" s) (λ _ s,
                parsed (Map (mkField "entries"
                  (Struct [mkField "key" key false; mkField "value" value true]) false) false) s)))))
            else if decide (word = "decimal128"%string) then
              then_ (expect_ "(" s) (λ _ s, then_ (lift (parse_usize s)) (λ precision s,
              then_ (expect_ "," s) (λ _ s, then_ (lift (parse_usize s)) (λ scale s,
              then_ (expect_ ")" s) (λ _ s,
                parsed (Decimal128 (as_u8 precision) (as_i8 scale)) s)))))
            else if decide (word = "fixed_size_binary"%string) then
              then_ (expect_ "(" s) (λ _ s, then_ (lift (parse_usize s)) (λ n s,
              then_ (expect_ ")" s) (λ _ s, parsed (FixedSizeBinary (as_i32 n)) s)))
            else failed
        end)
  end
with parse_struct_fields (fuel : nat) (fields : list Field) (s : string) : outcome (list Field) :=
  match fuel with
  | O => None
  | S fuel =>
      let s := skip_ws s in
      if decide (peek s = Some 62) then parsed fields s else
      then_ (lift (parse_field_name s)) (λ name s,
      then_ (expect_ ":" (skip_ws s)) (λ _ s,
      then_ (parse_type fuel s) (λ t s,
        let fields := fields ++ [mkField name t true] in
        let s := skip_ws s in
        match next_char s with
        | Some (c, rest) =>
            if c =? 44 then parse_struct_fields fuel fields rest
            else if c =? 62 then parsed fields s
            else failed
        | None => failed
        end)))
  end.

(** [str::trim]. *)
Fixpoint trim_end (fuel : nat) (s : string) : string :=
  match fuel with
  | O => s
  | S fuel =>
      match next_char s with
      | Some (c, rest) =>
          let t := trim_end fuel rest in
          if is_whitespace c && bool_decide (t = EmptyString) then EmptyString
          else substring 0 (String.length s - String.length rest) s +:+ t
      | None => EmptyString
      end
  end.
Definition trim (s : string) : string := let s := skip_ws s in trim_end (String.length s) s.

(** What follows the type is ignored. *)
Definition icefalldb_type_to_arrow (type_str : string) : option DataType :=
  let s := trim type_str in
  match parse_type (S (String.length s)) s with
  | Some (Some (t, _)) => Some t
  | _ => None
  end.
End parser.

(** ** The printer *)

(** [format!("{:?}", other)]. *)
Class DebugType := debug_type : DataType → string.

(** [[String]::join]. *)
Fixpoint join (sep : string) (l : list string) : string :=
  match l with
  | [] => EmptyString
  | [s] => s
  | s :: l => s +:+ sep +:+ join sep l
  end.

Fixpoint arrow_type_to_icefalldb `{!DebugType} (dt : DataType) : string :=
  match dt with
  | Int8 => "int8"
  | Int16 => "int16"
  | Int32 => "int32"
  | Int64 => "int64"
  | UInt8 => "uint8"
  | UInt16 => "uint16"
  | UInt32 => "uint32"
  | UInt64 => "uint64"
  | Float32 => "float32"
  | Float64 => "float64"
  | Boolean => "bool"
  | Utf8 => "utf8"
  | LargeUtf8 => "large_utf8"
  | Binary => "binary"
  | LargeBinary => "large_binary"
  | FixedSizeBinary n => "fixed_size_binary(" +:+ fmt_i64 n +:+ ")"
  | Timestamp Microsecond None => "timestamp[us]"
  | Timestamp Microsecond (Some _) => "timestamp[us]"
  | Decimal128 precision scale =>
      "decimal128(" +:+ fmt_u64 precision +:+ "," +:+ fmt_i64 scale +:+ ")"
  | List (mkField _ t _) => "list<" +:+ arrow_type_to_icefalldb t +:+ ">"
  | LargeList (mkField _ t _) => "large_list<" +:+ arrow_type_to_icefalldb t +:+ ">"
  | Struct fields =>
      "struct<" +:+ join ", " (map (λ f, match f with
        mkField n t _ => n +:+ ": " +:+ arrow_type_to_icefalldb t end) fields) +:+ ">"
  | Map (mkField _ (Struct entry_fields) _) _ =>
      let entry := λ name, (fix find l := match l with
        | [] => "utf8"%string
        | mkField n t _ :: l => if decide (n = name) then arrow_type_to_icefalldb t else find l
        end) entry_fields in
      "map<" +:+ entry "key"%string +:+ "," +:+ entry "value"%string +:+ ">"
  | Map _ _ => "map<utf8,utf8>"
  | other => debug_type other
  end.

(** ** Schemas *)

Record Column := mkColumn {
  co_name : string;
  co_type : string;
  co_nullable : bool;
  co_field_id : Z;
}.
Definition Column_new (name type : string) (nullable : bool) : Column := mkColumn name type nullable 0.

Record Schema := mkSchema {
  sc_schema_id : u64;
  sc_columns : list Column;
  sc_partition_by : option (list string);
  sc_sort : option (list string);
  sc_agg_group_keys : option (list string);
  sc_row_group_target_rows : usize;
  sc_row_group_target_bytes : usize;
  sc_dropped_columns : list string;
  sc_max_field_id : Z;
}.

Section schemas.
Context `{!Unicode, !DebugType}.

Definition arrow_field_to_column (f : Field) : Column :=
  Column_new (f_name f) (arrow_type_to_icefalldb (f_type f)) (f_nullable f).
Definition DEFAULT_ROW_GROUP_TARGET_ROWS : Z := 1000000.
Definition DEFAULT_ROW_GROUP_TARGET_BYTES : Z := 134217728.
Definition arrow_schema_to_icefalldb (fields : list Field) : Schema :=
  mkSchema 1 (arrow_field_to_column <$> fields) None None None
    DEFAULT_ROW_GROUP_TARGET_ROWS DEFAULT_ROW_GROUP_TARGET_BYTES [] 0.
Definition arrow_schema_from_icefalldb (schema : Schema) : option (list Field) :=
  mapM (λ c, (λ dt, mkField (co_name c) dt (co_nullable c)) <$> icefalldb_type_to_arrow (co_type c))
    (sc_columns schema).
End schemas.

(** *** Field ids, of type [i32] *)

(** The greatest positive id, or 0. *)
Definition max_column_id (s : Schema) : Z := foldr Z.max 0 (co_field_id <$> sc_columns s).

(** [previous_ids]: a later column of the same name overrides an earlier one. *)
Definition previous_step (previous : Schema) (m : gmap string Z) (c : Column) : gmap string Z :=
  if (0 <? co_field_id c) && bool_decide (co_name c ∉ sc_dropped_columns previous)
  then <[co_name c := co_field_id c]> m else m.
Definition previous_ids (previous : Schema) : gmap string Z :=
  foldl (previous_step previous) ∅ (sc_columns previous).

Definition with_id (c : Column) (id : Z) : Column :=
  mkColumn (co_name c) (co_type c) (co_nullable c) id.
Definition assign_step (known : gmap string Z) (st : list Column * Z) (column : Column)
    : list Column * Z :=
  match known !! co_name column with
  | Some existing_id => (st.1 ++ [with_id column existing_id], st.2)
  | None => (st.1 ++ [with_id column st.2], as_i32 (st.2 + 1))
  end.
Definition assign_columns (known : gmap string Z) (next_id : Z) (columns : list Column)
    : list Column * Z := foldl (assign_step known) ([], next_id) columns.

Definition assign_field_ids (self : Schema) (previous : option Schema) : Schema :=
  let known := match previous with Some s => previous_ids s | None => ∅ end in
  let previous_max_field_id :=
    match previous with Some s => Z.max (sc_max_field_id s) 0 | None => 0 end in
  let previous_highest_column_id :=
    match previous with Some s => max_column_id s | None => 0 end in
  let next_id := as_i32 (Z.max (Z.max previous_max_field_id previous_highest_column_id)
                           (Z.max (sc_max_field_id self) 0) + 1) in
  let '(columns, next_id) := assign_columns known next_id (sc_columns self) in
  let highest_newly_assigned := as_i32 (next_id - 1) in
  mkSchema (sc_schema_id self) columns (sc_partition_by self) (sc_sort self)
    (sc_agg_group_keys self) (sc_row_group_target_rows self) (sc_row_group_target_bytes self)
    (sc_dropped_columns self)
    (Z.max (Z.max (Z.max (sc_max_field_id self) 0) previous_max_field_id) highest_newly_assigned).

Definition repair_field_ids (self : Schema) : Schema := assign_field_ids self None.
Definition has_field_ids (self : Schema) : bool :=
  forallb (λ c, 0 <? co_field_id c) (sc_columns self).
Definition next_field_id (self : Schema) : Z :=
  as_i32 (Z.max (sc_max_field_id self) (max_column_id self) + 1).
(** [format!("_schemas/{:06}.json", id)]. *)
Definition filename (id : u64) : string :=
  "_schemas/" +:+ pad_zeros (6 - String.length (fmt_u64 id)) (fmt_u64 id) +:+ ".json".

(** ** Text the parser reads *)

Section read.
Context `{!Unicode, !UnicodeLaws}.

Fixpoint ascii_all (p : Z → bool) (s : string) : bool :=
  match s with
  | EmptyString => true
  | String a s => (byte_of a <? 128) && p (byte_of a) && ascii_all p s
  end.
(** Text that starts with an ASCII character outside [p], or is empty. *)
Definition stops (p : Z → bool) (s : string) : bool :=
  match s with
  | EmptyString => true
  | String a _ => (byte_of a <? 128) && negb (p (byte_of a))
  end.

Lemma byte_of_range a : 0 <= byte_of a < 256.
Proof. unfold byte_of. pose proof (N_ascii_bounded a). lia. Qed.
Lemma next_char_ascii a s : byte_of a < 128 → next_char (String a s) = Some (byte_of a, s).
Proof. intros Ha. cbn [next_char]. by rewrite (proj2 (Z.ltb_lt _ _) Ha). Qed.
Lemma substring_none s : substring 0 0 s = EmptyString.
Proof. by destruct s. Qed.
Lemma substring_first a s : substring 0 (String.length (String a s) - String.length s) (String a s)
  = String a EmptyString.
Proof.
  cbn [String.length]. replace (S _ - _)%nat with 1%nat by lia. cbn. by rewrite substring_none.
Qed.

Lemma take_while_stops fuel p r : stops p r = true → take_while fuel p r = (EmptyString, r).
Proof.
  destruct fuel as [|fuel]; [done|]. destruct r as [|a r]; [done|]. cbn [stops take_while].
  rewrite andb_true_iff, negb_true_iff, Z.ltb_lt. intros [Ha Hp].
  by rewrite next_char_ascii, Hp.
Qed.
Lemma take_while_app fuel p w r :
  ascii_all p w = true → stops p r = true → (String.length w <= fuel)%nat →
  take_while fuel p (w +:+ r) = (w, r).
Proof.
  revert fuel. induction w as [|a w IH]; intros fuel Hw Hr Hf; [by apply take_while_stops|].
  destruct fuel as [|fuel]; [simpl in Hf; lia|]. cbn [ascii_all] in Hw.
  apply andb_prop in Hw as [[Ha%Z.ltb_lt Hp]%andb_prop Hw]. cbn [String.length] in Hf.
  change (String a w +:+ r) with (String a (w +:+ r)). cbn [take_while].
  rewrite next_char_ascii, Hp, IH by (done || lia). by rewrite substring_first.
Qed.
Lemma chars_while_app p w r :
  ascii_all p w = true → stops p r = true → chars_while p (w +:+ r) = (w, r).
Proof. intros. apply take_while_app; [done..|]. rewrite string_length_app. lia. Qed.

Lemma whitespace_byte a : byte_of a < 128 → is_whitespace (byte_of a) = ascii_space (byte_of a).
Proof. intros. apply is_whitespace_ascii. pose proof (byte_of_range a). lia. Qed.
Lemma skip_ws_id s : stops ascii_space s = true → skip_ws s = s.
Proof.
  intros Hs. unfold skip_ws, chars_while. rewrite take_while_stops; [done|].
  destruct s as [|a s]; [done|]. cbn [stops] in *.
  apply andb_prop in Hs as [Ha Hs]. by rewrite Ha, whitespace_byte by by apply Z.ltb_lt.
Qed.
Lemma skip_ws_space s : stops ascii_space s = true → skip_ws (" " +:+ s) = s.
Proof.
  intros Hs. unfold skip_ws, chars_while.
  assert (stops is_whitespace s = true) as Hs'.
  { destruct s as [|a s]; [done|]. cbn [stops] in *.
    apply andb_prop in Hs as [Ha Hs]. by rewrite Ha, whitespace_byte by by apply Z.ltb_lt. }
  rewrite (take_while_app _ _ " " s); [done| |done|cbn; lia].
  cbn [ascii_all]. rewrite whitespace_byte by done. done.
Qed.

Lemma expect_here c s :
  byte_of c < 128 → ascii_space (byte_of c) = false → expect c (String c s) = Some s.
Proof.
  intros Hc Hs. unfold expect. rewrite skip_ws_id.
  - rewrite next_char_ascii by done. unfold char_of. by rewrite Z.eqb_refl.
  - cbn [stops]. by rewrite (proj2 (Z.ltb_lt _ _) Hc), Hs.
Qed.

(** An ASCII identifier. *)
Definition ascii_word (c : Z) : bool := ascii_letter c || ascii_digit c || (c =? 95).
Definition ident (s : string) : bool :=
  match s with
  | EmptyString => false
  | String a _ => (ascii_letter (byte_of a) || (byte_of a =? 95)) && ascii_all ascii_word s
  end.
Lemma word_char_byte a : byte_of a < 128 → word_char (byte_of a) = ascii_word (byte_of a).
Proof.
  intros. unfold word_char. rewrite is_alphanumeric_ascii; [done|]. pose proof (byte_of_range a). lia.
Qed.
Lemma ascii_all_word s : ascii_all ascii_word s = true → ascii_all word_char s = true.
Proof.
  induction s as [|a s IH]; [done|]. cbn [ascii_all]. intros [[Ha Hp]%andb_prop Hs]%andb_prop.
  rewrite word_char_byte, Ha, Hp by by apply Z.ltb_lt. auto.
Qed.
Lemma stops_word s : stops ascii_word s = true → stops word_char s = true.
Proof.
  destruct s as [|a s]; [done|]. cbn [stops]. intros [Ha Hp]%andb_prop.
  by rewrite word_char_byte, Ha, Hp by by apply Z.ltb_lt.
Qed.
Lemma ident_no_space w s : ident w = true → stops ascii_space (w +:+ s) = true.
Proof.
  destruct w as [|a w]; [done|]. cbn [ident ascii_all stops String.append].
  rewrite !andb_true_iff. intros [Hl [[-> _] _]]. split; [done|].
  unfold ascii_letter, ascii_space in *. lia.
Qed.

Lemma parse_name_word w s :
  ident w = true → stops ascii_word s = true → parse_name (w +:+ s) = Some (w, s).
Proof.
  intros Hw Hs. unfold parse_name. rewrite skip_ws_id by by apply ident_no_space.
  assert (chars_while word_char (w +:+ s) = (w, s)) as ->.
  { apply chars_while_app; [|by apply stops_word]. destruct w; [done|].
    apply ascii_all_word. by apply andb_prop in Hw as [_ ?]. }
  destruct w as [|a w]; [done|]. cbn [ident ascii_all] in Hw.
  apply andb_prop in Hw as [Hl [[Ha%Z.ltb_lt _]%andb_prop _]%andb_prop].
  cbn [String.append]. rewrite next_char_ascii by done. rewrite is_alphabetic_ascii.
  - by rewrite Hl.
  - pose proof (byte_of_range a). lia.
Qed.
Lemma parse_word_word w s :
  ident w = true → stops ascii_word s = true → w ≠ "timestamp"%string →
  parse_word (w +:+ s) = Some (w, s).
Proof. intros. unfold parse_word. rewrite parse_name_word by done. simpl. by rewrite decide_False. Qed.

Lemma digits_ascii fuel n acc :
  ascii_all ascii_digit acc = true → ascii_all ascii_digit (fmt_digits fuel n acc) = true.
Proof.
  revert n acc. induction fuel as [|fuel IH]; intros n acc Hacc; [done|]. cbn [fmt_digits].
  assert (ascii_all ascii_digit (String (digit_char (n mod 10)) acc) = true) as Hd.
  { cbn [ascii_all]. assert (byte_of (digit_char (n mod 10)) = 48 + n mod 10) as ->.
    { unfold byte_of, digit_char. pose proof (Z.mod_pos_bound n 10 ltac:(lia)).
      rewrite N_ascii_embedding by lia. lia. }
    rewrite Hacc, andb_true_r. unfold ascii_digit. pose proof (Z.mod_pos_bound n 10 ltac:(lia)). lia. }
  destruct (n <? 10); auto.
Qed.
Lemma parse_usize_fmt n s :
  in_u64 n → stops ascii_digit s = true → parse_usize (fmt_u64 n +:+ s) = Some (n, s).
Proof.
  intros Hn Hs. unfold parse_usize.
  assert (ascii_all ascii_digit (fmt_u64 n) = true) as Hd by by apply digits_ascii.
  rewrite skip_ws_id, chars_while_app by
    (done || (destruct (fmt_u64 n) as [|a w] eqn:E; [by apply fmt_digits_not_empty in E; [|lia]|];
     cbn [ascii_all stops String.append] in *;
     apply andb_prop in Hd as [[-> Hd]%andb_prop _]; unfold ascii_digit, ascii_space in *; lia)).
  by rewrite parse_u64_fmt.
Qed.
End read.

(** ** Printing and parsing back *)

(** The types the printer keeps: what nested fields are called, whether they may
    be null and whether a map is sorted are not printed. *)
Inductive printable : DataType → Prop :=
  | pr_boolean : printable Boolean
  | pr_int t : is_integer_type t = true → printable t
  | pr_float t : is_float_type t = true → printable t
  | pr_utf8 : printable Utf8
  | pr_large_utf8 : printable LargeUtf8
  | pr_binary : printable Binary
  | pr_large_binary : printable LargeBinary
  | pr_timestamp : printable (Timestamp Microsecond None)
  | pr_fixed n : 0 <= n < 2 ^ 31 → printable (FixedSizeBinary n)
  | pr_decimal p s : 0 <= p < 2 ^ 8 → 0 <= s < 2 ^ 7 → printable (Decimal128 p s)
  | pr_list t : printable t → printable (List (mkField "item" t true))
  | pr_large_list t : printable t → printable (LargeList (mkField "item" t true))
  | pr_struct fs : printable_fields fs → printable (Struct fs)
  | pr_map k v : printable k → printable v →
      printable (Map (mkField "entries"
        (Struct [mkField "key" k false; mkField "value" v true]) false) false)
with printable_fields : list Field → Prop :=
  | pr_nil : printable_fields []
  | pr_cons n t fs : ident n = true → printable t → printable_fields fs →
      printable_fields (mkField n t true :: fs).
Scheme printable_mind := Minimality for printable Sort Prop
  with printable_fields_mind := Minimality for printable_fields Sort Prop.
Combined Scheme printable_mutind from printable_mind, printable_fields_mind.

Section roundtrip.
Context `{!Unicode, !UnicodeLaws, !DebugType}.

(** What may follow a type inside another. *)
Definition delim (s : string) : bool :=
  match s with
  | EmptyString => true
  | String a _ => (byte_of a =? 44) || (byte_of a =? 62)
  end.
Lemma delim_stops_word s : delim s = true → stops ascii_word s = true.
Proof.
  destruct s as [|a s]; [done|]. cbn [delim stops]. unfold ascii_word, ascii_letter, ascii_digit. lia.
Qed.
Lemma delim_stops_space s : delim s = true → stops ascii_space s = true.
Proof. destruct s as [|a s]; [done|]. cbn [delim stops]. unfold ascii_space. lia. Qed.

(** [s] reads as [t], up to [rest]. *)
Definition reads (t : DataType) (s rest : string) : Prop :=
  ∀ fuel, (String.length s < fuel)%nat → parse_type fuel s = parsed t rest.

Lemma reads_word w t s rest :
  ident w = true → w ≠ "timestamp"%string → primitive w = Some t → delim rest = true →
  s = w +:+ rest → reads t s rest.
Proof.
  intros Hw Hne Ht Hr -> fuel Hf. destruct fuel as [|fuel]; [lia|]. cbn [parse_type].
  rewrite skip_ws_id by by apply ident_no_space.
  rewrite parse_word_word by (done || by apply delim_stops_word).
  cbn [lift then_]. rewrite Ht. by rewrite skip_ws_id by by apply delim_stops_space.
Qed.

(** The head of a compound type. *)
Lemma parse_type_head w c s :
  ident w = true → w ≠ "timestamp"%string → stops ascii_word (String c s) = true →
  stops ascii_space (String c s) = true →
  lift (parse_word (skip_ws (w +:+ String c s))) = parsed w (String c s)
  ∧ skip_ws (String c s) = String c s.
Proof.
  intros. rewrite skip_ws_id by by apply ident_no_space.
  rewrite parse_word_word by done. split; [done|]. by apply skip_ws_id.
Qed.

(** A type after white space. *)
Lemma reads_space t s rest : stops ascii_space s = true → reads t s rest → reads t (" " +:+ s) rest.
Proof.
  intros Hs Hr [|fuel] Hf; [lia|]. cbn [String.append String.length] in Hf.
  specialize (Hr (S fuel) ltac:(lia)). cbn [parse_type] in *.
  rewrite skip_ws_space by done. by rewrite skip_ws_id in Hr.
Qed.

Abbreviation print := arrow_type_to_icefalldb.
Definition print_field (f : Field) : string :=
  match f with mkField n t _ => n +:+ ": " +:+ print t end.
Definition print_fields (fs : list Field) : string := join ", " (map print_field fs).

Lemma print_head t : printable t → ∃ w s, ident w = true ∧ print t = w +:+ s.
Proof.
  intros Ht. destruct Ht as [|t Ht|t Ht| | | | | |n|p s|t|t|fs|k v];
    try match type of Ht with _ = true => destruct t; try discriminate Ht end;
    cbn [arrow_type_to_icefalldb].
  all: try (eexists; exists EmptyString; rewrite string_app_nil_r; split; [|reflexivity]; reflexivity).
  - exists "timestamp"%string, "[us]"%string. done.
  - exists "fixed_size_binary"%string. eexists. split; [done|]. change ("fixed_size_binary(" +:+ ?x) with ("fixed_size_binary" +:+ ("(" +:+ x)). reflexivity.
  - exists "decimal128"%string. eexists. split; [done|]. change ("decimal128(" +:+ ?x) with ("decimal128" +:+ ("(" +:+ x)). reflexivity.
  - exists "list"%string. eexists. split; [done|]. change ("list<" +:+ ?x) with ("list" +:+ ("<" +:+ x)). reflexivity.
  - exists "large_list"%string. eexists. split; [done|]. change ("large_list<" +:+ ?x) with ("large_list" +:+ ("<" +:+ x)). reflexivity.
  - exists "struct"%string. eexists. split; [done|]. change ("struct<" +:+ ?x) with ("struct" +:+ ("<" +:+ x)). reflexivity.
  - exists "map"%string. eexists. split; [done|]. change ("map<" +:+ ?x) with ("map" +:+ ("<" +:+ x)). reflexivity.
Qed.
Lemma print_no_space t s : printable t → stops ascii_space (print t +:+ s) = true.
Proof.
  intros (w&x&Hw&->)%print_head. rewrite <- string_app_assoc. by apply ident_no_space.
Qed.

Lemma reads_timestamp rest :
  delim rest = true → reads (Timestamp Microsecond None) ("timestamp[us]" +:+ rest) rest.
Proof.
  intros Hr [|fuel] Hf; [lia|]. cbn [parse_type].
  change ("timestamp[us]" +:+ rest) with ("timestamp" +:+ String "[" ("us" +:+ String "]" rest)).
  rewrite skip_ws_id by by apply ident_no_space. unfold parse_word.
  rewrite parse_name_word by done. cbn [mbind option_bind].
  rewrite decide_True by done. unfold parse_resolution.
  rewrite skip_ws_id by done. rewrite next_char_ascii by done.
  change (byte_of "[" =? 91) with true. cbv iota.
  rewrite chars_while_app by done. rewrite next_char_ascii by done.
  rewrite decide_True by done. cbn [mbind option_bind lift then_].
  by rewrite skip_ws_id by by apply delim_stops_space.
Qed.

Lemma reads_list (large : bool) t rest :
  (∀ r, delim r = true → reads t (print t +:+ r) r) →
  reads (if large then LargeList (mkField "item" t true) else List (mkField "item" t true))
    ((if large then "large_list" else "list") +:+ String "<" (print t +:+ String ">" rest)) rest.
Proof.
  intros IH [|fuel] Hf; [lia|]. rewrite string_length_app in Hf.
  cbn [String.length] in Hf. cbn [parse_type].
  destruct (parse_type_head (if large then "large_list" else "list") "<" (print t +:+ String ">" rest))
    as [-> E]; [by destruct large..|]. cbn [parsed then_]. rewrite E.
  assert (primitive (if large then "large_list" else "list") = None) as -> by by destruct large.
  unfold expect_. destruct large; repeat first [rewrite decide_True by done | rewrite decide_False by done];
    rewrite expect_here by done; cbn [fmap option_fmap option_map then_];
    rewrite IH by (done || (simpl in Hf; lia)); cbn [parsed then_];
    rewrite expect_here by done; reflexivity.
Qed.
Ltac keyword w :=
  match goal with
  | |- context [parse_word (skip_ws (w +:+ String ?c ?s))] =>
      let E := fresh in
      destruct (parse_type_head w c s) as [-> E]; [done..|]; cbn [parsed then_]; rewrite E; clear E;
      assert (primitive w = None) as -> by done; unfold expect_;
      repeat first [rewrite (decide_True (P := w = w)) by done | rewrite decide_False by done];
      rewrite expect_here by done; cbn [fmap option_fmap option_map then_]
  end.
Ltac next_char := unfold expect_; rewrite expect_here by done; cbn [parsed fmap option_fmap option_map then_].

Lemma reads_fixed n rest :
  0 <= n < 2 ^ 31 →
  reads (FixedSizeBinary n) ("fixed_size_binary" +:+ String "(" (fmt_u64 n +:+ String ")" rest)) rest.
Proof.
  intros Hn [|fuel] Hf; [lia|]. cbn [parse_type]. keyword "fixed_size_binary"%string.
  rewrite parse_usize_fmt by (done || unfold in_u64; lia). cbn [lift then_]. next_char.
  unfold as_i32. rewrite Z.mod_small by lia. do 2 f_equal. by rewrite Z.add_simpl_r.
Qed.
Lemma reads_decimal p s rest :
  0 <= p < 2 ^ 8 → 0 <= s < 2 ^ 7 →
  reads (Decimal128 p s)
    ("decimal128" +:+ String "(" (fmt_u64 p +:+ String "," (fmt_u64 s +:+ String ")" rest))) rest.
Proof.
  intros Hp Hs [|fuel] Hf; [lia|]. cbn [parse_type]. keyword "decimal128"%string.
  rewrite parse_usize_fmt by (done || unfold in_u64; lia). cbn [lift then_]. next_char.
  rewrite parse_usize_fmt by (done || unfold in_u64; lia). cbn [lift then_]. next_char.
  unfold as_u8, as_i8. rewrite !Z.mod_small by lia. by rewrite Z.add_simpl_r.
Qed.
Lemma reads_map k v rest :
  (∀ r, delim r = true → reads k (print k +:+ r) r) →
  (∀ r, delim r = true → reads v (print v +:+ r) r) →
  reads (Map (mkField "entries" (Struct [mkField "key" k false; mkField "value" v true]) false) false)
    ("map" +:+ String "<" (print k +:+ String "," (print v +:+ String ">" rest))) rest.
Proof.
  intros IHk IHv [|fuel] Hf; [lia|]. rewrite string_length_app in Hf. cbn [String.length] in Hf.
  rewrite string_length_app in Hf. cbn [String.length] in Hf.
  cbn [parse_type]. keyword "map"%string.
  rewrite IHk by (done || (rewrite string_length_app; cbn [String.length]; lia)). cbn [parsed then_]. next_char.
  rewrite IHv by (done || lia). cbn [parsed then_]. next_char. done.
Qed.

(** The fields of a struct, with the closing bracket that ends them. *)
Definition reads_fields (fs : list Field) (s rest : string) : Prop :=
  ∀ fuel acc, (String.length s < fuel)%nat →
  parse_struct_fields fuel acc s = parsed (acc ++ fs) (String ">" rest).

Lemma reads_fields_space fs s rest :
  stops ascii_space s = true → reads_fields fs s rest → reads_fields fs (" " +:+ s) rest.
Proof.
  intros Hs Hr [|fuel] acc Hf; [lia|]. cbn [String.append String.length] in Hf.
  specialize (Hr (S fuel) acc ltac:(lia)). cbn [parse_struct_fields] in *.
  rewrite skip_ws_space by done. by rewrite skip_ws_id in Hr.
Qed.
Lemma reads_fields_nil rest : reads_fields [] (String ">" rest) rest.
Proof.
  intros [|fuel] acc Hf; [lia|]. cbn [parse_struct_fields]. rewrite skip_ws_id by done.
  rewrite decide_True by done. by rewrite app_nil_r.
Qed.

(** A field, then the rest after a comma or the end. *)
Lemma reads_fields_cons n t fs more rest :
  ident n = true → printable t → (∀ r, delim r = true → reads t (print t +:+ r) r) →
  (more = String ">" rest ∧ fs = []) ∨ (∃ s, more = String "," s ∧ reads_fields fs s rest) →
  reads_fields (mkField n t true :: fs) (n +:+ String ":" (" " +:+ (print t +:+ more))) rest.
Proof.
  intros Hn Hp Ht Hmore [|fuel] acc Hf; [lia|]. cbn [parse_struct_fields].
  rewrite skip_ws_id by by apply ident_no_space. rewrite string_length_app in Hf.
  cbn [String.length String.append] in Hf. rewrite string_length_app in Hf.
  assert (delim more = true) as Hd by by destruct Hmore as [[-> _]|(s&->&_)].
  rewrite decide_False.
  2:{ destruct n as [|a n]; [done|]. cbn [ident ascii_all] in Hn. unfold peek. cbn [String.append].
      apply andb_prop in Hn as [Hl [[Ha%Z.ltb_lt _]%andb_prop _]%andb_prop].
      rewrite next_char_ascii by done. intros [= E]. rewrite E in Hl. done. }
  unfold parse_field_name. rewrite parse_name_word by done. cbn [lift then_].
  rewrite (skip_ws_id (String ":" _)) by done. next_char.
  rewrite (reads_space t (print t +:+ more) more).
  2:{ by apply print_no_space. } 2:{ by apply Ht. }
  2:{ cbn [String.append String.length]. rewrite string_length_app. lia. }
  cbn [parsed then_]. rewrite skip_ws_id by by apply delim_stops_space.
  destruct Hmore as [[-> ->]|(s&->&Hs)].
  - rewrite next_char_ascii by done. done.
  - rewrite next_char_ascii by done. change (byte_of "," =? 44) with true. cbv iota.
    rewrite Hs by (cbn [String.length] in Hf; destruct n; [done|]; simpl in Hf; lia).
    by rewrite <- app_assoc.
Qed.
Lemma reads_struct fs s rest :
  reads_fields fs s rest → reads (Struct fs) ("struct" +:+ String "<" s) rest.
Proof.
  intros Hs [|fuel] Hf; [lia|]. rewrite string_length_app in Hf. cbn [String.length] in Hf.
  cbn [parse_type]. keyword "struct"%string. rewrite Hs by (simpl in Hf; lia).
  cbn [parsed then_ app]. next_char. done.
Qed.

Lemma fmt_i64_nonneg n : 0 <= n → fmt_i64 n = fmt_u64 n.
Proof. intros. unfold fmt_i64. by rewrite (proj2 (Z.ltb_ge _ _)). Qed.

Lemma reads_print :
  (∀ t, printable t → ∀ rest, delim rest = true → reads t (print t +:+ rest) rest)
  ∧ ∀ fs, printable_fields fs → ∀ rest, reads_fields fs (print_fields fs +:+ String ">" rest) rest.
Proof.
  apply printable_mutind.
  all: try (intros; cbn [arrow_type_to_icefalldb]; eapply reads_word; [| | | |reflexivity]; done).
  - intros t Ht rest Hr. destruct t; try discriminate Ht; cbn [arrow_type_to_icefalldb];
      (eapply reads_word; [| | | |reflexivity]; done).
  - intros t Ht rest Hr. destruct t; try discriminate Ht; cbn [arrow_type_to_icefalldb];
      (eapply reads_word; [| | | |reflexivity]; done).
  - intros rest Hr. by apply reads_timestamp.
  - intros n Hn rest Hr. cbn [arrow_type_to_icefalldb]. rewrite fmt_i64_nonneg, <- !string_app_assoc by lia.
    by apply reads_fixed.
  - intros p s Hp Hs rest Hr. cbn [arrow_type_to_icefalldb].
    rewrite fmt_i64_nonneg, <- !string_app_assoc by lia. by apply reads_decimal.
  - intros t _ IH rest Hr. cbn [arrow_type_to_icefalldb]. rewrite <- !string_app_assoc.
    by apply (reads_list false).
  - intros t _ IH rest Hr. cbn [arrow_type_to_icefalldb]. rewrite <- !string_app_assoc.
    by apply (reads_list true).
  - intros fs _ IH rest Hr. cbn [arrow_type_to_icefalldb]. rewrite <- !string_app_assoc.
    apply (reads_struct fs (print_fields fs +:+ String ">" rest)). apply IH.
  - intros k v _ IHk _ IHv rest Hr. cbn [arrow_type_to_icefalldb]. rewrite <- !string_app_assoc.
    by apply reads_map.
  - intros rest. apply reads_fields_nil.
  - intros n t fs Hn Ht IHt Hfs IHfs rest. unfold print_fields. cbn [map print_field].
    destruct fs as [|f fs].
    + cbn [map join]. rewrite <- !string_app_assoc. apply reads_fields_cons; [done..|]. by left.
    + change (join ", " (?a :: map print_field (f :: fs)))
        with (a +:+ ", " +:+ print_fields (f :: fs)).
      rewrite <- !string_app_assoc. apply reads_fields_cons; [done..|]. right.
      eexists. split; [reflexivity|]. apply reads_fields_space; [|apply IHfs].
      inversion Hfs; subst. unfold print_fields. cbn [map join print_field].
      destruct fs; cbn [map]; rewrite <- !string_app_assoc; by apply ident_no_space.
Qed.

(** Printed types are ASCII and end in no white space, so that trimming keeps them. *)
Abbreviation ascii := (ascii_all (λ _, true)).
Lemma ascii_all_app p a b : ascii_all p (a +:+ b) = ascii_all p a && ascii_all p b.
Proof. induction a as [|x a IH]; [done|]. cbn [String.append ascii_all]. by rewrite IH, andb_assoc. Qed.
Lemma ascii_all_weaken p s : ascii_all p s = true → ascii s = true.
Proof.
  induction s as [|a s IH]; [done|]. cbn [ascii_all]. intros [[-> _]%andb_prop ?]%andb_prop. auto.
Qed.
Lemma trim_end_id fuel w c :
  ascii (w +:+ String c EmptyString) = true → ascii_space (byte_of c) = false →
  (String.length w < fuel)%nat →
  trim_end fuel (w +:+ String c EmptyString) = w +:+ String c EmptyString.
Proof.
  intros Ha Hc. revert fuel. induction w as [|a w IH]; intros fuel Hf; (destruct fuel as [|fuel]; [lia|]);
    cbn [String.append ascii_all trim_end] in *.
  - apply andb_prop in Ha as [[Ha%Z.ltb_lt _]%andb_prop _]. rewrite next_char_ascii by done.
    rewrite whitespace_byte, Hc by done. by destruct fuel.
  - apply andb_prop in Ha as [[Ha%Z.ltb_lt _]%andb_prop Hw]. rewrite next_char_ascii by done.
    cbn [String.length] in Hf. rewrite IH by (done || lia).
    rewrite bool_decide_false by by destruct w. rewrite andb_false_r, substring_first. done.
Qed.
Lemma trim_ascii w c :
  ascii (w +:+ String c EmptyString) = true → ascii_space (byte_of c) = false →
  stops ascii_space (w +:+ String c EmptyString) = true →
  trim (w +:+ String c EmptyString) = w +:+ String c EmptyString.
Proof.
  intros. unfold trim. rewrite skip_ws_id by done. apply trim_end_id; [done..|].
  rewrite string_length_app. simpl. lia.
Qed.

Lemma fmt_ascii n : ascii (fmt_u64 n) = true.
Proof. eapply ascii_all_weaken. by apply digits_ascii. Qed.
Abbreviation entries k v := (Struct [mkField "key" k false; mkField "value" v true]).
Lemma print_map k v :
  print (Map (mkField "entries" (entries k v) false) false)
  = "map<" +:+ print k +:+ "," +:+ print v +:+ ">".
Proof. done. Qed.
Lemma print_ascii :
  (∀ t, printable t → ascii (print t) = true)
  ∧ ∀ fs, printable_fields fs → ascii (print_fields fs) = true.
Proof.
  apply printable_mutind; try done.
  - intros t Ht. by destruct t.
  - intros t Ht. by destruct t.
  - intros n Hn. cbn [arrow_type_to_icefalldb].
    by rewrite fmt_i64_nonneg, !ascii_all_app, fmt_ascii by lia.
  - intros p s Hp Hs. cbn [arrow_type_to_icefalldb].
    by rewrite fmt_i64_nonneg, !ascii_all_app, !fmt_ascii by lia.
  - intros t _ IH. cbn [arrow_type_to_icefalldb]. by rewrite !ascii_all_app, IH.
  - intros t _ IH. cbn [arrow_type_to_icefalldb]. by rewrite !ascii_all_app, IH.
  - intros fs _ IH. change (print (Struct fs)) with ("struct<" +:+ print_fields fs +:+ ">").
    by rewrite !ascii_all_app, IH.
  - intros k v _ IHk _ IHv. rewrite print_map. by rewrite !ascii_all_app, IHk, IHv.
  - intros n t fs Hn _ IHt _ IHfs. unfold print_fields in *. cbn [map print_field].
    assert (ascii n = true) as Hna.
    { destruct n; [done|]. apply andb_prop in Hn as [_ Hn]. by eapply ascii_all_weaken. }
    destruct fs as [|f fs].
    + cbn [map join]. by rewrite !ascii_all_app, Hna, IHt.
    + change (join ", " (?a :: map print_field (f :: fs)))
        with (a +:+ ", " +:+ join ", " (map print_field (f :: fs))).
      by rewrite !ascii_all_app, Hna, IHt, IHfs.
Qed.
Fixpoint ends (p : Z → bool) (s : string) : bool :=
  match s with
  | EmptyString => false
  | String c EmptyString => p (byte_of c)
  | String _ s => ends p s
  end.
Lemma ends_app p a b : b ≠ EmptyString → ends p (a +:+ b) = ends p b.
Proof.
  intros Hb. induction a as [|x a IH]; [done|]. cbn [String.append ends]. rewrite <- IH.
  destruct a; [by destruct b|done].
Qed.
Lemma ends_last p s : ends p s = true → ∃ w c, s = w +:+ String c EmptyString ∧ p (byte_of c) = true.
Proof.
  induction s as [|a s IH]; [done|]. destruct s as [|b s].
  - exists EmptyString, a. done.
  - intros (w&c&->&Hc)%IH. by exists (String a w), c.
Qed.
Lemma print_ends t : printable t → ends (λ c, negb (ascii_space c)) (print t) = true.
Proof.
  intros Ht. destruct Ht as [|t Ht|t Ht| | | | | |n|p s|t|t|fs|k v];
    try match type of Ht with _ = true => destruct t; try discriminate Ht end; try done;
    rewrite ?print_map; cbn [arrow_type_to_icefalldb].
  all: repeat (rewrite ends_app; [|by (idtac + destruct (fmt_i64 _) + destruct (fmt_u64 _) + destruct (print _) + destruct (join _ _))]).
  all: done.
Qed.
Lemma trim_print t : printable t → trim (print t) = print t.
Proof.
  intros Ht. pose proof (proj1 print_ascii t Ht) as Ha.
  pose proof (print_no_space t EmptyString Ht) as Hs. rewrite string_app_nil_r in Hs.
  destruct (ends_last _ _ (print_ends t Ht)) as (w&c&E&Hc%negb_true_iff). rewrite E in *.
  by apply trim_ascii.
Qed.

Lemma negative_scale p s fuel :
  0 <= p < 2 ^ 8 → s < 0 → parse_type (S fuel) (print (Decimal128 p s)) = failed.
Proof.
  intros Hp Hs. cbn [arrow_type_to_icefalldb]. unfold fmt_i64. rewrite (proj2 (Z.ltb_lt _ _) Hs).
  change ("decimal128(" +:+ ?x) with ("decimal128" +:+ String "(" x).
  change ("," +:+ ?x) with (String "," x). change ("-" +:+ ?x) with (String "-" x).
  cbn [parse_type]. keyword "decimal128"%string.
  rewrite parse_usize_fmt by (done || unfold in_u64; lia). cbn [lift then_]. next_char.
  unfold parse_usize. rewrite skip_ws_id by done. unfold chars_while. by rewrite take_while_stops.
Qed.
Lemma trim_negative_scale p s :
  0 <= p < 2 ^ 8 → s < 0 → trim (print (Decimal128 p s)) = print (Decimal128 p s).
Proof.
  intros Hp Hs. cbn [arrow_type_to_icefalldb]. unfold fmt_i64. rewrite (proj2 (Z.ltb_lt _ _) Hs).
  rewrite !string_app_assoc. apply trim_ascii; [|done..]. by rewrite !ascii_all_app, !fmt_ascii.
Qed.

End roundtrip.

(** ** Termination *)

Section termination.
Context `{!Unicode}.

Lemma next_char_length s c r :
  next_char s = Some (c, r) → (String.length r < String.length s)%nat.
Proof.
  destruct s as [|a [|b [|d [|e s]]]]; cbn [next_char]; repeat case_match; intros [= <- <-]; simpl; lia.
Qed.
Lemma take_while_length fuel p s :
  (String.length (take_while fuel p s).2 <= String.length s)%nat.
Proof.
  revert s. induction fuel as [|fuel IH]; intros s; [done|]. cbn [take_while].
  destruct (next_char s) as [[c r]|] eqn:E; [|done]. apply next_char_length in E.
  destruct (p c); [|done]. specialize (IH r). destruct (take_while fuel p r). simpl in *. lia.
Qed.
Lemma chars_while_length p s w r :
  chars_while p s = (w, r) → (String.length r <= String.length s)%nat.
Proof. intros E. pose proof (take_while_length (String.length s) p s) as Hl. unfold chars_while in E. by rewrite E in Hl. Qed.
Lemma skip_ws_length s : (String.length (skip_ws s) <= String.length s)%nat.
Proof. apply take_while_length. Qed.
Lemma expect_length c s r : expect c s = Some r → (String.length r < String.length s)%nat.
Proof.
  unfold expect. pose proof (skip_ws_length s).
  destruct (next_char (skip_ws s)) as [[d x]|] eqn:E; [|done]. apply next_char_length in E.
  destruct (d =? char_of c); [|done]. intros [= <-]. lia.
Qed.
Lemma parse_name_length s w r : parse_name s = Some (w, r) → (String.length r <= String.length s)%nat.
Proof.
  unfold parse_name. pose proof (skip_ws_length s). destruct (next_char _) as [[c x]|]; [|done].
  destruct (negb _); [done|]. intros [= E]. apply chars_while_length in E. lia.
Qed.
Lemma parse_resolution_length s r :
  parse_resolution s = Some r → (String.length r <= String.length s)%nat.
Proof.
  unfold parse_resolution. pose proof (skip_ws_length s).
  destruct (next_char (skip_ws s)) as [[c x]|] eqn:E; [|intros [= <-]; lia].
  apply next_char_length in E. destruct (c =? 91); [|intros [= <-]; lia].
  destruct (chars_while _ x) as [inner y] eqn:Ey. apply chars_while_length in Ey.
  destruct (next_char y) as [[d z]|] eqn:Ez; [|done]. apply next_char_length in Ez.
  case_decide; [|done]. intros [= <-]. lia.
Qed.
Lemma parse_word_length s w r : parse_word s = Some (w, r) → (String.length r <= String.length s)%nat.
Proof.
  unfold parse_word. destruct (parse_name s) as [[w' x]|] eqn:E; [|done]. cbn [mbind option_bind].
  apply parse_name_length in E. case_decide; [|by intros [= <- <-]].
  destruct (parse_resolution x) as [y|] eqn:Ey; [|done]. apply parse_resolution_length in Ey.
  intros [= <- <-]. lia.
Qed.
Lemma parse_usize_length s n r : parse_usize s = Some (n, r) → (String.length r <= String.length s)%nat.
Proof.
  unfold parse_usize. pose proof (skip_ws_length s). destruct (chars_while _ _) as [w x] eqn:E.
  apply chars_while_length in E. destruct (parse_u64 w); [|done]. intros [= <- <-]. lia.
Qed.

(** A sub-parser that ends, leaving at most [n] bytes. *)
Definition ends_in {A} (n : nat) (o : option (option (A * string))) : Prop :=
  match o with
  | None => False
  | Some None => True
  | Some (Some (_, r)) => (String.length r <= n)%nat
  end.
Lemma then_ends {A C} n m (o : option (option (A * string))) (f : A → string → option (option (C * string))) :
  ends_in n o → (∀ a r, (String.length r <= n)%nat → ends_in m (f a r)) → ends_in m (then_ o f).
Proof. destruct o as [[[a r]|]|]; simpl; auto. Qed.
Lemma expect_then {C} c s n m (f : unit → string → option (option (C * string))) :
  (String.length s <= n)%nat → (∀ r, (String.length r < n)%nat → ends_in m (f tt r)) →
  ends_in m (then_ (expect_ c s) f).
Proof.
  intros Hs Hf. unfold expect_. destruct (expect c s) as [r|] eqn:E; [|done].
  apply expect_length in E. apply Hf. lia.
Qed.
Lemma usize_ends s : ends_in (String.length s) (lift (parse_usize s)).
Proof.
  destruct (parse_usize s) as [[k r]|] eqn:E; [|done]. by apply parse_usize_length in E.
Qed.

Lemma parse_ends fuel :
  (∀ s, (String.length s < fuel)%nat → ends_in (String.length s) (parse_type fuel s))
  ∧ ∀ acc s, (String.length s < fuel)%nat → ends_in (String.length s) (parse_struct_fields fuel acc s).
Proof.
  induction fuel as [|fuel [IHt IHs]]; [split; intros; lia|].
  split; [intros s Hs; cbn [parse_type]|intros acc s Hs; cbn [parse_struct_fields]].
  - apply (then_ends (String.length s)).
    { destruct (parse_word _) as [[w r]|] eqn:E; [|done]. apply parse_word_length in E.
      pose proof (skip_ws_length s). simpl. lia. }
    intros w r Hr. pose proof (skip_ws_length r) as Hw.
    destruct (primitive w); [simpl; lia|].
    repeat case_decide; [..|done]; (eapply expect_then; [reflexivity|]; intros x Hx).
    1-2: eapply then_ends; [apply IHt; lia|]; intros t y Hy;
      eapply expect_then; [reflexivity|]; intros z Hz; simpl; lia.
    + eapply then_ends; [apply IHs; lia|]. intros t y Hy.
      eapply expect_then; [reflexivity|]. intros z Hz. simpl. lia.
    + eapply then_ends; [apply IHt; lia|]. intros t y Hy. eapply expect_then; [reflexivity|]. intros z Hz.
      eapply then_ends; [apply IHt; lia|]. intros t' y' Hy'. eapply expect_then; [reflexivity|].
      intros z' Hz'. simpl. lia.
    + eapply then_ends; [apply usize_ends|]. intros t y Hy. eapply expect_then; [reflexivity|]. intros z Hz.
      eapply then_ends; [apply usize_ends|]. intros t' y' Hy'. eapply expect_then; [reflexivity|].
      intros z' Hz'. simpl. lia.
    + eapply then_ends; [apply usize_ends|]. intros t y Hy. eapply expect_then; [reflexivity|]. intros z Hz.
      simpl. lia.
  - pose proof (skip_ws_length s) as Hw. case_decide; [simpl; lia|].
    eapply (then_ends (String.length s)).
    { unfold parse_field_name. destruct (parse_name _) as [[w r]|] eqn:E; [|done].
      apply parse_name_length in E. simpl. lia. }
    intros name r Hr. pose proof (skip_ws_length r). eapply expect_then; [reflexivity|]. intros x Hx.
    eapply then_ends; [apply IHt; lia|]. intros t y Hy. pose proof (skip_ws_length y).
    destruct (next_char (skip_ws y)) as [[c z]|] eqn:E; [|done]. apply next_char_length in E.
    destruct (c =? 44); [|destruct (c =? 62); simpl; lia].
    assert (String.length z < fuel)%nat as Hz by lia. specialize (IHs (acc ++ [mkField name t true]) z Hz).
    destruct (parse_struct_fields _ _ z) as [[[u q]|]|]; simpl in *; lia || done.
Qed.

(** C31: The recursive-descent parser of type strings ends on every input, and leaves no
    more text than it was given. *)
Theorem parse_type_terminates s :
  ∃ r, parse_type (S (String.length s)) s = Some r
    ∧ match r with Some (_, rest) => (String.length rest <= String.length s)%nat | None => True end.
Proof.
  pose proof (proj1 (parse_ends (S (String.length s))) s ltac:(lia)) as He.
  destruct (parse_type _ s) as [r|]; [|done]. exists r. split; [done|]. by destruct r as [[? ?]|].
Qed.
End termination.
