(* ===== verification/FieldIds.v ===== *)
(** * Stable field ids across schema versions

    [Schema::assign_field_ids]: columns keep their ids from one version of a
    schema to the next, and an id never names two columns. *)

From S2P Require Import Prelude Bytes Text OrdMap Arrow Schema.
From stdpp Require Import strings gmap.

#[local] Open Scope list_scope.
#[local] Open Scope Z_scope.

(** ** The ids of a schema *)

Definition positive_ids (s : Schema) : Prop := Forall (λ c, 0 < co_field_id c) (sc_columns s).
(** Columns with the same id have the same name. *)
Definition ids_name (cs ds : list Column) : Prop :=
  ∀ c d, c ∈ cs → d ∈ ds → co_field_id c = co_field_id d → co_name c = co_name d.
Definition ids_bounded (s : Schema) : Prop :=
  Forall (λ c, co_field_id c <= sc_max_field_id s) (sc_columns s).

(** The greatest id handed out so far, as [assign_field_ids] sees it. *)
Definition id_floor (self : Schema) (previous : option Schema) : Z :=
  Z.max (match previous with Some p => Z.max (Z.max (sc_max_field_id p) 0) (max_column_id p) | None => 0 end)
        (Z.max (sc_max_field_id self) 0).
(** No id would exceed [i32]. *)
Definition id_room (self : Schema) (previous : option Schema) : Prop :=
  id_floor self previous + 1 + len (sc_columns self) < 2 ^ 31.

Lemma as_i32_id n : 0 <= n < 2 ^ 31 → as_i32 n = n.
Proof. intros. unfold as_i32. rewrite Z.mod_small by lia. lia. Qed.

Lemma max_column_id_ge s c : c ∈ sc_columns s → co_field_id c <= max_column_id s.
Proof.
  unfold max_column_id. generalize (sc_columns s). intros l Hc. induction l as [|d l IH].
  - by apply not_elem_of_nil in Hc.
  - cbn [fmap list_fmap foldr]. apply elem_of_cons in Hc as [->|Hc]; [lia|]. specialize (IH Hc). lia.
Qed.

(** ** The ids of the previous version *)

Definition keeps_id (p : Schema) (c : Column) : Prop :=
  0 < co_field_id c ∧ co_name c ∉ sc_dropped_columns p.
Lemma previous_ids_fold p l m name id :
  foldl (previous_step p) m l !! name = Some id →
  m !! name = Some id ∨ ∃ c, c ∈ l ∧ keeps_id p c ∧ co_name c = name ∧ co_field_id c = id.
Proof.
  revert m. induction l as [|c l IH]; intros m Hm; [by left|]. cbn [foldl] in Hm.
  apply IH in Hm as [Hm|(d&Hd&?)]; [|right; exists d; set_solver]. unfold previous_step in Hm.
  destruct (0 <? co_field_id c) eqn:Hpos; cbn [andb] in Hm; [|by left].
  case_bool_decide as Hdrop; [|by left]. apply lookup_insert_Some in Hm as [[Hn Hi]|[_ Hm]]; [|by left].
  right. exists c. split; [apply list_elem_of_here|]. split; [|done]. split; [by apply Z.ltb_lt|done].
Qed.
Lemma previous_ids_Some p name id :
  previous_ids p !! name = Some id →
  ∃ c, c ∈ sc_columns p ∧ keeps_id p c ∧ co_name c = name ∧ co_field_id c = id.
Proof. intros E. apply previous_ids_fold in E as [E|E]; [by rewrite lookup_empty in E|done]. Qed.

Lemma previous_ids_other p l m name :
  Forall (λ c, co_name c ≠ name) l → foldl (previous_step p) m l !! name = m !! name.
Proof.
  intros Hl. revert m. induction Hl as [|c l Hc _ IH]; intros m; [done|]. cbn [foldl]. rewrite IH.
  unfold previous_step. destruct (_ && _); [by rewrite lookup_insert_ne|done].
Qed.
Lemma previous_ids_get p c :
  NoDup (co_name <$> sc_columns p) → c ∈ sc_columns p → keeps_id p c →
  previous_ids p !! co_name c = Some (co_field_id c).
Proof.
  intros Hnd (l1&l2&E)%list_elem_of_split [Hpos Hdrop]. unfold previous_ids. rewrite E in *.
  rewrite foldl_app. cbn [foldl]. rewrite previous_ids_other.
  - unfold previous_step at 1. rewrite (proj2 (Z.ltb_lt _ _) Hpos), bool_decide_true by done. cbn [andb]. by rewrite lookup_insert_eq.
  - rewrite fmap_app, fmap_cons in Hnd. apply NoDup_app in Hnd as (_&_&[Hc _]%NoDup_cons).
    apply Forall_forall. intros d Hd Heq. apply Hc. rewrite <- Heq. by apply list_elem_of_fmap_2.
Qed.

(** ** One assignment *)

Lemma assign_fold_app known cols pre post n :
  foldl (assign_step known) (pre ++ post, n) cols
  = prod_map (app pre) id (foldl (assign_step known) (post, n) cols).
Proof.
  revert post n. induction cols as [|c cols IH]; intros post n; [done|]. cbn [foldl].
  assert (assign_step known (pre ++ post, n) c = prod_map (app pre) id (assign_step known (post, n) c)) as ->.
  { unfold assign_step. cbn [fst snd]. by destruct (known !! co_name c); rewrite <- app_assoc. }
  destruct (assign_step known (post, n) c). apply IH.
Qed.
Lemma assign_fold known cols pre n :
  foldl (assign_step known) (pre, n) cols
  = let '(new, n') := assign_columns known n cols in (pre ++ new, n').
Proof.
  rewrite <- (app_nil_r pre) at 1. rewrite assign_fold_app. unfold assign_columns.
  by destruct (foldl _ _ _).
Qed.

(** [c'] is [c] with the id it keeps, or with a fresh one between [n] and [n']. *)
Definition assigned (known : gmap string Z) (n n' : Z) (c c' : Column) : Prop :=
  c' = with_id c (co_field_id c') ∧
  match known !! co_name c with
  | Some id => co_field_id c' = id
  | None => n <= co_field_id c' < n'
  end.

Lemma assign_columns_ok known n cols :
  0 <= n → n + len cols < 2 ^ 31 → map_Forall (λ _ id, id < n) known →
  (∀ a b id, known !! a = Some id → known !! b = Some id → a = b) →
  let '(new, n') := assign_columns known n cols in
  n <= n' <= n + len cols ∧ Forall2 (assigned known n n') cols new ∧ ids_name new new.
Proof.
  intros Hn Hlen Hknown Hinj. revert n Hn Hlen Hknown.
  induction cols as [|c cols IH]; intros n Hn Hlen Hknown.
  { split; [unfold len; simpl; lia|]. split; [constructor|]. intros c d Hc. by apply not_elem_of_nil in Hc. }
  assert (len (c :: cols) = len cols + 1) as El by (unfold len; simpl; lia). rewrite El in *.
  pose proof (len_nonneg cols) as Hpos.
  unfold assign_columns. cbn [foldl].
  change (assign_step known ([], n) c) with (match known !! co_name c with
    | Some id => ([with_id c id], n) | None => ([with_id c n], as_i32 (n + 1)) end).
  destruct (known !! co_name c) as [id|] eqn:Ek; rewrite assign_fold.
  - specialize (IH n Hn ltac:(lia) Hknown). destruct (assign_columns known n cols) as [new n'].
    destruct IH as (Hb&Hall&Hids). split; [lia|]. split.
    + constructor; [|done]. split; [done|]. by rewrite Ek.
    + assert (∀ d, d ∈ new → co_field_id d = id → co_name d = co_name c) as Hc.
      { intros d (i&Hi)%list_elem_of_lookup Hid. destruct (Forall2_lookup_r _ _ _ _ _ Hall Hi) as (d0&_&E&Hd).
        rewrite E. cbn [co_name with_id]. destruct (known !! co_name d0) as [id'|] eqn:Ed.
        - eapply Hinj; [exact Ed|]. congruence.
        - apply Hknown in Ek. simpl in Ek. lia. }
      intros x y [->|Hx]%elem_of_cons [->|Hy]%elem_of_cons Exy; cbn [with_id co_name co_field_id] in *;
        [done|symmetry; by apply Hc|by apply Hc|by apply Hids].
  - rewrite as_i32_id by lia.
    specialize (IH (n + 1) ltac:(lia) ltac:(lia)).
    destruct (assign_columns known (n + 1) cols) as [new n'].
    destruct IH as (Hb&Hall&Hids). { intros k v Hk. apply Hknown in Hk. simpl in *. lia. }
    split; [lia|]. split.
    + constructor.
      * split; [done|]. rewrite Ek. cbn. lia.
      * eapply Forall2_impl; [exact Hall|]. intros x x' [? Hx]. split; [done|].
        destruct (known !! co_name x); [done|]. lia.
    + assert (∀ d, d ∈ new → co_field_id d ≠ n) as Hc.
      { intros d (i&Hi)%list_elem_of_lookup Hid. destruct (Forall2_lookup_r _ _ _ _ _ Hall Hi) as (d0&_&_&Hd).
        destruct (known !! co_name d0) as [id'|] eqn:Ed; [|lia]. apply Hknown in Ed. simpl in Ed. lia. }
      intros x y [->|Hx]%elem_of_cons [->|Hy]%elem_of_cons Exy; cbn [with_id co_name co_field_id] in *;
        [done|by destruct (Hc y)|by destruct (Hc x)|by apply Hids].
Qed.

(** Where an id of the new version comes from. *)
Lemma assign_field_ids_ok self previous :
  id_room self previous →
  (∀ p, previous = Some p → ids_name (sc_columns p) (sc_columns p)) →
  let s := assign_field_ids self previous in
  let known := match previous with Some p => previous_ids p | None => ∅ end in
  Forall2 (assigned known (id_floor self previous + 1) (sc_max_field_id s + 1)) (sc_columns self) (sc_columns s)
  ∧ ids_name (sc_columns s) (sc_columns s)
  ∧ id_floor self previous <= sc_max_field_id s
  ∧ (∀ name id, known !! name = Some id → 0 < id <= id_floor self previous).
Proof.
  intros Hroom Hprev. unfold id_room in Hroom.
  assert (∀ name id, match previous with Some p => previous_ids p | None => ∅ end !! name = Some id →
    0 < id <= id_floor self previous) as Hknown.
  { intros name id Hk. destruct previous as [p|]; [|by rewrite lookup_empty in Hk].
    apply previous_ids_Some in Hk as (c&Hc&[Hpos _]&_&<-). apply max_column_id_ge in Hc.
    unfold id_floor. lia. }
  pose proof (assign_columns_ok (match previous with Some p => previous_ids p | None => ∅ end)
    (id_floor self previous + 1) (sc_columns self)) as Hok.
  assert (0 <= id_floor self previous) as Hfloor by (unfold id_floor; destruct previous; lia).
  specialize (Hok ltac:(lia) ltac:(lia)).
  assert (∀ n : Z, Z.max (Z.max
      match previous with Some s => Z.max (sc_max_field_id s) 0 | None => 0 end
      match previous with Some s => max_column_id s | None => 0 end) (Z.max (sc_max_field_id self) 0)
    = id_floor self previous) as Efloor by (intros; unfold id_floor; by destruct previous).
  cbn zeta. unfold assign_field_ids. rewrite (Efloor 0). pose proof (len_nonneg (sc_columns self)).
  rewrite as_i32_id by lia. destruct (assign_columns _ _ _) as [new n'].
  destruct Hok as (Hn&Hall&Hids).
  - intros name id Hk. specialize (Hknown name id Hk). simpl. lia.
  - intros a b id Ha Hb. destruct previous as [p|]; [|by rewrite lookup_empty in Ha].
    apply previous_ids_Some in Ha as (c&Hc&_&<-&Hci), Hb as (d&Hd&_&<-&Hdi).
    apply (Hprev p eq_refl); [done..|congruence].
  - cbn [sc_columns sc_max_field_id]. rewrite as_i32_id by lia.
    split; [|split; [done|split; [lia|done]]]. eapply Forall2_impl; [exact Hall|].
    intros c c' [? Hc]. split; [done|]. destruct (_ !! co_name c); [done|lia].
Qed.

(** ** The versions of a schema *)

(** The latest version, with those before it, oldest first. *)
Inductive versions : list Schema → Schema → Prop :=
  | versions_first raw :
      id_room raw None → versions [] (assign_field_ids raw None)
  | versions_next olds s raw :
      versions olds s → id_room raw (Some s) → versions (olds ++ [s]) (assign_field_ids raw (Some s)).

Definition version_ok (olds : list Schema) (s : Schema) : Prop :=
  positive_ids s ∧ ids_bounded s ∧ ids_name (sc_columns s) (sc_columns s)
  ∧ Forall (λ old, ids_bounded old ∧ sc_max_field_id old <= sc_max_field_id s
                   ∧ ids_name (sc_columns old) (sc_columns s)) olds.

Lemma assigned_bounds known n n' cols new :
  Forall2 (assigned known n n') cols new → 0 < n →
  (∀ name id, known !! name = Some id → 0 < id < n) → n <= n' →
  Forall (λ c, 0 < co_field_id c < n') new.
Proof.
  intros Hall Hn Hk Hle. apply Forall_forall. intros c' (i&Hi)%list_elem_of_lookup.
  destruct (Forall2_lookup_r _ _ _ _ _ Hall Hi) as (c&_&_&Hc).
  destruct (known !! co_name c) as [id|] eqn:E; [apply Hk in E|]; lia.
Qed.

Lemma versions_ok olds s : versions olds s → version_ok olds s.
Proof.
  induction 1 as [raw Hroom|olds s raw _ IH Hroom].
  - destruct (assign_field_ids_ok raw None Hroom) as (Hall&Hids&Hfl&Hk); [done|].
    pose proof (assigned_bounds _ _ _ _ _ Hall) as Hb.
    assert (0 <= id_floor raw None) by (unfold id_floor; lia).
    specialize (Hb ltac:(lia)). split; [|split; [|split; [done|constructor]]].
    all: eapply Forall_impl; [apply Hb; [|lia]|simpl; intros; lia].
    all: intros name id E; specialize (Hk name id E); lia.
  - destruct IH as (Hpos&Hbd&Hname&Holds).
    destruct (assign_field_ids_ok raw (Some s) Hroom) as (Hall&Hids&Hfl&Hk); [by intros ? [= <-]|].
    pose proof (assigned_bounds _ _ _ _ _ Hall) as Hb.
    assert (sc_max_field_id s <= id_floor raw (Some s)) by (unfold id_floor; lia).
    assert (0 <= id_floor raw (Some s)) by (unfold id_floor; lia).
    specialize (Hb ltac:(lia)).
    assert (∀ old, ids_bounded old → sc_max_field_id old <= sc_max_field_id s →
      ids_name (sc_columns old) (sc_columns s) →
      ids_name (sc_columns old) (sc_columns (assign_field_ids raw (Some s)))) as Hnext.
    { intros old Hob Hom Hon c d Hc (i&Hi)%list_elem_of_lookup E.
      destruct (Forall2_lookup_r _ _ _ _ _ Hall Hi) as (d0&_&Ed&Hd). rewrite Ed. cbn [co_name with_id].
      destruct (previous_ids s !! co_name d0) as [id|] eqn:Ek.
      - apply previous_ids_Some in Ek as (e&He&_&<-&Hid). apply Hon; [done..|congruence].
      - unfold ids_bounded in Hob. rewrite Forall_forall in Hob. specialize (Hob _ Hc). lia. }
    split; [|split; [|split; [done|]]].
    1-2: eapply Forall_impl; [apply Hb; [|lia]|simpl; intros; lia].
    1-2: intros name id E; specialize (Hk name id E); lia.
    apply Forall_app. split.
    + eapply Forall_impl; [exact Holds|]. intros old (?&?&?). split; [done|]. split; [lia|auto].
    + repeat constructor; [done|lia|]. by apply Hnext.
Qed.

(** C32: Through any sequence of schema versions every column has a positive id within the
    recorded maximum, an id never names two columns even after drops, and a column that is
    not dropped keeps its id. *)
Theorem field_ids_stable olds s :
  versions olds s →
  has_field_ids s = true
  ∧ Forall (λ c, co_field_id c <= sc_max_field_id s) (sc_columns s)
  (* an id names one column, in all versions *)
  ∧ (∀ old c d, old ∈ olds ++ [s] → c ∈ sc_columns old → d ∈ sc_columns s →
       co_field_id c = co_field_id d → co_name c = co_name d)
  (* a column that was not dropped keeps its id in the next version *)
  ∧ ∀ raw c d, id_room raw (Some s) → NoDup (co_name <$> sc_columns s) → c ∈ sc_columns s →
       co_name c ∉ sc_dropped_columns s → d ∈ sc_columns (assign_field_ids raw (Some s)) →
       co_name d = co_name c → co_field_id d = co_field_id c.
Proof.
  intros (Hpos&Hbd&Hname&Holds)%versions_ok. split; [|split; [done|split]].
  - unfold has_field_ids. apply forallb_forall. intros c Hc%list_elem_of_In.
    unfold positive_ids in Hpos. rewrite Forall_forall in Hpos. apply Z.ltb_lt. auto.
  - intros old c d [Ho| ->%list_elem_of_singleton]%elem_of_app Hc Hd; [|by apply Hname].
    rewrite Forall_forall in Holds. by apply (Holds old Ho).
  - intros raw c d Hroom Hnd Hc Hdrop (i&Hi)%list_elem_of_lookup E.
    destruct (assign_field_ids_ok raw (Some s) Hroom) as (Hall&_); [by intros ? [= <-]|].
    destruct (Forall2_lookup_r _ _ _ _ _ Hall Hi) as (d0&_&Ed&Hd).
    assert (co_name d0 = co_name c) as En by (rewrite Ed in E; exact E).
    rewrite En, (previous_ids_get s c) in Hd; [done..|]. split; [|done].
    unfold positive_ids in Hpos. rewrite Forall_forall in Hpos. auto.
Qed.
