(* ===== verification/Manifest.v ===== *)
(** * Manifests: the snapshots of a table

    [metadata/manifest.rs]: the structs with their derived serialization, the
    self-checksum, and the link to the preceding manifest. *)

From S2P Require Import Prelude Bytes Text OrdMap Storage Json.
From Stdlib Require Import Ascii String.

#[local] Open Scope list_scope.
#[local] Open Scope Z_scope.

Record RowIndexRef := mkRowIndexRef { ri_base : option string; ri_deltas : list string }.
Record IndexRef := mkIndexRef { ir_base : option string; ir_deltas : list string }.

Record RowGroupEntry := mkEntry {
  rg_data : string;
  rg_meta : string;
  rg_fragment_id : u64;
  rg_deletes : option string;
  rg_deleted_count : u64;
  rg_agg : option string;
}.

Record Manifest := mkManifest {
  mf_format_version : u64;
  mf_sequence : u64;
  mf_schema_id : u64;
  mf_row_groups : list RowGroupEntry;
  mf_row_counts : option (list usize);
  mf_partition_values : option (gmap string (gmap string Value));
  mf_next_row_id : u64;
  mf_next_fragment_id : u64;
  mf_rowindex_generation : option RowIndexRef;
  mf_index_generations : gmap string IndexRef;
  mf_checkpoint : option string;
  mf_parent_hash : option string;
  mf_committed_at : option string;
  mf_checksum : string;
}.

#[export] Instance RowIndexRef_eq_dec : EqDecision RowIndexRef.
Proof. solve_decision. Defined.
#[export] Instance IndexRef_eq_dec : EqDecision IndexRef.
Proof. solve_decision. Defined.
#[export] Instance RowGroupEntry_eq_dec : EqDecision RowGroupEntry.
Proof. solve_decision. Defined.

(** [#[derive(Default)]]. *)
Definition RowIndexRef_default : RowIndexRef := mkRowIndexRef None [].
Definition IndexRef_default : IndexRef := mkIndexRef None [].
Definition Manifest_default : Manifest :=
  mkManifest 0 0 0 [] None None 0 0 None ∅ None None None "".

(** ** Serialized form *)

#[export] Instance Serde_RowIndexRef : Serde RowIndexRef := {
  to_value r := VObject
    (put_some "base" (ri_base r) $ put_if (negb (is_empty (ri_deltas r))) "deltas" (ri_deltas r) []);
  of_value v :=
    m ← as_object v;
    base ← field_opt "base" m;
    deltas ← field_default [] "deltas" m;
    Some (mkRowIndexRef base deltas);
}.
#[export] Instance Serde_IndexRef : Serde IndexRef := {
  to_value r := VObject
    (put_some "base" (ir_base r) $ put_if (negb (is_empty (ir_deltas r))) "deltas" (ir_deltas r) []);
  of_value v :=
    m ← as_object v;
    base ← field_opt "base" m;
    deltas ← field_default [] "deltas" m;
    Some (mkIndexRef base deltas);
}.
#[export] Instance Serde_RowGroupEntry : Serde RowGroupEntry := {
  to_value e := VObject
    (put "data" (rg_data e) $ put "meta" (rg_meta e) $
     put_if (negb (is_zero_u64 (rg_fragment_id e))) "fragment_id" (rg_fragment_id e) $
     put_some "deletes" (rg_deletes e) $
     put_if (negb (is_zero_u64 (rg_deleted_count e))) "deleted_count" (rg_deleted_count e) $
     put_some "agg" (rg_agg e) []);
  of_value v :=
    m ← as_object v;
    data ← field "data" m;
    meta ← field "meta" m;
    fragment_id ← field_default 0 "fragment_id" m;
    deletes ← field_opt "deletes" m;
    deleted_count ← field_default 0 "deleted_count" m;
    agg ← field_opt "agg" m;
    Some (mkEntry data meta fragment_id deletes deleted_count agg);
}.
#[export] Instance Serde_Manifest : Serde Manifest := {
  to_value t := VObject
    (put "format_version" (mf_format_version t) $ put "sequence" (mf_sequence t) $
     put "schema_id" (mf_schema_id t) $ put "row_groups" (mf_row_groups t) $
     put_some "row_counts" (mf_row_counts t) $
     put_some "partition_values" (mf_partition_values t) $
     put_if (negb (is_zero_u64 (mf_next_row_id t))) "next_row_id" (mf_next_row_id t) $
     put_if (negb (is_zero_u64 (mf_next_fragment_id t))) "next_fragment_id"
       (mf_next_fragment_id t) $
     put_some "rowindex_generation" (mf_rowindex_generation t) $
     put_if (negb (bool_decide (mf_index_generations t = ∅))) "index_generations"
       (mf_index_generations t) $
     put_some "checkpoint" (mf_checkpoint t) $
     put_some "parent_hash" (mf_parent_hash t) $
     put_some "committed_at" (mf_committed_at t) $
     put "checksum" (mf_checksum t) []);
  of_value v :=
    m ← as_object v;
    format_version ← field "format_version" m;
    sequence ← field "sequence" m;
    schema_id ← field "schema_id" m;
    row_groups ← field "row_groups" m;
    row_counts ← field_opt "row_counts" m;
    partition_values ← field_opt "partition_values" m;
    next_row_id ← field_default 0 "next_row_id" m;
    next_fragment_id ← field_default 0 "next_fragment_id" m;
    rowindex_generation ← field_opt "rowindex_generation" m;
    index_generations ← field_default ∅ "index_generations" m;
    checkpoint ← field_opt "checkpoint" m;
    parent_hash ← field_opt "parent_hash" m;
    committed_at ← field_opt "committed_at" m;
    checksum ← field "checksum" m;
    Some (mkManifest format_version sequence schema_id row_groups row_counts partition_values
      next_row_id next_fragment_id rowindex_generation index_generations checkpoint
      parent_hash committed_at checksum);
}.

(** ** Operations *)

Definition Manifest_filename (seq : u64) : string :=
  "_manifests/" +:+ fmt_09 seq +:+ ".json".

Definition with_checksum (c : string) (m : Manifest) : Manifest :=
  mkManifest (mf_format_version m) (mf_sequence m) (mf_schema_id m) (mf_row_groups m)
    (mf_row_counts m) (mf_partition_values m) (mf_next_row_id m) (mf_next_fragment_id m)
    (mf_rowindex_generation m) (mf_index_generations m) (mf_checkpoint m)
    (mf_parent_hash m) (mf_committed_at m) c.
Definition with_link (parent : option string) (at_ : string) (m : Manifest) : Manifest :=
  mkManifest (mf_format_version m) (mf_sequence m) (mf_schema_id m) (mf_row_groups m)
    (mf_row_counts m) (mf_partition_values m) (mf_next_row_id m) (mf_next_fragment_id m)
    (mf_rowindex_generation m) (mf_index_generations m) (mf_checkpoint m)
    parent (Some at_) (mf_checksum m).

Section operations.
Context `{!Sha256, !SerdeJson}.

Definition compute_checksum (m : Manifest) : string :=
  let copy := with_checksum "" m in checksum_json (to_value copy).
Definition verify_checksum (m : Manifest) : bool :=
  bool_decide (mf_checksum m = compute_checksum m).
Definition finalize (parent_checksum : option string) (committed_at : string) (m : Manifest)
    : Manifest :=
  let m := with_link parent_checksum committed_at m in
  with_checksum (compute_checksum m) m.

Context {St : Type} `{!Storage St}.

(** The scan of [_manifests/]: the highest parseable sequence below [next_seq]. *)
Definition better (next_seq : u64) (best : option u64) (entry : string) : option u64 :=
  match file_name entry with
  | None => best
  | Some filename =>
      match strip_suffix ".json" filename with
      | None => best
      | Some seq_str =>
          match parse_u64 seq_str with
          | None => best
          | Some seq =>
              if (seq <? next_seq) && match best with None => true | Some b => b <? seq end
              then Some seq else best
          end
      end
  end.

Definition parent_manifest_checksum (table : string) (next_seq : u64)
    : M St (option string) :=
  if next_seq <=? 1 then m_ret None else
  let direct := table +:+ "/" +:+ Manifest_filename (next_seq - 1) in
  let slow_path :=
    match! st_list (table +:+ "/_manifests") as r in
    match r with
    | Err e => if is_not_found e then m_ret None else m_lift (Err e)
    | Panic => m_lift Panic
    | Ok entries =>
        match foldl (better next_seq) None entries with
        | None => m_ret None
        | Some pred_seq =>
            match! st_read (table +:+ "/" +:+ Manifest_filename pred_seq) as r in
            match r with
            | Ok b => m_ret (mf_checksum <$> from_slice (A:=Manifest) b)
            | Err _ => m_ret None
            | Panic => m_lift Panic
            end
        end
    end in
  match! st_read direct as r in
  match r with
  | Ok b =>
      match from_slice (A:=Manifest) b with
      | Some m => m_ret (Some (mf_checksum m))
      | None => slow_path
      end
  | Err _ => slow_path
  | Panic => m_lift Panic
  end.

(** [now] is the rendered [Utc::now()]. *)
Definition finalize_manifest (table : string) (now : string) (m : Manifest) (next_seq : u64)
    : M St Manifest :=
  let! parent := parent_manifest_checksum table next_seq in
  m_ret (finalize parent now m).
End operations.

(** ** Serialization round trips *)

#[export, refine] Instance SerdeLaws_IndexRef : SerdeLaws IndexRef :=
  { serde_wf _ := True }.
Proof.
  - intros r _. cbn [to_value Serde_IndexRef]. solve_object.
  - intros r _. cbn [of_value to_value Serde_IndexRef as_object mbind option_bind].
    rewrite (field_opt_put_some "base" (ir_base r)) by solve_field. cbn [mbind option_bind].
    rewrite (field_default_put_if _ "deltas" (ir_deltas r) []) by solve_field.
    by destruct r.
  - done.
Defined.
#[export, refine] Instance SerdeLaws_RowIndexRef : SerdeLaws RowIndexRef :=
  { serde_wf _ := True }.
Proof.
  - intros r _. cbn [to_value Serde_RowIndexRef]. solve_object.
  - intros r _. cbn [of_value to_value Serde_RowIndexRef as_object mbind option_bind].
    rewrite (field_opt_put_some "base" (ri_base r)) by solve_field. cbn [mbind option_bind].
    rewrite (field_default_put_if _ "deltas" (ri_deltas r) []) by solve_field.
    by destruct r.
  - done.
Defined.

#[export, refine] Instance SerdeLaws_RowGroupEntry : SerdeLaws RowGroupEntry :=
  { serde_wf e := in_u64 (rg_fragment_id e) ∧ in_u64 (rg_deleted_count e) }.
Proof.
  - intros e [??]. cbn [to_value Serde_RowGroupEntry]. solve_object.
  - intros e [??]. cbn [of_value to_value Serde_RowGroupEntry as_object mbind option_bind].
    rewrite (field_put "data" (rg_data e)) by solve_field. cbn [mbind option_bind].
    rewrite (field_put "meta" (rg_meta e)) by solve_field. cbn [mbind option_bind].
    rewrite (field_default_put_if _ "fragment_id" (rg_fragment_id e) 0) by solve_field.
    cbn [mbind option_bind].
    rewrite (field_opt_put_some "deletes" (rg_deletes e)) by solve_field. cbn [mbind option_bind].
    rewrite (field_default_put_if _ "deleted_count" (rg_deleted_count e) 0) by solve_field.
    cbn [mbind option_bind].
    rewrite (field_opt_put_some "agg" (rg_agg e)) by solve_field. by destruct e.
  - intros v e Hv E. cbn [of_value Serde_RowGroupEntry] in E. inv_fields E. simplify_eq.
    cbn [rg_fragment_id rg_deleted_count]. assert (obj_wf x) by eauto with icefall.
    split; eauto with icefall.
Defined.
#[export] Instance SerdeNonNull_RowIndexRef : SerdeNonNull RowIndexRef.
Proof. done. Qed.

(** What the Rust types guarantee of a manifest in memory: integers of their
    width, JSON values as [serde_json] builds them. *)
Definition manifest_wf (m : Manifest) : Prop :=
  in_u64 (mf_format_version m) ∧ in_u64 (mf_sequence m) ∧ in_u64 (mf_schema_id m)
  ∧ in_u64 (mf_next_row_id m) ∧ in_u64 (mf_next_fragment_id m)
  ∧ Forall serde_wf (mf_row_groups m)
  ∧ (match mf_row_counts m with Some l => Forall in_u64 l | None => True end)
  ∧ (match mf_partition_values m with
     | Some p => map_Forall (λ _, map_Forall (λ _, value_wf)) p
     | None => True
     end).

#[export, refine] Instance SerdeLaws_Manifest : SerdeLaws Manifest :=
  { serde_wf := manifest_wf }.
Proof.
  - intros t (?&?&?&?&?&?&Hc&Hp). cbn [to_value Serde_Manifest].
    assert (∀ c, mf_row_counts t = Some c → value_wf (to_value c))
      by (intros c Ec; rewrite Ec in Hc; by apply to_value_wf).
    assert (∀ p, mf_partition_values t = Some p → value_wf (to_value p))
      by (intros p Ep; rewrite Ep in Hp; by apply (to_value_wf p)).
    assert (∀ r, mf_rowindex_generation t = Some r → value_wf (to_value r))
      by (intros r _; by apply (to_value_wf r)).
    assert (value_wf (to_value (mf_index_generations t)))
      by (by apply (to_value_wf (mf_index_generations t))).
    assert (value_wf (to_value (mf_row_groups t)))
      by (by apply (to_value_wf (mf_row_groups t))).
    solve_object.
  - intros t (?&?&?&?&?&?&Hc&Hp).
    assert (serde_wf (mf_row_counts t)) by (by destruct (mf_row_counts t)).
    assert (serde_wf (mf_partition_values t)) by (by destruct (mf_partition_values t)).
    assert (serde_wf (mf_rowindex_generation t)) by (by destruct (mf_rowindex_generation t)).
    assert (serde_wf (mf_index_generations t)) by done.
    cbn [of_value to_value Serde_Manifest as_object mbind option_bind].
    set (m := put "format_version" _ _).
    assert (field "format_version" m = Some (mf_format_version t)) as Hformat_version
      by (apply field_put; try unfold m; solve_field).
    assert (field "sequence" m = Some (mf_sequence t)) as Hsequence
      by (apply field_put; try unfold m; solve_field).
    assert (field "schema_id" m = Some (mf_schema_id t)) as Hschema_id
      by (apply field_put; try unfold m; solve_field).
    assert (field "row_groups" m = Some (mf_row_groups t)) as Hrow_groups
      by (apply field_put; try unfold m; solve_field).
    assert (field_opt "row_counts" m = Some (mf_row_counts t)) as Hrow_counts
      by (apply field_opt_put_some; try unfold m; solve_field).
    assert (field_opt "partition_values" m = Some (mf_partition_values t)) as Hpartition_values
      by (apply field_opt_put_some; try unfold m; solve_field).
    assert (field_default 0 "next_row_id" m = Some (mf_next_row_id t)) as Hnext_row_id
      by (eapply field_default_put_if; try unfold m; solve_field).
    assert (field_default 0 "next_fragment_id" m = Some (mf_next_fragment_id t)) as Hnext_fragment_id
      by (eapply field_default_put_if; try unfold m; solve_field).
    assert (field_opt "rowindex_generation" m = Some (mf_rowindex_generation t)) as Hrowindex_generation
      by (apply field_opt_put_some; try unfold m; solve_field).
    assert (field_default ∅ "index_generations" m = Some (mf_index_generations t)) as Hindex_generations
      by (eapply field_default_put_if; try unfold m; solve_field).
    assert (field_opt "checkpoint" m = Some (mf_checkpoint t)) as Hcheckpoint
      by (apply field_opt_put_some; try unfold m; solve_field).
    assert (field_opt "parent_hash" m = Some (mf_parent_hash t)) as Hparent_hash
      by (apply field_opt_put_some; try unfold m; solve_field).
    assert (field_opt "committed_at" m = Some (mf_committed_at t)) as Hcommitted_at
      by (apply field_opt_put_some; try unfold m; solve_field).
    assert (field "checksum" m = Some (mf_checksum t)) as Hchecksum
      by (apply field_put; try unfold m; solve_field).
    clearbody m. rewrite Hformat_version, Hsequence, Hschema_id, Hrow_groups, Hrow_counts, Hpartition_values, Hnext_row_id;
      cbn [mbind option_bind].
    rewrite Hnext_fragment_id, Hrowindex_generation, Hindex_generations, Hcheckpoint, Hparent_hash, Hcommitted_at, Hchecksum; cbn [mbind option_bind].
    by destruct t.
  - intros v t Hv E. cbn [of_value Serde_Manifest] in E. inv_fields E. simplify_eq.
    assert (obj_wf x) as Hx' by eauto with icefall.
    unfold manifest_wf. cbn. repeat split_and.
    1-5: by eauto with icefall.
    + by refine (field_wf (A:=list RowGroupEntry) "row_groups" x _ _ _).
    + by refine (field_opt_wf (A:=list Z) "row_counts" x _ _ _ _).
    + by refine (field_opt_wf (A:=gmap string (gmap string Value)) "partition_values" x _ _ _ _).
Defined.

(** Only the partition values of a manifest can hold floats. *)
Definition manifest_exact `{!SerdeJson} (m : Manifest) : Prop :=
  match mf_partition_values m with Some p => value_exact (to_value p) | None => True end.
Section exact.
Context `{!SerdeJson}.
#[export] Instance SerdeExact_RowIndexRef : SerdeExact RowIndexRef.
Proof. intros r. cbn [to_value Serde_RowIndexRef]. solve_exact. Qed.
#[export] Instance SerdeExact_IndexRef : SerdeExact IndexRef.
Proof. intros r. cbn [to_value Serde_IndexRef]. solve_exact. Qed.
#[export] Instance SerdeExact_RowGroupEntry : SerdeExact RowGroupEntry.
Proof. intros e. cbn [to_value Serde_RowGroupEntry]. solve_exact. Qed.
Lemma manifest_value_exact m : manifest_exact m → value_exact (to_value m).
Proof.
  unfold manifest_exact. intros Hp. cbn [to_value Serde_Manifest].
  assert (∀ p, mf_partition_values m = Some p → value_exact (to_value p))
    by (intros p Ep; by rewrite Ep in Hp).
  solve_exact.
Qed.
End exact.

Lemma from_to_slice {A} `{!SerdeJson, !SerdeJsonLaws, !Serde A, !SerdeLaws A} (a : A) :
  serde_wf a → value_exact (to_value a) → from_slice (to_vec a) = Some a.
Proof.
  intros Hw Hx. unfold from_slice, to_vec.
  rewrite json_parse_to_vec by (done || by apply to_value_wf). by apply of_to_value.
Qed.
Lemma from_to_slice_pretty {A} `{!SerdeJson, !SerdeJsonLaws, !Serde A, !SerdeLaws A} (a : A) :
  serde_wf a → value_exact (to_value a) → from_slice (to_vec_pretty a) = Some a.
Proof.
  intros Hw Hx. unfold from_slice, to_vec_pretty.
  rewrite json_parse_pretty by (done || by apply to_value_wf). by apply of_to_value.
Qed.
Lemma from_slice_wf {A} `{!SerdeJson, !SerdeJsonLaws, !Serde A, !SerdeLaws A} b (a : A) :
  from_slice b = Some a → serde_wf a.
Proof.
  intros (v&Hv&Ha)%bind_Some. eapply of_value_wf, Ha. by eapply json_parse_wf.
Qed.

(** ** Self-checksums *)

Section checksums.
Context `{!Sha256, !SerdeJson, !SerdeJsonLaws}.

Lemma with_checksum_wf c m : manifest_wf m → manifest_wf (with_checksum c m).
Proof. by destruct m. Qed.
Lemma with_checksum_ext m m' :
  with_checksum "" m = with_checksum "" m' → mf_checksum m = mf_checksum m' → m = m'.
Proof.
  intros E Hc.
  assert (∀ x, x = with_checksum (mf_checksum x) (with_checksum "" x)) as Hx by by intros [].
  rewrite (Hx m), (Hx m'). by rewrite E, Hc.
Qed.
Lemma compute_checksum_with c m : compute_checksum (with_checksum c m) = compute_checksum m.
Proof. done. Qed.

(** Two manifests whose digests agree although what is digested does not. *)
Definition manifest_collision (m m' : Manifest) : Prop :=
  sha256_collision (preimage (to_value (with_checksum "" m)))
    (preimage (to_value (with_checksum "" m'))).

Lemma compute_checksum_inj m m' :
  manifest_wf m → manifest_wf m' → compute_checksum m = compute_checksum m' →
  with_checksum "" m = with_checksum "" m' ∨ manifest_collision m m'.
Proof.
  intros Hm Hm' E.
  by apply (checksum_json_inj (A:=Manifest) (with_checksum "" m) (with_checksum "" m'));
    [apply with_checksum_wf..|].
Qed.
(** Verified manifests with the same checksum are the same manifest. *)
Lemma verified_inj m m' :
  manifest_wf m → manifest_wf m' → verify_checksum m = true → verify_checksum m' = true →
  mf_checksum m = mf_checksum m' → m = m' ∨ manifest_collision m m'.
Proof.
  unfold verify_checksum. rewrite !bool_decide_eq_true. intros ?? Hm Hm' E.
  destruct (compute_checksum_inj m m') as [E'|]; [done..|congruence| |by right].
  left. by apply with_checksum_ext.
Qed.

Lemma finalize_verifies p at_ m : verify_checksum (finalize p at_ m) = true.
Proof. unfold verify_checksum, finalize. by apply bool_decide_eq_true. Qed.
End checksums.

(** ** The predecessor link *)

Lemma Manifest_filename_piece seq : file_piece (fmt_09 seq +:+ ".json").
Proof.
  apply (file_piece_suffix _ "." "json"); [by apply fmt_09_no_char|done|right].
  rewrite string_length_app. simpl. lia.
Qed.
Definition manifest_path (table : string) (seq : u64) : string :=
  table +:+ "/" +:+ Manifest_filename seq.
Lemma manifest_path_eq table seq :
  manifest_path table seq = (table +:+ "/_manifests") +:+ "/" +:+ (fmt_09 seq +:+ ".json").
Proof. unfold manifest_path, Manifest_filename. by rewrite <-!string_app_assoc. Qed.
Lemma manifests_dir_clean table : clean table → clean (table +:+ "/_manifests").
Proof. intros. apply (clean_join table "_manifests"); [done|by apply clean_bool]. Qed.
Lemma manifest_path_clean table seq : clean table → clean (manifest_path table seq).
Proof.
  intros. rewrite manifest_path_eq. apply clean_join; [by apply manifests_dir_clean|].
  apply file_piece_clean, Manifest_filename_piece.
Qed.

(** The sequence an entry of [_manifests/] names, if it names one. *)
Definition entry_seq (entry : string) : option u64 :=
  f ← file_name entry; stem ← strip_suffix ".json" f; parse_u64 stem.
Lemma entry_seq_path table seq :
  clean table → in_u64 seq → entry_seq (manifest_path table seq) = Some seq.
Proof.
  intros Ht Hs. unfold entry_seq. rewrite manifest_path_eq, file_name_join
    by auto using manifests_dir_clean, Manifest_filename_piece.
  cbn [mbind option_bind]. rewrite strip_suffix_app. simpl. by apply parse_u64_fmt_09.
Qed.

Definition listed_seqs (fs : gmap string bytes) (table : string) : list u64 :=
  omap entry_seq (list_children fs (table +:+ "/_manifests" +:+ "/")).

Definition manifest_at `{!SerdeJson} (fs : gmap string bytes) (table : string) (seq : u64)
    : option Manifest :=
  fs !! manifest_path table seq ≫= from_slice.

Lemma listed_manifest fs table seq b :
  clean table → in_u64 seq → fs !! manifest_path table seq = Some b →
  seq ∈ listed_seqs fs table.
Proof.
  intros Ht Hs Hb. apply list_elem_of_omap. exists (manifest_path table seq).
  split; [|by apply entry_seq_path]. rewrite manifest_path_eq in Hb |- *.
  rewrite (string_app_assoc table). eapply list_children_file; [|exact Hb].
  apply Manifest_filename_piece.
Qed.
Lemma entry_seq_range e q : entry_seq e = Some q → in_u64 q.
Proof.
  unfold entry_seq, parse_u64. intros (f&_&(st&_&E)%bind_Some)%bind_Some.
  apply bind_Some in E as (n&_&E). by apply checked_Some in E as [? ->].
Qed.

Lemma better_entry n b e :
  better n b e
  = match entry_seq e with
    | Some q => if (q <? n) && match b with None => true | Some p => p <? q end
                then Some q else b
    | None => b
    end.
Proof.
  unfold better, entry_seq. destruct (file_name e) as [f|]; [|done]. simpl.
  destruct (strip_suffix ".json" f) as [st|]; [|done]. simpl. by destruct (parse_u64 st).
Qed.
(** The scan returns the greatest listed sequence below the bound. *)
Lemma better_fold n es b :
  match foldl (better n) b es with
  | None => b = None ∧ ∀ q, q ∈ omap entry_seq es → n <= q
  | Some p =>
      (b = Some p ∨ p ∈ omap entry_seq es ∧ p < n)
      ∧ (∀ q, q ∈ omap entry_seq es → q < n → q <= p)
      ∧ (∀ q, b = Some q → q <= p)
  end.
Proof.
  revert b. induction es as [|e es IH]; intros b; cbn [foldl].
  { destruct b; [|set_solver]. split; [by left|]. split; [set_solver|]. by intros q [= ->]. }
  specialize (IH (better n b e)). rewrite better_entry in IH |- *.
  assert (omap entry_seq (e :: es)
          = match entry_seq e with Some q => q :: omap entry_seq es | None => omap entry_seq es end)
    as -> by done.
  destruct (entry_seq e) as [q0|]; [|exact IH].
  destruct (Z.ltb_spec q0 n) as [Hlt|Hge]; simpl in IH |- *.
  - destruct (match b with Some p => p <? q0 | None => true end) eqn:Hb.
    + destruct (foldl _ _ es) as [p|]; [|by destruct IH].
      destruct IH as (H1&H2&H3). pose proof (H3 q0 eq_refl). split; [|split].
      * destruct H1 as [[= ->]|[? ?]]; right; split; try done; set_solver.
      * intros q [->|Hq]%elem_of_cons; [done|auto].
      * intros q ->. zbool. lia.
    + destruct b as [b|]; [|done]. zbool.
      destruct (foldl _ _ es) as [p|]; [|by destruct IH].
      destruct IH as (H1&H2&H3). specialize (H3 b eq_refl). split; [|split].
      * destruct H1 as [?|[? ?]]; [by left|right]. split; [set_solver|done].
      * intros q [->|Hq]%elem_of_cons; [lia|auto].
      * by intros q [= ->].
  - destruct (foldl _ _ es) as [p|].
    + destruct IH as (H1&H2&H3). split; [|split; [|done]].
      * destruct H1 as [?|[? ?]]; [by left|right]. split; [set_solver|done].
      * intros q [->|Hq]%elem_of_cons; [lia|auto].
    + destruct IH as [-> H2]. split; [done|]. intros q [->|Hq]%elem_of_cons; auto.
Qed.

Section parent.
Context `{!Sha256, !SerdeJson, !SerdeJsonLaws} {St : Type} `{!Storage St, !StorageLaws St}.
Implicit Types s : St.

Lemma st_read_clean p s : clean p → st_read p s = (read_result (files s) p, s).
Proof. intros. by apply st_read_spec, clean_validate. Qed.

(** The greatest listed sequence below [next_seq]. *)
Definition nearest_below s table (next_seq q : u64) : Prop :=
  q ∈ listed_seqs (files s) table ∧ q < next_seq
  ∧ ∀ q', q' ∈ listed_seqs (files s) table → q' < next_seq → q' <= q.

(** The parent link of a new manifest is the checksum of the nearest earlier manifest
    present, across gaps in the sequence, and absent exactly when there is none before it.
    *)
Theorem parent_links_nearest table next_seq s :
  clean table → in_u64 next_seq → 1 < next_seq →
  (∀ q m, nearest_below s table next_seq q → manifest_at (files s) table q = Some m →
     parent_manifest_checksum table next_seq s = (Ok (Some (mf_checksum m)), s))
  ∧ ((∀ q, q ∈ listed_seqs (files s) table → next_seq <= q) →
     parent_manifest_checksum table next_seq s = (Ok None, s)).
Proof.
  intros Ht Hn Hgt. unfold in_u64 in Hn.
  assert (in_u64 (next_seq - 1)) as Hd by (unfold in_u64; lia).
  pose proof (manifest_path_clean table (next_seq - 1) Ht) as Hc.
  pose proof (listed_manifest (files s) table (next_seq - 1)) as Hl.
  unfold parent_manifest_checksum. destruct (Z.leb_spec next_seq 1); [lia|].
  rewrite (m_try_eq _ _ _ _ _ (st_read_clean _ _ Hc)). fold (manifest_path table (next_seq - 1)).
  unfold read_result.
  pose proof (st_list_spec (table +:+ "/_manifests") _ s
    (clean_validate _ (manifests_dir_clean table Ht))) as Hls.
  rewrite <-(string_app_assoc table "/_manifests" "/") in Hls.
  pose proof (better_fold next_seq (list_children (files s) (table +:+ "/_manifests" +:+ "/"))
    None) as Hb. fold (listed_seqs (files s) table) in Hb.
  split.
  - intros q m (Hq&Hlt&Hmax) Hm. unfold manifest_at in Hm.
    destruct (decide (q = next_seq - 1)) as [->|Hne].
    { destruct (files s !! manifest_path table (next_seq - 1)) as [b|]; [|done].
      simpl in Hm |- *. by rewrite Hm. }
    destruct (files s !! manifest_path table (next_seq - 1)) as [b|] eqn:E.
    { specialize (Hmax _ (Hl b Ht Hd eq_refl)). lia. }
    simpl. rewrite (m_try_eq _ _ _ _ _ Hls). unfold listed_seqs in Hq.
    case_decide as Hnil; [rewrite Hnil in Hq; by apply elem_of_nil in Hq|].
    destruct (foldl _ _ _) as [p|].
    + destruct Hb as ([?|[Hp Hpn]]&Hb&_); [done|].
      assert (p = q) as -> by (pose proof (Hb q Hq Hlt); pose proof (Hmax p Hp Hpn); lia).
      rewrite (m_try_eq _ _ _ _ _ (st_read_clean _ _ (manifest_path_clean table q Ht))).
      fold (manifest_path table q). unfold read_result.
      destruct (files s !! manifest_path table q) as [b|]; [|done]. simpl in Hm |- *.
      by rewrite Hm.
    + destruct Hb as [_ Hb]. specialize (Hb q Hq). lia.
  - intros Hall. destruct (files s !! manifest_path table (next_seq - 1)) as [b|] eqn:E.
    { specialize (Hall _ (Hl b Ht Hd eq_refl)). lia. }
    simpl. rewrite (m_try_eq _ _ _ _ _ Hls). case_decide; [done|].
    destruct (foldl _ _ _) as [p|]; [|done].
    destruct Hb as ([?|[Hp Hpn]]&_); [done|]. specialize (Hall p Hp). lia.
Qed.
End parent.

Section parent_total.
Context `{!Sha256, !SerdeJson, !SerdeJsonLaws} {St : Type} `{!Storage St, !StorageLaws St}.
Implicit Types s : St.

(** The link never fails: an unreadable history is an anchor. *)
Lemma parent_total table next_seq s :
  clean table → ∃ p, parent_manifest_checksum table next_seq s = (Ok p, s).
Proof.
  intros Ht. unfold parent_manifest_checksum. case_match; [by eexists|].
  pose proof (st_list_spec (table +:+ "/_manifests") _ s
    (clean_validate _ (manifests_dir_clean table Ht))) as Hls.
  assert (∀ q, st_read (table +:+ "/" +:+ Manifest_filename q) s
               = (read_result (files s) (manifest_path table q), s)) as Hrd
    by (intros q; by apply st_read_clean, manifest_path_clean).
  set (slow := m_try (st_list _) _).
  assert (∃ p, slow s = (Ok p, s)) as [p Hslow].
  { unfold slow. rewrite (m_try_eq _ _ _ _ _ Hls). case_decide; [by eexists|].
    destruct (foldl _ _ _) as [q|]; [|by eexists]. rewrite (m_try_eq _ _ _ _ _ (Hrd q)).
    unfold read_result. destruct (files s !! _); by eexists. }
  rewrite (m_try_eq _ _ _ _ _ (Hrd (next_seq - 1))). unfold read_result.
  destruct (files s !! _) as [b|]; simpl; [|by exists p].
  destruct (from_slice b); [by eexists|by exists p].
Qed.
End parent_total.
