(* ===== verification/RowGroupMeta.v ===== *)
(** * Row-group metadata and snapshot checkpoints

    [metadata/row_group_meta.rs] and [metadata/checkpoint.rs]: the per-fragment
    sidecar, the denormalized checkpoint with its zero-copy archive, and their
    checksums. *)

From S2P Require Import Prelude Bytes RowId Text OrdMap Json.
From Stdlib Require Import Ascii String.

#[local] Open Scope list_scope.
#[local] Open Scope Z_scope.

(** ** [RowIdSegment], internally tagged by [kind] *)

#[export] Instance Serde_RowIdSegment : Serde RowIdSegment := {
  to_value seg :=
    match seg with
    | Range start count => VObject (put "kind" "range" $ put "start" start $ put "count" count [])
    | Sorted ids => VObject (put "kind" "sorted" $ put "ids" ids [])
    end;
  of_value v :=
    m ← as_object v;
    kind ← field (A:=string) "kind" m;
    if decide (kind = "range") then
      start ← field "start" m; count ← field "count" m; Some (Range start count)
    else if decide (kind = "sorted") then
      ids ← field "ids" m; Some (Sorted ids)
    else None;
}.

Record ColumnStats := mkStats {
  cs_min : option Value;
  cs_max : option Value;
  cs_nulls : usize;
}.
Record ColumnChunkOffset := mkOffset { co_offset : u64; co_length : u64 }.

Record RowGroupMeta := mkMeta {
  rm_row_group : string;
  rm_schema_id : u64;
  rm_rows : usize;
  rm_columns : gmap string ColumnStats;
  rm_column_offsets : option (gmap string ColumnChunkOffset);
  rm_sort : option (list string);
  rm_row_ids : list RowIdSegment;
  rm_checksum : string;
  rm_meta_checksum : string;
}.

#[export] Instance Serde_ColumnStats : Serde ColumnStats := {
  to_value c := VObject
    (put_some "min" (cs_min c) $ put_some "max" (cs_max c) $ put "nulls" (cs_nulls c) []);
  of_value v :=
    m ← as_object v;
    mi ← field_opt "min" m; ma ← field_opt "max" m; nulls ← field "nulls" m;
    Some (mkStats mi ma nulls);
}.
#[export] Instance Serde_ColumnChunkOffset : Serde ColumnChunkOffset := {
  to_value c := VObject (put "offset" (co_offset c) $ put "length" (co_length c) []);
  of_value v :=
    m ← as_object v;
    offset ← field "offset" m; length ← field "length" m; Some (mkOffset offset length);
}.
#[export] Instance Serde_RowGroupMeta : Serde RowGroupMeta := {
  to_value t := VObject
    (put "row_group" (rm_row_group t) $ put "schema_id" (rm_schema_id t) $
     put "rows" (rm_rows t) $ put "columns" (rm_columns t) $
     put_some "column_offsets" (rm_column_offsets t) $ put_some "sort" (rm_sort t) $
     put_if (negb (is_empty (rm_row_ids t))) "row_ids" (rm_row_ids t) $
     put "checksum" (rm_checksum t) $ put "meta_checksum" (rm_meta_checksum t) []);
  of_value v :=
    m ← as_object v;
    row_group ← field "row_group" m;
    schema_id ← field "schema_id" m;
    rows ← field "rows" m;
    columns ← field "columns" m;
    column_offsets ← field_opt "column_offsets" m;
    sort ← field_opt "sort" m;
    row_ids ← field_default [] "row_ids" m;
    checksum ← field "checksum" m;
    meta_checksum ← field "meta_checksum" m;
    Some (mkMeta row_group schema_id rows columns column_offsets sort row_ids checksum
            meta_checksum);
}.

Definition set_checksums (c mc : string) (m : RowGroupMeta) : RowGroupMeta :=
  mkMeta (rm_row_group m) (rm_schema_id m) (rm_rows m) (rm_columns m) (rm_column_offsets m)
    (rm_sort m) (rm_row_ids m) c mc.

Section meta.
Context `{!Sha256, !SerdeJson}.

(** [compute_meta_checksum(&mut self)]: the returned checksum and the updated
    struct. *)
Definition compute_meta_checksum (m : RowGroupMeta) : string * RowGroupMeta :=
  let saved_checksum := rm_checksum m in
  let cleared := set_checksums "" "" m in
  let cs := checksum_json (to_value cleared) in
  (cs, set_checksums saved_checksum cs m).
(** [compute_checksum(&mut self, parquet_bytes)]. *)
Definition meta_compute_checksum (parquet_bytes : bytes) (m : RowGroupMeta)
    : string * RowGroupMeta :=
  let cs := checksum_bytes parquet_bytes in
  let m := set_checksums cs (rm_meta_checksum m) m in
  (cs, snd (compute_meta_checksum m)).
Definition verify_against_data (m : RowGroupMeta) (parquet_bytes : bytes) : bool :=
  bool_decide (checksum_bytes parquet_bytes = rm_checksum m).
Definition verify_meta_checksum (m : RowGroupMeta) : bool :=
  if decide (rm_meta_checksum m = "") then false else
  bool_decide (checksum_json (to_value (set_checksums "" "" m)) = rm_meta_checksum m).
End meta.

(** ** Round trips *)

#[export, refine] Instance SerdeLaws_RowIdSegment : SerdeLaws RowIdSegment :=
  { serde_wf seg := match seg with
                    | Range start count => in_u64 start ∧ in_u64 count
                    | Sorted ids => Forall in_u64 ids
                    end }.
Proof.
  - intros [start count|ids] Hw; [destruct Hw|]; cbn [to_value Serde_RowIdSegment]; [solve_object|].
    assert (serde_wf ids) by done. solve_object.
  - intros [start count|ids] Hw; cbn [to_value of_value Serde_RowIdSegment as_object].
    + destruct Hw. set (m := put "kind" _ _).
      assert (field "kind" m = Some "range") as E1 by read_field m.
      assert (field "start" m = Some start) as E2 by read_field m.
      assert (field "count" m = Some count) as E3 by read_field m.
      clearbody m. simpl. rewrite E1. simpl. by rewrite E2, E3.
    + assert (serde_wf ids) by done. set (m := put "kind" _ _).
      assert (field "kind" m = Some "sorted") as E1 by read_field m.
      assert (field "ids" m = Some ids) as E2 by read_field m.
      clearbody m. simpl. rewrite E1. simpl. by rewrite E2.
  - intros v seg Hv E. cbn [of_value Serde_RowIdSegment] in E.
    apply bind_Some in E as (m&Hm&(k&_&E)%bind_Some). assert (obj_wf m) by eauto with icefall.
    repeat case_decide; [| |done].
    + inv_fields E. simplify_eq. split; eauto with icefall.
    + inv_fields E. simplify_eq. by refine (field_wf (A:=list Z) "ids" m _ _ _).
Defined.

#[export, refine] Instance SerdeLaws_ColumnStats : SerdeLaws ColumnStats :=
  { serde_wf c := serde_wf (cs_min c) ∧ serde_wf (cs_max c) ∧ in_u64 (cs_nulls c) }.
Proof.
  - intros c (Hmi&Hma&?). cbn [to_value Serde_ColumnStats].
    assert (∀ v, cs_min c = Some v → value_wf (to_value v))
      by (intros v E; rewrite E in Hmi; by destruct Hmi).
    assert (∀ v, cs_max c = Some v → value_wf (to_value v))
      by (intros v E; rewrite E in Hma; by destruct Hma).
    solve_object.
  - intros c (?&?&?). cbn [to_value of_value Serde_ColumnStats as_object mbind option_bind].
    rewrite (field_opt_put_some "min" (cs_min c)) by solve_field.
    cbn [mbind option_bind].
    rewrite (field_opt_put_some "max" (cs_max c)) by solve_field.
    cbn [mbind option_bind].
    rewrite (field_put "nulls" (cs_nulls c)) by solve_field. by destruct c.
  - intros v c Hv E. cbn [of_value Serde_ColumnStats] in E. inv_fields E. simplify_eq.
    assert (obj_wf x) by eauto with icefall. cbn [cs_min cs_max cs_nulls].
    split; [by refine (field_opt_wf (A:=Value) "min" x _ _ _ _)|].
    split; [by refine (field_opt_wf (A:=Value) "max" x _ _ _ _)|]. eauto with icefall.
Defined.
#[export, refine] Instance SerdeLaws_ColumnChunkOffset : SerdeLaws ColumnChunkOffset :=
  { serde_wf c := in_u64 (co_offset c) ∧ in_u64 (co_length c) }.
Proof.
  - intros c (?&?). cbn [to_value Serde_ColumnChunkOffset]. solve_object.
  - intros c (?&?). cbn [to_value of_value Serde_ColumnChunkOffset as_object mbind option_bind].
    rewrite (field_put "offset" (co_offset c)) by solve_field.
    cbn [mbind option_bind].
    rewrite (field_put "length" (co_length c)) by solve_field. by destruct c.
  - intros v c Hv E. cbn [of_value Serde_ColumnChunkOffset] in E. inv_fields E. simplify_eq.
    split; eauto with icefall.
Defined.

Definition columns_wf (m : gmap string ColumnStats) : Prop := map_Forall (λ _, serde_wf) m.
Definition offsets_wf (o : option (gmap string ColumnChunkOffset)) : Prop :=
  match o with Some m => map_Forall (λ _, serde_wf) m | None => True end.
Definition meta_wf (m : RowGroupMeta) : Prop :=
  in_u64 (rm_schema_id m) ∧ in_u64 (rm_rows m) ∧ columns_wf (rm_columns m)
  ∧ offsets_wf (rm_column_offsets m) ∧ Forall serde_wf (rm_row_ids m).

(** The values of the optional and the repeated fields that occur in both structs. *)
Lemma offsets_value_wf o a : offsets_wf o → o = Some a → value_wf (to_value a).
Proof. intros H ->. by apply (to_value_wf a). Qed.
Lemma sort_value_wf (o : option (list string)) a : o = Some a → value_wf (to_value a).
Proof. intros _. apply to_value_wf, strings_wf. Qed.
Lemma columns_value_wf m : columns_wf m → value_wf (to_value m).
Proof. exact (to_value_wf m). Qed.
Lemma row_ids_value_wf (l : list RowIdSegment) : Forall serde_wf l → value_wf (to_value l).
Proof. exact (to_value_wf l). Qed.
Lemma columns_serde_wf m : columns_wf m → serde_wf m.
Proof. done. Qed.
Lemma offsets_serde_wf o : offsets_wf o → serde_wf o.
Proof. by destruct o. Qed.
Lemma row_ids_serde_wf (l : list RowIdSegment) : Forall serde_wf l → serde_wf l.
Proof. done. Qed.
Lemma sort_serde_wf (o : option (list string)) : serde_wf o.
Proof. destruct o; [apply strings_wf|done]. Qed.
#[export] Hint Resolve offsets_value_wf sort_value_wf columns_value_wf row_ids_value_wf
  columns_serde_wf offsets_serde_wf row_ids_serde_wf sort_serde_wf : icefall.

#[export, refine] Instance SerdeLaws_RowGroupMeta : SerdeLaws RowGroupMeta :=
  { serde_wf := meta_wf }.
Proof.
  - intros t (?&?&?&?&?). cbn [to_value Serde_RowGroupMeta]. solve_object.
  - intros t (?&?&?&?&?). cbn [of_value to_value Serde_RowGroupMeta as_object mbind option_bind].
    set (m := put "row_group" _ _).
    assert (field "row_group" m = Some (rm_row_group t)) as E1 by read_field m.
    assert (field "schema_id" m = Some (rm_schema_id t)) as E2 by read_field m.
    assert (field "rows" m = Some (rm_rows t)) as E3 by read_field m.
    assert (field "columns" m = Some (rm_columns t)) as E4 by read_field m.
    assert (field_opt "column_offsets" m = Some (rm_column_offsets t)) as E5 by read_field m.
    assert (field_opt "sort" m = Some (rm_sort t)) as E6 by read_field m.
    assert (field_default [] "row_ids" m = Some (rm_row_ids t)) as E7 by read_field m.
    assert (field "checksum" m = Some (rm_checksum t)) as E8 by read_field m.
    assert (field "meta_checksum" m = Some (rm_meta_checksum t)) as E9 by read_field m.
    clearbody m. rewrite E1, E2, E3, E4, E5, E6, E7, E8, E9. by destruct t.
  - intros v t Hv E. cbn [of_value Serde_RowGroupMeta] in E. inv_fields E. simplify_eq.
    assert (obj_wf x) as Hx' by eauto with icefall. unfold meta_wf. cbn. repeat split_and.
    1-2: by eauto with icefall.
    + by refine (field_wf (A:=gmap string ColumnStats) "columns" x _ _ _).
    + by refine (field_opt_wf (A:=gmap string ColumnChunkOffset) "column_offsets" x _ _ _ _).
    + by refine (field_default_wf (A:=list RowIdSegment) [] "row_ids" x _ _ (Forall_nil_2 _) _).
Defined.

Section meta_checksum.
Context `{!Sha256, !SerdeJson, !SerdeJsonLaws}.

Lemma set_checksums_wf c mc m : meta_wf m → meta_wf (set_checksums c mc m).
Proof. done. Qed.

(** Stamping a sidecar makes both its checks succeed on the data it was stamped for,
    and two verified sidecars with the same metadata checksum agree on every field but the
    checksums, unless they form a digest collision. *)
Theorem meta_checksum_binds data m m' :
  meta_wf m → meta_wf m' →
  (let '(cs, stamped) := meta_compute_checksum data m in
   cs = checksum_bytes data ∧ verify_against_data stamped data = true
   ∧ verify_meta_checksum stamped = true)
  ∧ (verify_meta_checksum m = true → verify_meta_checksum m' = true →
     rm_meta_checksum m = rm_meta_checksum m' →
     set_checksums "" "" m = set_checksums "" "" m'
     ∨ sha256_collision (preimage (to_value (set_checksums "" "" m)))
         (preimage (to_value (set_checksums "" "" m')))).
Proof.
  intros Hm Hm'. split.
  - unfold meta_compute_checksum, compute_meta_checksum. cbn. split; [done|].
    unfold verify_against_data, verify_meta_checksum. cbn. split; [by apply bool_decide_eq_true|].
    rewrite decide_False by done. by apply bool_decide_eq_true.
  - unfold verify_meta_checksum. repeat case_decide; try done.
    rewrite !bool_decide_eq_true. intros E E' Heq.
    apply (checksum_json_inj (A:=RowGroupMeta)); [by apply set_checksums_wf..|]. congruence.
Qed.
End meta_checksum.

(** ** Snapshot checkpoints *)

Record FragmentSummary := mkSummary {
  fs_row_group : string;
  fs_data : string;
  fs_meta : string;
  fs_agg : option string;
  fs_deletes : option string;
  fs_fragment_id : u64;
  fs_rows : usize;
  fs_deleted_count : u64;
  fs_columns : gmap string ColumnStats;
  fs_column_offsets : option (gmap string ColumnChunkOffset);
  fs_row_ids : list RowIdSegment;
  fs_sort : option (list string);
  fs_checksum : string;
  fs_meta_checksum : string;
}.
Record SnapshotCheckpoint := mkCheckpoint {
  sc_sequence : u64;
  sc_schema_id : u64;
  sc_fragments : list FragmentSummary;
  sc_checksum : string;
}.

#[export] Instance Serde_FragmentSummary : Serde FragmentSummary := {
  to_value t := VObject
    (put_if (negb (is_empty_string (fs_row_group t))) "row_group" (fs_row_group t) $
     put "data" (fs_data t) $ put "meta" (fs_meta t) $
     put_some "agg" (fs_agg t) $ put_some "deletes" (fs_deletes t) $
     put "fragment_id" (fs_fragment_id t) $
     put_if (negb (is_zero_u64 (fs_rows t))) "rows" (fs_rows t) $
     put_if (negb (is_zero_u64 (fs_deleted_count t))) "deleted_count" (fs_deleted_count t) $
     put_if (negb (bool_decide (fs_columns t = ∅))) "columns" (fs_columns t) $
     put_some "column_offsets" (fs_column_offsets t) $
     put_if (negb (is_empty (fs_row_ids t))) "row_ids" (fs_row_ids t) $
     put_some "sort" (fs_sort t) $
     put_if (negb (is_empty_string (fs_checksum t))) "checksum" (fs_checksum t) $
     put_if (negb (is_empty_string (fs_meta_checksum t))) "meta_checksum" (fs_meta_checksum t)
       []);
  of_value v :=
    m ← as_object v;
    row_group ← field_default "" "row_group" m;
    data ← field "data" m;
    meta ← field "meta" m;
    agg ← field_opt "agg" m;
    deletes ← field_opt "deletes" m;
    fragment_id ← field "fragment_id" m;
    rows ← field_default 0 "rows" m;
    deleted_count ← field_default 0 "deleted_count" m;
    columns ← field_default ∅ "columns" m;
    column_offsets ← field_opt "column_offsets" m;
    row_ids ← field_default [] "row_ids" m;
    sort ← field_opt "sort" m;
    checksum ← field_default "" "checksum" m;
    meta_checksum ← field_default "" "meta_checksum" m;
    Some (mkSummary row_group data meta agg deletes fragment_id rows deleted_count columns
            column_offsets row_ids sort checksum meta_checksum);
}.
#[export] Instance Serde_SnapshotCheckpoint : Serde SnapshotCheckpoint := {
  to_value t := VObject
    (put "sequence" (sc_sequence t) $ put "schema_id" (sc_schema_id t) $
     put "fragments" (sc_fragments t) $
     put_if (negb (is_empty_string (sc_checksum t))) "checksum" (sc_checksum t) []);
  of_value v :=
    m ← as_object v;
    sequence ← field "sequence" m;
    schema_id ← field "schema_id" m;
    fragments ← field "fragments" m;
    checksum ← field_default "" "checksum" m;
    Some (mkCheckpoint sequence schema_id fragments checksum);
}.

Definition SnapshotCheckpoint_filename (seq : u64) : string :=
  "_checkpoints/" +:+ fmt_09 seq +:+ ".json".
Definition archive_filename (seq : u64) : string :=
  "_checkpoints/" +:+ fmt_09 seq +:+ ".rkyv".

Section checkpoint_checksum.
Context `{!Sha256, !SerdeJson}.
Definition checkpoint_compute_checksum (c : SnapshotCheckpoint) : string :=
  let copy := mkCheckpoint (sc_sequence c) (sc_schema_id c) (sc_fragments c) "" in
  checksum_json (to_value copy).
Definition checkpoint_verify_checksum (c : SnapshotCheckpoint) : bool :=
  bool_decide (sc_checksum c = checkpoint_compute_checksum c).
End checkpoint_checksum.

Definition summary_wf (t : FragmentSummary) : Prop :=
  in_u64 (fs_fragment_id t) ∧ in_u64 (fs_rows t) ∧ in_u64 (fs_deleted_count t)
  ∧ columns_wf (fs_columns t) ∧ offsets_wf (fs_column_offsets t)
  ∧ Forall serde_wf (fs_row_ids t).
Lemma columns_wf_empty : columns_wf ∅.
Proof. done. Qed.

#[export, refine] Instance SerdeLaws_FragmentSummary : SerdeLaws FragmentSummary :=
  { serde_wf := summary_wf }.
Proof.
  - intros t (?&?&?&?&?&?). cbn [to_value Serde_FragmentSummary]. solve_object.
  - intros t (?&?&?&?&?&?).
    cbn [of_value to_value Serde_FragmentSummary as_object mbind option_bind].
    set (m := put_if _ "row_group" _ _).
    assert (field_default "" "row_group" m = Some (fs_row_group t)) as E1 by read_field m.
    assert (field "data" m = Some (fs_data t)) as E2 by read_field m.
    assert (field "meta" m = Some (fs_meta t)) as E3 by read_field m.
    assert (field_opt "agg" m = Some (fs_agg t)) as E4 by read_field m.
    assert (field_opt "deletes" m = Some (fs_deletes t)) as E5 by read_field m.
    assert (field "fragment_id" m = Some (fs_fragment_id t)) as E6 by read_field m.
    assert (field_default 0 "rows" m = Some (fs_rows t)) as E7 by read_field m.
    assert (field_default 0 "deleted_count" m = Some (fs_deleted_count t)) as E8 by read_field m.
    assert (field_default ∅ "columns" m = Some (fs_columns t)) as E9 by read_field m.
    assert (field_opt "column_offsets" m = Some (fs_column_offsets t)) as E10 by read_field m.
    assert (field_default [] "row_ids" m = Some (fs_row_ids t)) as E11 by read_field m.
    assert (field_opt "sort" m = Some (fs_sort t)) as E12 by read_field m.
    assert (field_default "" "checksum" m = Some (fs_checksum t)) as E13 by read_field m.
    assert (field_default "" "meta_checksum" m = Some (fs_meta_checksum t)) as E14
      by read_field m.
    clearbody m. rewrite E1, E2, E3, E4, E5, E6, E7, E8, E9, E10, E11, E12, E13, E14.
    by destruct t.
  - intros v t Hv E. cbn [of_value Serde_FragmentSummary] in E. inv_fields E. simplify_eq.
    assert (obj_wf x) as Hx' by eauto with icefall. unfold summary_wf. cbn. repeat split_and.
    1-3: by eauto with icefall.
    + by refine (field_default_wf (A:=gmap string ColumnStats) ∅ "columns" x _ _
                   columns_wf_empty _).
    + by refine (field_opt_wf (A:=gmap string ColumnChunkOffset) "column_offsets" x _ _ _ _).
    + by refine (field_default_wf (A:=list RowIdSegment) [] "row_ids" x _ _ (Forall_nil_2 _) _).
Defined.

#[export, refine] Instance SerdeLaws_SnapshotCheckpoint : SerdeLaws SnapshotCheckpoint :=
  { serde_wf c := in_u64 (sc_sequence c) ∧ in_u64 (sc_schema_id c)
                  ∧ Forall summary_wf (sc_fragments c) }.
Proof.
  - intros t (?&?&Hf). cbn [to_value Serde_SnapshotCheckpoint].
    pose proof (to_value_wf (sc_fragments t) Hf). solve_object.
  - intros t (?&?&Hf). assert (serde_wf (sc_fragments t)) by exact Hf.
    cbn [of_value to_value Serde_SnapshotCheckpoint as_object mbind option_bind].
    set (m := put "sequence" _ _).
    assert (field "sequence" m = Some (sc_sequence t)) as E1 by read_field m.
    assert (field "schema_id" m = Some (sc_schema_id t)) as E2 by read_field m.
    assert (field "fragments" m = Some (sc_fragments t)) as E3 by read_field m.
    assert (field_default "" "checksum" m = Some (sc_checksum t)) as E4 by read_field m.
    clearbody m. rewrite E1, E2, E3, E4. by destruct t.
  - intros v t Hv E. cbn [of_value Serde_SnapshotCheckpoint] in E. inv_fields E. simplify_eq.
    assert (obj_wf x) as Hx' by eauto with icefall. cbn. repeat split_and.
    1-2: by eauto with icefall.
    by refine (field_wf (A:=list FragmentSummary) "fragments" x _ _ _).
Defined.

(** ** The zero-copy archive *)

Record ArchColStats := mkArchColStats {
  ac_min : option string;
  ac_max : option string;
  ac_nulls : u64;
}.
Record ArchOffset := mkArchOffset { ao_offset : u64; ao_length : u64 }.
Inductive ArchSeg :=
  | ArchRange (start count : u64)
  | ArchSorted (ids : list u64).
Record ArchFragment := mkArchFragment {
  af_row_group : string;
  af_data : string;
  af_meta : string;
  af_agg : option string;
  af_deletes : option string;
  af_fragment_id : u64;
  af_rows : u64;
  af_deleted_count : u64;
  af_columns : list (string * ArchColStats);
  af_column_offsets : option (list (string * ArchOffset));
  af_row_ids : list ArchSeg;
  af_sort : option (list string);
  af_checksum : string;
  af_meta_checksum : string;
}.
Record ArchCheckpoint := mkArchCheckpoint {
  ak_sequence : u64;
  ak_schema_id : u64;
  ak_fragments : list ArchFragment;
  ak_checksum : string;
}.

(** [rkyv::to_bytes] and [rkyv::access]. *)
Class Rkyv := {
  rkyv_to_bytes : ArchCheckpoint → option bytes;
  rkyv_access : bytes → option ArchCheckpoint;
}.
Class RkyvLaws `{!Rkyv} := {
  rkyv_access_to_bytes a b : rkyv_to_bytes a = Some b → rkyv_access b = Some a;
}.

Section archive.
Context `{!SerdeJson}.

(** [Value::to_string] and [serde_json::from_str]. *)
Definition value_to_string (v : Value) : string := string_of_list_byte (json_to_vec v).
Definition value_from_str (s : string) : option Value := json_parse (list_byte_of_string s).

(** The entries of a hash map, sorted by key. *)
Definition sorted_entries {A} (m : gmap string A) : list (string * A) :=
  bm_collect (map_to_list m).

Definition stats_to_arch (v : ColumnStats) : ArchColStats :=
  mkArchColStats (value_to_string <$> cs_min v) (value_to_string <$> cs_max v) (cs_nulls v).
Definition seg_to_arch (s : RowIdSegment) : ArchSeg :=
  match s with Range start count => ArchRange start count | Sorted ids => ArchSorted ids end.
Definition frag_to_arch (f : FragmentSummary) : ArchFragment :=
  let columns := sorted_entries (stats_to_arch <$> fs_columns f) in
  let column_offsets :=
    (λ m, sorted_entries ((λ o, mkArchOffset (co_offset o) (co_length o)) <$> m))
      <$> fs_column_offsets f in
  mkArchFragment (fs_row_group f) (fs_data f) (fs_meta f) (fs_agg f) (fs_deletes f)
    (fs_fragment_id f) (fs_rows f) (fs_deleted_count f) columns column_offsets
    (seg_to_arch <$> fs_row_ids f) (fs_sort f) (fs_checksum f) (fs_meta_checksum f).

Definition arch_to_stats (e : ArchColStats) : ColumnStats :=
  mkStats (ac_min e ≫= value_from_str) (ac_max e ≫= value_from_str) (ac_nulls e).
Definition arch_to_seg (s : ArchSeg) : RowIdSegment :=
  match s with ArchRange start count => Range start count | ArchSorted ids => Sorted ids end.
Definition arch_frag_to_summary (a : ArchFragment) : FragmentSummary :=
  let columns := list_to_map (prod_map id arch_to_stats <$> af_columns a) in
  let column_offsets :=
    (λ v, list_to_map (prod_map id (λ o, mkOffset (ao_offset o) (ao_length o)) <$> v))
      <$> af_column_offsets a in
  mkSummary (af_row_group a) (af_data a) (af_meta a) (af_agg a) (af_deletes a)
    (af_fragment_id a) (af_rows a) (af_deleted_count a) columns column_offsets
    (arch_to_seg <$> af_row_ids a) (af_sort a) (af_checksum a) (af_meta_checksum a).

Context `{!Rkyv}.

Definition to_archive_bytes (c : SnapshotCheckpoint) : bytes :=
  default [] (rkyv_to_bytes (mkArchCheckpoint (sc_sequence c) (sc_schema_id c)
                               (frag_to_arch <$> sc_fragments c) (sc_checksum c))).
Definition from_archive_bytes (b : bytes) : option SnapshotCheckpoint :=
  arch ← rkyv_access b;
  Some (mkCheckpoint (ak_sequence arch) (ak_schema_id arch)
          (arch_frag_to_summary <$> ak_fragments arch) (ak_checksum arch)).

(** ** The archive says what the checkpoint says *)

Context `{!SerdeJsonLaws, !RkyvLaws}.

Lemma value_from_to_string v :
  value_wf v → value_exact v → value_from_str (value_to_string v) = Some v.
Proof.
  intros Hv Hx. unfold value_from_str, value_to_string.
  rewrite list_byte_of_string_of_list_byte. by apply json_parse_to_vec.
Qed.

Lemma sorted_entries_map {A B C} (f : A → B) (g : B → C) (h : A → C) (m : gmap string A) :
  (∀ k a, m !! k = Some a → g (f a) = h a) →
  (list_to_map (prod_map id g <$> sorted_entries (f <$> m)) : gmap string C) = h <$> m.
Proof.
  intros Hgf. unfold sorted_entries.
  assert (bm_collect (map_to_list (f <$> m)) ≡ₚ map_to_list (f <$> m)) as Hp
    by (apply bm_collect_perm, NoDup_fst_map_to_list).
  apply map_eq. intros k.
  assert (NoDup (prod_map id g <$> bm_collect (map_to_list (f <$> m))).*1) as Hn.
  { rewrite <-list_fmap_compose, Hp. apply (NoDup_fst_map_to_list (f <$> m)). }
  destruct (m !! k) as [a|] eqn:Hk; rewrite lookup_fmap, Hk; simpl.
  - apply elem_of_list_to_map; [done|]. apply list_elem_of_fmap. exists (k, f a).
    simpl. rewrite (Hgf k a Hk). split; [done|]. rewrite Hp.
    apply elem_of_map_to_list. by rewrite lookup_fmap, Hk.
  - apply not_elem_of_list_to_map. rewrite <-list_fmap_compose.
    intros ([k' b]&->&Hin)%list_elem_of_fmap. rewrite Hp in Hin.
    apply elem_of_map_to_list in Hin. simpl in Hk. by rewrite lookup_fmap, Hk in Hin.
Qed.

(** Statistics whose values are JSON values, with floats that read back. *)
Definition stats_wf (c : ColumnStats) : Prop :=
  ∀ v, cs_min c = Some v ∨ cs_max c = Some v → value_wf v ∧ value_exact v.

Lemma arch_to_stats_to_arch c : stats_wf c → arch_to_stats (stats_to_arch c) = c.
Proof.
  destruct c as [mi ma n]. unfold stats_wf, arch_to_stats, stats_to_arch. simpl.
  intros Hv. f_equal.
  - destruct mi as [v|]; [|done]. simpl. apply value_from_to_string; apply Hv; by left.
  - destruct ma as [v|]; [|done]. simpl. apply value_from_to_string; apply Hv; by right.
Qed.

Lemma arch_frag_round_trip f :
  map_Forall (λ _, stats_wf) (fs_columns f) → arch_frag_to_summary (frag_to_arch f) = f.
Proof.
  intros Hc. destruct f. unfold arch_frag_to_summary, frag_to_arch. simpl in *. f_equal.
  - rewrite (sorted_entries_map _ _ id); [apply map_fmap_id|].
    intros k a Hk. by apply arch_to_stats_to_arch, (Hc k a Hk).
  - destruct fs_column_offsets0 as [m|]; [|done]. simpl. f_equal.
    rewrite (sorted_entries_map _ _ id); [apply map_fmap_id|]. by intros ? [].
  - rewrite <-list_fmap_compose. rewrite <-(list_fmap_id fs_row_ids0) at 2.
    apply list_fmap_ext. by intros ? [] _.
Qed.

(** A snapshot checkpoint written as an archive is read back unchanged, whenever the
    archive could be written. *)
Theorem archive_round_trip c :
  Forall (λ f, map_Forall (λ _, stats_wf) (fs_columns f)) (sc_fragments c) →
  to_archive_bytes c ≠ [] →
  from_archive_bytes (to_archive_bytes c) = Some c.
Proof.
  intros Hf. unfold to_archive_bytes, from_archive_bytes.
  destruct (rkyv_to_bytes _) as [b|] eqn:E; [|done]. intros _. simpl.
  rewrite (rkyv_access_to_bytes _ _ E). simpl. destruct c as [sq sch frags cs]. simpl in *.
  f_equal. f_equal. rewrite <-list_fmap_compose. rewrite <-(list_fmap_id frags) at 2.
  apply list_fmap_ext. intros i f Hi. simpl. apply arch_frag_round_trip.
  rewrite Forall_lookup in Hf. eauto.
Qed.
End archive.
