(* ===== verification/AggCache.v ===== *)
(** * Per-fragment aggregate partials

    [agg_cache.rs]: count, sum and sum of squares of every numeric column of a
    fragment, per group of a declared key too; the retraction of deleted rows,
    the merge over fragments, the recomputation of a deleted extremum.  The
    [sketches] feature is off: [distinct] and [quantile] are [None] when an
    aggregate state is computed.  The Parquet reader is a parameter. *)

From S2P Require Import Prelude Bytes Text OrdMap Storage Json RowId Manifest Arrow.
From Stdlib Require Import Floats.SpecFloat.

#[local] Open Scope list_scope.
#[local] Open Scope Z_scope.

Inductive AggScalar :=
  | AInt (v : i128)
  | AFloat (v : f64)
  | ANull.

Record ColAgg := mkColAgg {
  ca_count_non_null : u64;
  ca_sum : AggScalar;
  ca_sumsq : AggScalar;
  ca_min_off : option u32;
  ca_max_off : option u32;
  ca_live_min_json : option Value;
  ca_live_max_json : option Value;
}.

Record GroupedPartials := mkGrouped {
  gp_key_col : string;
  gp_groups : bmap (bmap ColAgg);
}.

Record FragmentAggState := mkAggState {
  fa_fragment_id : u64;
  fa_content_hash : string;
  fa_cols : bmap ColAgg;
  fa_grouped : option GroupedPartials;
  fa_distinct : option (bmap bytes);
  fa_quantile : option (bmap bytes);
}.

Record DeletedContribution := mkDeleted { dc_cols : bmap ColAgg }.

Definition NullAgg : ColAgg := mkColAgg 0 ANull ANull None None None None.

(** ** One column *)

(** The locals of [compute_signed_int_col]. *)
Record IntAcc := mkIntAcc {
  ia_count : u64;
  ia_sum : i128;
  ia_sumsq : i128;
  ia_min_val : option i128;
  ia_max_val : option i128;
  ia_min_off : option u32;
  ia_max_off : option u32;
}.

Definition int_step (st : IntAcc) (i : usize) (v : i128) : option IntAcc :=
  sum ← checked in_i128 (ia_sum st + v);
  sq ← checked in_i128 (v * v);
  sumsq ← checked in_i128 (ia_sumsq st + sq);
  let '(min_val, min_off) :=
    match ia_min_val st with
    | None => (Some v, Some (wrap32 i))
    | Some m => if v <? m then (Some v, Some (wrap32 i)) else (ia_min_val st, ia_min_off st)
    end in
  let '(max_val, max_off) :=
    match ia_max_val st with
    | None => (Some v, Some (wrap32 i))
    | Some m => if m <? v then (Some v, Some (wrap32 i)) else (ia_max_val st, ia_max_off st)
    end in
  Some (mkIntAcc (ia_count st + 1) sum sumsq min_val max_val min_off max_off).

Definition compute_signed_int_col (len null_count : usize) (get_value : usize → option i128)
    : option ColAgg :=
  if null_count =? len then Some NullAgg else
  st ← foldl (λ st i, st ← st;
                match get_value i with None => Some st | Some v => int_step st i v end)
         (Some (mkIntAcc 0 0 0 None None None None)) (seqZ 0 len);
  Some (mkColAgg (ia_count st) (AInt (ia_sum st)) (AInt (ia_sumsq st))
          (ia_min_off st) (ia_max_off st) None None).

Definition float_step (st : u64 * f64 * f64) (v : f64) : u64 * f64 * f64 :=
  let '(count, sum, sumsq) := st in (count + 1, f64_add sum v, f64_add sumsq (f64_mul v v)).

Definition compute_float_col (len null_count : usize) (get_value : usize → option f64) : ColAgg :=
  if null_count =? len then NullAgg else
  let '(count, sum, sumsq) :=
    foldl (λ st i, match get_value i with None => st | Some v => float_step st v end)
      (0, S754_zero false, S754_zero false) (seqZ 0 len) in
  mkColAgg count (AFloat sum) (AFloat sumsq) None None None None.

(** [if arr.is_null(i) { None } else { Some(arr.value(i) as i128) }], and the
    same [as f64]. *)
Definition int_at (a : Array) (i : usize) : option i128 :=
  match ar_cells a !! Z.to_nat i with Some (Some (CInt v)) => Some v | _ => None end.
Definition float_at (a : Array) (i : usize) : option f64 :=
  match ar_cells a !! Z.to_nat i with
  | Some (Some (CFloat f)) => Some (match ar_type a with Float32 => f64_of_f32 f | _ => f end)
  | _ => None
  end.

Definition column_agg (a : Array) : option ColAgg :=
  if is_integer_type (ar_type a) then
    compute_signed_int_col (len (ar_cells a)) (null_count a) (int_at a)
  else if is_float_type (ar_type a) then
    Some (compute_float_col (len (ar_cells a)) (null_count a) (float_at a))
  else None.

Definition compute_agg_state (fragment_id : u64) (content_hash : string) (batch : RecordBatch)
    : FragmentAggState :=
  let cols := foldl (λ cols field,
    match column_agg field.2 with Some agg => bm_insert field.1 agg cols | None => cols end)
    [] batch in
  mkAggState fragment_id content_hash cols None None None.

(** ** Sums over a list of rows *)

Definition sum_step (st : u64 * i128 * i128) (v : i128) : option (u64 * i128 * i128) :=
  let '(count, sum, sumsq) := st in
  sum ← checked in_i128 (sum + v);
  sq ← checked in_i128 (v * v);
  sumsq ← checked in_i128 (sumsq + sq);
  Some (count + 1, sum, sumsq).

Definition fold_int_rows_to_col_agg (col : Array) (row_indices : list usize) : option ColAgg :=
  st ← foldl (λ st i, st ← st;
                match int_at col i with None => Some st | Some v => sum_step st v end)
         (Some (0, 0, 0)) row_indices;
  let '(count, sum, sumsq) := st in
  if count =? 0 then Some NullAgg
  else Some (mkColAgg count (AInt sum) (AInt sumsq) None None None None).

Definition fold_float_rows_to_col_agg (col : Array) (row_indices : list usize) : ColAgg :=
  let '(count, sum, sumsq) :=
    foldl (λ st i, match float_at col i with None => st | Some v => float_step st v end)
      (0, S754_zero false, S754_zero false) row_indices in
  if count =? 0 then NullAgg
  else mkColAgg count (AFloat sum) (AFloat sumsq) None None None None.

Definition rows_agg (col : Array) (row_indices : list usize) : option ColAgg :=
  if is_integer_type (ar_type col) then fold_int_rows_to_col_agg col row_indices
  else if is_float_type (ar_type col) then Some (fold_float_rows_to_col_agg col row_indices)
  else None.

(** ** Groups *)

Definition MAX_DECLARED_GROUPS : nat := 4096.

Section keys.
Context `{!SerdeJson}.

Definition json_to_string (v : Value) : string := String.string_of_list_byte (json_to_vec v).
(** [Number::from] of an integer. *)
Definition int_number (v : Z) : Number := if v <? 0 then NegInt v else PosInt v.

Definition arrow_scalar_to_group_key_string (col : Array) (row : usize) : option string :=
  match ar_cells col !! Z.to_nat row with
  | Some (Some c) =>
      match ar_type col, c with
      | (Int8 | Int16 | Int32 | Int64 | UInt8 | UInt16 | UInt32 | UInt64), CInt v =>
          Some (json_to_string (VNumber (int_number v)))
      | (Utf8 | LargeUtf8), CStr s => Some (json_to_string (VString s))
      | Boolean, CBool b => Some (json_to_string (VBool b))
      | _, _ => None
      end
  | _ => Some "null"%string
  end.

(** [group_rows.entry(key).or_default().push(row)] for every row, stopping at an
    unsupported key. *)
Definition group_rows (key_col : Array) (num_rows : usize) : option (bmap (list usize)) :=
  foldl (λ g row, g ← g; key ← arrow_scalar_to_group_key_string key_col row;
                  Some (bm_push key row g))
    (Some []) (seqZ 0 num_rows).

Definition group_cols (batch : RecordBatch) (measure_names : list string)
    (row_indices : list usize) : bmap ColAgg :=
  foldl (λ cols measure,
    match column_by_name batch measure with
    | None => cols
    | Some col =>
        match rows_agg col row_indices with
        | Some agg => bm_insert measure agg cols
        | None => cols
        end
    end) [] measure_names.

Definition num_rows (batch : RecordBatch) : Z :=
  match batch with [] => 0 | (_, a) :: _ => len (ar_cells a) end.

Definition compute_agg_state_with_key (fragment_id : u64) (content_hash : string)
    (batch : RecordBatch) (key_col : option string) : FragmentAggState :=
  let base := compute_agg_state fragment_id content_hash batch in
  match key_col with
  | None => base
  | Some key_name =>
      match column_by_name batch key_name with
      | None => base
      | Some key_arr =>
          match group_rows key_arr (num_rows batch) with
          | None => base
          | Some g =>
              if bool_decide (MAX_DECLARED_GROUPS < length g)%nat then base
              else
                let groups := foldl (λ groups kv,
                  bm_insert kv.1 (group_cols batch (fst <$> fa_cols base) kv.2) groups) [] g in
                mkAggState (fa_fragment_id base) (fa_content_hash base) (fa_cols base)
                  (Some (mkGrouped key_name groups)) (fa_distinct base) (fa_quantile base)
          end
      end
  end.
End keys.

(** ** Merging *)

Definition merge_scalar (a b : AggScalar) : option AggScalar :=
  match a, b with
  | AInt av, AInt bv => AInt <$> checked in_i128 (av + bv)
  | AFloat av, AFloat bv => Some (AFloat (f64_add av bv))
  | ANull, other => Some other
  | other, ANull => Some other
  | _, _ => None
  end.

Definition merge_two_col_aggs (a b : ColAgg) : option ColAgg :=
  let count := wrap64 (ca_count_non_null a + ca_count_non_null b) in
  sum ← merge_scalar (ca_sum a) (ca_sum b);
  sumsq ← merge_scalar (ca_sumsq a) (ca_sumsq b);
  Some (mkColAgg count sum sumsq None None None None).

Definition merge_column (entry : bmap ColAgg) (col : string * ColAgg) : bmap ColAgg :=
  match bm_get col.1 entry with
  | None => bm_insert col.1 col.2 entry
  | Some existing =>
      match merge_two_col_aggs existing col.2 with
      | Some agg => bm_insert col.1 agg entry
      | None => bm_remove col.1 entry
      end
  end.
Definition merge_part (merged : bmap (bmap ColAgg)) (part : GroupedPartials)
    : bmap (bmap ColAgg) :=
  foldl (λ merged g,
    bm_insert g.1 (foldl merge_column (default [] (bm_get g.1 merged)) g.2) merged)
    merged (gp_groups part).

(** The assertion that all parts have the key column of the first panics. *)
Definition merge_grouped (parts : list GroupedPartials) : res (bmap (bmap ColAgg)) :=
  match parts with
  | [] => Ok []
  | p0 :: ps =>
      if decide (Forall (λ p, gp_key_col p = gp_key_col p0) ps)
      then Ok (foldl merge_part [] parts) else Panic
  end.

(** ** Retraction *)

Definition retract_scalar (full del : AggScalar) : option AggScalar :=
  match full, del with
  | AInt fs, AInt ds => AInt <$> checked in_i128 (fs - ds)
  | AFloat fs, AFloat ds => Some (AFloat (f64_sub fs ds))
  | ANull, ANull => Some ANull
  | full, ANull => Some full
  | _, _ => None
  end.

(** The count, the sum and the sum of squares of the rows that stay. *)
Definition retract_col (full del : ColAgg) : option (u64 * AggScalar * AggScalar) :=
  let new_count := saturating_sub (ca_count_non_null full) (ca_count_non_null del) in
  new_sum ← retract_scalar (ca_sum full) (ca_sum del);
  new_sumsq ← retract_scalar (ca_sumsq full) (ca_sumsq del);
  Some (new_count, new_sum, new_sumsq).

Definition retract_step (st : bmap ColAgg * list string) (del : string * ColAgg)
    : bmap ColAgg * list string :=
  let '(cols, to_remove) := st in
  match bm_get del.1 cols with
  | None => st
  | Some full_agg =>
      match retract_col full_agg del.2 with
      | None => (cols, to_remove ++ [del.1])
      | Some (count, sum, sumsq) =>
          (bm_insert del.1 (mkColAgg count sum sumsq (ca_min_off full_agg) (ca_max_off full_agg)
                              None None) cols, to_remove)
      end
  end.

Definition retract (full : FragmentAggState) (del : DeletedContribution) : FragmentAggState :=
  let '(cols, to_remove) := foldl retract_step (fa_cols full, []) (dc_cols del) in
  let cols := foldl (λ cols name, bm_remove name cols) cols to_remove in
  mkAggState (fa_fragment_id full) (fa_content_hash full) cols (fa_grouped full) None None.

(** ** The deleted and the live rows of a file *)

(** [parquet::arrow::arrow_reader::RowSelector]. *)
Inductive RowSelector := SkipRows (n : usize) | SelectRows (n : usize).

(** The row selection of the deleted offsets, and of their complement among
    [total_rows] rows: [pos] is one past the last offset seen. *)
Definition delete_selectors (offsets : list u32) : list RowSelector :=
  fst (foldl (λ st off,
    let '(selectors, pos) := st in
    (selectors ++ (if pos <? off then [SkipRows (off - pos)] else []) ++ [SelectRows 1], off + 1))
    ([], 0) offsets).
Definition live_selectors (offsets : list u32) (total_rows : usize) : list RowSelector :=
  let '(selectors, pos) := foldl (λ st off,
    let '(selectors, pos) := st in
    (selectors ++ (if pos <? off then [SelectRows (off - pos)] else []) ++ [SkipRows 1], off + 1))
    ([], 0) offsets in
  if pos <? total_rows then selectors ++ [SelectRows (total_rows - pos)] else selectors.

(** What a selection keeps of the rows of a file; rows past it are skipped. *)
Fixpoint select_rows {A} (sel : list RowSelector) (l : list A) : list A :=
  match sel with
  | [] => []
  | SkipRows n :: sel => select_rows sel (drop (Z.to_nat n) l)
  | SelectRows n :: sel => take (Z.to_nat n) l ++ select_rows sel (drop (Z.to_nat n) l)
  end.

(** [ParquetRecordBatchReaderBuilder]: the schema of a file, and its batches
    under a projection ([ProjectionMask::roots]) and a row selection. *)
Class ParquetReader := {
  pq_schema : bytes → res (list (string * DataType));
  pq_read : bytes → list nat → list RowSelector → res (list RecordBatch);
}.

(** The columns at the given positions, in the order of the file. *)
Definition project {A} (idxs : list nat) (l : list A) : list A :=
  snd <$> filter (λ ix, ix.1 ∈ idxs) (zip (seq 0 (length l)) l).
Definition schema_of (b : RecordBatch) : list (string * DataType) :=
  prod_map id ar_type <$> b.
Definition select_batch (sel : list RowSelector) (b : RecordBatch) : RecordBatch :=
  prod_map id (λ a, mkArray (ar_type a) (select_rows sel (ar_cells a))) <$> b.
(** The batches of a reader carry the columns of [b], split by rows. *)
Definition column_cells (b : RecordBatch) (name : string) : list (option Cell) :=
  match column_by_name b name with Some a => ar_cells a | None => [] end.
Definition batches_of (b : RecordBatch) (bs : list RecordBatch) : Prop :=
  Forall (λ b', schema_of b' = schema_of b
                ∧ ∀ name a, column_by_name b' name = Some a → len (ar_cells a) = num_rows b') bs
  ∧ ∀ name a, column_by_name b name = Some a →
              concat ((λ b', column_cells b' name) <$> bs) = ar_cells a.

(** A file with a given content decodes, and its reader delivers exactly the
    projected columns of the selected rows. *)
Class ParquetReaderLaws `{!ParquetReader} := {
  pq_content : bytes → option RecordBatch;
  pq_schema_content b content : pq_content b = Some content → pq_schema b = Ok (schema_of content);
  pq_read_content b content idxs sel :
    pq_content b = Some content →
    ∃ bs, pq_read b idxs sel = Ok bs ∧ batches_of (select_batch sel (project idxs content)) bs;
}.

Definition index_of (schema : list (string * DataType)) (name : string) : option nat :=
  fst <$> list_find (λ f, f.1 = name) schema.

Section retraction.
Context `{!ParquetReader, !SerdeJson} {B : Type} `{!RoaringBitmap B} {St : Type} `{!Storage St}.

(** One column over the batches of the deleted rows. *)
Definition deleted_int_col (name : string) (batches : list RecordBatch) : res ColAgg :=
  let? st := of_option (ParquetDecode "i128 overflow in deleted_contribution")
    (foldl (λ st c, st ← st;
              match c with Some (CInt v) => sum_step st v | _ => Some st end)
       (Some (0, 0, 0)) (concat ((λ b, column_cells b name) <$> batches))) in
  let '(count, sum, sumsq) := st in
  if count =? 0 then Ok NullAgg
  else Ok (mkColAgg count (AInt sum) (AInt sumsq) None None None None).
Definition float_of_cell (t : DataType) (c : option Cell) : option f64 :=
  match c with
  | Some (CFloat f) => Some (match t with Float32 => f64_of_f32 f | _ => f end)
  | _ => None
  end.
Definition deleted_float_col (name : string) (t : DataType) (batches : list RecordBatch) : ColAgg :=
  let '(count, sum, sumsq) :=
    foldl (λ st c, match float_of_cell t c with Some v => float_step st v | None => st end)
      (0, S754_zero false, S754_zero false) (concat ((λ b, column_cells b name) <$> batches)) in
  if count =? 0 then NullAgg
  else mkColAgg count (AFloat sum) (AFloat sumsq) None None None None.

(** The [ColAgg] of every requested column of the batches; [schema] is the
    projected one. *)
Definition deleted_cols (schema : list (string * DataType)) (batches : list RecordBatch)
    (col_names : list string) : res (bmap ColAgg) :=
  res_fold (λ cols name,
    match index_of schema name ≫= (schema !!.) with
    | None => Ok cols
    | Some (_, t) =>
        if is_integer_type t then
          let? agg := deleted_int_col name batches in Ok (bm_insert name agg cols)
        else if is_float_type t then Ok (bm_insert name (deleted_float_col name t batches) cols)
        else Ok cols
    end) [] col_names.

Definition deleted_contribution (table : string) (entry : RowGroupEntry) (dv : DeletionVector B)
    (numeric_cols : list string) : M St DeletedContribution :=
  let selectors := delete_selectors (dv_iter dv) in
  if is_empty selectors then m_ret (mkDeleted []) else
  let! data := st_read (table +:+ "/" +:+ rg_data entry) in
  m_lift (
    let? arrow_schema := pq_schema data in
    let col_names_present := filter (λ n, is_Some (index_of arrow_schema n)) numeric_cols in
    let col_indices := omap (index_of arrow_schema) numeric_cols in
    if is_empty col_indices then Ok (mkDeleted []) else
    let? batches := pq_read data col_indices selectors in
    match batches with
    | [] => Ok (mkDeleted [])
    | b0 :: _ =>
        let? cols := deleted_cols (schema_of b0) batches col_names_present in
        Ok (mkDeleted cols)
    end).

(** *** Extrema *)

Inductive ExtremumKind := Min | Max.

Definition extremum_deleted (col_agg : ColAgg) (dv : DeletionVector B) (kind : ExtremumKind)
    : bool :=
  match (match kind with Min => ca_min_off col_agg | Max => ca_max_off col_agg end) with
  | Some offset => dv_contains dv offset
  | None => false
  end.

Definition pick (kind : ExtremumKind) (current : option i128) (v : i128) : option i128 :=
  Some (match current with
        | None => v
        | Some c => match kind with Min => Z.min c v | Max => Z.max c v end
        end).

Definition scoped_recompute_extremum (table : string) (entry : RowGroupEntry)
    (dv : DeletionVector B) (total_rows : usize) (col_name : string) (kind : ExtremumKind)
    : M St (option Value) :=
  let selectors := live_selectors (dv_iter dv) total_rows in
  if is_empty selectors then m_ret None else
  let! data := st_read (table +:+ "/" +:+ rg_data entry) in
  m_lift (
    let? arrow_schema := pq_schema data in
    let? col_idx := of_option (ParquetDecode ("column " +:+ col_name +:+ " not found"))
                      (index_of arrow_schema col_name) in
    let? field := or_panic (arrow_schema !! col_idx) in
    if negb (is_integer_type field.2) then Ok None else
    let? batches := pq_read data [col_idx] selectors in
    match batches with
    | [] => Ok None
    | b0 :: _ =>
        let? field_idx := of_option
          (ParquetDecode ("column " +:+ col_name +:+ " not in projected schema"))
          (index_of (schema_of b0) col_name) in
        let current := foldl (λ cur c, match c with Some (CInt v) => pick kind cur v | _ => cur end)
          None (concat ((λ b, column_cells b col_name) <$> batches)) in
        match current with
        | None => Ok None
        | Some val =>
            if (0 <=? val) && (val <=? 2 ^ 63 - 1) then Ok (Some (VNumber (int_number val)))
            else if (2 ^ 63 - 1 <? val) && (val <=? 2 ^ 64 - 1)
            then Ok (Some (VNumber (PosInt val)))
            else Ok None
        end
    end).

(** *** Groups *)

(** [fold_int_rows_to_col_agg(.., &[row])] and its float counterpart. *)
Definition row_agg (col : Array) (row : usize) : option ColAgg := rows_agg col [row].

(** One deleted row and one measure of its group. *)
Definition retract_measure (batch : RecordBatch) (row : usize) (group_cols : bmap ColAgg)
    (col_name : string) : bmap ColAgg :=
  match column_by_name batch col_name with
  | None => group_cols
  | Some meas_col =>
      match row_agg meas_col row with
      | None => group_cols
      | Some del =>
          if ca_count_non_null del =? 0 then group_cols else
          match bm_get col_name group_cols with
          | None => group_cols
          | Some full_agg =>
              match retract_col full_agg del with
              | None => bm_remove col_name group_cols
              | Some (count, sum, sumsq) =>
                  bm_insert col_name (mkColAgg count sum sumsq None None None None) group_cols
              end
          end
      end
  end.
Definition retract_row (key_col : string) (measure_cols : list string) (batch : RecordBatch)
    (live : bmap (bmap ColAgg)) (row : usize) : bmap (bmap ColAgg) :=
  match column_by_name batch key_col with
  | None => live
  | Some key_arr =>
      match arrow_scalar_to_group_key_string key_arr row with
      | None => live
      | Some key =>
          match bm_get key live with
          | None => live
          | Some group_cols =>
              bm_insert key (foldl (retract_measure batch row) group_cols measure_cols) live
          end
      end
  end.
Definition retract_batch (key_col : string) (measure_cols : list string)
    (live : bmap (bmap ColAgg)) (batch : RecordBatch) : bmap (bmap ColAgg) :=
  foldl (retract_row key_col measure_cols batch) live (seqZ 0 (num_rows batch)).

Definition retract_grouped (table : string) (entry : RowGroupEntry) (gp : GroupedPartials)
    (dv : DeletionVector B) (measure_cols : list string) : M St (bmap (bmap ColAgg)) :=
  if cardinality dv =? 0 then m_ret (gp_groups gp) else
  let selectors := delete_selectors (dv_iter dv) in
  let! data := st_read (table +:+ "/" +:+ rg_data entry) in
  m_lift (
    let? arrow_schema := pq_schema data in
    let? key_idx := of_option
      (ParquetDecode ("key column " +:+ gp_key_col gp +:+ " not found"))
      (index_of arrow_schema (gp_key_col gp)) in
    let? batches := pq_read data (key_idx :: omap (index_of arrow_schema) measure_cols) selectors in
    match batches with
    | [] => Ok (gp_groups gp)
    | b0 :: _ =>
        match index_of (schema_of b0) (gp_key_col gp) with
        | None => Ok (gp_groups gp)
        | Some _ => Ok (foldl (retract_batch (gp_key_col gp) measure_cols) (gp_groups gp) batches)
        end
    end).
End retraction.

(** ** Deletion density *)

(** [0.10_f64]. *)
Definition RECOMPUTE_DENSITY : f64 := S754_finite false 7205759403792794 (-56).
Definition dv_density (entry : RowGroupEntry) (total_rows : u64) : f64 :=
  SFdiv 53 1024 (f64_of_int (rg_deleted_count entry)) (f64_of_int (Z.max total_rows 1)).
Definition should_recompute (entry : RowGroupEntry) (total_rows : u64) : bool :=
  SFleb RECOMPUTE_DENSITY (dv_density entry total_rows).

(** ** Exact sums *)

Definition int_of_cell (c : option Cell) : option i128 :=
  match c with Some (CInt v) => Some v | _ => None end.
(** The non-null integers of a column. *)
Definition ints (cells : list (option Cell)) : list Z := omap int_of_cell cells.
Definition sumZ (l : list Z) : Z := foldr Z.add 0 l.
Definition sumsqZ (l : list Z) : Z := sumZ ((λ v, v * v) <$> l).
(** Every partial sum fits when the sum of squares does. *)
Definition fits (l : list Z) : Prop := sumsqZ l < 2 ^ 127.
#[export] Instance fits_dec l : Decision (fits l) := _.

Lemma sumZ_app l k : sumZ (l ++ k) = sumZ l + sumZ k.
Proof. induction l as [|x l IH]; simpl; [done|]. unfold sumZ in *. simpl. lia. Qed.
Lemma sumsqZ_app l k : sumsqZ (l ++ k) = sumsqZ l + sumsqZ k.
Proof. unfold sumsqZ. by rewrite fmap_app, sumZ_app. Qed.
Lemma sumsqZ_cons v l : sumsqZ (v :: l) = v * v + sumsqZ l.
Proof. done. Qed.
Lemma sumsqZ_nonneg l : 0 <= sumsqZ l.
Proof. induction l as [|v l IH]; [done|]. rewrite sumsqZ_cons. nia. Qed.
Lemma sumZ_perm l k : l ≡ₚ k → sumZ l = sumZ k.
Proof. unfold sumZ. induction 1; simpl in *; lia. Qed.
Lemma sumsqZ_perm l k : l ≡ₚ k → sumsqZ l = sumsqZ k.
Proof. intros E. unfold sumsqZ. apply sumZ_perm. by rewrite E. Qed.
Lemma sumZ_abs l : Z.abs (sumZ l) <= sumsqZ l.
Proof.
  induction l as [|v l IH]; [done|]. rewrite sumsqZ_cons. change (sumZ (v :: l)) with (v + sumZ l). nia.
Qed.
Lemma ints_app l k : ints (l ++ k) = ints l ++ ints k.
Proof. apply omap_app. Qed.
#[export] Instance ints_perm : Proper ((≡ₚ) ==> (≡ₚ)) ints.
Proof. intros l k E. unfold ints. by rewrite E. Qed.
Lemma fits_app l k : fits (l ++ k) → fits l ∧ fits k.
Proof.
  unfold fits. rewrite sumsqZ_app. pose proof (sumsqZ_nonneg l). pose proof (sumsqZ_nonneg k). lia.
Qed.
Lemma fits_sum l : fits l → in_i128 (sumZ l).
Proof. unfold fits, in_i128. pose proof (sumZ_abs l). lia. Qed.

Lemma sum_step_ok c s q v :
  Z.abs s <= q →
  sum_step (c, s, q) v
  = if decide (q + v * v < 2 ^ 127) then Some (c + 1, s + v, q + v * v) else None.
Proof.
  intros Hs. unfold sum_step, checked, in_i128.
  destruct (decide (q + v * v < 2 ^ 127)) as [Hq|Hq].
  - assert (Z.abs v <= v * v) by nia.
    rewrite decide_True by lia. cbn [mbind option_bind].
    rewrite decide_True by lia. cbn [mbind option_bind].
    by rewrite decide_True by lia.
  - assert (Z.abs v <= v * v) by nia.
    destruct (decide (- 2 ^ 127 <= s + v < 2 ^ 127)); [|done]. cbn [mbind option_bind].
    destruct (decide (- 2 ^ 127 <= v * v < 2 ^ 127)); [|done]. cbn [mbind option_bind].
    rewrite decide_False by lia. done.
Qed.

(** A loop of checked additions succeeds exactly when the sum of squares fits. *)
Definition sum_fold (vs : list Z) (st : option (u64 * i128 * i128)) : option (u64 * i128 * i128) :=
  foldl (λ st v, st ← st; sum_step st v) st vs.
Lemma foldl_None {A B} (f : A → B → option A) (l : list B) :
  foldl (λ (st : option A) x, st ← st; f st x) None l = None.
Proof. by induction l. Qed.
Lemma sum_fold_from vs c s q :
  Z.abs s <= q →
  sum_fold vs (Some (c, s, q))
  = if decide (q + sumsqZ vs < 2 ^ 127) then Some (c + len vs, s + sumZ vs, q + sumsqZ vs)
    else if decide (vs = []) then Some (c, s, q) else None.
Proof.
  revert c s q. induction vs as [|v vs IH]; intros c s q Hs; cbn [sum_fold foldl].
  - change (sumsqZ []) with 0. change (sumZ []) with 0. change (len []) with 0.
    rewrite !Z.add_0_r. by repeat case_decide.
  - cbn [mbind option_bind]. rewrite sum_step_ok by done. rewrite sumsqZ_cons.
    pose proof (sumsqZ_nonneg vs). destruct (decide (q + v * v < 2 ^ 127)) as [Hq|Hq].
    + fold (sum_fold vs (Some (c + 1, s + v, q + v * v))). rewrite IH by nia.
      rewrite <- Z.add_assoc. change (sumZ (v :: vs)) with (v + sumZ vs).
      destruct (decide (q + (v * v + sumsqZ vs) < 2 ^ 127)).
      * unfold len. cbn [length]. f_equal. apply f_equal2; [apply f_equal2|]; lia.
      * destruct (decide (vs = [])) as [->|]; [|by rewrite decide_False].
        change (sumsqZ []) with 0 in *. lia.
    + rewrite (decide_False (P := q + _ < _)) by lia. rewrite decide_False by done. apply foldl_None.
Qed.
Lemma sum_fold_ok vs :
  sum_fold vs (Some (0, 0, 0)) = if decide (fits vs) then Some (len vs, sumZ vs, sumsqZ vs) else None.
Proof.
  rewrite sum_fold_from by done. rewrite !Z.add_0_l. unfold fits.
  destruct (decide (sumsqZ vs < 2 ^ 127)) as [|Hn]; [done|].
  destruct (decide (vs = [])) as [->|]; [|done]. change (sumsqZ []) with 0 in Hn. lia.
Qed.

(** Loops over row numbers and over cells. *)
Lemma foldl_cells_from {S A} (f : S → Z → option A → S) (d : option A) pre (cells : list (option A)) st :
  foldl (λ st i, f st i (default d ((pre ++ cells) !! Z.to_nat i))) st (seqZ (len pre) (len cells))
  = foldl (λ st ic, f st ic.1 ic.2) st (indexed_from (len pre) cells).
Proof.
  revert pre st. induction cells as [|c cells IH]; intros pre st; [done|].
  assert (len (c :: cells) = Z.succ (len cells)) as E by (unfold len; simpl; lia).
  rewrite E, seqZ_cons by (unfold len; lia). rewrite Z.pred_succ. cbn [foldl indexed_from].
  rewrite list_lookup_middle by (unfold len; lia). cbn [default fst snd].
  replace (pre ++ c :: cells) with ((pre ++ [c]) ++ cells) by by rewrite <- app_assoc.
  assert (len pre + 1 = len (pre ++ [c])) as E' by (rewrite len_app; done).
  rewrite <- Z.add_1_r, E'. apply IH.
Qed.
Lemma foldl_cells {S A} (f : S → Z → option A → S) (cells : list (option A)) st :
  foldl (λ st i, f st i (default None (cells !! Z.to_nat i))) st (seqZ 0 (len cells))
  = foldl (λ st ic, f st ic.1 ic.2) st (indexed cells).
Proof. apply (foldl_cells_from f None [] cells st). Qed.
Lemma foldl_ext {S A} (f g : S → A → S) st l :
  (∀ st x, f st x = g st x) → foldl f st l = foldl g st l.
Proof. intros E. revert st. induction l as [|x l IH]; intros st; [done|]. simpl. by rewrite E, IH. Qed.
Lemma foldl_omap {S A C} (f : S → C → S) (p : A → option C) (l : list A) st :
  foldl (λ st x, match p x with Some c => f st c | None => st end) st l = foldl f st (omap p l).
Proof.
  revert st. induction l as [|x l IH]; intros st; [done|]. cbn [foldl omap list_omap].
  destruct (p x); simpl; by rewrite IH.
Qed.
Lemma int_at_cell a i : int_at a i = int_of_cell (default None (ar_cells a !! Z.to_nat i)).
Proof. unfold int_at. by destruct (_ !! _) as [[[]|]|]. Qed.

(** The cells of given rows. *)
Definition rows_cells (a : Array) (rows : list Z) : list (option Cell) :=
  (λ i, default None (ar_cells a !! Z.to_nat i)) <$> rows.

Definition exact_agg (vs : list Z) : ColAgg :=
  match vs with
  | [] => NullAgg
  | _ => mkColAgg (len vs) (AInt (sumZ vs)) (AInt (sumsqZ vs)) None None None None
  end.

Lemma opt_fold_omap {S A} (f : S → Z → option S) (p : A → option Z) (l : list A) (st : option S) :
  foldl (λ st i, st ← st; match p i with None => Some st | Some v => f st v end) st l
  = foldl (λ st v, st ← st; f st v) st (omap p l).
Proof.
  rewrite <- (foldl_omap (λ st v, st ← st; f st v) p l st). apply foldl_ext.
  intros [st'|] x; simpl; by destruct (p x).
Qed.
Lemma fold_int_rows_ok a rows :
  fold_int_rows_to_col_agg a rows
  = if decide (fits (ints (rows_cells a rows))) then Some (exact_agg (ints (rows_cells a rows)))
    else None.
Proof.
  unfold fold_int_rows_to_col_agg. rewrite (opt_fold_omap sum_step).
  assert (omap (int_at a) rows = ints (rows_cells a rows)) as ->.
  { unfold ints, rows_cells. induction rows as [|i rows IH]; [done|]. cbn.
    rewrite int_at_cell. destruct (int_of_cell _); by rewrite IH. }
  change (foldl _ (Some (0, 0, 0)) ?l) with (sum_fold l (Some (0, 0, 0))).
  rewrite sum_fold_ok. case_decide; [|done]. cbn [mbind option_bind].
  destruct (ints _) as [|v vs]; [done|]. by rewrite (proj2 (Z.eqb_neq _ _)) by (unfold len; simpl; lia).
Qed.

(** ** Extrema *)

(** [off] is the offset of the first cell that [lt] places before all others. *)
Definition first_best (lt : Z → Z → Prop) (cells : list (option Cell)) (off : option u32) : Prop :=
  match off with
  | None => ints cells = []
  | Some o => ∃ j v, int_of_cell (default None (cells !! j)) = Some v ∧ o = wrap32 (Z.of_nat j)
                     ∧ (∀ w, w ∈ ints cells → ¬ lt w v)
                     ∧ ∀ j' w, (j' < j)%nat → int_of_cell (default None (cells !! j')) = Some w →
                               lt v w
  end.

(** The running extremum with its offset, as the loop updates it. *)
Definition ext_step (ltb : Z → Z → bool) (st : option Z * option u32) (i v : Z)
    : option Z * option u32 :=
  match st.1 with
  | None => (Some v, Some (wrap32 i))
  | Some m => if ltb v m then (Some v, Some (wrap32 i)) else st
  end.

Lemma int_step_parts st i v :
  int_step st i v =
    (s ← sum_step (ia_count st, ia_sum st, ia_sumsq st) v;
     let mn := ext_step Z.ltb (ia_min_val st, ia_min_off st) i v in
     let mx := ext_step (λ x y, y <? x) (ia_max_val st, ia_max_off st) i v in
     Some (mkIntAcc s.1.1 s.1.2 s.2 mn.1 mx.1 mn.2 mx.2)).
Proof.
  unfold int_step, sum_step, ext_step. cbn [fst snd].
  destruct (checked in_i128 (ia_sum st + v)); [|done].
  destruct (checked in_i128 (v * v)); [|done]. cbn [mbind option_bind].
  destruct (checked in_i128 (ia_sumsq st + _)); [|done]. cbn [mbind option_bind fst snd].
  destruct (ia_min_val st), (ia_max_val st); by repeat case_match.
Qed.

Section extremum.
Context (ltb : Z → Z → bool) (lt : Z → Z → Prop).
Context (Hltb : ∀ x y, ltb x y = true ↔ lt x y).
Context (Htrans : ∀ x y z, lt x y → lt y z → lt x z).
Context (Htotal : ∀ x y, ¬ lt x y → x = y ∨ lt y x).
Context (Hirrefl : ∀ x, ¬ lt x x).

(** What the running extremum means for the cells seen so far. *)
Definition ext_ok (cells : list (option Cell)) (st : option Z * option u32) : Prop :=
  first_best lt cells st.2 ∧
  match st.1 with
  | None => ints cells = []
  | Some m => m ∈ ints cells ∧ (∀ w, w ∈ ints cells → ¬ lt w m) ∧ is_Some st.2
  end.

Lemma int_of_cell_before pre (c : option Cell) j :
  (j < length pre)%nat → default None ((pre ++ [c]) !! j) = default None (pre !! j).
Proof. intros. by rewrite lookup_app_l. Qed.

Lemma int_cell_elem cells j v :
  int_of_cell (default None (cells !! j)) = Some v → v ∈ ints cells.
Proof.
  intros E. unfold ints. apply list_elem_of_omap.
  destruct (cells !! j) as [c|] eqn:Ec; [|done]. exists c. split; [|done].
  by eapply list_elem_of_lookup_2.
Qed.

Lemma ext_ok_null cells c st :
  int_of_cell c = None → ext_ok cells st → ext_ok (cells ++ [c]) st.
Proof.
  intros Hc. assert (ints (cells ++ [c]) = ints cells) as E.
  { rewrite ints_app. unfold ints at 2. simpl. rewrite Hc. by rewrite app_nil_r. }
  unfold ext_ok, first_best. rewrite !E. intros [Hf Hm]. split; [|done].
  destruct st.2 as [o|]; [|done]. destruct Hf as (j&v&Hj&Ho&Hbest&Hfirst).
  assert (j < length cells)%nat as Hlt.
  { destruct (cells !! j) eqn:Ec; [by apply lookup_lt_Some in Ec|done]. }
  exists j, v. rewrite int_of_cell_before by done. split; [done|]. split; [done|]. split; [done|].
  intros j' w Hj'. rewrite int_of_cell_before by lia. by apply Hfirst.
Qed.

Lemma ext_ok_step cells c v st :
  int_of_cell c = Some v → ext_ok cells st →
  ext_ok (cells ++ [c]) (ext_step ltb st (Z.of_nat (length cells)) v).
Proof.
  intros Hc [Hf Hm].
  assert (ints (cells ++ [c]) = ints cells ++ [v]) as E.
  { rewrite ints_app. unfold ints at 2. simpl. by rewrite Hc. }
  (* a strictly better cell becomes the extremum *)
  assert ((∀ w, w ∈ ints cells → lt v w) →
    ext_ok (cells ++ [c]) (Some v, Some (wrap32 (Z.of_nat (length cells))))) as Hnew.
  { intros Hall. split; unfold first_best; cbn [fst snd]; rewrite E.
    - exists (length cells), v. rewrite list_lookup_middle by done. split; [done|]. split; [done|].
      split.
      + intros w [Hw|Hw]%elem_of_app; [|apply list_elem_of_singleton in Hw as ->; apply Hirrefl].
        intros ?. apply (Hirrefl v). eauto.
      + intros j' w Hj'. rewrite int_of_cell_before by done. intros Hw%int_cell_elem. auto.
    - split; [set_solver|]. split; [|done].
      intros w [Hw|Hw]%elem_of_app; [|apply list_elem_of_singleton in Hw as ->; apply Hirrefl].
      intros ?. apply (Hirrefl v). eauto. }
  unfold ext_step. destruct st as [[m|] o]; cbn [fst snd] in *.
  - destruct Hm as (Hmin&Hle&Ho). destruct (ltb v m) eqn:Ev.
    + apply Hltb in Ev. apply Hnew. intros w Hw.
      destruct (Htotal w m) as [->|?]; eauto.
    + assert (¬ lt v m) as Hnlt by (intros ?%Hltb; congruence).
      destruct Ho as [o' ->]. destruct Hf as (j&x&Hj&Hjo&Hbest&Hfirst).
      assert (j < length cells)%nat as Hlt.
      { destruct (cells !! j) eqn:Ec; [by apply lookup_lt_Some in Ec|done]. }
      assert (¬ lt v x) as Hnx.
      { intros Hvx. destruct (Htotal x m) as [->|?]; [|done|by eapply Hbest].
        apply Hle. by eapply int_cell_elem. }
      split; unfold first_best; cbn [fst snd]; rewrite E.
      * exists j, x. rewrite int_of_cell_before by done. split; [done|]. split; [done|]. split.
        -- intros w [Hw|Hw]%elem_of_app; [by apply Hbest|].
           by apply list_elem_of_singleton in Hw as ->.
        -- intros j' w Hj'. rewrite int_of_cell_before by lia. by apply Hfirst.
      * split; [set_solver|]. split; [|done].
        intros w [Hw|Hw]%elem_of_app; [by apply Hle|]. by apply list_elem_of_singleton in Hw as ->.
  - apply Hnew. rewrite Hm. set_solver.
Qed.
End extremum.

(** The accumulator describes the cells seen so far. *)
Definition acc_ok (cells : list (option Cell)) (st : IntAcc) : Prop :=
  (ia_count st, ia_sum st, ia_sumsq st) = (len (ints cells), sumZ (ints cells), sumsqZ (ints cells))
  ∧ ext_ok Z.lt cells (ia_min_val st, ia_min_off st)
  ∧ ext_ok Z.gt cells (ia_max_val st, ia_max_off st).

Lemma int_loop cells pre st :
  fits (ints pre) → acc_ok pre st →
  match foldl (λ st ic, st ← st; match int_of_cell ic.2 with None => Some st
                                 | Some v => int_step st ic.1 v end)
          (Some st) (indexed_from (len pre) cells) with
  | Some st' => fits (ints (pre ++ cells)) ∧ acc_ok (pre ++ cells) st'
  | None => ¬ fits (ints (pre ++ cells))
  end.
Proof.
  revert pre st. induction cells as [|c cells IH]; intros pre st Hfit Hst; cbn [indexed_from foldl].
  { by rewrite app_nil_r. }
  assert (pre ++ c :: cells = (pre ++ [c]) ++ cells) as -> by by rewrite <- app_assoc.
  assert (len pre + 1 = len (pre ++ [c])) as -> by by rewrite len_app.
  destruct Hst as (Hs&Hmin&Hmax). cbn [mbind option_bind fst snd].
  destruct (int_of_cell c) as [v|] eqn:Ec.
  2:{ assert (ints (pre ++ [c]) = ints pre) as E.
      { rewrite ints_app. unfold ints at 2. simpl. rewrite Ec. by rewrite app_nil_r. }
      apply IH; [by rewrite E|]. split; [by rewrite E|].
      by split; apply ext_ok_null. }
  assert (ints (pre ++ [c]) = ints pre ++ [v]) as E.
  { rewrite ints_app. unfold ints at 2. simpl. by rewrite Ec. }
  rewrite int_step_parts, Hs, sum_step_ok by apply sumZ_abs.
  destruct (decide (sumsqZ (ints pre) + v * v < 2 ^ 127)) as [Hv|Hv].
  2:{ cbn [mbind option_bind]. rewrite foldl_None. intros Hfits.
      rewrite ints_app, E in Hfits. apply fits_app in Hfits as [Hfits _].
      unfold fits in Hfits. rewrite sumsqZ_app in Hfits. change (sumsqZ [v]) with (v * v + 0) in Hfits.
      lia. }
  cbn [mbind option_bind]. apply IH.
  { unfold fits. rewrite E, sumsqZ_app. change (sumsqZ [v]) with (v * v + 0). lia. }
  split; [|split]; cbn [ia_count ia_sum ia_sumsq ia_min_val ia_min_off ia_max_val ia_max_off fst snd].
  - rewrite E, len_app, sumZ_app, sumsqZ_app. change (sumsqZ [v]) with (v * v + 0).
    change (sumZ [v]) with (v + 0). by rewrite !Z.add_0_r.
  - rewrite <- surjective_pairing. eapply ext_ok_step; eauto; [intros; apply Z.ltb_lt|lia..].
  - rewrite <- surjective_pairing. eapply ext_ok_step; eauto; [|lia..].
    intros x y. rewrite Z.ltb_lt. lia.
Qed.

(** What a partial of an integer column says of its cells. *)
Definition int_agg_of (cells : list (option Cell)) (agg : ColAgg) : Prop :=
  (ca_count_non_null agg, ca_sum agg, ca_sumsq agg)
    = (ca_count_non_null (exact_agg (ints cells)), ca_sum (exact_agg (ints cells)),
       ca_sumsq (exact_agg (ints cells)))
  ∧ first_best Z.lt cells (ca_min_off agg) ∧ first_best Z.gt cells (ca_max_off agg)
  ∧ ca_live_min_json agg = None ∧ ca_live_max_json agg = None.

Lemma int_type_cells a :
  is_integer_type (ar_type a) = true → array_typed a →
  Forall (λ c, c = None ∨ ∃ v, c = Some (CInt v)) (ar_cells a).
Proof.
  intros Ht Ha. eapply Forall_impl; [exact Ha|]. intros [c|] Hc; [right|by left].
  destruct (ar_type a); try discriminate; destruct Hc as (v&->&_); eauto.
Qed.
Lemma null_count_ints a :
  Forall (λ c, c = None ∨ ∃ v, c = Some (CInt v)) (ar_cells a) →
  (null_count a =? len (ar_cells a)) = bool_decide (ints (ar_cells a) = []).
Proof.
  unfold null_count, len. intros Ha.
  assert (length (filter (λ c, c = None) (ar_cells a)) + length (ints (ar_cells a))
          = length (ar_cells a))%nat as E.
  { unfold ints. induction Ha as [|c l [->|[v ->]] _ IH]; [done| |]; rewrite filter_cons.
    - rewrite decide_True by done. cbn [omap list_omap int_of_cell length]. simpl in *. lia.
    - rewrite decide_False by done. cbn [omap list_omap int_of_cell length]. simpl in *. lia. }
  case_bool_decide as Hi.
  - apply Z.eqb_eq. rewrite Hi in E. simpl in E. lia.
  - apply Z.eqb_neq. destruct (ints (ar_cells a)); [done|]. simpl in E. lia.
Qed.

Lemma column_agg_int a :
  is_integer_type (ar_type a) = true → array_typed a →
  match column_agg a with
  | Some agg => fits (ints (ar_cells a)) ∧ int_agg_of (ar_cells a) agg
  | None => ¬ fits (ints (ar_cells a))
  end.
Proof.
  intros Ht Ha. unfold column_agg, compute_signed_int_col. rewrite Ht.
  rewrite null_count_ints by by apply int_type_cells. case_bool_decide as Hi.
  { split; [by rewrite Hi|]. by unfold int_agg_of; rewrite Hi. }
  rewrite (foldl_ext _ (λ st i, (λ (st : option IntAcc) i c, st ← st;
    match int_of_cell c with None => Some st | Some v => int_step st i v end)
      st i (default None (ar_cells a !! Z.to_nat i)))).
  2:{ intros [st|] i; [|done]. simpl. by rewrite int_at_cell. }
  rewrite (foldl_cells (λ (st : option IntAcc) i c, st ← st;
    match int_of_cell c with None => Some st | Some v => int_step st i v end)).
  pose proof (int_loop (ar_cells a) [] (mkIntAcc 0 0 0 None None None None)
    ltac:(done) ltac:(by repeat split)) as Hloop. cbn [app] in Hloop.
  change (indexed_from (len []) (ar_cells a)) with (indexed (ar_cells a)) in Hloop.
  destruct (foldl _ _ _) as [st|]; [|done]. cbn [mbind option_bind].
  destruct Hloop as (Hfit&Hsum&[Hmin _]&[Hmax _]). split; [done|].
  split; [|by repeat split]. unfold exact_agg. injection Hsum as -> -> ->.
  by destruct (ints (ar_cells a)).
Qed.
