(* ===== verification/AggRetract.v ===== *)
(** * Deleted rows and the partials of a fragment

    What the row selections of [agg_cache.rs] select, the contribution of the
    deleted rows, and its retraction from the partials of the whole fragment. *)

From S2P Require Import Prelude Bytes Text OrdMap Storage Json RowId Manifest Arrow AggCache.
From Stdlib Require Import Floats.SpecFloat.

#[local] Open Scope list_scope.
#[local] Open Scope Z_scope.

(** ** Row selections *)

(** The rows at the given offsets, and the others. *)
Definition rows_in {A} (offs : list Z) (i : Z) (l : list A) : list A :=
  snd <$> filter (λ ix, ix.1 ∈ offs) (indexed_from i l).
Definition rows_out {A} (offs : list Z) (i : Z) (l : list A) : list A :=
  snd <$> filter (λ ix, ix.1 ∉ offs) (indexed_from i l).
Definition deleted_rows {A} (offs : list Z) (l : list A) : list A := rows_in offs 0 l.
Definition live_rows {A} (offs : list Z) (l : list A) : list A := rows_out offs 0 l.

Lemma indexed_from_app {A} i (l k : list A) :
  indexed_from i (l ++ k) = indexed_from i l ++ indexed_from (i + len l) k.
Proof.
  revert i. induction l as [|x l IH]; intros i; cbn [indexed_from app].
  - unfold len. simpl. by rewrite Z.add_0_r.
  - rewrite IH. do 3 f_equal. unfold len. simpl. lia.
Qed.
Lemma indexed_from_range {A} i (l : list A) : Forall (λ ix, i <= ix.1 < i + len l) (indexed_from i l).
Proof.
  revert i. induction l as [|x l IH]; intros i; cbn [indexed_from]; constructor.
  - unfold len. simpl. lia.
  - eapply Forall_impl; [apply IH|]. intros ix. unfold len. simpl. lia.
Qed.
Lemma indexed_from_snd {A} i (l : list A) : (indexed_from i l).*2 = l.
Proof. revert i. induction l as [|x l IH]; intros i; simpl; [done|]. by rewrite IH. Qed.
Lemma indexed_from_fmap {A C} (f : A → C) i l :
  indexed_from i (f <$> l) = prod_map id f <$> indexed_from i l.
Proof. revert i. induction l as [|x l IH]; intros i; simpl; [done|]. by rewrite IH. Qed.

Lemma rows_in_app {A} offs i (l k : list A) :
  rows_in offs i (l ++ k) = rows_in offs i l ++ rows_in offs (i + len l) k.
Proof. unfold rows_in. by rewrite indexed_from_app, filter_app, fmap_app. Qed.
Lemma rows_out_app {A} offs i (l k : list A) :
  rows_out offs i (l ++ k) = rows_out offs i l ++ rows_out offs (i + len l) k.
Proof. unfold rows_out. by rewrite indexed_from_app, filter_app, fmap_app. Qed.
Lemma rows_in_none {A} offs i (l : list A) :
  Forall (λ o, o < i ∨ i + len l <= o) offs → rows_in offs i l = [].
Proof.
  intros Ho. unfold rows_in. pose proof (indexed_from_range i l) as Hr. rewrite Forall_forall in Ho. rewrite Forall_forall in Hr.
  cut (filter (λ ix, ix.1 ∈ offs) (indexed_from i l) = []); [by intros ->|].
  apply filter_nil_in. intros ix Hix Hin. specialize (Hr _ Hix). specialize (Ho _ Hin). lia.
Qed.
Lemma rows_out_all {A} offs i (l : list A) :
  Forall (λ o, o < i ∨ i + len l <= o) offs → rows_out offs i l = l.
Proof.
  intros Ho. unfold rows_out. pose proof (indexed_from_range i l) as Hr. rewrite Forall_forall in Ho. rewrite Forall_forall in Hr.
  rewrite filter_all; [apply indexed_from_snd|].
  intros ix Hix Hin. specialize (Hr _ Hix). specialize (Ho _ Hin). lia.
Qed.
Lemma rows_partition {A} offs i (l : list A) : rows_in offs i l ++ rows_out offs i l ≡ₚ l.
Proof.
  unfold rows_in, rows_out. rewrite <- fmap_app. rewrite <- (indexed_from_snd i l) at 3.
  apply fmap_Permutation. apply filter_app_complement.
Qed.
Lemma rows_in_fmap {A C} (f : A → C) offs i l : rows_in offs i (f <$> l) = f <$> rows_in offs i l.
Proof.
  unfold rows_in. rewrite indexed_from_fmap, filter_fmap, <- !list_fmap_compose. done.
Qed.

(** One offset of a sorted list splits the rows. *)
Lemma rows_split {A} o offs i (l : list A) :
  i <= o < i + len l → Forall (Z.lt o) offs →
  ∃ pre x post, l = pre ++ x :: post ∧ len pre = o - i
    ∧ drop (Z.to_nat (o - i)) l = x :: post
    ∧ rows_in (o :: offs) i l = x :: rows_in offs (o + 1) post
    ∧ rows_out (o :: offs) i l = pre ++ rows_out offs (o + 1) post.
Proof.
  intros Ho Hs. destruct (l !! Z.to_nat (o - i)) as [x|] eqn:Ex.
  2:{ apply lookup_ge_None in Ex. unfold len in Ho. lia. }
  apply take_drop_middle in Ex.
  set (pre := take (Z.to_nat (o - i)) l) in *. set (post := drop (S (Z.to_nat (o - i))) l) in *.
  assert (len pre = o - i) as Hpre by (unfold pre, len in *; rewrite length_take; lia).
  exists pre, x, post. split; [done|]. split; [done|].
  assert (Forall (λ o', o' < i ∨ i + len pre <= o') (o :: offs)) as Hout.
  { constructor; [lia|]. eapply Forall_impl; [exact Hs|]. simpl. lia. }
  assert (∀ ix, ix ∈ indexed_from (o + 1) post → ix.1 ∈ o :: offs ↔ ix.1 ∈ offs) as Hpost.
  { intros ix Hix. pose proof (indexed_from_range (o + 1) post) as Hr.
    rewrite Forall_forall in Hr. specialize (Hr _ Hix). rewrite elem_of_cons. intuition lia. }
  rewrite <- Ex, rows_in_app, rows_out_app, rows_in_none, rows_out_all by done.
  replace (i + len pre) with o by lia. split; [|split].
  - rewrite drop_app_length'; [done|]. unfold len in Hpre. lia.
  - unfold rows_in. cbn [indexed_from app]. rewrite filter_cons, decide_True by set_solver.
    cbn [fmap list_fmap snd]. do 2 f_equal. by apply filter_ext_in.
  - unfold rows_out. cbn [indexed_from]. rewrite filter_cons, decide_False by set_solver.
    do 2 f_equal. apply filter_ext_in. intros ix Hix. by rewrite Hpost.
Qed.

(** Offsets of a deletion vector inside a file of [n] rows. *)
Definition offsets_in (offs : list Z) (i n : Z) : Prop :=
  StronglySorted Z.lt offs ∧ Forall (λ o, i <= o < i + n) offs.

Lemma offsets_in_cons o offs {A} i (l : list A) pre x post :
  offsets_in (o :: offs) i (len l) → l = pre ++ x :: post → len pre = o - i →
  offsets_in offs (o + 1) (len post).
Proof.
  intros [Hs Hr] -> Hpre. inversion Hs as [|?? Hs' Hlt]. inversion Hr as [|?? ? Hr']. subst.
  split; [done|]. rewrite Forall_forall in Hlt. rewrite Forall_forall in Hr'. apply Forall_forall.
  intros o' Ho'. specialize (Hlt _ Ho'). specialize (Hr' _ Ho'). rewrite len_app in Hr'.
  unfold len in *. simpl in *. lia.
Qed.

(** A loop over the offsets that emits [before] the gap and [at_] the offset. *)
Fixpoint emit (before : Z → RowSelector) (at_ : RowSelector) (pos : Z) (offs : list Z)
    : list RowSelector :=
  match offs with
  | [] => []
  | o :: offs => (if pos <? o then [before (o - pos)] else []) ++ at_ :: emit before at_ (o + 1) offs
  end.
Fixpoint end_pos (pos : Z) (offs : list Z) : Z :=
  match offs with [] => pos | o :: offs => end_pos (o + 1) offs end.
Lemma emit_foldl before at_ offs sel pos :
  foldl (λ (st : list RowSelector * Z) off,
    let '(selectors, pos) := st in
    (selectors ++ (if pos <? off then [before (off - pos)] else []) ++ [at_], off + 1))
    (sel, pos) offs = (sel ++ emit before at_ pos offs, end_pos pos offs).
Proof.
  revert sel pos. induction offs as [|o offs IH]; intros sel pos; cbn [foldl emit end_pos].
  - by rewrite app_nil_r.
  - rewrite IH, <- !app_assoc. done.
Qed.
Lemma delete_selectors_eq offs : delete_selectors offs = emit SkipRows (SelectRows 1) 0 offs.
Proof. unfold delete_selectors. by rewrite (emit_foldl SkipRows). Qed.

(** A gap selector in front acts on the rows before the offset. *)
Lemma select_gap_skip {A} pos o sel (l : list A) :
  pos <= o → select_rows ((if pos <? o then [SkipRows (o - pos)] else []) ++ sel) l
             = select_rows sel (drop (Z.to_nat (o - pos)) l).
Proof.
  intros. case_match eqn:E; zbool; [done|]. replace (o - pos) with 0 by lia. done.
Qed.
Lemma select_gap_take {A} pos o sel (l : list A) :
  pos <= o → select_rows ((if pos <? o then [SelectRows (o - pos)] else []) ++ sel) l
             = take (Z.to_nat (o - pos)) l ++ select_rows sel (drop (Z.to_nat (o - pos)) l).
Proof.
  intros. case_match eqn:E; zbool; [done|]. replace (o - pos) with 0 by lia. done.
Qed.

Lemma select_deleted {A} offs pos (l : list A) :
  offsets_in offs pos (len l) →
  select_rows (emit SkipRows (SelectRows 1) pos offs) l = rows_in offs pos l.
Proof.
  revert pos l. induction offs as [|o offs IH]; intros pos l Ho; cbn [emit].
  { by rewrite rows_in_none. }
  pose proof Ho as [Hs Hr]. inversion Hs; inversion Hr; subst.
  destruct (rows_split o offs pos l) as (pre&x&post&El&Hpre&Hd&Hin&_); [done|done|].
  rewrite select_gap_skip, Hd, Hin by lia. cbn [select_rows].
  change (Z.to_nat 1) with 1%nat. cbn [take drop app]. f_equal. apply IH.
  by eapply offsets_in_cons.
Qed.
Lemma delete_selectors_rows {A} offs (l : list A) :
  offsets_in offs 0 (len l) → select_rows (delete_selectors offs) l = deleted_rows offs l.
Proof. intros. rewrite delete_selectors_eq. by apply select_deleted. Qed.

Lemma select_live {A} offs pos (l : list A) :
  offsets_in offs pos (len l) →
  select_rows (emit SelectRows (SkipRows 1) pos offs
    ++ (if end_pos pos offs <? pos + len l then [SelectRows (pos + len l - end_pos pos offs)]
        else [])) l = rows_out offs pos l.
Proof.
  revert pos l. induction offs as [|o offs IH]; intros pos l Ho; cbn [emit end_pos].
  { rewrite rows_out_all by done. cbn [app]. case_match; zbool.
    - cbn [select_rows]. rewrite take_ge, app_nil_r; [done|]. unfold len. lia.
    - destruct l; [done|]. unfold len in *. simpl in *. lia. }
  pose proof Ho as [Hs Hr]. inversion Hs; inversion Hr; subst.
  destruct (rows_split o offs pos l) as (pre&x&post&El&Hpre&Hd&_&Hout); [done|done|].
  assert (pos + len l = o + 1 + len post) as ->.
  { rewrite El, len_app. unfold len in *. simpl. lia. }
  rewrite <- app_assoc, select_gap_take, Hd, Hout by lia. f_equal.
  - rewrite El, take_app_length'; [done|]. unfold len in *. lia.
  - cbn [select_rows app]. change (Z.to_nat 1) with 1%nat. cbn [drop]. apply IH.
    by eapply offsets_in_cons.
Qed.
Lemma live_selectors_rows {A} offs (l : list A) :
  offsets_in offs 0 (len l) → select_rows (live_selectors offs (len l)) l = live_rows offs l.
Proof.
  intros Ho. unfold live_selectors, live_rows. rewrite (emit_foldl SelectRows).
  rewrite <- select_live by done. rewrite Z.add_0_l. f_equal. case_match; [done|].
  cbn [app]. by rewrite app_nil_r.
Qed.

(** ** Columns by name *)

Lemma column_by_name_cons n a b name :
  column_by_name ((n, a) :: b) name = if decide (n = name) then Some a else column_by_name b name.
Proof.
  unfold column_by_name. simpl. destruct (decide (n = name)).
  - by rewrite bool_decide_true.
  - by rewrite bool_decide_false.
Qed.
Lemma column_by_name_elem b name a :
  NoDup b.*1 → column_by_name b name = Some a ↔ (name, a) ∈ b.
Proof.
  induction b as [|[n a'] b IH]; [unfold column_by_name; simpl; set_solver|].
  rewrite fmap_cons, NoDup_cons. intros [Hn Hb]. rewrite column_by_name_cons, elem_of_cons.
  case_decide as E.
  - subst n. split; [intros; left; congruence|]. intros [?|Hin]; [congruence|].
    destruct Hn. apply list_elem_of_fmap. by exists (name, a).
  - rewrite IH by done. split; [by right|]. intros [?|?]; [congruence|done].
Qed.
Lemma column_by_name_fmap (f : Array → Array) b name :
  column_by_name (prod_map id f <$> b) name = f <$> column_by_name b name.
Proof.
  induction b as [|[n a] b IH]; [done|]. rewrite fmap_cons.
  change (prod_map id f (n, a)) with (n, f a). rewrite !column_by_name_cons. by case_decide.
Qed.
Lemma index_of_Some schema name j :
  index_of schema name = Some j → ∃ t, schema !! j = Some (name, t).
Proof.
  unfold index_of. intros ([j' [n t]]&E&[= ->])%fmap_Some.
  apply list_find_Some in E as (?&?&_). simpl in *. subst. eauto.
Qed.
Lemma index_of_column b name :
  is_Some (index_of (schema_of b) name) ↔ is_Some (column_by_name b name).
Proof.
  unfold index_of, schema_of. induction b as [|[n a] b IH]; [split; by intros []|].
  rewrite column_by_name_cons. cbn [fmap list_fmap list_find prod_map fst snd id].
  change (prod_map id ar_type (n, a)) with (n, ar_type a). cbn [fst].
  destruct (decide (n = name)); [done|]. rewrite !fmap_is_Some in *. by rewrite <- IH.
Qed.
Lemma schema_column b name :
  (index_of (schema_of b) name ≫= (schema_of b !!.)) = (λ a, (name, ar_type a)) <$> column_by_name b name.
Proof.
  unfold index_of. induction b as [|[m a] b IH]; [done|]. rewrite column_by_name_cons.
  unfold schema_of in *. rewrite fmap_cons. change (prod_map id ar_type (m, a)) with (m, ar_type a).
  cbn [list_find fst]. destruct (decide (m = name)) as [->|]; [done|]. rewrite <- IH.
  by destruct (list_find _ _) as [[j [m' t']]|].
Qed.

Lemma schema_lookup b j name t :
  schema_of b !! j = Some (name, t) → ∃ a, b !! j = Some (name, a) ∧ ar_type a = t.
Proof.
  unfold schema_of. rewrite list_lookup_fmap. intros ([n a]&E&[= -> ->])%fmap_Some. eauto.
Qed.

Lemma project_elem {A} idxs (l : list A) x : x ∈ project idxs l ↔ ∃ j, j ∈ idxs ∧ l !! j = Some x.
Proof.
  unfold project. rewrite list_elem_of_fmap. split.
  - intros ([j y]&->&[Hj Hz]%list_elem_of_filter). exists j. split; [done|].
    apply list_elem_of_lookup in Hz as [i Hi]. apply lookup_zip_Some in Hi as [Hi Hx].
    apply lookup_seq in Hi as [-> _]. done.
  - intros (j&Hj&Hx). exists (j, x). split; [done|]. apply list_elem_of_filter. split; [done|].
    apply list_elem_of_lookup. exists j. apply lookup_zip_Some. split; [|done].
    apply lookup_seq_lt. by apply lookup_lt_Some in Hx.
Qed.
Lemma project_sublist {A} idxs (l : list A) : project idxs l `sublist_of` l.
Proof.
  assert ((zip (seq 0 (length l)) l).*2 = l) as E by by rewrite snd_zip by by rewrite length_seq.
  rewrite <- E at 2. unfold project. apply fmap_sublist, sublist_filter.
Qed.

(** The column a reader delivers under its name. *)
Lemma column_project b idxs name a j :
  NoDup b.*1 → index_of (schema_of b) name = Some j → j ∈ idxs →
  column_by_name b name = Some a → column_by_name (project idxs b) name = Some a.
Proof.
  intros Hnd Hj Hidx Ha. apply index_of_Some in Hj as [t Hj].
  apply schema_lookup in Hj as (a'&Hj&_).
  assert (a' = a) as ->.
  { apply column_by_name_elem in Ha; [|done].
    assert ((name, a') ∈ b) as Hin by by eapply list_elem_of_lookup_2.
    apply column_by_name_elem in Ha; [|done]. apply column_by_name_elem in Hin; [|done]. congruence. }
  apply column_by_name_elem; [|apply project_elem; eauto].
  eapply sublist_NoDup; [exact Hnd|]. apply fmap_sublist, project_sublist.
Qed.

(** ** The contribution of the deleted rows *)

Definition float_agg_of (t : DataType) (cells : list (option Cell)) : ColAgg :=
  let '(count, sum, sumsq) := foldl float_step (0, S754_zero false, S754_zero false)
                                (omap (float_of_cell t) cells) in
  if count =? 0 then NullAgg
  else mkColAgg count (AFloat sum) (AFloat sumsq) None None None None.
(** The partial of some cells of a column, exact for integers. *)
Definition cells_agg (t : DataType) (cells : list (option Cell)) : option ColAgg :=
  if is_integer_type t then Some (exact_agg (ints cells))
  else if is_float_type t then Some (float_agg_of t cells) else None.

Lemma deleted_int_col_ok name bs :
  deleted_int_col name bs
  = let cells := concat ((λ b, column_cells b name) <$> bs) in
    if decide (fits (ints cells)) then Ok (exact_agg (ints cells))
    else Err (ParquetDecode "i128 overflow in deleted_contribution").
Proof.
  unfold deleted_int_col. set (cells := concat _). cbn zeta.
  rewrite (foldl_ext _ (λ st c, st ← st; match int_of_cell c with None => Some st
                                         | Some v => sum_step st v end)).
  2:{ intros [st|] [[]|]; done. }
  rewrite (opt_fold_omap sum_step).
  change (foldl _ (Some (0, 0, 0)) ?l) with (sum_fold l (Some (0, 0, 0))). fold (ints cells).
  rewrite sum_fold_ok. destruct (decide (fits (ints cells))); [|done]. cbn [res_bind of_option].
  destruct (ints cells) as [|v vs]; [done|].
  by rewrite (proj2 (Z.eqb_neq _ _)) by (unfold len; simpl; lia).
Qed.
Lemma deleted_float_col_ok name t bs :
  deleted_float_col name t bs = float_agg_of t (concat ((λ b, column_cells b name) <$> bs)).
Proof. unfold deleted_float_col, float_agg_of. by rewrite <- foldl_omap. Qed.

(** The columns [f] gives for some names. *)
Lemma res_fold_columns (f : string → res (option ColAgg)) (g : string → option ColAgg) names cols :
  (∀ n, n ∈ names → f n = Ok (g n)) →
  ∃ cols', res_fold (λ cols n, let? o := f n in
             Ok (match o with Some agg => bm_insert n agg cols | None => cols end)) cols names
           = Ok cols'
    ∧ (bm_sorted cols → bm_sorted cols')
    ∧ ∀ n, bm_get n cols' = if decide (n ∈ names ∧ is_Some (g n)) then g n else bm_get n cols.
Proof.
  revert cols. induction names as [|m names IH]; intros cols Hf; cbn [res_fold].
  { exists cols. split; [done|]. split; [done|]. intros n. rewrite decide_False by set_solver. done. }
  rewrite Hf by set_solver. cbn [res_bind].
  destruct (IH (match g m with Some agg => bm_insert m agg cols | None => cols end))
    as (cols'&->&Hs&Hg); [set_solver|].
  exists cols'. split; [done|]. split.
  { intros. apply Hs. destruct (g m); [by apply bm_insert_sorted|done]. }
  intros n. rewrite Hg. destruct (decide (n ∈ names ∧ is_Some (g n))) as [[? ?]|Hn].
  { rewrite decide_True by set_solver. done. }
  destruct (decide (n = m)) as [->|Hne].
  - destruct (g m) as [agg|] eqn:E.
    + rewrite decide_True by (split; [set_solver|done]). apply bm_get_insert_eq.
    + by rewrite decide_False by (intros [_ []]; done).
  - rewrite (decide_False (P := n ∈ m :: names ∧ _)) by set_solver.
    destruct (g m); [by apply bm_get_insert_ne|done].
Qed.

Lemma rows_in_nonempty {A} offs i (l : list A) o :
  o ∈ offs → i <= o < i + len l → rows_in offs i l ≠ [].
Proof.
  intros Ho Hr Hn. destruct (l !! Z.to_nat (o - i)) as [x|] eqn:Ex.
  - assert ((o, x) ∈ indexed_from i l) as Hin.
    { apply list_elem_of_lookup. exists (Z.to_nat (o - i)). rewrite indexed_from_lookup, Ex. simpl.
      do 2 f_equal. lia. }
    assert (x ∈ rows_in offs i l) as Hx.
    { unfold rows_in. apply list_elem_of_fmap. exists (o, x). split; [done|].
      by apply list_elem_of_filter. }
    rewrite Hn in Hx. set_solver.
  - apply lookup_ge_None in Ex. unfold len in Hr. lia.
Qed.

Lemma deleted_nonempty {A} offs (l : list A) :
  offsets_in offs 0 (len l) → offs ≠ [] → deleted_rows offs l ≠ [].
Proof.
  intros [_ Hr] Hne. destruct offs as [|o offs]; [done|]. inversion Hr; subst.
  apply (rows_in_nonempty _ _ _ o); [set_solver|lia].
Qed.

Lemma deleted_cols_fold schema bs names :
  deleted_cols schema bs names =
  res_fold (λ cols n,
    let? o := match index_of schema n ≫= (schema !!.) with
              | None => Ok None
              | Some (_, t) => if is_integer_type t then let? agg := deleted_int_col n bs in Ok (Some agg)
                               else if is_float_type t then Ok (Some (deleted_float_col n t bs))
                               else Ok None
              end in
    Ok (match o with Some agg => bm_insert n agg cols | None => cols end)) [] names.
Proof.
  unfold deleted_cols. generalize ([] : bmap ColAgg).
  induction names as [|n names IH]; intros cols; [done|]. cbn [res_fold].
  destruct (index_of schema n ≫= (schema !!.)) as [[m t]|]; [|by cbn [res_bind]; rewrite IH].
  destruct (is_integer_type t); [destruct (deleted_int_col n bs)|destruct (is_float_type t)];
    cbn [res_bind]; rewrite ?IH; done.
Qed.

Section deleted.
Context `{!ParquetReader, !ParquetReaderLaws, !SerdeJson} {B : Type} `{!RoaringBitmap B, !RoaringBitmapLaws B}.
Context {St : Type} `{!Storage St, !StorageLaws St}.
Context (content : RecordBatch) (n : Z).
Context (Hnames : NoDup content.*1).
Context (Hrows : ∀ name a, column_by_name content name = Some a →
                           array_typed a ∧ len (ar_cells a) = n).

(** What a reader's batches hold of a projected column. *)
Lemma batches_column idxs sel bs name j a :
  batches_of (select_batch sel (project idxs content)) bs →
  index_of (schema_of content) name = Some j → j ∈ idxs → column_by_name content name = Some a →
  concat ((λ b, column_cells b name) <$> bs) = select_rows sel (ar_cells a)
  ∧ ∀ b, b ∈ bs → (index_of (schema_of b) name ≫= (schema_of b !!.)) = Some (name, ar_type a).
Proof.
  intros [Hbs Hcols] Hj Hidx Ha.
  pose proof (column_project _ _ _ _ _ Hnames Hj Hidx Ha) as Hp.
  assert (column_by_name (select_batch sel (project idxs content)) name
          = Some (mkArray (ar_type a) (select_rows sel (ar_cells a)))) as Hsel.
  { unfold select_batch. rewrite column_by_name_fmap, Hp. done. }
  split; [by rewrite (Hcols _ _ Hsel)|]. intros b Hb. rewrite Forall_forall in Hbs.
  destruct (Hbs _ Hb) as [-> _].
  destruct (proj2 (index_of_column _ name) (mk_is_Some _ _ Hsel)) as [k Hk].
  rewrite Hk. cbn [mbind option_bind]. destruct (index_of_Some _ _ _ Hk) as [t Ht]. rewrite Ht.
  apply schema_lookup in Ht as (a'&Hk'&<-). do 2 f_equal.
  assert (NoDup (select_batch sel (project idxs content)).*1) as Hnd.
  { assert ((select_batch sel (project idxs content)).*1 = (project idxs content).*1) as ->.
    { unfold select_batch. rewrite <- list_fmap_compose. by apply list_fmap_ext. }
    eapply sublist_NoDup; [exact Hnames|]. apply fmap_sublist, project_sublist. }
  assert ((name, a') ∈ select_batch sel (project idxs content)) as Hin
    by by eapply list_elem_of_lookup_2.
  apply column_by_name_elem in Hin; [|done]. rewrite Hsel in Hin. by injection Hin as <-.
Qed.

Context (table : string) (entry : RowGroupEntry) (q : string) (data : bytes) (s : St).
Context (Hq : validate_path (table +:+ "/" +:+ rg_data entry) = Ok q).
Context (Hfile : files s !! q = Some data) (Hcontent : pq_content data = Some content).

(** The partial of the deleted rows of every requested numeric column. *)
Definition deleted_agg (offs : list Z) (name : string) : option ColAgg :=
  a ← column_by_name content name; cells_agg (ar_type a) (deleted_rows offs (ar_cells a)).

Lemma fits_deleted offs a :
  fits (ints (ar_cells a)) → fits (ints (deleted_rows offs (ar_cells a)))
                             ∧ fits (ints (live_rows offs (ar_cells a))).
Proof.
  intros Hfit. pose proof (rows_partition offs 0 (ar_cells a)) as Hp.
  apply fits_app. rewrite <- ints_app. unfold fits, deleted_rows, live_rows in *.
  erewrite sumsqZ_perm; [exact Hfit|]. unfold ints. by rewrite Hp.
Qed.

Definition requested_fit (numeric_cols : list string) : Prop :=
  ∀ name a, name ∈ numeric_cols → column_by_name content name = Some a →
            is_integer_type (ar_type a) = true → fits (ints (ar_cells a)).

Lemma deleted_cols_ok offs bs b0 numeric_cols present :
  requested_fit numeric_cols →
  (∀ name, name ∈ present ↔ name ∈ numeric_cols ∧ is_Some (column_by_name content name)) →
  (∀ name a, name ∈ numeric_cols → column_by_name content name = Some a →
     concat ((λ b, column_cells b name) <$> bs) = deleted_rows offs (ar_cells a)
     ∧ (index_of (schema_of b0) name ≫= (schema_of b0 !!.)) = Some (name, ar_type a)) →
  ∃ cols, deleted_cols (schema_of b0) bs present = Ok cols ∧ bm_sorted cols
    ∧ ∀ name, bm_get name cols = if decide (name ∈ numeric_cols) then deleted_agg offs name else None.
Proof.
  intros Hfit Hpres Hcol. rewrite deleted_cols_fold.
  destruct (res_fold_columns (λ m, match index_of (schema_of b0) m ≫= (schema_of b0 !!.) with
              | None => Ok None
              | Some (_, t) => if is_integer_type t then let? agg := deleted_int_col m bs in Ok (Some agg)
                               else if is_float_type t then Ok (Some (deleted_float_col m t bs))
                               else Ok None
              end) (deleted_agg offs) present []) as (cols&->&Hs&Hg).
  { intros m [Hm [a Ha]]%Hpres. destruct (Hcol _ _ Hm Ha) as [Hc Hsch]. rewrite Hsch.
    unfold deleted_agg. rewrite Ha. cbn [mbind option_bind]. unfold cells_agg.
    destruct (is_integer_type (ar_type a)) eqn:Et.
    - rewrite deleted_int_col_ok, Hc. cbn zeta. rewrite decide_True; [done|].
      by apply fits_deleted, (Hfit m).
    - destruct (is_float_type (ar_type a)); [|done]. by rewrite deleted_float_col_ok, Hc. }
  exists cols. split; [done|]. split; [apply Hs, bm_sorted_nil|]. intros name. rewrite Hg.
  destruct (decide (name ∈ numeric_cols)) as [Hn|Hn].
  - destruct (deleted_agg offs name) eqn:Ed.
    + rewrite decide_True; [done|]. split; [|done]. apply Hpres. split; [done|].
      unfold deleted_agg in Ed. by destruct (column_by_name content name).
    + by rewrite decide_False by (intros [_ []]; done).
  - rewrite decide_False; [done|]. intros [?%Hpres _]. naive_solver.
Qed.

Lemma deleted_contribution_ok (dv : DeletionVector B) numeric_cols :
  offsets_in (dv_iter dv) 0 n → dv_iter dv ≠ [] → requested_fit numeric_cols →
  ∃ d, deleted_contribution table entry dv numeric_cols s = (Ok d, s)
    ∧ bm_sorted (dc_cols d)
    ∧ ∀ name, bm_get name (dc_cols d)
              = if decide (name ∈ numeric_cols) then deleted_agg (dv_iter dv) name else None.
Proof.
  intros Hoffs Hne Hfit. unfold deleted_contribution.
  assert (is_empty (delete_selectors (dv_iter dv)) = false) as ->.
  { rewrite delete_selectors_eq. destruct (dv_iter dv); [done|]. simpl. by case_match. }
  erewrite m_bind_ok.
  2:{ rewrite (st_read_spec _ _ _ Hq). unfold read_result. by rewrite Hfile. }
  unfold m_lift. rewrite (pq_schema_content _ _ Hcontent). cbn [res_bind].
  set (present := filter _ numeric_cols). set (idxs := omap _ numeric_cols).
  assert (∀ name, name ∈ present ↔ name ∈ numeric_cols ∧ is_Some (column_by_name content name)) as Hpres.
  { intros name. unfold present. rewrite list_elem_of_filter, index_of_column. naive_solver. }
  assert (∀ name a, name ∈ numeric_cols → column_by_name content name = Some a →
    ∃ j, index_of (schema_of content) name = Some j ∧ j ∈ idxs) as Hidx.
  { intros name a Hn Ha. destruct (proj2 (index_of_column content name) (mk_is_Some _ _ Ha)) as [j Hj].
    exists j. split; [done|]. apply list_elem_of_omap. eauto. }
  (* without a single requested column nothing is read *)
  assert (∀ name a, name ∈ numeric_cols → column_by_name content name = Some a → idxs ≠ []) as Hsome.
  { intros name a Hn Ha E. destruct (Hidx _ _ Hn Ha) as (j&_&Hj). rewrite E in Hj. set_solver. }
  destruct (is_empty idxs) eqn:Eidx.
  { destruct idxs; [|done]. eexists. split; [done|]. split; [apply bm_sorted_nil|].
    intros name. simpl. case_decide as Hn; [|done]. unfold deleted_agg.
    destruct (column_by_name content name) as [a|] eqn:Ha; [|done]. by destruct (Hsome _ _ Hn Ha). }
  destruct (pq_read_content data content idxs (delete_selectors (dv_iter dv)) Hcontent)
    as (bs&->&Hbs). cbn [res_bind].
  assert (∀ name a, name ∈ numeric_cols → column_by_name content name = Some a →
    concat ((λ b, column_cells b name) <$> bs) = deleted_rows (dv_iter dv) (ar_cells a)
    ∧ ∀ b, b ∈ bs → (index_of (schema_of b) name ≫= (schema_of b !!.)) = Some (name, ar_type a)) as Hcol.
  { intros name a Hn Ha. destruct (Hidx _ _ Hn Ha) as (j&Hj&Hji).
    destruct (batches_column _ _ _ _ _ _ Hbs Hj Hji Ha) as [-> ?]. split; [|done].
    apply delete_selectors_rows. by destruct (Hrows _ _ Ha) as [_ ->]. }
  destruct bs as [|b0 bs'].
  { eexists. split; [done|]. split; [apply bm_sorted_nil|]. intros name. simpl.
    case_decide as Hn; [|done]. unfold deleted_agg.
    destruct (column_by_name content name) as [a|] eqn:Ha; [|done]. exfalso.
    destruct (Hcol _ _ Hn Ha) as [Hc _]. simpl in Hc. destruct (Hrows _ _ Ha) as [_ Hlen].
    by destruct (deleted_nonempty (dv_iter dv) (ar_cells a)); rewrite ?Hlen. }
  destruct (deleted_cols_ok (dv_iter dv) (b0 :: bs') b0 numeric_cols present) as (cols&->&Hs&Hg); [done..| |].
  { intros name a Hn Ha. destruct (Hcol _ _ Hn Ha) as [? Hb]. split; [done|]. apply Hb. set_solver. }
  by eexists.
Qed.
End deleted.

(** ** The partials of a fragment and their retraction *)

Lemma compute_cols_get batch cols name :
  NoDup batch.*1 →
  let cols' := foldl (λ cols field,
    match column_agg field.2 with Some agg => bm_insert field.1 agg cols | None => cols end)
    cols batch in
  (bm_sorted cols → bm_sorted cols') ∧
  bm_get name cols' = match column_by_name batch name ≫= column_agg with
                      | Some agg => Some agg
                      | None => bm_get name cols
                      end.
Proof.
  revert cols. induction batch as [|[m a] batch IH]; intros cols; [done|].
  rewrite fmap_cons, NoDup_cons. intros [Hm Hb]. cbn [foldl fst snd] in *.
  destruct (IH (match column_agg a with Some agg => bm_insert m agg cols | None => cols end) Hb)
    as [Hs Hg].
  split; [intros; apply Hs; case_match; [by apply bm_insert_sorted|done]|].
  rewrite Hg, column_by_name_cons. case_decide as E.
  - subst m. assert (column_by_name batch name = None) as ->.
    { destruct (column_by_name batch name) eqn:E; [|done]. apply column_by_name_elem in E; [|done].
      destruct Hm. apply list_elem_of_fmap. by exists (name, a0). }
    cbn [mbind option_bind]. destruct (column_agg a); [apply bm_get_insert_eq|done].
  - destruct (column_agg a); [|done]. rewrite bm_get_insert_ne by congruence. done.
Qed.
Lemma compute_agg_state_get fid h batch name :
  NoDup batch.*1 →
  bm_get name (fa_cols (compute_agg_state fid h batch)) = column_by_name batch name ≫= column_agg.
Proof.
  intros Hb. destruct (compute_cols_get batch [] name Hb) as [_ E].
  unfold compute_agg_state. cbn [fa_cols]. rewrite E. by destruct (_ ≫= _).
Qed.

(** One column of a retraction. *)
Definition retracted (full : ColAgg) (del : option ColAgg) : option ColAgg :=
  match del with
  | None => Some full
  | Some del =>
      st ← retract_col full del;
      let '(count, sum, sumsq) := st in
      Some (mkColAgg count sum sumsq (ca_min_off full) (ca_max_off full) None None)
  end.

Lemma bm_elem_get_nodup {V} name (v : V) (l : bmap V) :
  NoDup l.*1 → (name, v) ∈ l → bm_get name l = Some v.
Proof.
  induction l as [|[k x] l IH]; [set_solver|]. rewrite fmap_cons, NoDup_cons. intros [Hk Hl] Hin.
  cbn [bm_get]. apply elem_of_cons in Hin as [[= -> ->]|Hin]; [by rewrite decide_True|].
  rewrite decide_False; [by apply IH|]. intros ->. apply Hk. apply list_elem_of_fmap. by exists (k, v).
Qed.
Lemma bm_get_remove_any {V} name m (cols : bmap V) :
  bm_get name (bm_remove m cols) = if decide (name = m) then None else bm_get name cols.
Proof.
  unfold bm_remove. induction cols as [|[k v] cols IH]; [by case_decide|].
  rewrite filter_cons. cbn [fst bm_get].
  destruct (decide (k = m)) as [->|Hk].
  - rewrite decide_False by naive_solver. rewrite IH. by repeat case_decide.
  - rewrite decide_True by done. cbn [bm_get]. rewrite IH. repeat case_decide; congruence.
Qed.
Lemma bm_get_remove_all {V} name (names : list string) (cols : bmap V) :
  bm_get name (foldl (λ cols name, bm_remove name cols) cols names)
  = if decide (name ∈ names) then None else bm_get name cols.
Proof.
  revert cols. induction names as [|m names IH]; intros cols; [done|]. cbn [foldl].
  rewrite IH, bm_get_remove_any. repeat case_decide; set_solver.
Qed.

Lemma retract_fold_get dels cols removed name :
  NoDup dels.*1 →
  let st := foldl retract_step (cols, removed) dels in
  (name ∈ st.2 ↔ name ∈ removed ∨
     ∃ full del, bm_get name cols = Some full ∧ (name, del) ∈ dels ∧ retract_col full del = None)
  ∧ (name ∉ st.2 → bm_get name st.1
       = (full ← bm_get name cols; retracted full (bm_get name dels))).
Proof.
  revert cols removed. induction dels as [|[m del] dels IH]; intros cols removed; cbn [foldl].
  { intros _. cbn [fst snd]. split; [set_solver|]. intros _. by destruct (bm_get name cols). }
  rewrite fmap_cons, NoDup_cons. cbn [fst]. intros [Hm Hd].
  assert (∀ del', (m, del') ∉ dels) as Hm'.
  { intros del' Hin. apply Hm. apply list_elem_of_fmap. by exists (m, del'). }
  assert (bm_get m dels = None) as Hmd by by apply bm_get_None.
  destruct (retract_step (cols, removed) (m, del)) as [c1 r1] eqn:Est.
  destruct (IH c1 r1 Hd) as [Hrem Hget]. clear IH. cbn [bm_get fst snd].
  unfold retract_step in Est. cbn [fst snd] in Est.
  destruct (decide (name = m)) as [->|Hne].
  - rewrite Hmd in Hget.
    destruct (bm_get m cols) as [full|] eqn:Ef; [|by simplify_eq; rewrite Ef in Hrem, Hget; split; [rewrite Hrem; split; intros [?|(?&?&[=]&_)]; by left|]].
    destruct (retract_col full del) as [[[c su] sq]|] eqn:Er; simplify_eq.
    + rewrite bm_get_insert_eq in Hrem, Hget. split; [set_solver|].
      intros Hn. rewrite Hget by done. cbn [mbind option_bind retracted]. by rewrite Er.
    + split; [|intros Hn; destruct Hn; apply Hrem; set_solver]. rewrite Hrem. set_solver.
  - assert (∀ d, (name, d) ∈ (m, del) :: dels ↔ (name, d) ∈ dels) as Hin by set_solver.
    setoid_rewrite Hin.
    destruct (bm_get m cols) as [full|] eqn:Ef; [|by simplify_eq].
    destruct (retract_col full del) as [[[c su] sq]|] eqn:Er; simplify_eq.
    + rewrite bm_get_insert_ne in Hrem, Hget by done. by split.
    + split; [|done]. rewrite Hrem. set_solver.
Qed.

Lemma retract_get full del name :
  NoDup (dc_cols del).*1 →
  bm_get name (fa_cols (retract full del))
  = (c ← bm_get name (fa_cols full); retracted c (bm_get name (dc_cols del))).
Proof.
  intros Hd. unfold retract.
  destruct (retract_fold_get (dc_cols del) (fa_cols full) [] name Hd) as [Hrem Hget].
  destruct (foldl _ _ _) as [cols removed]. cbn [fst snd fa_cols] in *.
  rewrite bm_get_remove_all. case_decide as Hn; [|by apply Hget].
  apply Hrem in Hn as [?|(f&d&->&Hin&Hr)]; [set_solver|].
  cbn [mbind option_bind]. rewrite (bm_elem_get_nodup _ d) by done. simpl. by rewrite Hr.
Qed.

Lemma retract_exact full vs ds ls :
  (ca_count_non_null full, ca_sum full, ca_sumsq full)
    = (ca_count_non_null (exact_agg vs), ca_sum (exact_agg vs), ca_sumsq (exact_agg vs)) →
  vs ≡ₚ ds ++ ls → fits vs →
  retract_col full (exact_agg ds)
  = Some (len ls, if decide (vs = []) then ANull else AInt (sumZ ls),
          if decide (vs = []) then ANull else AInt (sumsqZ ls)).
Proof.
  intros [= Hc Hs Hq] Hp Hf. unfold retract_col. rewrite Hc, Hs, Hq.
  pose proof (sumZ_perm _ _ Hp) as Es. pose proof (sumsqZ_perm _ _ Hp) as Eq.
  assert (fits ls) as Hls by (unfold fits in Hf; rewrite Eq in Hf; by apply (fits_app ds)).
  pose proof (fits_sum _ Hls) as Hsum.
  assert (in_i128 (sumsqZ ls)) as Hsq.
  { unfold fits in Hls. pose proof (sumsqZ_nonneg ls). unfold in_i128. lia. }
  assert (length vs = length ds + length ls)%nat as El by by rewrite <- length_app, Hp.
  rewrite sumZ_app in Es. rewrite sumsqZ_app in Eq.
  destruct (decide (vs = [])) as [->|Hvs].
  - apply Permutation_nil in Hp. apply app_eq_nil in Hp as [-> ->]. done.
  - destruct vs as [|v vs]; [done|].
    change (exact_agg (v :: vs)) with (mkColAgg (len (v :: vs)) (AInt (sumZ (v :: vs)))
      (AInt (sumsqZ (v :: vs))) None None None None).
    cbn [ca_count_non_null ca_sum ca_sumsq].
    assert (saturating_sub (len (v :: vs)) (ca_count_non_null (exact_agg ds)) = len ls) as ->.
    { destruct ds; unfold saturating_sub, exact_agg, len; cbn [ca_count_non_null NullAgg length] in *; lia. }
    destruct ds as [|d ds]; cbn [exact_agg ca_sum ca_sumsq NullAgg retract_scalar].
    + cbn [mbind option_bind]. change (sumZ []) with 0 in Es. change (sumsqZ []) with 0 in Eq.
      by rewrite Es, Eq, !Z.add_0_l.
    + rewrite Es, Eq. rewrite !Z.add_simpl_l.
      unfold checked. rewrite !decide_True by done. done.
Qed.

(** A partial of the live rows: the sums are those of the live rows, the offsets
    still those of the physical extrema. *)
Definition live_agg (offs : list Z) (a : Array) (agg : ColAgg) : Prop :=
  let live := ints (live_rows offs (ar_cells a)) in
  let none := bool_decide (ints (ar_cells a) = []) in
  ca_count_non_null agg = len live
  ∧ ca_sum agg = (if none then ANull else AInt (sumZ live))
  ∧ ca_sumsq agg = (if none then ANull else AInt (sumsqZ live))
  ∧ first_best Z.lt (ar_cells a) (ca_min_off agg) ∧ first_best Z.gt (ar_cells a) (ca_max_off agg).

Lemma live_agg_all a agg : int_agg_of (ar_cells a) agg → live_agg [] a agg.
Proof.
  intros ([= Hc Hs Hq]&Hmin&Hmax&_). unfold live_agg, live_rows. rewrite rows_out_all by done.
  rewrite Hc, Hs, Hq. by destruct (ints (ar_cells a)).
Qed.

Lemma retracted_live offs a agg :
  is_integer_type (ar_type a) = true → fits (ints (ar_cells a)) → int_agg_of (ar_cells a) agg →
  ∃ agg', retracted agg (cells_agg (ar_type a) (deleted_rows offs (ar_cells a))) = Some agg'
          ∧ live_agg offs a agg'.
Proof.
  intros Ht Hf (Htriple&Hmin&Hmax&_). unfold cells_agg. rewrite Ht. cbn [retracted].
  rewrite (retract_exact agg (ints (ar_cells a)) _ (ints (live_rows offs (ar_cells a)))); [|done| |done].
  - cbn [mbind option_bind]. eexists. split; [done|].
    split; [done|]. cbn [ca_sum ca_sumsq ca_min_off ca_max_off].
    destruct (decide (ints (ar_cells a) = [])) as [E|E].
    + rewrite bool_decide_true by done. done.
    + rewrite bool_decide_false by done. done.
  - rewrite <- ints_app. unfold ints, deleted_rows, live_rows. by rewrite rows_partition.
Qed.

Section retract_live.
Context `{!ParquetReader, !ParquetReaderLaws, !SerdeJson} {B : Type} `{!RoaringBitmap B, !RoaringBitmapLaws B}.
Context {St : Type} `{!Storage St, !StorageLaws St}.

(** A data file of [n] rows whose columns have distinct names. *)
Definition content_wf (content : RecordBatch) (n : Z) : Prop :=
  NoDup content.*1
  ∧ ∀ name a, column_by_name content name = Some a → array_typed a ∧ len (ar_cells a) = n.
(** The data file of an entry, as the storage holds it. *)
Definition data_file (table : string) (entry : RowGroupEntry) (content : RecordBatch) (s : St) : Prop :=
  ∃ q data, validate_path (table +:+ "/" +:+ rg_data entry) = Ok q
            ∧ files s !! q = Some data ∧ pq_content data = Some content.

(** C33: Retracting the deleted rows, read back from the data file, from a fragment's
    partial gives for every integer column the count, sum and sum of squares of the rows
    that are live, and leaves out exactly the columns whose sum of squares overflows. *)
Theorem retract_live (content : RecordBatch) (n : Z) table entry s (dv : DeletionVector B) fid h :
  content_wf content n → data_file table entry content s → offsets_in (dv_iter dv) 0 n →
  let full := compute_agg_state fid h content in
  ∃ d, deleted_contribution table entry dv (fa_cols full).*1 s = (Ok d, s)
    ∧ ∀ name a, column_by_name content name = Some a → is_integer_type (ar_type a) = true →
      if decide (fits (ints (ar_cells a)))
      then ∃ agg, bm_get name (fa_cols (retract full d)) = Some agg ∧ live_agg (dv_iter dv) a agg
      else bm_get name (fa_cols full) = None ∧ bm_get name (fa_cols (retract full d)) = None.
Proof.
  intros [Hnames Hrows] (q&data&Hq&Hfile&Hcontent) Hoffs full.
  assert (∀ name a, column_by_name content name = Some a → bm_get name (fa_cols full) = column_agg a) as Hfull.
  { intros name a Ha. unfold full. by rewrite compute_agg_state_get, Ha. }
  assert (∀ name a, column_by_name content name = Some a → is_integer_type (ar_type a) = true →
    if decide (fits (ints (ar_cells a))) then ∃ agg, bm_get name (fa_cols full) = Some agg
      ∧ int_agg_of (ar_cells a) agg else bm_get name (fa_cols full) = None) as Hint.
  { intros name a Ha Ht. rewrite (Hfull _ _ Ha). destruct (Hrows _ _ Ha) as [Hty _].
    pose proof (column_agg_int a Ht Hty) as Hc.
    destruct (column_agg a) as [agg|]; [rewrite decide_True by apply Hc|by rewrite decide_False].
    naive_solver. }
  assert (∀ d, NoDup (dc_cols d).*1 →
    (∀ name a, column_by_name content name = Some a → is_Some (bm_get name (fa_cols full)) →
       is_integer_type (ar_type a) = true →
       bm_get name (dc_cols d) = cells_agg (ar_type a) (deleted_rows (dv_iter dv) (ar_cells a))
       ∨ (dv_iter dv = [] ∧ bm_get name (dc_cols d) = None)) →
    ∀ name a, column_by_name content name = Some a → is_integer_type (ar_type a) = true →
      if decide (fits (ints (ar_cells a)))
      then ∃ agg, bm_get name (fa_cols (retract full d)) = Some agg ∧ live_agg (dv_iter dv) a agg
      else bm_get name (fa_cols full) = None ∧ bm_get name (fa_cols (retract full d)) = None) as Hmain.
  { intros d Hnd Hd name a Ha Ht. rewrite retract_get by done. specialize (Hint _ _ Ha Ht).
    case_decide as Hf; [|by rewrite Hint]. destruct Hint as (agg&Hagg&Hok).
    specialize (Hd _ _ Ha (mk_is_Some _ _ Hagg) Ht). rewrite Hagg. cbn [mbind option_bind].
    destruct Hd as [->|[-> ->]]; [by apply retracted_live|]. eexists. split; [done|].
    by apply live_agg_all. }
  destruct (decide (dv_iter dv = [])) as [Hdv|Hdv].
  - exists (mkDeleted []). split.
    + unfold deleted_contribution. by rewrite Hdv.
    + apply Hmain; [constructor|]. intros. right. done.
  - destruct (deleted_contribution_ok content n Hnames Hrows table entry q data s Hq Hfile Hcontent
                dv (fa_cols full).*1) as (d&Hd&Hs&Hg); [done..| |].
    { intros name a Hin Ha Ht. specialize (Hint _ _ Ha Ht). case_decide; [done|].
      apply list_elem_of_fmap in Hin as ([k agg]&->&Hin). by destruct (proj1 (bm_get_None _ _) Hint agg). }
    exists d. split; [done|]. apply Hmain; [by apply bm_sorted_NoDup|].
    intros name a Ha [agg Hagg] Ht. left. rewrite Hg, decide_True.
    + unfold deleted_agg. by rewrite Ha.
    + apply bm_get_Some_elem in Hagg. apply list_elem_of_fmap. by exists (name, agg).
Qed.
End retract_live.

(** ** Extrema under deletions *)

Section extremum.
Context `{!ParquetReader, !ParquetReaderLaws, !SerdeJson} {B : Type} `{!RoaringBitmap B, !RoaringBitmapLaws B}.
Context {St : Type} `{!Storage St, !StorageLaws St}.

(** [v] is the least (greatest) of [vs]. *)
Definition is_best (kind : ExtremumKind) (vs : list Z) (v : Z) : Prop :=
  v ∈ vs ∧ ∀ w, w ∈ vs → match kind with Min => v <= w | Max => w <= v end.

Lemma pick_fold_some kind vs c :
  ∃ v, foldl (pick kind) (Some c) vs = Some v ∧ is_best kind (c :: vs) v.
Proof.
  revert c. induction vs as [|x vs IH]; intros c; cbn [foldl].
  { exists c. split; [done|]. split; [set_solver|]. intros w Hw.
    apply list_elem_of_singleton in Hw as ->. by destruct kind. }
  destruct (IH (match kind with Min => Z.min c x | Max => Z.max c x end)) as (v&E&Hv&Hle).
  exists v. split; [exact E|]. split.
  - apply elem_of_cons in Hv as [->|?]; [|set_solver].
    destruct kind; [destruct (Zmin_spec c x) as [[_ ->]|[_ ->]]|destruct (Zmax_spec c x) as [[_ ->]|[_ ->]]];
      set_solver.
  - pose proof (Hle _ (list_elem_of_here _ _)) as Hc.
    intros w Hw. apply elem_of_cons in Hw as [->|Hw]; [destruct kind; lia|].
    apply elem_of_cons in Hw as [->|Hw]; [destruct kind; lia|]. apply Hle. set_solver.
Qed.
Lemma pick_fold kind vs :
  match foldl (pick kind) None vs with
  | None => vs = []
  | Some v => is_best kind vs v
  end.
Proof.
  destruct vs as [|x vs]; [done|]. cbn [foldl]. change (pick kind None x) with (Some x).
  by destruct (pick_fold_some kind vs x) as (v&->&?).
Qed.

Lemma live_selectors_nonempty offs n :
  offsets_in offs 0 n → 0 < n → is_empty (live_selectors offs n) = false.
Proof.
  intros [_ Hr] Hn. unfold live_selectors. rewrite (emit_foldl SelectRows).
  destruct offs as [|o offs].
  - cbn [emit end_pos]. by rewrite (proj2 (Z.ltb_lt _ _)).
  - cbn [emit]. destruct (0 <? o); by case_match.
Qed.

Lemma int_column_range a v :
  is_integer_type (ar_type a) = true → array_typed a → v ∈ ints (ar_cells a) → v < 2 ^ 64.
Proof.
  intros Ht Ha (c&Hc&Hv)%list_elem_of_omap. unfold array_typed in Ha. rewrite Forall_forall in Ha.
  specialize (Ha _ Hc). destruct c as [[]|]; try discriminate. injection Hv as ->.
  destruct (ar_type a); try discriminate; destruct Ha as (w&[= ->]&?); lia.
Qed.

(** The JSON number of an extremum; a negative one has none. *)
Definition extremum_json (v : Z) : option Value :=
  if 0 <=? v then Some (VNumber (PosInt v)) else None.

(** Recomputing an extremum over the live rows of a file yields their least or greatest
    value when it is not negative, and nothing when it is negative or no value is left. *)
Theorem scoped_recompute_spec content n table entry s (dv : DeletionVector B) name a kind :
  content_wf content n → data_file table entry content s → offsets_in (dv_iter dv) 0 n →
  column_by_name content name = Some a → is_integer_type (ar_type a) = true →
  ∃ r, scoped_recompute_extremum table entry dv n name kind s = (Ok r, s) ∧
    match ints (live_rows (dv_iter dv) (ar_cells a)) with
    | [] => r = None
    | vs => ∃ v, is_best kind vs v ∧ r = extremum_json v
    end.
Proof.
  intros [Hnames Hrows] (q&data&Hq&Hfile&Hcontent) Hoffs Ha Ht.
  destruct (Hrows _ _ Ha) as [Hty Hlen]. unfold scoped_recompute_extremum.
  destruct (decide (n = 0)) as [->|Hn].
  { assert (ar_cells a = []) as -> by (unfold len in Hlen; by destruct (ar_cells a)).
    assert (dv_iter dv = []) as ->.
    { destruct Hoffs as [_ Hr]. destruct (dv_iter dv); [done|]. inversion Hr; subst. lia. }
    by eexists. }
  assert (0 < n) as Hpos by (pose proof (len_nonneg (ar_cells a)); lia).
  rewrite live_selectors_nonempty by done. erewrite m_bind_ok.
  2:{ rewrite (st_read_spec _ _ _ Hq). unfold read_result. by rewrite Hfile. }
  unfold m_lift. rewrite (pq_schema_content _ _ Hcontent). cbn [res_bind].
  destruct (proj2 (index_of_column content name) (mk_is_Some _ _ Ha)) as [j Hj]. rewrite Hj.
  cbn [of_option res_bind].
  pose proof (schema_column content name) as Hsch. rewrite Hj, Ha in Hsch. cbn [mbind option_bind] in Hsch.
  rewrite Hsch. cbn [fmap option_fmap option_map or_panic res_bind snd]. rewrite Ht. cbn [negb].
  destruct (pq_read_content data content [j] (live_selectors (dv_iter dv) n) Hcontent) as (bs&->&Hbs).
  cbn [res_bind].
  assert (j ∈ [j]) as Hin by set_solver.
  destruct (batches_column content Hnames _ _ _ _ _ _ Hbs Hj Hin Ha) as [Hc Hb].
  rewrite <- Hlen, live_selectors_rows in Hc by by rewrite Hlen.
  destruct bs as [|b0 bs'].
  { eexists. split; [done|]. simpl in Hc. by rewrite <- Hc. }
  specialize (Hb b0 (list_elem_of_here _ _)).
  destruct (index_of (schema_of b0) name) as [j0|]; [|done]. cbn [of_option res_bind].
  rewrite Hc, (foldl_ext _ (λ cur c, match int_of_cell c with Some v => pick kind cur v | None => cur end))
    by by intros cur [[]|].
  rewrite (foldl_omap (pick kind)). fold (ints (live_rows (dv_iter dv) (ar_cells a))).
  pose proof (pick_fold kind (ints (live_rows (dv_iter dv) (ar_cells a)))) as Hpick.
  destruct (foldl _ _ _) as [v|]; [|by rewrite Hpick; eexists].
  assert (v < 2 ^ 64) as Hv.
  { destruct Hpick as [Hv _]. apply (int_column_range a); [done..|].
    rewrite <- (rows_partition (dv_iter dv) 0 (ar_cells a)), ints_app. set_solver. }
  exists (extremum_json v). split.
  - f_equal. unfold extremum_json, int_number. destruct (0 <=? v) eqn:E0; zbool.
    + rewrite (proj2 (Z.ltb_ge v 0)) by done. destruct (v <=? 2 ^ 63 - 1) eqn:E1; [done|]. zbool.
      by rewrite (proj2 (Z.ltb_lt _ _)), (proj2 (Z.leb_le _ _)) by lia.
    + cbn [andb]. by rewrite (proj2 (Z.ltb_ge (2 ^ 63 - 1) v)) by lia.
  - destruct (ints _) as [|v0 vs]; [by destruct Hpick; set_solver|]. by exists v.
Qed.

Lemma live_rows_elem {A} offs (l : list A) j x :
  l !! j = Some x → Z.of_nat j ∉ offs → x ∈ live_rows offs l.
Proof.
  intros Hx Hj. unfold live_rows, rows_out. apply list_elem_of_fmap. exists (Z.of_nat j, x).
  split; [done|]. apply list_elem_of_filter. split; [done|]. apply list_elem_of_lookup. exists j.
  rewrite indexed_from_lookup, Hx. done.
Qed.
Lemma first_best_is_best kind cells o :
  first_best (match kind with Min => Z.lt | Max => Z.gt end) cells (Some o) → len cells <= 2 ^ 32 →
  ∃ v, int_of_cell (default None (cells !! Z.to_nat o)) = Some v ∧ 0 <= o ∧ is_best kind (ints cells) v.
Proof.
  intros (j&v&Hj&->&Hbest&_) Hlen. exists v.
  assert (j < length cells)%nat as Hlt.
  { destruct (cells !! j) eqn:Ec; [by apply lookup_lt_Some in Ec|done]. }
  rewrite wrap32_small by (unfold in_u32, len in *; lia). rewrite Nat2Z.id. split; [done|].
  split; [lia|]. split; [by eapply int_cell_elem|]. intros w Hw. specialize (Hbest w Hw).
  destruct kind; lia.
Qed.

(** The recorded offset of an extremum is that of a row that attains it; while that row
    is live the extremum is also that of the live rows, and it is reported deleted exactly
    when the deletion vector holds the offset. *)
Theorem extremum_deleted_spec a agg (dv : DeletionVector B) kind :
  is_integer_type (ar_type a) = true → array_typed a → len (ar_cells a) <= 2 ^ 32 →
  column_agg a = Some agg →
  match (match kind with Min => ca_min_off agg | Max => ca_max_off agg end) with
  | None => ints (ar_cells a) = [] ∧ extremum_deleted agg dv kind = false
  | Some o =>
      extremum_deleted agg dv kind = bool_decide (o ∈ dv_iter dv)
      ∧ ∃ v, int_of_cell (default None (ar_cells a !! Z.to_nat o)) = Some v
        ∧ is_best kind (ints (ar_cells a)) v
        ∧ (extremum_deleted agg dv kind = false →
           is_best kind (ints (live_rows (dv_iter dv) (ar_cells a))) v)
  end.
Proof.
  intros Ht Hty Hlen Hagg. pose proof (column_agg_int a Ht Hty) as Hint. rewrite Hagg in Hint.
  destruct Hint as [_ (_&Hmin&Hmax&_)]. unfold extremum_deleted.
  assert (first_best (match kind with Min => Z.lt | Max => Z.gt end) (ar_cells a)
            (match kind with Min => ca_min_off agg | Max => ca_max_off agg end)) as Hf by by destruct kind.
  destruct (match kind with Min => _ | Max => _ end) as [o|]; [|done].
  destruct (first_best_is_best _ _ _ Hf Hlen) as (v&Hv&Ho&Hin&Hle).
  assert (dv_contains dv o = bool_decide (o ∈ dv_iter dv)) as ->.
  { apply eq_true_iff_eq. by rewrite dv_contains_iter, bool_decide_eq_true. }
  split; [done|]. exists v. split; [done|]. split; [done|]. intros Hnot%bool_decide_eq_false. split.
  - destruct (ar_cells a !! Z.to_nat o) as [c|] eqn:Ec; [|done]. apply list_elem_of_omap.
    exists c. split; [|done]. eapply live_rows_elem; [done|]. by rewrite Z2Nat.id.
  - intros w Hw. apply Hle. rewrite <- (rows_partition (dv_iter dv) 0 (ar_cells a)), ints_app.
    apply elem_of_app. by right.
Qed.
End extremum.
