(* ===== verification/AggGroups.v ===== *)
(** * Partials per group

    The groups that [compute_agg_state_with_key] builds, their merge over
    fragments and the retraction of deleted rows from them ([agg_cache.rs]). *)

From S2P Require Import Prelude Bytes Text OrdMap Storage Json RowId Manifest Arrow AggCache AggRetract.

#[local] Open Scope list_scope.
#[local] Open Scope Z_scope.

(** The columns a loop over names builds. *)
Lemma foldl_columns_get {V} (f : string → option V) names (cols : bmap V) :
  let cols' := foldl (λ cols m, match f m with Some agg => bm_insert m agg cols | None => cols end)
                 cols names in
  (bm_sorted cols → bm_sorted cols') ∧
  ∀ n, bm_get n cols' = if decide (n ∈ names ∧ is_Some (f n)) then f n else bm_get n cols.
Proof.
  revert cols. induction names as [|m names IH]; intros cols; cbn [foldl].
  { split; [done|]. intros n. by rewrite decide_False by set_solver. }
  destruct (IH (match f m with Some agg => bm_insert m agg cols | None => cols end)) as [Hs Hg].
  split; [intros; apply Hs; case_match; [by apply bm_insert_sorted|done]|].
  intros n. rewrite Hg. destruct (decide (n ∈ names ∧ is_Some (f n))) as [[? ?]|Hn].
  { by rewrite decide_True by set_solver. }
  destruct (decide (n = m)) as [->|Hne].
  - destruct (f m) as [agg|] eqn:E.
    + rewrite decide_True by (split; [set_solver|done]). apply bm_get_insert_eq.
    + by rewrite decide_False by (intros [_ []]; done).
  - rewrite (decide_False (P := n ∈ m :: names ∧ _)) by set_solver.
    destruct (f m); [by apply bm_get_insert_ne|done].
Qed.

(** A map built by inserting the image of every entry. *)
Lemma foldl_image_get {V W} (f : V → W) (m : bmap V) :
  bm_sorted m →
  let m' := foldl (λ acc kv, bm_insert kv.1 (f kv.2) acc) [] m in
  bm_sorted m' ∧ m'.*1 = m.*1 ∧ ∀ k, bm_get k m' = f <$> bm_get k m.
Proof.
  intros Hm. change (foldl _ [] m) with
    (foldl (λ acc kv, (λ acc (kv : string * W), bm_insert kv.1 kv.2 acc) acc (prod_map id f kv)) [] m).
  assert (∀ (l : bmap V) acc, foldl (λ acc kv, (λ acc (kv : string * W), bm_insert kv.1 kv.2 acc) acc
            (prod_map id f kv)) acc l
          = foldl (λ acc (kv : string * W), bm_insert kv.1 kv.2 acc) acc (prod_map id f <$> l)) as ->.
  { intros l. induction l as [|kv l IH]; intros acc; [done|]. apply IH. }
  assert (bm_sorted (prod_map id f <$> m)) as Hs by by apply bm_fmap_sorted.
  change (foldl _ [] (prod_map id f <$> m)) with (bm_collect (prod_map id f <$> m)).
  rewrite bm_collect_id by done. split; [done|]. split; [|intros k; apply bm_get_fmap].
  rewrite <- list_fmap_compose. by apply list_fmap_ext.
Qed.

(** ** Bucketing rows by key *)

Lemma concat_filter_keys {A} (f : A → option string) (keys : list string) (l : list A) :
  NoDup keys → (∀ r, r ∈ l → ∃ k, k ∈ keys ∧ f r = Some k) →
  concat ((λ k, filter (λ r, f r = Some k) l) <$> keys) ≡ₚ l.
Proof.
  revert l. induction keys as [|k keys IH]; intros l; cbn [fmap list_fmap concat].
  - intros _ Hl. destruct l as [|x l]; [done|]. destruct (Hl x) as (?&?&_); set_solver.
  - rewrite NoDup_cons. intros [Hk Hkeys] Hl.
    transitivity (filter (λ r, f r = Some k) l ++ filter (λ r, ¬ f r = Some k) l);
      [|apply filter_app_complement].
    apply Permutation_app; [done|].
    rewrite <- (IH (filter (λ r, ¬ f r = Some k) l)); [|done|].
    + assert (∀ k', k' ∈ keys → filter (λ r, f r = Some k') l
        = filter (λ r, f r = Some k') (filter (λ r, ¬ f r = Some k) l)) as E.
      { intros k' Hk'. rewrite list_filter_filter. apply filter_ext_in. intros r _.
        split; [|by intros []]. intros E. split; [done|]. rewrite E. intros [= ->]. done. }
      clear -E. induction keys as [|k' keys IH]; [done|]. cbn [fmap list_fmap concat].
      rewrite E by set_solver. f_equiv. apply IH. set_solver.
    + intros r [Hne Hr]%list_elem_of_filter. destruct (Hl r Hr) as (k'&Hk'&E). exists k'. split; [|done].
      apply elem_of_cons in Hk' as [->|?]; done.
Qed.

Section groups.
Context `{!SerdeJson}.
Implicit Types ka a : Array.

(** The rows of a column of [n] rows that have the key [k]. *)
Definition key_rows ka (n : Z) (k : string) : list Z :=
  filter (λ r, arrow_scalar_to_group_key_string ka r = Some k) (seqZ 0 n).
Definition nonempty {A} (l : list A) : option (list A) := match l with [] => None | _ => Some l end.

Lemma group_fold ka rows pre g :
  bm_sorted g →
  (∀ k, bm_get k g = nonempty (filter (λ r, arrow_scalar_to_group_key_string ka r = Some k) pre)) →
  match foldl (λ g row, g ← g; key ← arrow_scalar_to_group_key_string ka row;
                        Some (bm_push key row g)) (Some g) rows with
  | Some g' =>
      bm_sorted g' ∧ (∀ r, r ∈ rows → is_Some (arrow_scalar_to_group_key_string ka r))
      ∧ ∀ k, bm_get k g'
             = nonempty (filter (λ r, arrow_scalar_to_group_key_string ka r = Some k) (pre ++ rows))
  | None => ∃ r, r ∈ rows ∧ arrow_scalar_to_group_key_string ka r = None
  end.
Proof.
  revert pre g. induction rows as [|r rows IH]; intros pre g Hs Hg; cbn [foldl].
  { split; [done|]. split; [set_solver|]. by rewrite app_nil_r. }
  cbn [mbind option_bind].
  destruct (arrow_scalar_to_group_key_string ka r) as [key|] eqn:Er.
  2:{ cbn [mbind option_bind]. rewrite foldl_None. exists r. set_solver. }
  cbn [mbind option_bind].
  specialize (IH (pre ++ [r]) (bm_push key r g) (bm_push_sorted _ _ _ Hs)).
  assert (∀ k, bm_get k (bm_push key r g)
    = nonempty (filter (λ r, arrow_scalar_to_group_key_string ka r = Some k) (pre ++ [r]))) as Hpush.
  { intros k. unfold bm_push. rewrite bm_get_insert, filter_app, filter_cons, Er, !Hg.
    change (filter _ []) with (@nil Z). case_decide as E.
    - subst k. rewrite decide_True by done.
      by destruct (filter _ pre).
    - rewrite decide_False by congruence. by rewrite app_nil_r. }
  specialize (IH Hpush). destruct (foldl _ _ rows) as [g'|].
  - destruct IH as (?&Hr&Hk). split; [done|]. split.
    + intros x [->|?]%elem_of_cons; eauto.
    + intros k. by rewrite Hk, <- app_assoc.
  - destruct IH as (x&?&?). exists x. set_solver.
Qed.

Lemma group_rows_ok ka n :
  match group_rows ka n with
  | Some g => bm_sorted g ∧ (∀ r, 0 <= r < n → is_Some (arrow_scalar_to_group_key_string ka r))
              ∧ ∀ k, bm_get k g = nonempty (key_rows ka n k)
  | None => ∃ r, 0 <= r < n ∧ arrow_scalar_to_group_key_string ka r = None
  end.
Proof.
  pose proof (group_fold ka (seqZ 0 n) [] [] bm_sorted_nil ltac:(done)) as Hgr.
  unfold group_rows. destruct (foldl _ _ _) as [g|].
  - destruct Hgr as (?&Hr&?). split; [done|]. split; [|done]. intros r ?. apply Hr, elem_of_seqZ. lia.
  - destruct Hgr as (r&?%elem_of_seqZ&?). exists r. split; [lia|done].
Qed.

(** The cells of some of the rows of a column have a partial when all have. *)
Lemma rows_cells_all a : rows_cells a (seqZ 0 (len (ar_cells a))) = ar_cells a.
Proof.
  unfold rows_cells. apply list_eq. intros i. rewrite list_lookup_fmap.
  destruct (ar_cells a !! i) as [c|] eqn:E.
  - pose proof (lookup_lt_Some _ _ _ E). rewrite lookup_seqZ_lt by (unfold len; lia).
    cbn [fmap option_fmap option_map]. by rewrite Z.add_0_l, Nat2Z.id, E.
  - apply lookup_ge_None in E. rewrite lookup_seqZ_ge by (unfold len; lia). done.
Qed.
Lemma fits_rows a (P : Z → Prop) `{∀ x, Decision (P x)} :
  fits (ints (ar_cells a)) → fits (ints (rows_cells a (filter P (seqZ 0 (len (ar_cells a)))))).
Proof.
  intros Hf. assert (fits (ints (rows_cells a (filter P (seqZ 0 (len (ar_cells a)))
                                   ++ filter (λ x, ¬ P x) (seqZ 0 (len (ar_cells a))))))) as Hall.
  { unfold fits, rows_cells in *. erewrite sumsqZ_perm; [exact Hf|].
    transitivity (ints (rows_cells a (seqZ 0 (len (ar_cells a))))).
    - unfold ints, rows_cells. by rewrite filter_app_complement.
    - by rewrite rows_cells_all. }
  unfold rows_cells in *. rewrite fmap_app, ints_app in Hall. by apply fits_app in Hall as [? _].
Qed.

Lemma group_cols_get batch measures rows name :
  bm_get name (group_cols batch measures rows)
  = if decide (name ∈ measures) then col ← column_by_name batch name; rows_agg col rows else None.
Proof.
  unfold group_cols. erewrite foldl_ext.
  2:{ intros cols m. instantiate (1 := λ cols m, match (col ← column_by_name batch m; rows_agg col rows) with
        Some agg => bm_insert m agg cols | None => cols end). simpl. by destruct (column_by_name batch m). }
  rewrite (proj2 (foldl_columns_get (λ m, col ← column_by_name batch m; rows_agg col rows) measures [])).
  destruct (_ ≫= _) eqn:E.
  - destruct (decide (name ∈ measures)); [by rewrite decide_True|by rewrite decide_False by naive_solver].
  - rewrite decide_False by (intros [_ []]; done). by case_decide.
Qed.

Lemma content_num_rows content n name a :
  content_wf content n → column_by_name content name = Some a → num_rows content = n.
Proof.
  intros [_ Hrows]. destruct content as [|[m b] content]; [done|]. intros _. simpl.
  apply (Hrows m b). rewrite column_by_name_cons. by rewrite decide_True.
Qed.

(** The map of key to rows covers every row exactly once. *)
Lemma key_rows_partition ka n (g : bmap (list Z)) :
  bm_sorted g → (∀ r, 0 <= r < n → is_Some (arrow_scalar_to_group_key_string ka r)) →
  (∀ k, bm_get k g = nonempty (key_rows ka n k)) →
  concat (key_rows ka n <$> g.*1) ≡ₚ seqZ 0 n.
Proof.
  intros Hs Hkeys Hg. apply concat_filter_keys; [by apply bm_sorted_NoDup|].
  intros r Hr. pose proof (proj1 (elem_of_seqZ _ _ _) Hr) as Hr'.
  destruct (Hkeys r ltac:(lia)) as [k Hk]. exists k. split; [|done].
  assert (r ∈ key_rows ka n k) as Hin by by apply list_elem_of_filter.
  specialize (Hg k). destruct (key_rows ka n k); [set_solver|].
  apply bm_get_Some_elem in Hg. apply list_elem_of_fmap. by eexists (k, _).
Qed.

(** The measures of one group. *)
Lemma group_measures content n fid h ka k name a :
  content_wf content n → column_by_name content name = Some a → is_integer_type (ar_type a) = true →
  bm_get name (group_cols content (fst <$> fa_cols (compute_agg_state fid h content)) (key_rows ka n k))
  = if decide (fits (ints (ar_cells a)))
    then Some (exact_agg (ints (rows_cells a (key_rows ka n k)))) else None.
Proof.
  intros [Hnames Hrows] Ha Ht. set (base := compute_agg_state fid h content).
  rewrite group_cols_get, Ha. cbn [mbind option_bind]. unfold rows_agg. rewrite Ht, fold_int_rows_ok.
  destruct (Hrows _ _ Ha) as [Hty Hlen]. pose proof (column_agg_int a Ht Hty) as Hagg.
  assert (name ∈ fst <$> fa_cols base ↔ is_Some (column_agg a)) as Hin.
  { pose proof (compute_agg_state_get fid h content name Hnames) as E. fold base in E.
    rewrite Ha in E. cbn [mbind option_bind] in E. rewrite <- E. split.
    - intros ([k' agg]&->&Hin)%list_elem_of_fmap. simpl.
      destruct (bm_get k' (fa_cols base)) eqn:Eb; [done|]. by destruct (proj1 (bm_get_None _ _) Eb agg).
    - intros [agg Eb]. apply bm_get_Some_elem in Eb. apply list_elem_of_fmap. by exists (name, agg). }
  destruct (decide (fits (ints (ar_cells a)))) as [Hf|Hf].
  - rewrite decide_True by (apply Hin; by destruct (column_agg a)).
    rewrite decide_True; [done|]. unfold key_rows. rewrite <- Hlen. by apply fits_rows.
  - rewrite decide_False; [done|]. rewrite Hin. intros [agg Eagg]. rewrite Eagg in Hagg. naive_solver.
Qed.

(** The groups of a fragment, or why it has none. *)
Lemma grouped_cases content n fid h key ka :
  content_wf content n → column_by_name content key = Some ka →
  let base := compute_agg_state fid h content in
  let st := compute_agg_state_with_key fid h content (Some key) in
  match group_rows ka n with
  | None => st = base
  | Some g =>
      if bool_decide (MAX_DECLARED_GROUPS < length g)%nat then st = base
      else fa_cols st = fa_cols base ∧ ∃ groups, fa_grouped st = Some (mkGrouped key groups)
             ∧ bm_sorted groups ∧ groups.*1 = g.*1
             ∧ ∀ k, bm_get k groups
                    = group_cols content (fst <$> fa_cols base) <$> nonempty (key_rows ka n k)
  end.
Proof.
  intros Hwf Hka base st. unfold st, compute_agg_state_with_key. rewrite Hka.
  rewrite (content_num_rows _ _ _ _ Hwf Hka). fold base.
  pose proof (group_rows_ok ka n) as Hg. destruct (group_rows ka n) as [g|]; [|done].
  destruct Hg as (Hs&_&Hget). case_bool_decide; [done|]. split; [done|].
  destruct (foldl_image_get (group_cols content (fst <$> fa_cols base)) g Hs) as (?&?&Hget').
  eexists. split; [done|]. split; [done|]. split; [done|]. intros k. by rewrite Hget', Hget.
Qed.

End groups.

(** ** Merging *)

Section merge.
Implicit Types m : bmap (bmap ColAgg).

(** One measure of one group. *)
Definition entry_of (k name : string) m : option ColAgg :=
  cols ← bm_get k m; bm_get name cols.
(** What a later partial does to an entry. *)
Definition combine_entry (e : option ColAgg) (o : option ColAgg) : option ColAgg :=
  match o with
  | None => e
  | Some incoming => match e with None => Some incoming | Some x => merge_two_col_aggs x incoming end
  end.

Lemma merge_column_get entry c name :
  bm_get name (merge_column entry c)
  = combine_entry (bm_get name entry) (if decide (name = c.1) then Some c.2 else None).
Proof.
  unfold merge_column. destruct c as [c agg]. cbn [fst snd]. destruct (decide (name = c)) as [->|Hne].
  - destruct (bm_get c entry) eqn:E; simpl; [|apply bm_get_insert_eq].
    destruct (merge_two_col_aggs _ _); [apply bm_get_insert_eq|].
    rewrite bm_get_remove_any. by rewrite decide_True.
  - cbn [combine_entry]. destruct (bm_get c entry) eqn:E; [|by apply bm_get_insert_ne].
    destruct (merge_two_col_aggs _ _); [by apply bm_get_insert_ne|].
    rewrite bm_get_remove_any. by rewrite decide_False.
Qed.
Lemma bm_get_cons_nodup {V} name c (v : V) l :
  NoDup ((c, v) :: l).*1 → name = c → bm_get name l = None.
Proof.
  rewrite fmap_cons, NoDup_cons. intros [Hc _] ->. apply bm_get_None. intros v' Hin.
  apply Hc, list_elem_of_fmap. by exists (c, v').
Qed.
Lemma merge_columns_get cols entry name :
  NoDup cols.*1 →
  bm_get name (foldl merge_column entry cols)
  = combine_entry (bm_get name entry) (bm_get name cols).
Proof.
  revert entry. induction cols as [|[c agg] cols IH]; intros entry Hd; [done|]. cbn [foldl].
  rewrite IH, merge_column_get by by apply (NoDup_cons_1_2 c). cbn [fst snd bm_get].
  destruct (decide (name = c)) as [->|]; [|done].
  by rewrite (bm_get_cons_nodup _ _ _ _ Hd eq_refl).
Qed.

Definition groups_wf (p : GroupedPartials) : Prop :=
  NoDup (gp_groups p).*1 ∧ Forall (λ g, NoDup g.2.*1) (gp_groups p).

Lemma merge_part_get k name (groups : bmap (bmap ColAgg)) merged :
  NoDup groups.*1 → Forall (λ g, NoDup g.2.*1) groups →
  entry_of k name (foldl (λ merged g,
    bm_insert g.1 (foldl merge_column (default [] (bm_get g.1 merged)) g.2) merged) merged groups)
  = combine_entry (entry_of k name merged) (entry_of k name groups).
Proof.
  revert merged. induction groups as [|[g cols] groups IH]; intros merged Hd Hall; [done|].
  inversion Hall as [|?? Hcols Hall']; subst. cbn [foldl].
  rewrite IH by (done || by apply (NoDup_cons_1_2 g)). cbn [fst snd].
  unfold entry_of. rewrite bm_get_insert. cbn [bm_get].
  destruct (decide (k = g)) as [->|]; [|done].
  rewrite (bm_get_cons_nodup _ _ _ _ Hd eq_refl). cbn [mbind option_bind combine_entry].
  rewrite merge_columns_get by done. by destruct (bm_get g merged).
Qed.

(** Merging two exact partials. *)
Lemma merge_exact u v :
  fits (u ++ v) → len (u ++ v) < 2 ^ 64 →
  merge_two_col_aggs (exact_agg u) (exact_agg v) = Some (exact_agg (u ++ v)).
Proof.
  intros Hf Hl. pose proof (fits_sum _ Hf) as Hs.
  assert (in_i128 (sumsqZ (u ++ v))) as Hq.
  { unfold fits in Hf. pose proof (sumsqZ_nonneg (u ++ v)). unfold in_i128. lia. }
  unfold merge_two_col_aggs.
  assert (wrap64 (ca_count_non_null (exact_agg u) + ca_count_non_null (exact_agg v)) = len (u ++ v)) as ->.
  { rewrite wrap64_small; destruct u, v; unfold in_u64, exact_agg, len in *;
      cbn [ca_count_non_null NullAgg length app] in *; rewrite ?length_app in *; simpl in *; lia. }
  rewrite sumZ_app in Hs. rewrite sumsqZ_app in Hq. unfold checked.
  destruct u as [|x u]; [|destruct v as [|y v]].
  - destruct v; [done|]. done.
  - rewrite app_nil_r. done.
  - cbn [exact_agg ca_sum ca_sumsq merge_scalar app]. unfold checked. rewrite !decide_True by done.
    cbn [fmap option_fmap option_map mbind option_bind]. unfold exact_agg.
    change (x :: u ++ y :: v) with ((x :: u) ++ y :: v). by rewrite sumZ_app, sumsqZ_app.
Qed.

(** The partials of the later fragments are added to the one so far. *)
Lemma merge_fold_some k name parts merged u vss :
  Forall groups_wf parts →
  omap (λ p, entry_of k name (gp_groups p)) parts = exact_agg <$> vss →
  entry_of k name merged = Some (exact_agg u) →
  fits (u ++ concat vss) → len (u ++ concat vss) < 2 ^ 64 →
  entry_of k name (foldl merge_part merged parts) = Some (exact_agg (u ++ concat vss)).
Proof.
  revert merged u vss. induction parts as [|p parts IH]; intros merged u vss Hwf E Hm Hf Hl.
  { destruct vss; [|done]. simpl. by rewrite app_nil_r. }
  inversion Hwf as [|?? [Hk Hcols] Hwf']; subst. cbn [foldl]. cbn [omap list_omap] in E.
  assert (entry_of k name (merge_part merged p)
          = combine_entry (Some (exact_agg u)) (entry_of k name (gp_groups p))) as Hp.
  { rewrite <- Hm. by apply merge_part_get. }
  destruct (entry_of k name (gp_groups p)) as [agg|]; [|by apply IH].
  destruct vss as [|v vss]; [done|]. cbn [fmap list_fmap concat] in *. injection E as -> E.
  rewrite app_assoc in *.
  assert (fits (u ++ v)) as Huv by by apply fits_app in Hf as [? _].
  apply IH; [done..| |done|done]. rewrite Hp. simpl. apply merge_exact; [done|].
  rewrite len_app in Hl. pose proof (len_nonneg (concat vss)). lia.
Qed.
Lemma merge_fold_none k name parts merged vss :
  Forall groups_wf parts →
  omap (λ p, entry_of k name (gp_groups p)) parts = exact_agg <$> vss →
  entry_of k name merged = None →
  fits (concat vss) → len (concat vss) < 2 ^ 64 →
  entry_of k name (foldl merge_part merged parts)
  = match vss with [] => None | _ => Some (exact_agg (concat vss)) end.
Proof.
  revert merged. induction parts as [|p parts IH]; intros merged Hwf E Hm Hf Hl.
  { by destruct vss. }
  inversion Hwf as [|?? [Hk Hcols] Hwf']; subst. cbn [foldl]. cbn [omap list_omap] in E.
  assert (entry_of k name (merge_part merged p) = combine_entry None (entry_of k name (gp_groups p))) as Hp.
  { rewrite <- Hm. by apply merge_part_get. }
  destruct (entry_of k name (gp_groups p)) as [agg|]; [|by apply IH].
  destruct vss as [|v vss]; [done|]. cbn [fmap list_fmap concat] in *. injection E as -> E.
  by apply merge_fold_some.
Qed.
End merge.

(** Merging the groups of several fragments adds up their measures: the merged measure
    is that of all the rows, whenever it fits. *)
Theorem merge_grouped_exact parts key :
  Forall groups_wf parts → Forall (λ p, gp_key_col p = key) parts →
  ∃ merged, merge_grouped parts = Ok merged ∧
    ∀ k name vss, omap (λ p, entry_of k name (gp_groups p)) parts = exact_agg <$> vss →
      fits (concat vss) → len (concat vss) < 2 ^ 64 →
      entry_of k name merged = match vss with [] => None | _ => Some (exact_agg (concat vss)) end.
Proof.
  intros Hwf Hkey. unfold merge_grouped. destruct parts as [|p0 ps].
  { eexists. split; [done|]. intros k name [|v vss]; [done|done]. }
  rewrite decide_True.
  - eexists. split; [done|]. intros k name vss E Hf Hl. by apply merge_fold_none.
  - by inversion Hkey; subst.
Qed.

(** An i128 overflow of a group's sum of squares, and one more fragment. *)
Definition overflow_parts : list GroupedPartials :=
  (λ vs, mkGrouped "k" [("1"%string, [("v"%string, exact_agg vs)])])
  <$> [[2 ^ 63]; [2 ^ 63]; [5]].

(** When the sum of a measure overflows while two fragments are merged, a third
    fragment puts the measure back with its own rows only: the merged partial is wrong
    instead of absent. *)
Theorem merge_grouped_overflow_reinserts :
  ∃ merged, merge_grouped overflow_parts = Ok merged
    ∧ entry_of "1" "v" merged = Some (exact_agg [5])
    ∧ ∃ merged2, merge_grouped (take 2 overflow_parts) = Ok merged2 ∧ entry_of "1" "v" merged2 = None.
Proof.
  eexists. split; [vm_compute; reflexivity|]. split; [vm_compute; reflexivity|].
  eexists. split; vm_compute; reflexivity.
Qed.

(** ** Retraction from groups *)

Section retract_groups.
Context `{!SerdeJson}.
Context (k name : string) (kt : DataType).

Definition key_of_cell (c : option Cell) : option string :=
  arrow_scalar_to_group_key_string (mkArray kt [c]) 0.
Lemma key_of_row ka r :
  ar_type ka = kt →
  arrow_scalar_to_group_key_string ka r = key_of_cell (default None (ar_cells ka !! Z.to_nat r)).
Proof.
  intros E. unfold key_of_cell, arrow_scalar_to_group_key_string. rewrite E.
  by destruct (ar_cells ka !! Z.to_nat r) as [[c|]|].
Qed.

(** What a row, its key cell and its measure cell, counts for the entry. *)
Definition contribution (kv : option Cell * option Cell) : option Z :=
  if decide (key_of_cell kv.1 = Some k) then int_of_cell kv.2 else None.

Definition retract_entry (e : option ColAgg) (v : option Z) : option ColAgg :=
  match v, e with
  | Some v, Some full =>
      if decide (fits [v]) then
        st ← retract_col full (exact_agg [v]);
        let '(count, sum, sumsq) := st in Some (mkColAgg count sum sumsq None None None None)
      else e
  | _, _ => e
  end.

Lemma retract_measure_get b r cols name' va :
  column_by_name b name' = Some va → is_integer_type (ar_type va) = true →
  bm_get name (retract_measure b r cols name')
  = if decide (name = name') then retract_entry (bm_get name cols) (int_at va r) else bm_get name cols.
Proof.
  intros Hva Ht. unfold retract_measure, row_agg, rows_agg. rewrite Hva, Ht, fold_int_rows_ok.
  unfold rows_cells. cbn [fmap list_fmap]. rewrite <- (app_nil_l [default _ _]).
  unfold ints. cbn [omap list_omap app]. rewrite <- int_at_cell.
  destruct (int_at va r) as [v|]; cbn [retract_entry].
  2:{ rewrite decide_True by done. cbn. by case_decide. }
  destruct (decide (fits [v])) as [Hf|Hf].
  2:{ case_decide; [|done]. by destruct (bm_get name cols). }
  change (ca_count_non_null (exact_agg [v]) =? 0) with false. cbv iota.
  destruct (decide (name = name')) as [<-|Hne].
  - destruct (bm_get name cols) as [full|] eqn:E; [|by rewrite E].
    destruct (retract_col full (exact_agg [v])) as [[[c su] sq]|]; [by rewrite bm_get_insert_eq|].
    rewrite bm_get_remove_any. by rewrite decide_True.
  - destruct (bm_get name' cols) as [full|] eqn:E; [|done].
    destruct (retract_col full (exact_agg [v])) as [[[c su] sq]|]; [by rewrite bm_get_insert_ne|].
    rewrite bm_get_remove_any. by rewrite decide_False.
Qed.
(** Whatever the column, another measure leaves the entry alone. *)
Lemma retract_measure_other b r cols name' :
  name ≠ name' → bm_get name (retract_measure b r cols name') = bm_get name cols.
Proof.
  intros Hne. unfold retract_measure. repeat case_match; try done;
    rewrite ?bm_get_remove_any, ?bm_get_insert_ne by done; by rewrite ?decide_False.
Qed.

Lemma retract_measures_get b r measures cols va :
  NoDup measures → column_by_name b name = Some va → is_integer_type (ar_type va) = true →
  bm_get name (foldl (retract_measure b r) cols measures)
  = if decide (name ∈ measures) then retract_entry (bm_get name cols) (int_at va r)
    else bm_get name cols.
Proof.
  intros Hnd Hva Ht. revert cols. induction Hnd as [|m measures Hm _ IH]; intros cols; [done|].
  cbn [foldl]. rewrite IH. destruct (decide (name = m)) as [<-|Hne].
  - rewrite decide_False by done. rewrite (retract_measure_get _ _ _ _ va) by done.
    by rewrite !decide_True by set_solver.
  - rewrite retract_measure_other by done. repeat case_decide; set_solver.
Qed.

Lemma retract_row_entry key measures b live r ka va :
  NoDup measures → name ∈ measures →
  column_by_name b key = Some ka → ar_type ka = kt →
  column_by_name b name = Some va → is_integer_type (ar_type va) = true →
  entry_of k name (retract_row key measures b live r)
  = retract_entry (entry_of k name live)
      (contribution (default None (ar_cells ka !! Z.to_nat r), default None (ar_cells va !! Z.to_nat r)))
  ∧ (is_Some (bm_get k (retract_row key measures b live r)) ↔ is_Some (bm_get k live)).
Proof.
  intros Hnd Hin Hka Hkt Hva Ht. unfold retract_row, contribution. rewrite Hka, (key_of_row _ _ Hkt).
  cbn [fst snd]. rewrite <- int_at_cell.
  destruct (key_of_cell _) as [key'|]; [|by rewrite decide_False].
  destruct (decide (key' = k)) as [Hk|Hne].
  - rewrite Hk, decide_True by done. unfold entry_of. destruct (bm_get k live) as [cols|] eqn:E.
    + rewrite bm_get_insert_eq. split; [|done]. cbn [mbind option_bind].
      rewrite (retract_measures_get _ _ _ _ va) by done. by rewrite decide_True.
    + rewrite E. cbn [mbind option_bind retract_entry]. by destruct (int_at va r).
  - rewrite decide_False by congruence. cbn [retract_entry]. unfold entry_of.
    destruct (bm_get key' live) as [cols|] eqn:E; [|done]. by rewrite bm_get_insert_ne.
Qed.

(** *** The rows of the batches, one after the other *)

Definition batch_pairs (key : string) (b : RecordBatch) : list (option Cell * option Cell) :=
  zip (column_cells b key) (column_cells b name).

Lemma retract_rows_entry key measures b live ka va l pre :
  NoDup measures → name ∈ measures →
  column_by_name b key = Some ka → ar_type ka = kt →
  column_by_name b name = Some va → is_integer_type (ar_type va) = true →
  zip (ar_cells ka) (ar_cells va) = pre ++ l →
  let live' := foldl (retract_row key measures b) live (seqZ (len pre) (len l)) in
  entry_of k name live' = foldl retract_entry (entry_of k name live) (contribution <$> l)
  ∧ (is_Some (bm_get k live') ↔ is_Some (bm_get k live)).
Proof.
  intros Hnd Hin Hka Hkt Hva Ht. revert pre live. induction l as [|[kc vc] l IH]; intros pre live E.
  { done. }
  assert (seqZ (len pre) (len ((kc, vc) :: l)) = len pre :: seqZ (len (pre ++ [(kc, vc)])) (len l)) as ->.
  { rewrite len_app. unfold len. cbn [length]. rewrite Nat2Z.inj_succ, seqZ_cons by lia.
    f_equal. f_equal; lia. }
  cbn [foldl fmap list_fmap].
  destruct (retract_row_entry key measures b live (len pre) ka va) as [Hrow Hsome]; [done..|].
  destruct (IH (pre ++ [(kc, vc)]) (retract_row key measures b live (len pre))) as [He Hs].
  { by rewrite <- app_assoc. }
  split; [|by rewrite Hs]. rewrite He, Hrow.
  assert (zip (ar_cells ka) (ar_cells va) !! length pre = Some (kc, vc)) as Hl
    by (rewrite E; by apply list_lookup_middle).
  apply lookup_zip_Some in Hl as [Hk Hv]. unfold len. by rewrite Nat2Z.id, Hk, Hv.
Qed.

Lemma retract_batch_entry key measures b live ka va :
  NoDup measures → name ∈ measures →
  column_by_name b key = Some ka → ar_type ka = kt →
  column_by_name b name = Some va → is_integer_type (ar_type va) = true →
  len (ar_cells ka) = num_rows b → len (ar_cells va) = num_rows b →
  entry_of k name (retract_batch key measures live b)
    = foldl retract_entry (entry_of k name live) (contribution <$> batch_pairs key b)
  ∧ (is_Some (bm_get k (retract_batch key measures live b)) ↔ is_Some (bm_get k live)).
Proof.
  intros Hnd Hin Hka Hkt Hva Ht Hlk Hlv. unfold retract_batch, batch_pairs, column_cells.
  rewrite Hka, Hva.
  assert (num_rows b = len (zip (ar_cells ka) (ar_cells va))) as ->.
  { unfold len in *. rewrite length_zip_with_l; lia. }
  by apply (retract_rows_entry key measures b live ka va _ []).
Qed.

(** The entry of the rows whose values are [R]; the sums are typed once the
    group has had a value. *)
Definition group_state (none : bool) (R : list Z) (agg : ColAgg) : Prop :=
  ca_count_non_null agg = len R
  ∧ ca_sum agg = (if none then ANull else AInt (sumZ R))
  ∧ ca_sumsq agg = (if none then ANull else AInt (sumsqZ R))
  ∧ (none = true → R = []).

Lemma group_state_exact R : group_state (bool_decide (R = [])) R (exact_agg R).
Proof. destruct R; [by repeat split|]. rewrite bool_decide_false by done. by repeat split. Qed.
Lemma group_state_step none v R agg :
  fits (v :: R) → group_state none (v :: R) agg →
  ∃ agg', retract_entry (Some agg) (Some v) = Some agg' ∧ group_state none R agg'.
Proof.
  intros Hf (Hc&Hs&Hq&Hn). destruct none; [by specialize (Hn eq_refl)|].
  assert (fits [v] ∧ fits R) as [Hv HR] by by apply (fits_app [v] R).
  cbn [retract_entry]. rewrite decide_True by done.
  assert (retract_col agg (exact_agg [v]) = Some (len R, AInt (sumZ R), AInt (sumsqZ R))) as ->.
  { unfold retract_col. rewrite Hc, Hs, Hq. cbn [exact_agg ca_count_non_null ca_sum ca_sumsq retract_scalar].
    pose proof (fits_sum _ HR). unfold fits in HR. pose proof (sumsqZ_nonneg R).
    assert (saturating_sub (len (v :: R)) (len [v]) = len R) as ->
      by (unfold saturating_sub, len; cbn [length]; lia).
    replace (sumZ (v :: R) - sumZ [v]) with (sumZ R) by (unfold sumZ; cbn [foldr]; lia).
    replace (sumsqZ (v :: R) - sumsqZ [v]) with (sumsqZ R)
      by (rewrite !sumsqZ_cons; change (sumsqZ []) with 0; lia).
    unfold checked. rewrite !decide_True by (done || unfold in_i128; lia). done. }
  eexists. split; [done|]. by repeat split.
Qed.
Lemma group_state_fold none C R agg :
  fits (omap id C ++ R) → group_state none (omap id C ++ R) agg →
  ∃ agg', foldl retract_entry (Some agg) C = Some agg' ∧ group_state none R agg'.
Proof.
  revert agg. induction C as [|[v|] C IH]; intros agg Hf Hg; cbn [foldl omap list_omap id app] in *.
  - eauto.
  - destruct (group_state_step _ _ _ _ Hf Hg) as (agg'&->&Hg').
    apply (fits_app [v]) in Hf as [_ Hf]. by apply IH.
  - by apply IH.
Qed.
End retract_groups.

(** *** The rows of a group that stay *)

Lemma indexed_seqZ {A} (f : Z → A) i n :
  indexed_from i (f <$> seqZ i n) = (λ j, (j, f j)) <$> seqZ i n.
Proof.
  destruct (decide (0 <= n)) as [Hn|Hn]; [|by rewrite seqZ_nil by lia].
  destruct (Z_of_nat_complete n Hn) as [m ->]. clear Hn. revert i.
  induction m as [|m IH]; intros i; [done|]. rewrite Nat2Z.inj_succ, seqZ_cons by lia.
  rewrite Z.pred_succ. cbn [fmap list_fmap indexed_from]. f_equal. rewrite <- Z.add_1_r. apply IH.
Qed.
Lemma live_rows_seqZ {A} (f : Z → A) offs n :
  live_rows offs (f <$> seqZ 0 n) = f <$> filter (λ i, i ∉ offs) (seqZ 0 n).
Proof.
  unfold live_rows, rows_out. rewrite indexed_seqZ, filter_fmap, <- list_fmap_compose. done.
Qed.
Lemma zip_seqZ {A B} (f : Z → A) (g : Z → B) (l : list Z) :
  zip (f <$> l) (g <$> l) = (λ i, (f i, g i)) <$> l.
Proof. induction l as [|x l IH]; [done|]. rewrite !fmap_cons, <- IH. done. Qed.
Lemma zip_concat {A B} (ls : list (list A * list B)) :
  Forall (λ p, length p.1 = length p.2) ls →
  concat ((λ p, zip p.1 p.2) <$> ls) = zip (concat ls.*1) (concat ls.*2).
Proof.
  induction 1 as [|p ls Hp _ IH]; [done|]. cbn [fmap list_fmap concat]. rewrite IH. clear IH.
  destruct p as [a b]. cbn [fst snd] in *. revert b Hp. induction a as [|x a IH]; intros [|y b] Hp;
    cbn [length] in Hp; try lia; [done|]. cbn [zip_with app]. f_equal. apply IH. lia.
Qed.

Section retract_grouped_live.
Context `{!ParquetReader, !ParquetReaderLaws, !SerdeJson} {B : Type} `{!RoaringBitmap B, !RoaringBitmapLaws B}.
Context {St : Type} `{!Storage St, !StorageLaws St}.

(** The live rows of a group. *)
Definition live_key_rows ka (n : Z) (offs : list Z) (k : string) : list Z :=
  filter (λ r, arrow_scalar_to_group_key_string ka r = Some k) (filter (λ r, r ∉ offs) (seqZ 0 n)).

Lemma contributions_rows k ka va rows :
  omap (contribution k (ar_type ka))
    ((λ i, (default None (ar_cells ka !! Z.to_nat i), default None (ar_cells va !! Z.to_nat i))) <$> rows)
  = ints (rows_cells va (filter (λ r, arrow_scalar_to_group_key_string ka r = Some k) rows)).
Proof.
  unfold ints, rows_cells. induction rows as [|r rows IH]; [done|].
  rewrite fmap_cons, filter_cons. cbn [omap list_omap]. unfold contribution at 1. cbn [fst snd].
  rewrite <- key_of_row by done. case_decide as E.
  - cbn [fmap list_fmap omap list_omap]. by rewrite IH.
  - done.
Qed.

Lemma retract_batches_entry k name key measures (bs : list RecordBatch) live kt t :
  NoDup measures → name ∈ measures → is_integer_type t = true →
  Forall (λ b, (∃ ka, column_by_name b key = Some ka ∧ ar_type ka = kt ∧ len (ar_cells ka) = num_rows b)
             ∧ ∃ va, column_by_name b name = Some va ∧ ar_type va = t ∧ len (ar_cells va) = num_rows b) bs →
  let live' := foldl (retract_batch key measures) live bs in
  entry_of k name live'
    = foldl retract_entry (entry_of k name live)
        (contribution k kt <$> zip (concat ((λ b, column_cells b key) <$> bs))
                                   (concat ((λ b, column_cells b name) <$> bs)))
  ∧ (is_Some (bm_get k live') ↔ is_Some (bm_get k live)).
Proof.
  intros Hnd Hin Ht Hbs.
  assert (zip (concat ((λ b, column_cells b key) <$> bs)) (concat ((λ b, column_cells b name) <$> bs))
          = concat (batch_pairs name key <$> bs)) as ->.
  { pose proof (zip_concat ((λ b, (column_cells b key, column_cells b name)) <$> bs)) as E.
    rewrite <- !list_fmap_compose in E. unfold compose in E. cbn [fst snd] in E. rewrite <- E; [done|].
    apply Forall_fmap. eapply Forall_impl; [exact Hbs|]. intros b [(ka&Hka&_&Hlk) (va&Hva&_&Hlv)].
    unfold compose, column_cells. cbn [fst snd]. rewrite Hka, Hva. unfold len in *. lia. }
  revert live. induction Hbs as [|b bs [(ka&Hka&Hkt&Hlk) (va&Hva&Hvt&Hlv)] _ IH]; intros live; [done|].
  cbn [foldl fmap list_fmap concat].
  destruct (retract_batch_entry k name kt key measures b live ka va) as [He Hs]; [done..|congruence|done|done|].
  destruct (IH (retract_batch key measures live b)) as [He' Hs'].
  split; [|by rewrite Hs']. rewrite He', He, fmap_app, foldl_app. done.
Qed.

(** No retraction adds or removes a group. *)
Lemma retract_batches_keys k key measures (bs : list RecordBatch) live :
  is_Some (bm_get k (foldl (retract_batch key measures) live bs)) ↔ is_Some (bm_get k live).
Proof.
  assert (∀ b live r, is_Some (bm_get k (retract_row key measures b live r)) ↔ is_Some (bm_get k live)) as Hrow.
  { intros b live' r. unfold retract_row. repeat case_match; try done.
    rewrite bm_get_insert. case_decide; [subst|done]. split; intros _; [by eexists|done]. }
  assert (∀ b rows live, is_Some (bm_get k (foldl (retract_row key measures b) live rows))
                         ↔ is_Some (bm_get k live)) as Hrows.
  { intros b rows. induction rows as [|r rows IH]; intros live'; [done|]. cbn [foldl]. by rewrite IH, Hrow. }
  revert live. induction bs as [|b bs IH]; intros live; [done|]. cbn [foldl]. rewrite IH. apply Hrows.
Qed.

(** The entry of a group after its deleted rows are taken out. *)
Lemma group_entry_live k ka va offs n agg :
  len (ar_cells ka) = n → len (ar_cells va) = n → fits (ints (ar_cells va)) →
  agg = exact_agg (ints (rows_cells va (key_rows ka n k))) →
  ∃ agg', foldl retract_entry (Some agg)
            (contribution k (ar_type ka) <$>
               zip (deleted_rows offs (ar_cells ka)) (deleted_rows offs (ar_cells va))) = Some agg'
    ∧ group_state (bool_decide (ints (rows_cells va (key_rows ka n k)) = []))
        (ints (rows_cells va (live_key_rows ka n offs k))) agg'.
Proof.
  intros Hk Hv Hf ->.
  set (pairs := (λ i, (default None (ar_cells ka !! Z.to_nat i), default None (ar_cells va !! Z.to_nat i)))
                <$> seqZ 0 n).
  assert (ar_cells ka = fst <$> pairs ∧ ar_cells va = snd <$> pairs) as [Eka Eva].
  { unfold pairs. rewrite <- !list_fmap_compose. split.
    - rewrite <- (rows_cells_all ka), Hk at 1. done.
    - rewrite <- (rows_cells_all va), Hv at 1. done. }
  assert (zip (deleted_rows offs (ar_cells ka)) (deleted_rows offs (ar_cells va)) = deleted_rows offs pairs) as ->.
  { rewrite Eka, Eva. unfold deleted_rows. rewrite !rows_in_fmap. apply zip_fst_snd. }
  set (c := contribution k (ar_type ka)).
  assert (ints (rows_cells va (live_key_rows ka n offs k)) = omap c (live_rows offs pairs)) as ->.
  { unfold pairs, c. rewrite live_rows_seqZ. by rewrite contributions_rows. }
  assert (ints (rows_cells va (key_rows ka n k)) = omap c pairs) as E.
  { unfold pairs, c. by rewrite contributions_rows. }
  rewrite E.
  assert (omap id (c <$> deleted_rows offs pairs) = omap c (deleted_rows offs pairs)) as Eid
    by (generalize (deleted_rows offs pairs) as l; intros l; induction l as [|x l IH]; [done|];
        cbn [fmap list_fmap omap list_omap id]; rewrite IH; done).
  assert (omap c pairs ≡ₚ omap id (c <$> deleted_rows offs pairs) ++ omap c (live_rows offs pairs)) as Hp.
  { rewrite Eid, <- omap_app. unfold deleted_rows, live_rows. by rewrite rows_partition. }
  assert (fits (omap c pairs)) as Hfp.
  { rewrite <- E. unfold key_rows. rewrite <- Hv. by apply fits_rows. }
  apply group_state_fold; [by unfold fits in *; rewrite <- (sumsqZ_perm _ _ Hp)|].
  destruct (group_state_exact (omap c pairs)) as (Hc&Hs&Hq&Hn).
  split; [by rewrite Hc; unfold len; rewrite Hp|].
  split; [by rewrite Hs, (sumZ_perm _ _ Hp)|]. split; [by rewrite Hq, (sumsqZ_perm _ _ Hp)|].
  intros E0. specialize (Hn E0). rewrite Hn in Hp. by apply Permutation_nil in Hp.
Qed.

(** What [retract_grouped] reads: the deleted rows of the key and of the measures. *)
Definition carries (content : RecordBatch) (offs : list Z) (bs : list RecordBatch) (name : string)
    (a : Array) : Prop :=
  concat ((λ b, column_cells b name) <$> bs) = deleted_rows offs (ar_cells a)
  ∧ Forall (λ b, ∃ a', column_by_name b name = Some a' ∧ ar_type a' = ar_type a
                       ∧ len (ar_cells a') = num_rows b) bs.

Lemma retract_grouped_reads content n table entry s (dv : DeletionVector B) key ka groups measures :
  content_wf content n → data_file table entry content s → offsets_in (dv_iter dv) 0 n →
  dv_iter dv ≠ [] → column_by_name content key = Some ka →
  ∃ bs, retract_grouped table entry (mkGrouped key groups) dv measures s
        = (Ok (foldl (retract_batch key measures) groups bs), s)
    ∧ carries content (dv_iter dv) bs key ka
    ∧ ∀ name a, name ∈ measures → column_by_name content name = Some a →
                carries content (dv_iter dv) bs name a.
Proof.
  intros [Hnames Hrows] (q&data&Hq&Hfile&Hcontent) Hoffs Hne Hka.
  unfold retract_grouped. cbn [gp_key_col gp_groups].
  assert ((cardinality dv =? 0) = false) as ->.
  { apply Z.eqb_neq. rewrite cardinality_iter. by destruct (dv_iter dv). }
  erewrite m_bind_ok.
  2:{ rewrite (st_read_spec _ _ _ Hq). unfold read_result. by rewrite Hfile. }
  unfold m_lift. rewrite (pq_schema_content _ _ Hcontent). cbn [res_bind].
  destruct (proj2 (index_of_column content key) (mk_is_Some _ _ Hka)) as [j Hj]. rewrite Hj.
  cbn [of_option res_bind]. set (idxs := j :: omap _ measures).
  destruct (pq_read_content data content idxs (delete_selectors (dv_iter dv)) Hcontent)
    as (bs&->&Hbs). cbn [res_bind].
  assert (∀ name a j', index_of (schema_of content) name = Some j' → j' ∈ idxs →
    column_by_name content name = Some a → carries content (dv_iter dv) bs name a) as Hcol.
  { intros name a j' Hj' Hin Ha.
    destruct (batches_column content Hnames _ _ _ _ _ _ Hbs Hj' Hin Ha) as [Hc Hsch].
    split.
    - rewrite Hc. apply delete_selectors_rows. by destruct (Hrows _ _ Ha) as [_ ->].
    - apply Forall_forall. intros b Hb. specialize (Hsch b Hb). rewrite schema_column in Hsch.
      destruct (column_by_name b name) as [a'|] eqn:Ha'; [|done].
      exists a'. split; [done|]. split; [by injection Hsch|]. destruct Hbs as [Hbs _].
      rewrite Forall_forall in Hbs. destruct (Hbs _ Hb) as [_ Hlen]. eauto. }
  assert (carries content (dv_iter dv) bs key ka) as Hkey by (apply (Hcol _ _ j); set_solver).
  exists bs. split.
  - destruct bs as [|b0 bs'].
    + exfalso. destruct Hkey as [Hc _]. simpl in Hc. destruct (Hrows _ _ Hka) as [_ Hlen].
      by destruct (deleted_nonempty (dv_iter dv) (ar_cells ka)); rewrite ?Hlen.
    + destruct Hkey as [_ Hall]. inversion Hall as [|?? (a'&Ha'&_) _]; subst.
      destruct (proj2 (index_of_column b0 key) (mk_is_Some _ _ Ha')) as [j' ->]. done.
  - split; [done|]. intros name a Hin Ha.
    destruct (proj2 (index_of_column content name) (mk_is_Some _ _ Ha)) as [j' Hj'].
    apply (Hcol _ _ j'); [done| |done]. apply elem_of_cons. right. apply list_elem_of_omap. eauto.
Qed.

(** Retracting the deleted rows from a fragment's groups keeps every group and leaves
    in it the count, sum and sum of squares of its live rows. *)
Theorem retract_grouped_live content n table entry s (dv : DeletionVector B) fid h key ka gp measures :
  content_wf content n → data_file table entry content s → offsets_in (dv_iter dv) 0 n →
  column_by_name content key = Some ka →
  fa_grouped (compute_agg_state_with_key fid h content (Some key)) = Some gp →
  NoDup measures →
  ∃ live, retract_grouped table entry gp dv measures s = (Ok live, s)
    ∧ (∀ k, is_Some (bm_get k live) ↔ is_Some (bm_get k (gp_groups gp)))
    ∧ ∀ k cols, bm_get k live = Some cols →
        ∀ name a, name ∈ measures → column_by_name content name = Some a →
          is_integer_type (ar_type a) = true → fits (ints (ar_cells a)) →
          ∃ agg, bm_get name cols = Some agg
            ∧ group_state (bool_decide (ints (rows_cells a (key_rows ka n k)) = []))
                (ints (rows_cells a (live_key_rows ka n (dv_iter dv) k))) agg.
Proof.
  intros Hwf Hfile Hoffs Hka Hgp Hnd.
  pose proof (grouped_cases content n fid h key ka Hwf Hka) as Hcase. cbn zeta in Hcase.
  destruct (group_rows ka n) as [g|]; [|by rewrite Hcase in Hgp].
  case_bool_decide; [by rewrite Hcase in Hgp|].
  destruct Hcase as (_&groups&Egp&_&_&Hget). rewrite Egp in Hgp. injection Hgp as <-.
  cbn [gp_groups]. pose proof Hwf as [Hnames Hrows].
  assert (∀ k cols, bm_get k groups = Some cols → ∀ name a, column_by_name content name = Some a →
    is_integer_type (ar_type a) = true → fits (ints (ar_cells a)) →
    bm_get name cols = Some (exact_agg (ints (rows_cells a (key_rows ka n k))))) as Hentry.
  { intros k cols Hk name a Ha Ht Hf. rewrite Hget in Hk.
    assert (cols = group_cols content (fst <$> fa_cols (compute_agg_state fid h content)) (key_rows ka n k)) as ->.
    { destruct (key_rows ka n k); [done|]. by injection Hk as <-. }
    rewrite (group_measures _ _ _ _ _ _ _ _ Hwf Ha Ht). by rewrite decide_True. }
  destruct (decide (dv_iter dv = [])) as [Hdv|Hdv].
  { exists groups. split; [|split; [done|]].
    - unfold retract_grouped. by rewrite cardinality_iter, Hdv.
    - intros k cols Hk name a Hin Ha Ht Hf. eexists. split; [by apply (Hentry k cols)|].
      unfold live_key_rows. rewrite Hdv, (filter_all (λ r, r ∉ [])) by set_solver.
      apply group_state_exact. }
  destruct (retract_grouped_reads content n table entry s dv key ka groups measures)
    as (bs&Hrun&[Hck Hbk]&Hmeas); [done..|].
  exists (foldl (retract_batch key measures) groups bs). split; [done|].
  assert (∀ k name a, name ∈ measures → column_by_name content name = Some a →
    is_integer_type (ar_type a) = true →
    entry_of k name (foldl (retract_batch key measures) groups bs)
    = foldl retract_entry (entry_of k name groups)
        (contribution k (ar_type ka) <$> zip (deleted_rows (dv_iter dv) (ar_cells ka))
                                             (deleted_rows (dv_iter dv) (ar_cells a)))) as Hfold.
  { intros k name a Hin Ha Ht. destruct (Hmeas _ _ Hin Ha) as [Hca Hba]. rewrite <- Hck, <- Hca.
    apply (retract_batches_entry k name key measures bs groups (ar_type ka) (ar_type a)); [done..|].
    rewrite Forall_forall in Hbk. rewrite Forall_forall in Hba. apply Forall_forall. eauto. }
  split; [intros k; apply retract_batches_keys|].
  intros k cols Hk name a Hin Ha Ht Hf.
  destruct (proj1 (retract_batches_keys k key measures bs groups) (mk_is_Some _ _ Hk)) as [cols0 Hcols0].
  specialize (Hfold k name a Hin Ha Ht). unfold entry_of in Hfold. rewrite Hk, Hcols0 in Hfold.
  cbn [mbind option_bind] in Hfold. rewrite (Hentry _ _ Hcols0 _ _ Ha Ht Hf) in Hfold. rewrite Hfold.
  by apply group_entry_live; [apply (Hrows key)|apply (Hrows name)|..].
Qed.
End retract_grouped_live.
