(* ===== verification/Prune.v ===== *)
(** * Scan plans and their pruning

    [reader.rs]: predicates on columns, the row groups of a plan, the pruning of
    row groups by partition values, by statistics and by row ids, and the
    classification of a fragment against a filter ([predicate_eval]).
    [predicate.rs]: the translation of DataFusion's filter expressions, of which
    the variants the code names are listed. *)

From S2P Require Import Prelude Bytes StableSort RowId Text OrdMap Json RowGroupMeta Arrow Schema AggCache.
From Stdlib Require Import Floats.SpecFloat.

#[local] Open Scope list_scope.
#[local] Open Scope Z_scope.

(** ** Literals and predicates *)

Inductive Literal :=
  | LInt64 (v : i64)
  | LFloat64 (v : f64)
  | LString (v : string)
  | LBool (v : bool).

(** [Value::from(f64)] is null for a number that is not finite. *)
Definition value_of_f64 (v : f64) : Value :=
  if is_finite v then VNumber (Float (f64_bits v)) else VNull.
Definition Literal_to_value (l : Literal) : Value :=
  match l with
  | LInt64 v => VNumber (int_number v)
  | LFloat64 v => value_of_f64 v
  | LString v => VString v
  | LBool v => VBool v
  end.

(** [Value::from] of a primitive. *)
Definition cell_value (c : Cell) : Value :=
  match c with
  | CBool b => VBool b
  | CInt v => VNumber (int_number v)
  | CFloat f => value_of_f64 f
  | CStr s => VString s
  | COther => VNull
  end.

Inductive Predicate :=
  | PEq (column : string) (value : Literal)
  | PLt (column : string) (value : Literal)
  | PLte (column : string) (value : Literal)
  | PGt (column : string) (value : Literal)
  | PGte (column : string) (value : Literal)
  | PInList (column : string) (values : list Literal)
  | PIsNull (column : string)
  | PIsNotNull (column : string).

(** ** Comparing JSON values *)

(** [Number::as_i64], [as_u64], [as_f64]. *)
Definition num_as_i64 (n : Number) : option i64 :=
  match n with
  | PosInt n => if n <=? 2 ^ 63 - 1 then Some n else None
  | NegInt n => Some n
  | Float _ => None
  end.
Definition num_as_u64 (n : Number) : option u64 :=
  match n with PosInt n => Some n | _ => None end.
Definition num_as_f64 (n : Number) : option f64 :=
  match n with
  | PosInt n | NegInt n => Some (f64_of_int n)
  | Float b => Some (f64_from_bits b)
  end.
(** [partial_cmp] of strings, by bytes, and of booleans. *)
Definition str_cmp (a b : string) : comparison :=
  if str_ltb a b then Lt else if str_ltb b a then Gt else Eq.
Definition bool_cmp (a b : bool) : comparison := Z.compare (Z.b2z a) (Z.b2z b).

Definition json_type_name (v : Value) : string :=
  match v with
  | VNull => "null"
  | VBool _ => "bool"
  | VNumber _ => "number"
  | VString _ => "string"
  | VArray _ => "array"
  | VObject _ => "object"
  end.

Definition compare_values (a b : Value) : res (option comparison) :=
  match a, b with
  | VNumber na, VNumber nb =>
      match num_as_i64 na, num_as_i64 nb with
      | Some ia, Some ib => Ok (Some (Z.compare ia ib))
      | _, _ => Ok (fa ← num_as_f64 na; fb ← num_as_f64 nb; SFcompare fa fb)
      end
  | VString sa, VString sb => Ok (Some (str_cmp sa sb))
  | VBool ba, VBool bb => Ok (Some (bool_cmp ba bb))
  | _, _ => Err (TypeNotSupported ("cannot compare " +:+ json_type_name a +:+ " literal with "
                                   +:+ json_type_name b +:+ " statistics"))
  end.

(** [compare_values(a, b)?.map(p).unwrap_or(false)]. *)
Definition value_test (p : comparison → bool) (a b : Value) : res bool :=
  let? o := compare_values a b in Ok (match o with Some c => p c | None => false end).
Definition value_lt := value_test (λ c, match c with Lt => true | _ => false end).
Definition value_le := value_test (λ c, match c with Gt => false | _ => true end).
Definition value_gt := value_test (λ c, match c with Gt => true | _ => false end).
Definition value_ge := value_test (λ c, match c with Lt => false | _ => true end).

(** [serde_json]'s equality where one side is not a container. *)
Definition number_eq (a b : Number) : bool :=
  match a, b with
  | PosInt a, PosInt b | NegInt a, NegInt b => a =? b
  | Float a, Float b => SFeqb (f64_from_bits a) (f64_from_bits b)
  | _, _ => false
  end.
Definition scalar_eq (a b : Value) : bool :=
  match a, b with
  | VNull, VNull => true
  | VBool a, VBool b => Bool.eqb a b
  | VNumber a, VNumber b => number_eq a b
  | VString a, VString b => bool_decide (a = b)
  | _, _ => false
  end.

(** ** Plans *)

Record PlannedRowGroup := mkPlanned {
  pr_data_path : string;
  pr_meta_path : string;
  pr_meta : RowGroupMeta;
  pr_partition_values : option (gmap string Value);
  pr_snapshot : u64;
  pr_fallback : bool;
  pr_deletes : option string;
  pr_deleted_count : u64;
  pr_fragment_id : u64;
  pr_agg_state : option FragmentAggState;
}.
Record ScanPlan := mkPlan {
  sp_table : string;
  sp_schema : Schema;
  sp_row_groups : list PlannedRowGroup;
}.

Definition partition_value (rg : PlannedRowGroup) (column : string) : option Value :=
  values ← pr_partition_values rg; values !! column.
(** The statistics of a column, when both bounds are present. *)
Definition stats_bounds (stats : ColumnStats) : option (Value * Value) :=
  mn ← cs_min stats; mx ← cs_max stats; Some (mn, mx).

Definition stats_outside_range (rg : PlannedRowGroup) (column : string) (value : Literal)
    (check : Value → Value → Value → res bool) : res bool :=
  match rm_columns (pr_meta rg) !! column ≫= stats_bounds with
  | Some (mn, mx) => check mn mx (Literal_to_value value)
  | None => Ok false
  end.

(** Whether some list value lies between the bounds. *)
Fixpoint any_in_range (values : list Literal) (mn mx : Value) : res bool :=
  match values with
  | [] => Ok false
  | value :: values =>
      let v := Literal_to_value value in
      let? below := value_lt v mn in
      if below then any_in_range values mn mx else
      let? above := value_gt v mx in
      if above then any_in_range values mn mx else Ok true
  end.

Definition row_group_satisfies (pred : Predicate) (rg : PlannedRowGroup) (partition_by : list string)
    : res bool :=
  match pred with
  | PEq column value =>
      if decide (column ∈ partition_by) then
        match partition_value rg column with
        | Some v => Ok (scalar_eq v (Literal_to_value value))
        | None => Ok true
        end
      else
        match rm_columns (pr_meta rg) !! column ≫= stats_bounds with
        | Some (mn, mx) =>
            let v := Literal_to_value value in
            let? below := value_lt v mn in
            if below then Ok false else
            let? above := value_gt v mx in Ok (negb above)
        | None => Ok true
        end
  | PLt column value =>
      let? out := stats_outside_range rg column value (λ mn _ v, value_ge mn v) in Ok (negb out)
  | PLte column value =>
      let? out := stats_outside_range rg column value (λ mn _ v, value_gt mn v) in Ok (negb out)
  | PGt column value =>
      let? out := stats_outside_range rg column value (λ _ mx v, value_le mx v) in Ok (negb out)
  | PGte column value =>
      let? out := stats_outside_range rg column value (λ _ mx v, value_lt mx v) in Ok (negb out)
  | PIsNull column =>
      match rm_columns (pr_meta rg) !! column with
      | Some stats => Ok (negb (cs_nulls stats =? 0))
      | None => Ok true
      end
  | PIsNotNull column =>
      match rm_columns (pr_meta rg) !! column with
      | Some stats => Ok (negb (cs_nulls stats =? rm_rows (pr_meta rg)))
      | None => Ok true
      end
  | PInList column values =>
      if decide (column ∈ partition_by) then
        match partition_value rg column with
        | Some v => Ok (existsb (λ value, scalar_eq v (Literal_to_value value)) values)
        | None => Ok true
        end
      else
        match rm_columns (pr_meta rg) !! column ≫= stats_bounds with
        | Some (mn, mx) => any_in_range values mn mx
        | None => Ok true
        end
  end.

(** The inner loop of [prune]: up to the first predicate that rules the group out. *)
Fixpoint satisfies_all (predicates : list Predicate) (rg : PlannedRowGroup)
    (partition_by : list string) : res bool :=
  match predicates with
  | [] => Ok true
  | pred :: predicates =>
      let? keep := row_group_satisfies pred rg partition_by in
      if keep then satisfies_all predicates rg partition_by else Ok false
  end.
Definition prune (self : ScanPlan) (predicates : list Predicate) : res ScanPlan :=
  let partition_by := default [] (sc_partition_by (sp_schema self)) in
  let? row_groups := res_fold (λ row_groups rg,
    let? keep := satisfies_all predicates rg partition_by in
    Ok (if keep then row_groups ++ [rg] else row_groups)) [] (sp_row_groups self) in
  Ok (mkPlan (sp_table self) (sp_schema self) row_groups).

(** The file name without [.parquet]. *)
Definition rg_id (rg : PlannedRowGroup) : string :=
  default EmptyString (strip_suffix ".parquet" (pr_data_path rg) ≫= file_name).
Definition retain_row_groups (self : ScanPlan) (keep : gset string) : ScanPlan :=
  mkPlan (sp_table self) (sp_schema self) (filter (λ rg, rg_id rg ∈ keep) (sp_row_groups self)).

(** [sorted.binary_search(id).is_ok()]. *)
Definition binary_search_ok (sorted : list u64) (id : u64) : bool :=
  bool_decide (sorted !! partition_point (λ x, x <? id) sorted = Some id).
Definition overlaps (sorted : list u64) (start end_exclusive : u64) : bool :=
  match sorted !! partition_point (λ x, x <? start) sorted with
  | Some x => x <? end_exclusive
  | None => false
  end.
Definition segment_matches (sorted : list u64) (seg : RowIdSegment) : bool :=
  match seg with
  | Range start count => overlaps sorted start (wrap64 (start + count))
  | Sorted ids => existsb (binary_search_ok sorted) ids
  end.
Definition retain_row_groups_by_row_ids (self : ScanPlan) (row_ids : gset u64) : ScanPlan :=
  let sorted := sort_by_key id (elements row_ids) in
  mkPlan (sp_table self) (sp_schema self)
    (List.filter (λ rg, is_empty (rm_row_ids (pr_meta rg))
                        || existsb (segment_matches sorted) (rm_row_ids (pr_meta rg)))
       (sp_row_groups self)).

(** ** [predicate_eval] *)

Definition eval_cmp (a b : Value) : option comparison :=
  match compare_values a b with Ok o => o | _ => None end.
Definition is_lt (o : option comparison) : bool := match o with Some Lt => true | _ => false end.
Definition is_gt (o : option comparison) : bool := match o with Some Gt => true | _ => false end.
Definition is_eq (o : option comparison) : bool := match o with Some Eq => true | _ => false end.

Definition predicate_covers (pred : Predicate) (stats : ColumnStats) : bool :=
  match stats_bounds stats with
  | None => false
  | Some (mn, mx) =>
      match pred with
      | PEq _ value =>
          let v := Literal_to_value value in is_eq (eval_cmp mn v) && is_eq (eval_cmp mx v)
      | PLt _ value => is_lt (eval_cmp mx (Literal_to_value value))
      | PLte _ value =>
          let o := eval_cmp mx (Literal_to_value value) in is_lt o || is_eq o
      | PGt _ value => is_gt (eval_cmp mn (Literal_to_value value))
      | PGte _ value =>
          let o := eval_cmp mn (Literal_to_value value) in is_gt o || is_eq o
      | _ => false
      end
  end.
Definition predicate_disjoint (pred : Predicate) (stats : ColumnStats) : bool :=
  match stats_bounds stats with
  | None => false
  | Some (mn, mx) =>
      match pred with
      | PEq _ value =>
          let v := Literal_to_value value in is_lt (eval_cmp v mn) || is_gt (eval_cmp v mx)
      | PLt _ value =>
          let o := eval_cmp mn (Literal_to_value value) in is_gt o || is_eq o
      | PLte _ value => is_gt (eval_cmp mn (Literal_to_value value))
      | PGt _ value =>
          let o := eval_cmp mx (Literal_to_value value) in is_lt o || is_eq o
      | PGte _ value => is_lt (eval_cmp mx (Literal_to_value value))
      | _ => false
      end
  end.
Definition fragment_fully_covered (predicates : list Predicate) (stats : ColumnStats) : bool :=
  negb (is_empty predicates) && forallb (λ p, predicate_covers p stats) predicates.
Definition fragment_disjoint (predicates : list Predicate) (stats : ColumnStats) : bool :=
  existsb (λ p, predicate_disjoint p stats) predicates.

(** ** Filter expressions *)

(** [ScalarValue] and [Expr] of DataFusion: the variants the code names. *)
Inductive ScalarValue :=
  | SvInt8 (v : option Z) | SvInt16 (v : option Z) | SvInt32 (v : option Z) | SvInt64 (v : option Z)
  | SvUInt8 (v : option Z) | SvUInt16 (v : option Z) | SvUInt32 (v : option Z)
  | SvUInt64 (v : option Z)
  | SvFloat32 (v : option spec_float) | SvFloat64 (v : option f64)
  | SvUtf8 (v : option string) | SvLargeUtf8 (v : option string)
  | SvBoolean (v : option bool)
  | SvOther.
Inductive Operator := OpEq | OpLt | OpLtEq | OpGt | OpGtEq | OpOther.
Inductive Expr :=
  | EBinaryExpr (l : Expr) (op : Operator) (r : Expr)
  | EIsNull (e : Expr)
  | EIsNotNull (e : Expr)
  | EInList (e : Expr) (list_ : list Expr) (negated : bool)
  | EColumn (name : string)
  | ELiteral (v : ScalarValue)
  | EOther.

(** [v as i64] of a [u64]. *)
Definition u64_as_i64 (v : u64) : i64 := (v + 2 ^ 63) mod 2 ^ 64 - 2 ^ 63.
Definition scalar_to_literal (value : ScalarValue) : option Literal :=
  match value with
  | SvInt8 (Some v) | SvInt16 (Some v) | SvInt32 (Some v) | SvInt64 (Some v)
  | SvUInt8 (Some v) | SvUInt16 (Some v) | SvUInt32 (Some v) => Some (LInt64 v)
  | SvUInt64 (Some v) => Some (LInt64 (u64_as_i64 v))
  | SvFloat32 (Some v) => Some (LFloat64 (f64_of_f32 v))
  | SvFloat64 (Some v) => Some (LFloat64 v)
  | SvUtf8 (Some v) | SvLargeUtf8 (Some v) => Some (LString v)
  | SvBoolean (Some v) => Some (LBool v)
  | _ => None
  end.
Definition expr_as_literal (e : Expr) : option Literal :=
  match e with ELiteral v => scalar_to_literal v | _ => None end.
(** The schema is the list of its field names. *)
Definition expr_as_column (e : Expr) (schema : list string) : option string :=
  match e with
  | EColumn name => if decide (name ∈ schema) then Some name else None
  | _ => None
  end.
Definition extract_column_literal (maybe_col maybe_lit : Expr) (schema : list string)
    : option (string * Literal) :=
  col ← expr_as_column maybe_col schema;
  lit ← expr_as_literal maybe_lit;
  Some (col, lit).
Definition build_comparison (column : string) (op : Operator) (value : Literal) (swapped : bool)
    : option (string * Predicate) :=
  match op, swapped with
  | OpEq, _ => Some (column, PEq column value)
  | OpLt, false | OpGt, true => Some (column, PLt column value)
  | OpLtEq, false | OpGtEq, true => Some (column, PLte column value)
  | OpGt, false | OpLt, true => Some (column, PGt column value)
  | OpGtEq, false | OpLtEq, true => Some (column, PGte column value)
  | _, _ => None
  end.
Definition expr_to_predicate (e : Expr) (schema : list string) : option (string * Predicate) :=
  match e with
  | EBinaryExpr l op r =>
      match extract_column_literal l r schema with
      | Some (col, literal) => build_comparison col op literal false
      | None =>
          match extract_column_literal r l schema with
          | Some (col, literal) => build_comparison col op literal true
          | None => None
          end
      end
  | EIsNull e => col ← expr_as_column e schema; Some (col, PIsNull col)
  | EIsNotNull e => col ← expr_as_column e schema; Some (col, PIsNotNull col)
  | EInList e list_ false =>
      col ← expr_as_column e schema;
      values ← mapM expr_as_literal list_;
      if is_empty values then None else Some (col, PInList col values)
  | _ => None
  end.
