(* ===== verification/PruneSound.v ===== *)
(** * Pruning is sound

    What a predicate means on the rows of a row group, what its statistics and
    partition values say of them, and that [prune] and [predicate_eval] draw no
    wrong conclusion.  Integers are those of [i64]: beyond, comparisons go
    through binary64 and are wrong, as the last section shows. *)

From S2P Require Import Prelude Bytes StableSort RowId Text OrdMap Json RowGroupMeta Arrow Schema AggCache Prune.
From Stdlib Require Import Floats.SpecFloat.
From stdpp Require Import gmap.

#[local] Open Scope list_scope.
#[local] Open Scope Z_scope.

(** ** The order of cells *)

Definition cell_cmp (a b : Cell) : option comparison :=
  match a, b with
  | CInt x, CInt y => Some (Z.compare x y)
  | CStr x, CStr y => Some (str_cmp x y)
  | CBool x, CBool y => Some (bool_cmp x y)
  | CFloat x, CFloat y => SFcompare x y
  | _, _ => None
  end.
(** Cells that JSON represents exactly: [i64] integers, finite floats. *)
Definition exact_cell (c : Cell) : Prop :=
  match c with
  | CInt v => in_i64 v
  | CFloat f => f64_wf f ∧ is_finite f = true
  | COther => False
  | _ => True
  end.
Definition lit_cell (l : Literal) : Cell :=
  match l with
  | LInt64 v => CInt v
  | LFloat64 v => CFloat v
  | LString v => CStr v
  | LBool v => CBool v
  end.
Definition lit_wf (l : Literal) : Prop :=
  match l with LInt64 v => in_i64 v | LFloat64 v => f64_wf v | _ => True end.
Definition same_kind (a b : Cell) : bool :=
  match a, b with
  | CInt _, CInt _ | CStr _, CStr _ | CBool _, CBool _ | CFloat _, CFloat _ => true
  | _, _ => false
  end.

(** An exact cell as a point of a linear order. *)
Definition cell_key (c : Cell) : Z + string :=
  match c with
  | CInt v => inl v
  | CFloat f => inl (float_val f)
  | CBool b => inl (Z.b2z b)
  | CStr s => inr s
  | COther => inl 0
  end.
Definition key_cmp (a b : Z + string) : comparison :=
  match a, b with
  | inl x, inl y => Z.compare x y
  | inr x, inr y => str_cmp x y
  | inl _, inr _ => Lt
  | inr _, inl _ => Gt
  end.

Lemma str_cmp_lt a b : str_cmp a b = Lt ↔ str_lt a b.
Proof. unfold str_cmp, str_lt. destruct (str_ltb a b); [done|]. by destruct (str_ltb b a). Qed.
Lemma str_cmp_antisym a b : str_cmp b a = CompOpp (str_cmp a b).
Proof.
  unfold str_cmp. destruct (str_ltb a b) eqn:E1, (str_ltb b a) eqn:E2; try done.
  by destruct (str_lt_irrefl a (str_lt_trans _ _ _ E1 E2)).
Qed.
Lemma str_cmp_eq a b : str_cmp a b = Eq ↔ a = b.
Proof.
  unfold str_cmp. split.
  - destruct (str_ltb a b) eqn:E1; [done|]. destruct (str_ltb b a) eqn:E2; [done|]. intros _.
    destruct (str_lt_total a b) as [?|[?|?]]; unfold str_lt in *; congruence.
  - intros ->. destruct (str_ltb b b) eqn:E; [|done]. by apply str_lt_irrefl in E.
Qed.

Lemma key_cmp_antisym a b : key_cmp b a = CompOpp (key_cmp a b).
Proof.
  destruct a, b; cbn [key_cmp]; [apply Z.compare_antisym|done..|apply str_cmp_antisym].
Qed.
Lemma key_cmp_eq a b : key_cmp a b = Eq ↔ a = b.
Proof.
  destruct a as [x|x], b as [y|y]; cbn [key_cmp]; [rewrite Z.compare_eq_iff| | |rewrite str_cmp_eq];
    split; congruence.
Qed.
Lemma key_lt_trans a b c : key_cmp a b = Lt → key_cmp b c = Lt → key_cmp a c = Lt.
Proof.
  destruct a as [x|x], b as [y|y], c as [z|z]; cbn [key_cmp]; try done.
  - rewrite !Z.compare_lt_iff. lia.
  - rewrite !str_cmp_lt. apply str_lt_trans.
Qed.
(** [a <= b]. *)
Definition key_le (a b : Z + string) : Prop := key_cmp a b ≠ Gt.
Lemma key_le_trans a b c : key_le a b → key_le b c → key_le a c.
Proof.
  unfold key_le. intros Hab Hbc Hac.
  destruct (key_cmp a b) eqn:E1; [apply key_cmp_eq in E1 as ->; done| |done].
  destruct (key_cmp b c) eqn:E2; [apply key_cmp_eq in E2 as ->; congruence| |done].
  pose proof (key_lt_trans _ _ _ E1 E2). congruence.
Qed.
Lemma key_lt_le a b : key_cmp a b = Lt ↔ ¬ key_le b a.
Proof. unfold key_le. rewrite (key_cmp_antisym a b). destruct (key_cmp a b); simpl; naive_solver. Qed.

(** Comparison with a fixed key is monotone. *)
Definition cmp_rank (c : comparison) : Z := match c with Lt => -1 | Eq => 0 | Gt => 1 end.
Lemma key_cmp_mono a b k : key_le a b → cmp_rank (key_cmp a k) <= cmp_rank (key_cmp b k).
Proof.
  intros Hab. destruct (key_cmp a k) eqn:Ea, (key_cmp b k) eqn:Eb; simpl; try lia; exfalso.
  - apply key_cmp_eq in Ea as ->. unfold key_le in Hab. rewrite (key_cmp_antisym b k), Eb in Hab. done.
  - apply key_cmp_eq in Eb as ->. unfold key_le in Hab. congruence.
  - assert (key_le a k) as Hak; [|by unfold key_le in Hak]. eapply key_le_trans; [exact Hab|].
    unfold key_le. by rewrite Eb.
Qed.

(** ** JSON compares exact cells exactly *)

Lemma as_i64_int_number v : in_i64 v → num_as_i64 (int_number v) = Some v.
Proof.
  unfold in_i64, int_number. intros Hv. destruct (v <? 0) eqn:E; [done|]. cbn. apply Z.ltb_ge in E.
  by rewrite (proj2 (Z.leb_le _ _)) by lia.
Qed.
Lemma cell_cmp_key a b :
  exact_cell a → exact_cell b → same_kind a b = true →
  cell_cmp a b = Some (key_cmp (cell_key a) (cell_key b)).
Proof.
  destruct a, b; try done; cbn [exact_cell cell_cmp cell_key key_cmp]. intros [] [] _. by apply SFcompare_val.
Qed.
Lemma compare_exact a b :
  exact_cell a → exact_cell b → same_kind a b = true →
  compare_values (cell_value a) (cell_value b) = Ok (Some (key_cmp (cell_key a) (cell_key b))).
Proof.
  intros Ha Hb Hk. rewrite <- (cell_cmp_key a b) by done.
  destruct a, b; try done; cbn [exact_cell cell_value compare_values] in *.
  - by rewrite !as_i64_int_number.
  - destruct Ha as [Wa Fa], Hb as [Wb Fb]. unfold value_of_f64. rewrite Fa, Fb.
    cbn [compare_values num_as_i64 num_as_f64 mbind option_bind].
    by rewrite !f64_from_bits_bits.
Qed.
Lemma scalar_eq_exact a b :
  exact_cell a → exact_cell b → same_kind a b = true →
  scalar_eq (cell_value a) (cell_value b) = is_eq (cell_cmp a b).
Proof.
  destruct a as [x|x|x|x|], b as [y|y|y|y|]; try done; cbn [exact_cell cell_value scalar_eq cell_cmp].
  - by destruct x, y.
  - intros _ _ _. unfold int_number. cbn [is_eq].
    destruct (x <? 0) eqn:Ex, (y <? 0) eqn:Ey, (Z.compare_spec x y); cbn [number_eq]; zbool;
      try (apply Z.eqb_eq; lia); try (apply Z.eqb_neq; lia); try lia; done.
  - intros [Wa Fa] [Wb Fb] _. unfold value_of_f64. rewrite Fa, Fb. cbn [scalar_eq number_eq].
    rewrite !f64_from_bits_bits by done. unfold SFeqb. by destruct (SFcompare x y) as [[]|].
  - intros _ _ _. cbn [is_eq]. destruct (str_cmp x y) eqn:E.
    + apply str_cmp_eq in E as ->. by apply bool_decide_true.
    + apply bool_decide_false. intros ->. by rewrite (proj2 (str_cmp_eq y y)) in E.
    + apply bool_decide_false. intros ->. by rewrite (proj2 (str_cmp_eq y y)) in E.
Qed.

(** ** Rows and what predicates mean *)

(** A row: the cell of each column, [None] for a null. *)
Abbreviation Row := (string → option Cell).

Definition cell_test (p : option comparison → bool) (r : Row) (column : string) (value : Literal) : bool :=
  match r column with Some c => p (cell_cmp c (lit_cell value)) | None => false end.
Definition holds (p : Predicate) (r : Row) : bool :=
  match p with
  | PEq column value => cell_test is_eq r column value
  | PLt column value => cell_test is_lt r column value
  | PLte column value => cell_test (λ o, is_lt o || is_eq o) r column value
  | PGt column value => cell_test is_gt r column value
  | PGte column value => cell_test (λ o, is_gt o || is_eq o) r column value
  | PInList column values => existsb (cell_test is_eq r column) values
  | PIsNull column => negb (bool_decide (is_Some (r column)))
  | PIsNotNull column => bool_decide (is_Some (r column))
  end.
Definition pred_column (p : Predicate) : string :=
  match p with
  | PEq c _ | PLt c _ | PLte c _ | PGt c _ | PGte c _ | PInList c _ | PIsNull c | PIsNotNull c => c
  end.
Definition pred_literals (p : Predicate) : list Literal :=
  match p with
  | PEq _ v | PLt _ v | PLte _ v | PGt _ v | PGte _ v => [v]
  | PInList _ vs => vs
  | _ => []
  end.
(** A predicate whose literals are of the type of the column. *)
Definition pred_typed (p : Predicate) (rows : list Row) : Prop :=
  Forall (λ l, lit_wf l ∧ ∀ r c, r ∈ rows → r (pred_column p) = Some c →
                          same_kind c (lit_cell l) = true) (pred_literals p).

(** Statistics that say the truth of a column's cells. *)
Definition bounds_ok (stats : ColumnStats) (cells : list (option Cell)) : Prop :=
  ∀ mn mx, stats_bounds stats = Some (mn, mx) → ∀ c, Some c ∈ cells →
    exact_cell c ∧ ∃ a b, mn = cell_value a ∧ mx = cell_value b ∧ exact_cell a ∧ exact_cell b
      ∧ same_kind a c = true ∧ same_kind b c = true
      ∧ key_le (cell_key a) (cell_key c) ∧ key_le (cell_key c) (cell_key b).
Definition stats_ok (stats : ColumnStats) (cells : list (option Cell)) : Prop :=
  bounds_ok stats cells ∧ cs_nulls stats = len (filter (λ c, c = None) cells).

(** A row group described by its metadata: row count, statistics, and the one
    value of each partition column. *)
Definition group_ok (partition_by : list string) (rg : PlannedRowGroup) (rows : list Row) : Prop :=
  rm_rows (pr_meta rg) = len rows
  ∧ (∀ column stats, rm_columns (pr_meta rg) !! column = Some stats →
       stats_ok stats ((λ r, r column) <$> rows))
  ∧ ∀ column v, column ∈ partition_by → partition_value rg column = Some v →
       ∃ p, exact_cell p ∧ v = cell_value p
            ∧ ∀ r c, r ∈ rows → r column = Some c → exact_cell c ∧ cell_cmp p c = Some Eq.

(** A literal in JSON: itself, or null when it is a float that is not finite. *)
Lemma literal_value l :
  lit_wf l →
  (exact_cell (lit_cell l) ∧ Literal_to_value l = cell_value (lit_cell l))
  ∨ (Literal_to_value l = VNull ∧ ∀ c, exact_cell c → cell_cmp c (lit_cell l) ≠ Some Eq).
Proof.
  destruct l as [v|f|s|b]; cbn [lit_wf lit_cell exact_cell Literal_to_value cell_value]; try (left; done).
  intros Hf. unfold value_of_f64. destruct (is_finite f) eqn:Ef; [by left|right].
  split; [done|]. intros [| |g| |] Hc; try done. destruct Hc as [_ Hg]. cbn [cell_cmp].
  destruct f as [| [] | |]; try discriminate Ef; destruct g as [[]| | |[]]; done.
Qed.

Lemma same_kind_trans a b c : same_kind a c = true → same_kind c b = true → same_kind a b = true.
Proof. by destruct a, b, c. Qed.

(** [value_test] on exact cells of one kind; on anything else it is no answer. *)
Lemma value_test_exact p a b :
  exact_cell a → exact_cell b → same_kind a b = true →
  value_test p (cell_value a) (cell_value b) = Ok (p (key_cmp (cell_key a) (cell_key b))).
Proof. intros. unfold value_test. by rewrite compare_exact. Qed.
Lemma value_test_null_l p b : value_test p VNull b = Err (TypeNotSupported
  ("cannot compare null literal with " +:+ json_type_name b +:+ " statistics")).
Proof. by destruct b. Qed.
Lemma value_test_null_r p a : value_test p a VNull = Err (TypeNotSupported
  ("cannot compare " +:+ json_type_name a +:+ " literal with null statistics")).
Proof. by destruct a. Qed.

Lemma same_kind_sym a b : same_kind a b = same_kind b a.
Proof. by destruct a, b. Qed.
Lemma cell_cmp_lit c l :
  exact_cell c → exact_cell (lit_cell l) → same_kind c (lit_cell l) = true →
  cell_cmp c (lit_cell l) = Some (key_cmp (cell_key c) (cell_key (lit_cell l))).
Proof. apply cell_cmp_key. Qed.

(** A cell between the bounds, and a literal of its type. *)
Lemma column_cell stats cells mn mx c l :
  bounds_ok stats cells → stats_bounds stats = Some (mn, mx) → Some c ∈ cells →
  lit_wf l → same_kind c (lit_cell l) = true →
  (Literal_to_value l = VNull)
  ∨ ∃ ka kb kl, key_le ka (cell_key c) ∧ key_le (cell_key c) kb
    ∧ cell_cmp c (lit_cell l) = Some (key_cmp (cell_key c) kl)
    ∧ (∀ p, value_test p mn (Literal_to_value l) = Ok (p (key_cmp ka kl)))
    ∧ (∀ p, value_test p mx (Literal_to_value l) = Ok (p (key_cmp kb kl)))
    ∧ (∀ p, value_test p (Literal_to_value l) mn = Ok (p (key_cmp kl ka)))
    ∧ (∀ p, value_test p (Literal_to_value l) mx = Ok (p (key_cmp kl kb))).
Proof.
  intros Hok Hb Hc Hl Hk. destruct (Hok _ _ Hb c Hc) as (Hex&a&b&->&->&Ha&Hbx&Hka&Hkb&Hle1&Hle2).
  destruct (literal_value l Hl) as [[El ->]|[-> _]]; [right|by left].
  exists (cell_key a), (cell_key b), (cell_key (lit_cell l)).
  assert (same_kind a (lit_cell l) = true) by by eapply same_kind_trans.
  assert (same_kind b (lit_cell l) = true) by by eapply same_kind_trans.
  split; [done|]. split; [done|]. split; [by apply cell_cmp_lit|].
  split; [|split; [|split]]; intros p; apply value_test_exact; try done; by rewrite same_kind_sym.
Qed.

(** *** One predicate *)

Lemma group_column rg pb rows column stats r c :
  group_ok pb rg rows → rm_columns (pr_meta rg) !! column = Some stats → r ∈ rows → r column = Some c →
  bounds_ok stats ((λ r, r column) <$> rows) ∧ Some c ∈ (λ r, r column) <$> rows.
Proof.
  intros (_&Hstats&_) Hs Hr Hc. destruct (Hstats _ _ Hs) as [Hb _]. split; [done|].
  apply list_elem_of_fmap. by exists r.
Qed.

(** A comparison predicate ruled out by the bounds. *)
Lemma range_sound (test : option comparison → bool)
    (side : Value → Value → Value → res bool) pb rg rows column l :
  group_ok pb rg rows → lit_wf l →
  (∀ r c, r ∈ rows → r column = Some c → same_kind c (lit_cell l) = true) →
  (∀ mn mx ka kb kl kc,
     (∀ p, value_test p mn (Literal_to_value l) = Ok (p (key_cmp ka kl))) →
     (∀ p, value_test p mx (Literal_to_value l) = Ok (p (key_cmp kb kl))) →
     key_le ka kc → key_le kc kb → side mn mx (Literal_to_value l) = Ok true →
     test (Some (key_cmp kc kl)) = false) →
  (Literal_to_value l = VNull → ∀ mn mx, ∃ e, side mn mx VNull = Err e) →
  (let? out := stats_outside_range rg column l side in Ok (negb out)) = Ok false →
  ∀ r, r ∈ rows → cell_test test r column l = false.
Proof.
  intros Hok Hl Hk Hside Hnull E r Hr. unfold cell_test. destruct (r column) as [c|] eqn:Hc; [|done].
  unfold stats_outside_range in E.
  destruct (rm_columns (pr_meta rg) !! column) as [stats|] eqn:Hs; [|done]. cbn [mbind option_bind] in E.
  destruct (stats_bounds stats) as [[mn mx]|] eqn:Hb; [|done].
  destruct (group_column _ _ _ _ _ _ _ Hok Hs Hr Hc) as [Hbo Hin].
  destruct (column_cell _ _ _ _ _ _ Hbo Hb Hin Hl (Hk _ _ Hr Hc)) as [Hv|(ka&kb&kl&H1&H2&->&H3&H4&_)].
  - rewrite Hv in E. destruct (Hnull Hv mn mx) as [e He]. by rewrite He in E.
  - eapply Hside; [exact H3|exact H4|exact H1|exact H2|].
    destruct (side mn mx _) as [[]| |]; naive_solver.
Qed.

(** Cells equal to a literal lie between the bounds. *)
Lemma eq_sound pb rg rows column l stats mn mx r :
  group_ok pb rg rows → lit_wf l →
  (∀ r c, r ∈ rows → r column = Some c → same_kind c (lit_cell l) = true) →
  rm_columns (pr_meta rg) !! column = Some stats → stats_bounds stats = Some (mn, mx) →
  r ∈ rows → cell_test is_eq r column l = true →
  (Literal_to_value l = VNull)
  ∨ (value_lt (Literal_to_value l) mn = Ok false ∧ value_gt (Literal_to_value l) mx = Ok false).
Proof.
  intros Hok Hl Hk Hs Hb Hr. unfold cell_test. destruct (r column) as [c|] eqn:Hc; [|done].
  destruct (group_column _ _ _ _ _ _ _ Hok Hs Hr Hc) as [Hbo Hin].
  destruct (column_cell _ _ _ _ _ _ Hbo Hb Hin Hl (Hk _ _ Hr Hc)) as [Hv|(ka&kb&kl&H1&H2&->&_&_&H5&H6)];
    [by left|right]. unfold value_lt, value_gt. rewrite H5, H6. cbn [is_eq].
  destruct (key_cmp (cell_key c) kl) eqn:E; try done. apply key_cmp_eq in E as <-. split; f_equal.
  - unfold key_le in H1. rewrite (key_cmp_antisym ka (cell_key c)). by destruct (key_cmp ka _).
  - unfold key_le in H2. by destruct (key_cmp _ kb).
Qed.

Lemma any_in_range_none values mn mx l :
  any_in_range values mn mx = Ok false → l ∈ values →
  value_lt (Literal_to_value l) mn = Ok true ∨ value_gt (Literal_to_value l) mx = Ok true.
Proof.
  induction values as [|v values IH]; [by intros _ ?%not_elem_of_nil|].
  cbn [any_in_range]. intros E Hl. apply elem_of_cons in Hl as [->|Hl].
  - destruct (value_lt _ mn) as [[]| |]; cbn [res_bind] in E; [by left| |done|done].
    destruct (value_gt _ mx) as [[]| |]; cbn [res_bind] in E; [by right|done..].
  - destruct (value_lt (Literal_to_value v) mn) as [[]| |]; cbn [res_bind] in E; [auto| |done|done].
    destruct (value_gt (Literal_to_value v) mx) as [[]| |]; cbn [res_bind] in E; [auto|done..].
Qed.

(** The partition value against a literal. *)
Lemma partition_sound pb rg rows column v l r :
  group_ok pb rg rows → lit_wf l →
  (∀ r c, r ∈ rows → r column = Some c → same_kind c (lit_cell l) = true) →
  column ∈ pb → partition_value rg column = Some v →
  scalar_eq v (Literal_to_value l) = false → r ∈ rows → cell_test is_eq r column l = false.
Proof.
  intros (_&_&Hp) Hl Hk Hin Hv E Hr. unfold cell_test. destruct (r column) as [c|] eqn:Hc; [|done].
  destruct (Hp _ _ Hin Hv) as (p&Hex&->&Hall). destruct (Hall _ _ Hr Hc) as [Hce Hpc].
  specialize (Hk _ _ Hr Hc).
  destruct (literal_value l Hl) as [[El Ev]|[_ Hn]].
  - assert (same_kind p c = true) as Hpk by by destruct p, c.
    rewrite Ev, scalar_eq_exact in E by (done || by eapply same_kind_trans).
    rewrite cell_cmp_key in Hpc by done. injection Hpc as Hpc%key_cmp_eq.
    rewrite cell_cmp_key in E by (done || by eapply same_kind_trans). rewrite Hpc in E.
    by rewrite cell_cmp_lit.
  - specialize (Hn c Hce). destruct (cell_cmp c (lit_cell l)) as [[]|]; done.
Qed.

(** A row with a value is not counted among the nulls. *)
Lemma nulls_less (column : string) (rows : list Row) r c :
  r ∈ rows → r column = Some c → len (filter (λ c, c = None) ((λ r, r column) <$> rows)) < len rows.
Proof.
  intros Hr Hc. induction rows as [|r' rows IH]; [by apply not_elem_of_nil in Hr|].
  rewrite fmap_cons, filter_cons. unfold len in *. cbn [length].
  pose proof (length_filter (λ c : option Cell, c = None) ((λ r : Row, r column) <$> rows)) as Hle.
  rewrite length_fmap in Hle. apply elem_of_cons in Hr as [<-|Hr].
  - rewrite decide_False by by rewrite Hc. lia.
  - specialize (IH Hr). destruct (decide (r' column = None)); cbn [length]; lia.
Qed.

Section group.
Context (pb : list string) (rg : PlannedRowGroup) (rows : list Row).
Context (Hok : group_ok pb rg rows).

Definition lit_typed (column : string) (l : Literal) : Prop :=
  lit_wf l ∧ ∀ r c, r ∈ rows → r column = Some c → same_kind c (lit_cell l) = true.

Lemma eq_satisfies column l r :
  lit_typed column l → row_group_satisfies (PEq column l) rg pb = Ok false → r ∈ rows →
  cell_test is_eq r column l = false.
Proof.
  intros [Hl Hk] E Hr. cbn [row_group_satisfies] in E. case_decide as Hpb.
  - destruct (partition_value rg column) as [v|] eqn:Hv; [|done]. injection E as E.
    by eapply partition_sound.
  - destruct (rm_columns _ !! column) as [stats|] eqn:Hs; [|done]. cbn [mbind option_bind] in E.
    destruct (stats_bounds stats) as [[mn mx]|] eqn:Hb; [|done].
    destruct (cell_test is_eq r column l) eqn:Hc; [exfalso|done].
    destruct (eq_sound _ _ _ _ _ _ _ _ _ Hok Hl Hk Hs Hb Hr Hc) as [Hv|[H1 H2]].
    + rewrite Hv in E. unfold value_lt in E. by rewrite value_test_null_l in E.
    + rewrite H1 in E. cbn [res_bind] in E. by rewrite H2 in E.
Qed.
Lemma in_list_satisfies column ls r :
  Forall (lit_typed column) ls → row_group_satisfies (PInList column ls) rg pb = Ok false → r ∈ rows →
  existsb (cell_test is_eq r column) ls = false.
Proof.
  intros Hls E Hr. rewrite Forall_forall in Hls. cbn [row_group_satisfies] in E.
  apply not_true_is_false. intros (l&Hl%list_elem_of_In&Hc)%existsb_exists. destruct (Hls l Hl) as [Hlw Hk].
  case_decide as Hpb.
  - destruct (partition_value rg column) as [v|] eqn:Hv; [|done]. injection E as E.
    assert (scalar_eq v (Literal_to_value l) = false) as El.
    { apply not_true_is_false. intros El. rewrite <- not_true_iff_false in E. apply E.
      apply existsb_exists. exists l. split; [by apply list_elem_of_In|done]. }
    by rewrite (partition_sound _ _ _ _ _ _ _ Hok Hlw Hk Hpb Hv El Hr) in Hc.
  - destruct (rm_columns _ !! column) as [stats|] eqn:Hs; [|done]. cbn [mbind option_bind] in E.
    destruct (stats_bounds stats) as [[mn mx]|] eqn:Hb; [|done].
    pose proof (any_in_range_none _ _ _ _ E Hl) as Hout.
    destruct (eq_sound _ _ _ _ _ _ _ _ _ Hok Hlw Hk Hs Hb Hr Hc) as [Hv|[H1 H2]].
    + unfold value_lt, value_gt in Hout. rewrite Hv, !value_test_null_l in Hout. by destruct Hout.
    + rewrite H1, H2 in Hout. by destruct Hout.
Qed.
Lemma is_null_satisfies column r :
  row_group_satisfies (PIsNull column) rg pb = Ok false → r ∈ rows → is_Some (r column).
Proof.
  intros E Hr. cbn [row_group_satisfies] in E.
  destruct (rm_columns _ !! column) as [stats|] eqn:Hs; [|done]. injection E as E.
  apply negb_false_iff, Z.eqb_eq in E. destruct Hok as (_&Hst&_). destruct (Hst _ _ Hs) as [_ Hn].
  rewrite E in Hn. destruct (r column) as [c|] eqn:Hc; [done|].
  exfalso. assert (None ∈ filter (λ c, c = None) ((λ r, r column) <$> rows)) as Hin.
  { apply list_elem_of_filter. split; [done|]. apply list_elem_of_fmap. by exists r. }
  destruct (filter _ _); [by apply not_elem_of_nil in Hin|]. unfold len in Hn. simpl in Hn. lia.
Qed.
Lemma is_not_null_satisfies column r :
  row_group_satisfies (PIsNotNull column) rg pb = Ok false → r ∈ rows → r column = None.
Proof.
  intros E Hr. cbn [row_group_satisfies] in E.
  destruct (rm_columns _ !! column) as [stats|] eqn:Hs; [|done]. injection E as E.
  apply negb_false_iff, Z.eqb_eq in E. destruct Hok as (Hrows&Hst&_). destruct (Hst _ _ Hs) as [_ Hn].
  destruct (r column) as [c|] eqn:Hc; [|done]. pose proof (nulls_less _ _ _ _ Hr Hc). lia.
Qed.

(** A row group that is ruled out has no matching row. *)
Lemma satisfies_sound p r :
  pred_typed p rows → row_group_satisfies p rg pb = Ok false → r ∈ rows → holds p r = false.
Proof.
  intros Ht E Hr. unfold pred_typed in Ht.
  assert (∀ t a, ∃ e, value_test t a VNull = Err e) as Hnull by (intros; eexists; apply value_test_null_r).
  destruct p as [column l|column l|column l|column l|column l|column ls|column|column];
    cbn [holds pred_column pred_literals] in *; try (apply Forall_singleton in Ht as [Hl Hk]).
  - by apply eq_satisfies.
  - apply (range_sound is_lt (λ mn _ v, value_ge mn v) pb rg rows column l); try done;
      [|intros _ ? ?; apply Hnull].
    intros mn mx ka kb kl kc H1 _ H2 _ H3. unfold value_ge in H3. rewrite H1 in H3. injection H3 as H3.
    pose proof (key_cmp_mono _ _ kl H2). by destruct (key_cmp ka kl), (key_cmp kc kl).
  - apply (range_sound (λ o, is_lt o || is_eq o) (λ mn _ v, value_gt mn v) pb rg rows column l);
      try done; [|intros _ ? ?; apply Hnull].
    intros mn mx ka kb kl kc H1 _ H2 _ H3. unfold value_gt in H3. rewrite H1 in H3. injection H3 as H3.
    pose proof (key_cmp_mono _ _ kl H2). by destruct (key_cmp ka kl), (key_cmp kc kl).
  - apply (range_sound is_gt (λ _ mx v, value_le mx v) pb rg rows column l); try done;
      [|intros _ ? ?; apply Hnull].
    intros mn mx ka kb kl kc _ H1 _ H2 H3. unfold value_le in H3. rewrite H1 in H3. injection H3 as H3.
    pose proof (key_cmp_mono _ _ kl H2). by destruct (key_cmp kb kl), (key_cmp kc kl).
  - apply (range_sound (λ o, is_gt o || is_eq o) (λ _ mx v, value_lt mx v) pb rg rows column l);
      try done; [|intros _ ? ?; apply Hnull].
    intros mn mx ka kb kl kc _ H1 _ H2 H3. unfold value_lt in H3. rewrite H1 in H3. injection H3 as H3.
    pose proof (key_cmp_mono _ _ kl H2). by destruct (key_cmp kb kl), (key_cmp kc kl).
  - by apply in_list_satisfies.
  - apply negb_false_iff, bool_decide_eq_true. by apply is_null_satisfies.
  - apply bool_decide_eq_false. rewrite is_not_null_satisfies by done. by intros [].
Qed.

Lemma satisfies_all_sound ps r :
  Forall (λ p, pred_typed p rows) ps → satisfies_all ps rg pb = Ok false → r ∈ rows →
  ∃ p, p ∈ ps ∧ holds p r = false.
Proof.
  intros Ht E Hr. induction Ht as [|p ps Hp _ IH]; [done|]. cbn [satisfies_all] in E.
  destruct (row_group_satisfies p rg pb) as [[]| |] eqn:Ep; cbn [res_bind] in E; try done.
  - destruct (IH E) as (q&?&?). exists q. set_solver.
  - exists p. split; [set_solver|]. by apply satisfies_sound.
Qed.
End group.

(** ** Plans *)

Lemma prune_groups ps pb groups acc kept :
  res_fold (λ row_groups rg, let? keep := satisfies_all ps rg pb in
    Ok (if keep then row_groups ++ [rg] else row_groups)) acc groups = Ok kept →
  ∃ l, kept = acc ++ l ∧ l `sublist_of` groups
       ∧ ∀ rg, rg ∈ groups → rg ∈ l ∨ satisfies_all ps rg pb = Ok false.
Proof.
  revert acc. induction groups as [|g groups IH]; intros acc E; cbn [res_fold] in E.
  { injection E as <-. exists []. rewrite app_nil_r. split; [done|]. split; [constructor|].
    intros rg Hrg. by apply not_elem_of_nil in Hrg. }
  destruct (satisfies_all ps g pb) as [[]| |] eqn:Eg; cbn [res_bind] in E; try done.
  - apply IH in E as (l&->&Hs&Hf). exists (g :: l). rewrite <- app_assoc. split; [done|].
    split; [by constructor|]. intros rg [->|Hrg]%elem_of_cons; [left; set_solver|].
    destruct (Hf rg Hrg); [left; set_solver|by right].
  - apply IH in E as (l&->&Hs&Hf). exists l. split; [done|]. split; [by constructor|].
    intros rg [->|?]%elem_of_cons; auto.
Qed.

(** Errors of the comparison of a literal with statistics. *)
Definition not_comparable {A} (x : res A) : Prop :=
  match x with Ok _ => True | Err e => ∃ t, e = TypeNotSupported t | Panic => False end.
Lemma not_comparable_bind {A C} (x : res A) (f : A → res C) :
  not_comparable x → (∀ a, not_comparable (f a)) → not_comparable (let? a := x in f a).
Proof. destruct x; simpl; auto. Qed.
Lemma value_test_errors t a b : not_comparable (value_test t a b).
Proof.
  unfold value_test. apply not_comparable_bind; [|done].
  destruct a, b; cbn [compare_values]; try (by eexists); try done. by destruct (num_as_i64 n), (num_as_i64 n0).
Qed.
Lemma row_group_satisfies_errors p rg pb : not_comparable (row_group_satisfies p rg pb).
Proof.
  assert (∀ c l f, (∀ a b v, not_comparable (f a b v)) →
    not_comparable (let? out := stats_outside_range rg c l f in Ok (negb out))) as Hrange.
  { intros c l f Hf. apply not_comparable_bind; [|done]. unfold stats_outside_range.
    destruct (_ ≫= _) as [[]|]; [apply Hf|done]. }
  destruct p; cbn [row_group_satisfies]; try (apply Hrange; intros; apply value_test_errors).
  - case_decide; [by destruct (partition_value _ _)|]. destruct (_ ≫= _) as [[mn mx]|]; [|done].
    apply not_comparable_bind; [apply value_test_errors|]. intros []; [done|].
    apply not_comparable_bind; [apply value_test_errors|done].
  - case_decide; [by destruct (partition_value _ _)|]. destruct (_ ≫= _) as [[mn mx]|]; [|done].
    induction values as [|v vs IH]; [done|]. cbn [any_in_range].
    apply not_comparable_bind; [apply value_test_errors|]. intros []; [done|].
    apply not_comparable_bind; [apply value_test_errors|by intros []].
  - by destruct (_ !! _).
  - by destruct (_ !! _).
Qed.

Lemma prune_errors ps pb groups acc :
  not_comparable (res_fold (λ row_groups rg, let? keep := satisfies_all ps rg pb in
    Ok (if keep then row_groups ++ [rg] else row_groups)) acc groups).
Proof.
  assert (∀ rg, not_comparable (satisfies_all ps rg pb)) as Hps.
  { intros rg. induction ps as [|p ps IH]; [done|]. cbn [satisfies_all].
    apply not_comparable_bind; [apply row_group_satisfies_errors|by intros []]. }
  revert acc. induction groups as [|g groups IH]; intros acc; [done|]. cbn [res_fold].
  apply not_comparable_bind; [|done]. by apply not_comparable_bind.
Qed.

Lemma prune_keeps plan preds plan' rg rows r :
  prune plan preds = Ok plan' → rg ∈ sp_row_groups plan →
  group_ok (default [] (sc_partition_by (sp_schema plan))) rg rows →
  Forall (λ p, pred_typed p rows) preds → r ∈ rows → forallb (λ p, holds p r) preds = true →
  rg ∈ sp_row_groups plan'.
Proof.
  intros E Hrg Hok Ht Hr Hall. unfold prune in E.
  destruct (res_fold _ [] (sp_row_groups plan)) as [kept|e|] eqn:Ef; try done.
  injection E as <-. apply prune_groups in Ef as (l&->&_&Hf). cbn [app sp_row_groups].
  destruct (Hf rg Hrg) as [|Hout]; [done|exfalso].
  destruct (satisfies_all_sound _ _ _ Hok _ _ Ht Hout Hr) as (p&Hp%list_elem_of_In&Hh).
  rewrite forallb_forall in Hall. specialize (Hall p Hp). congruence.
Qed.


(** ** Coverage of a fragment *)

(** A predicate on the one column it is about. *)
Definition cell_holds (p : Predicate) (c : Cell) : bool := holds p (λ _, Some c).
(** What the optimizer rule passes: comparisons with literals of the column's type. *)
Definition comparison_with (p : Predicate) (l : Literal) : Prop :=
  ∃ column, p = PEq column l ∨ p = PLt column l ∨ p = PLte column l ∨ p = PGt column l ∨ p = PGte column l.
Definition cell_typed_pred (p : Predicate) (c : Cell) : Prop :=
  Forall (λ l, lit_wf l ∧ same_kind c (lit_cell l) = true) (pred_literals p).

Lemma eval_cmp_null_r a : eval_cmp a VNull = None.
Proof. by destruct a. Qed.
Lemma eval_cmp_null_l a : eval_cmp VNull a = None.
Proof. by destruct a. Qed.

Lemma covers_eval stats c p :
  bounds_ok stats [Some c] → cell_typed_pred p c →
  (predicate_covers p stats = true → cell_holds p c = true)
  ∧ (predicate_disjoint p stats = true → cell_holds p c = false).
Proof.
  intros Hok Ht. unfold predicate_covers, predicate_disjoint.
  destruct (stats_bounds stats) as [[mn mx]|] eqn:Hb; [|done].
  destruct (Hok _ _ Hb c (list_elem_of_here _ _)) as (Hex&a&b&->&->&Ha&Hbx&Hka&Hkb&Hle1&Hle2).
  assert (∀ l, lit_wf l ∧ same_kind c (lit_cell l) = true →
    Literal_to_value l = VNull
    ∨ (eval_cmp (cell_value a) (Literal_to_value l) = Some (key_cmp (cell_key a) (cell_key (lit_cell l)))
       ∧ eval_cmp (cell_value b) (Literal_to_value l) = Some (key_cmp (cell_key b) (cell_key (lit_cell l)))
       ∧ eval_cmp (Literal_to_value l) (cell_value a) = Some (key_cmp (cell_key (lit_cell l)) (cell_key a))
       ∧ eval_cmp (Literal_to_value l) (cell_value b) = Some (key_cmp (cell_key (lit_cell l)) (cell_key b))
       ∧ cell_cmp c (lit_cell l) = Some (key_cmp (cell_key c) (cell_key (lit_cell l))))) as Hl.
  { intros l [Hl Hk]. destruct (literal_value l Hl) as [[El ->]|[-> _]]; [right|by left].
    assert (same_kind a (lit_cell l) = true) by by eapply same_kind_trans.
    assert (same_kind b (lit_cell l) = true) by by eapply same_kind_trans.
    unfold eval_cmp. rewrite !compare_exact by (done || by rewrite same_kind_sym).
    repeat split. by apply cell_cmp_lit. }
  unfold cell_typed_pred, cell_holds in *.
  destruct p as [n l|n l|n l|n l|n l|n ls|n|n]; cbn [pred_literals holds cell_test] in *;
    try (rewrite Forall_singleton in Ht; destruct (Hl _ Ht) as [->|(E1&E2&E3&E4&E5)]); try done.
  all: rewrite ?eval_cmp_null_r, ?eval_cmp_null_l; try done.
  all: rewrite ?E1, ?E2, ?E3, ?E4, ?E5.
  all: pose proof (key_cmp_mono _ _ (cell_key (lit_cell l)) Hle1) as M1.
  all: pose proof (key_cmp_mono _ _ (cell_key (lit_cell l)) Hle2) as M2.
  all: rewrite ?(key_cmp_antisym (cell_key a) (cell_key (lit_cell l))),
    ?(key_cmp_antisym (cell_key b) (cell_key (lit_cell l))).
  all: by destruct (key_cmp (cell_key a) _), (key_cmp (cell_key b) _), (key_cmp (cell_key c) _).
Qed.


Lemma is_lt_Z a b : is_lt (Some (a ?= b)) = true ↔ a < b.
Proof. unfold is_lt. rewrite <- Z.compare_lt_iff. by destruct (a ?= b). Qed.
Lemma is_gt_Z a b : is_gt (Some (a ?= b)) = true ↔ b < a.
Proof. unfold is_gt. rewrite <- Z.compare_gt_iff. by destruct (a ?= b). Qed.
Lemma is_eq_Z a b : is_eq (Some (a ?= b)) = true ↔ a = b.
Proof. unfold is_eq. rewrite <- Z.compare_eq_iff. by destruct (a ?= b). Qed.

(** On integers the classification of one predicate is also exact. *)
Theorem predicate_eval_exact p v mn mx nulls :
  comparison_with p (LInt64 v) → in_i64 v → in_i64 mn → in_i64 mx → mn <= mx →
  let stats := mkStats (Some (VNumber (int_number mn))) (Some (VNumber (int_number mx))) nulls in
  (predicate_covers p stats = true ↔ ∀ z, mn <= z <= mx → cell_holds p (CInt z) = true)
  ∧ (predicate_disjoint p stats = true ↔ ∀ z, mn <= z <= mx → cell_holds p (CInt z) = false).
Proof.
  intros [n Hp] Hv Hmn Hmx Hle stats.
  assert (∀ a b, in_i64 a → in_i64 b →
    eval_cmp (VNumber (int_number a)) (VNumber (int_number b)) = Some (Z.compare a b)) as Hcmp.
  { intros a b Ha Hb. unfold eval_cmp. pose proof (compare_exact (CInt a) (CInt b) Ha Hb eq_refl) as E.
    cbn [cell_value cell_key key_cmp] in E. by rewrite E. }
  unfold predicate_covers, predicate_disjoint, stats, stats_bounds, cell_holds.
  cbn [cs_min cs_max mbind option_bind].
  destruct Hp as [-> | [-> | [-> | [-> | ->]]]]; cbn [holds cell_test lit_cell cell_cmp Literal_to_value];
    rewrite !Hcmp by done.
  all: setoid_rewrite <- not_true_iff_false.
  all: rewrite ?andb_true_iff, ?orb_true_iff, ?is_lt_Z, ?is_gt_Z, ?is_eq_Z.
  all: repeat setoid_rewrite orb_true_iff; repeat setoid_rewrite is_lt_Z; repeat setoid_rewrite is_gt_Z;
    repeat setoid_rewrite is_eq_Z.
  all: split; (split; [intros Hc z Hz; lia|]); intros Hc; pose proof (Hc mn); pose proof (Hc mx);
    pose proof (Hc v); lia.
Qed.

(** ** Row ids *)

Lemma first_not_below l k :
  StronglySorted (λ x y, x <= y) l →
  match l !! partition_point (λ x, x <? k) l with
  | Some x => x ∈ l ∧ k <= x ∧ ∀ y, y ∈ l → k <= y → x <= y
  | None => ∀ y, y ∈ l → y < k
  end.
Proof.
  induction 1 as [|x l Hl IH Hx]; [intros y Hy; by apply not_elem_of_nil in Hy|].
  cbn [partition_point]. rewrite Forall_forall in Hx. destruct (x <? k) eqn:E; zbool; cbn [lookup list_lookup].
  - destruct (l !! _) as [z|].
    + destruct IH as (?&?&Hmin). split; [set_solver|]. split; [done|].
      intros y [->|Hy]%elem_of_cons ?; [lia|auto].
    + intros y [->|Hy]%elem_of_cons; auto.
  - split; [set_solver|]. split; [done|]. intros y [->|Hy]%elem_of_cons ?; [lia|auto].
Qed.
Lemma sorted_ids (ids : gset Z) : StronglySorted (λ x y, x <= y) (sort_by_key id (elements ids)).
Proof. apply (sort_by_key_sorted id). Qed.
Lemma elem_of_sorted_ids (ids : gset Z) x : x ∈ sort_by_key id (elements ids) ↔ x ∈ ids.
Proof. by rewrite elem_of_sort_by_key, elem_of_elements. Qed.

Lemma segment_matches_spec (ids : gset Z) seg :
  segment_matches (sort_by_key id (elements ids)) seg = true ↔ ∃ x, x ∈ ids ∧ x ∈ segment_ids seg.
Proof.
  destruct seg as [start count|l]; cbn [segment_matches segment_ids].
  - unfold overlaps. pose proof (first_not_below _ start (sorted_ids ids)) as Hf.
    destruct (_ !! _) as [x|].
    + destruct Hf as (Hx%elem_of_sorted_ids&Hge&Hmin). rewrite Z.ltb_lt. split.
      * intros Hlt. exists x. split; [done|]. apply elem_of_seqZ. lia.
      * intros (y&Hy%elem_of_sorted_ids&Hin%elem_of_seqZ). specialize (Hmin y Hy ltac:(lia)). lia.
    + split; [done|]. intros (y&Hy%elem_of_sorted_ids&Hin%elem_of_seqZ). specialize (Hf y Hy). lia.
  - rewrite existsb_exists. split.
    + intros (x&Hx%list_elem_of_In&Hb%bool_decide_eq_true). exists x. split; [|done].
      apply elem_of_sorted_ids. by eapply list_elem_of_lookup_2.
    + intros (x&Hx%elem_of_sorted_ids&Hin). exists x. split; [by apply list_elem_of_In|].
      apply bool_decide_eq_true. pose proof (first_not_below _ x (sorted_ids ids)) as Hf.
      destruct (_ !! _) as [z|]; [|specialize (Hf x Hx); lia].
      destruct Hf as (_&Hge&Hmin). specialize (Hmin x Hx ltac:(lia)). f_equal. lia.
Qed.

(** Retaining by row ids keeps exactly the row groups that hold one of them, or
    record none. *)
Theorem retain_by_row_ids_exact plan ids rg :
  rg ∈ sp_row_groups (retain_row_groups_by_row_ids plan ids)
  ↔ rg ∈ sp_row_groups plan
    ∧ (rm_row_ids (pr_meta rg) = []
       ∨ ∃ x seg, x ∈ ids ∧ seg ∈ rm_row_ids (pr_meta rg) ∧ x ∈ segment_ids seg).
Proof.
  unfold retain_row_groups_by_row_ids. cbn [sp_row_groups].
  rewrite list_elem_of_In, filter_In, <- list_elem_of_In, orb_true_iff, existsb_exists.
  split; (intros [Hin Hk]; split; [done|]).
  - destruct Hk as [Hk|(seg&Hseg%list_elem_of_In&(x&?&?)%segment_matches_spec)].
    + left. by destruct (rm_row_ids _).
    + right. by exists x, seg.
  - destruct Hk as [->|(x&seg&Hx&Hseg&Hin')]; [by left|right].
    exists seg. split; [by apply list_elem_of_In|]. apply segment_matches_spec. eauto.
Qed.

(** ** Filter expressions *)

(** The SQL meaning of a literal, where it is a value, and of the recognized
    expressions: when they are true of a row. *)
Definition scalar_cell (v : ScalarValue) : option Cell :=
  match v with
  | SvInt8 o | SvInt16 o | SvInt32 o | SvInt64 o | SvUInt8 o | SvUInt16 o | SvUInt32 o | SvUInt64 o =>
      CInt <$> o
  | SvFloat32 o => (λ f, CFloat (f64_of_f32 f)) <$> o
  | SvFloat64 o => CFloat <$> o
  | SvUtf8 o | SvLargeUtf8 o => CStr <$> o
  | SvBoolean o => CBool <$> o
  | SvOther => None
  end.
Definition operand (e : Expr) (r : Row) : option Cell :=
  match e with EColumn n => r n | ELiteral v => scalar_cell v | _ => None end.
Definition op_test (op : Operator) (o : option comparison) : bool :=
  match op with
  | OpEq => is_eq o
  | OpLt => is_lt o
  | OpLtEq => is_lt o || is_eq o
  | OpGt => is_gt o
  | OpGtEq => is_gt o || is_eq o
  | OpOther => false
  end.
Definition sql_true (e : Expr) (r : Row) : bool :=
  match e with
  | EBinaryExpr a op b =>
      match operand a r, operand b r with
      | Some x, Some y => op_test op (cell_cmp x y)
      | _, _ => false
      end
  | EIsNull e => negb (bool_decide (is_Some (operand e r)))
  | EIsNotNull e => bool_decide (is_Some (operand e r))
  | EInList e l false =>
      existsb (λ i, match operand e r, operand i r with
                    | Some x, Some y => is_eq (cell_cmp x y)
                    | _, _ => false
                    end) l
  | _ => false
  end.

(** No unsigned literal beyond [i64], which the translation wraps around. *)
Definition literal_fits (e : Expr) : bool :=
  match e with ELiteral (SvUInt64 (Some v)) => (0 <=? v) && (v <? 2 ^ 63) | _ => true end.
Definition literals_fit (e : Expr) : bool :=
  match e with
  | EBinaryExpr a _ b => literal_fits a && literal_fits b
  | EInList _ l _ => forallb literal_fits l
  | _ => true
  end.

Lemma SFcompare_antisym x y : SFcompare y x = CompOpp <$> SFcompare x y.
Proof.
  destruct x as [s|s| |s m e], y as [t|t| |t n f]; cbn [SFcompare]; try (by destruct s); try (by destruct t);
    try (by destruct s, t); try done.
  pose proof (Pos.compare_antisym m n) as Hp. unfold Pos.compare in Hp.
  destruct s, t; try done; rewrite (Z.compare_antisym e f); destruct (e ?= f); try done;
    cbn [CompOpp fmap option_fmap option_map]; by rewrite Hp.
Qed.
Lemma cell_cmp_antisym a b : cell_cmp b a = CompOpp <$> cell_cmp a b.
Proof.
  destruct a as [x|x|x|x|], b as [y|y|y|y|]; try done; cbn [cell_cmp fmap option_fmap option_map].
  - by destruct x, y.
  - by rewrite Z.compare_antisym.
  - apply SFcompare_antisym.
  - by rewrite str_cmp_antisym.
Qed.
Lemma literal_operand e l :
  expr_as_literal e = Some l → literal_fits e = true → ∀ r, operand e r = Some (lit_cell l).
Proof.
  destruct e as [| | | | |v|]; try done. cbn [expr_as_literal operand literal_fits].
  destruct v as [[v|]|[v|]|[v|]|[v|]|[v|]|[v|]|[v|]|[v|]|[v|]|[v|]|[v|]|[v|]|[v|]|]; try done;
    cbn [scalar_to_literal scalar_cell fmap option_fmap option_map]; intros [= <-] Hv r; try done.
  cbn [lit_cell]. do 2 f_equal. unfold u64_as_i64. apply andb_prop in Hv as [?%Z.leb_le ?%Z.ltb_lt].
  rewrite Z.mod_small by lia. lia.
Qed.
Lemma column_operand e schema c : expr_as_column e schema = Some c → ∀ r, operand e r = r c.
Proof. destruct e; try done. cbn [expr_as_column]. case_decide; [|done]. by intros [= ->]. Qed.

Lemma extract_spec a b schema c l :
  extract_column_literal a b schema = Some (c, l) → literal_fits b = true →
  ∀ r, operand a r = r c ∧ operand b r = Some (lit_cell l).
Proof.
  unfold extract_column_literal. destruct (expr_as_column a schema) eqn:E1; [|done].
  destruct (expr_as_literal b) eqn:E2; [|done]. intros [= -> ->] Hf r.
  split; [by eapply column_operand|by apply literal_operand].
Qed.

(** [col OP literal], or with the operands swapped. *)
Lemma build_comparison_spec c op l swapped p n r :
  build_comparison c op l swapped = Some (n, p) →
  n = c ∧ pred_column p = c
  ∧ holds p r = match r c with
                | Some x => op_test op (if swapped then cell_cmp (lit_cell l) x else cell_cmp x (lit_cell l))
                | None => false
                end.
Proof.
  destruct op, swapped; try done; intros [= <- <-]; (split; [done|]); (split; [done|]);
    cbn [holds]; unfold cell_test; destruct (r c) as [x|]; try done; cbn [op_test];
    rewrite (cell_cmp_antisym x (lit_cell l)); by destruct (cell_cmp x (lit_cell l)) as [[]|].
Qed.

Lemma in_list_values l values r c :
  mapM expr_as_literal l = Some values → forallb literal_fits l = true →
  existsb (λ i, match r c, operand i r with
                | Some x, Some y => is_eq (cell_cmp x y)
                | _, _ => false
                end) l = existsb (cell_test is_eq r c) values.
Proof.
  intros E%mapM_Some. induction E as [|i v l vs Hi _ IH]; [done|]. cbn [existsb forallb].
  intros [Hfi Hfl]%andb_prop. rewrite IH by done. f_equal. rewrite (literal_operand i v Hi Hfi).
  unfold cell_test. by destruct (r c).
Qed.

Lemma expr_spec e schema c p :
  expr_to_predicate e schema = Some (c, p) → literals_fit e = true →
  pred_column p = c ∧ ∀ r, sql_true e r = holds p r.
Proof.
  destruct e as [a op b|a|a|a l []| | |]; try done; cbn [expr_to_predicate literals_fit]; intros E Hf.
  - apply andb_prop in Hf as [Hfa Hfb].
    destruct (extract_column_literal a b schema) as [[n v]|] eqn:Ex.
    { split; [by destruct (build_comparison_spec _ _ _ _ _ _ (λ _, None) E) as (->&?&_)|].
      intros r. destruct (build_comparison_spec _ _ _ _ _ _ r E) as (_&_&->). cbn [sql_true].
      destruct (extract_spec _ _ _ _ _ Ex Hfb r) as [-> ->]. by destruct (r n). }
    destruct (extract_column_literal b a schema) as [[n v]|] eqn:Ey; [|done].
    split; [by destruct (build_comparison_spec _ _ _ _ _ _ (λ _, None) E) as (->&?&_)|].
    intros r. destruct (build_comparison_spec _ _ _ _ _ _ r E) as (_&_&->). cbn [sql_true].
    destruct (extract_spec _ _ _ _ _ Ey Hfa r) as [-> ->]. by destruct (r n).
  - destruct (expr_as_column a schema) as [n|] eqn:Ea; [|done]. injection E as <- <-.
    split; [done|]. intros r. cbn [sql_true holds]. by rewrite (column_operand _ _ _ Ea).
  - destruct (expr_as_column a schema) as [n|] eqn:Ea; [|done]. injection E as <- <-.
    split; [done|]. intros r. cbn [sql_true holds]. by rewrite (column_operand _ _ _ Ea).
  - destruct (expr_as_column a schema) as [n|] eqn:Ea; [|done]. cbn [mbind option_bind] in E.
    destruct (mapM expr_as_literal l) as [vs|] eqn:El; [|done]. cbn [mbind option_bind] in E.
    destruct (is_empty vs); [done|]. injection E as <- <-. split; [done|]. intros r.
    cbn [sql_true holds]. rewrite (column_operand _ _ _ Ea). by apply in_list_values.
Qed.


(** ** Beyond [i64] *)

(** A [u64] column whose only value is 2^63, and the literal below it: the
    comparison goes through binary64, where both are 2^63. *)
Definition u64_stats : ColumnStats :=
  mkStats (Some (VNumber (PosInt (2 ^ 63)))) (Some (VNumber (PosInt (2 ^ 63)))) 0.
Definition u64_group : PlannedRowGroup :=
  mkPlanned "t/a.parquet" "t/a.meta.json"
    (mkMeta "a" 1 1 {[ "c"%string := u64_stats ]} None None [] "" "") None 1 false None 0 0 None.

(** Beyond i64 pruning is wrong: a row group whose only value is 2^63 is dropped for a
    predicate that the value satisfies, and covered by one that it does not, because the
    comparison goes through binary64. *)
Theorem prune_u64_wrong :
  let lit := LInt64 (2 ^ 63 - 1) in
  (cell_holds (PGt "c" lit) (CInt (2 ^ 63)) = true
   ∧ row_group_satisfies (PGt "c" lit) u64_group [] = Ok false)
  ∧ (cell_holds (PLte "c" lit) (CInt (2 ^ 63)) = false
     ∧ fragment_fully_covered [PLte "c" lit] u64_stats = true).
Proof. vm_compute. done. Qed.
