(* ===== verification/History.v ===== *)
(** * The manifest hash chain

    [doctor.rs], [verify_history]: every retained manifest is checked against
    its own checksum and against its predecessor. *)

From S2P Require Import Prelude Bytes StableSort Text OrdMap Storage Json Manifest.
From Stdlib Require Import Ascii String.

#[local] Open Scope list_scope.
#[local] Open Scope Z_scope.

Record ChainBreak := mkBreak { cb_sequence : u64; cb_reason : string }.
Record HistoryReport := mkReport {
  hr_intact : bool;
  hr_oldest : u64;
  hr_latest : u64;
  hr_breaks : list ChainBreak;
}.

(** The sequence numbers among the entries, temporaries skipped. *)
Definition history_seq (entry : string) : option u64 :=
  let filename := default "" (file_name entry) in
  if ends_with ".json.tmp" filename || negb (ends_with ".json" filename) then None else
  seq_str ← strip_suffix ".json" filename;
  parse_u64 seq_str.

(** The link of a verified manifest to its verified predecessor. *)
Definition check_link (seq : u64) (prev : option Manifest) (m : Manifest) : list ChainBreak :=
  match prev with
  | None => []
  | Some p =>
      match mf_parent_hash m with
      | Some ph =>
          if decide (ph = mf_checksum p) then []
          else [mkBreak seq "parent_hash mismatch: does not match predecessor checksum"]
      | None =>
          match mf_committed_at m with
          | None => []
          | Some _ => [mkBreak seq "missing parent_hash: retained predecessor is present"]
          end
      end
  end.

Section verify.
Context `{!Sha256, !SerdeJson} {St : Type} `{!Storage St}.

(** One retained sequence: the breaks so far and the verified predecessor. *)
Definition history_step (table : string) (acc : list ChainBreak * option Manifest) (seq : u64)
    : M St (list ChainBreak * option Manifest) :=
  let '(breaks, prev) := acc in
  match! st_read (table +:+ "/" +:+ Manifest_filename seq) as r in
  match r with
  | Err e => if is_not_found e then m_ret (breaks, None) else m_lift (Err e)
  | Panic => m_lift Panic
  | Ok b =>
      match from_slice (A:=Manifest) b with
      | None => m_ret (breaks ++ [mkBreak seq "invalid JSON"], None)
      | Some m =>
          if verify_checksum m then m_ret (breaks ++ check_link seq prev m, Some m)
          else if bool_decide (mf_checksum m = "") && bool_decide (mf_committed_at m = None)
          then m_ret (breaks, None)
          else m_ret (breaks ++ [mkBreak seq "self-checksum mismatch"], None)
      end
  end.

Definition verify_history (table : string) : M St HistoryReport :=
  match! st_list (table +:+ "/_manifests") as r in
  let! entries :=
    match r with
    | Ok e => m_ret e
    | Err e => if is_not_found e then m_ret [] else m_lift (Err e)
    | Panic => m_lift Panic
    end in
  let seqs := sort_by_key id (omap history_seq entries) in
  if is_empty seqs then m_ret (mkReport true 0 0 []) else
  let! acc := m_fold (history_step table) ([], None) seqs in
  m_ret (mkReport (is_empty (fst acc)) (default 0 (head seqs)) (default 0 (last seqs)) (fst acc)).
End verify.

(** ** What an intact report means *)

Lemma history_seq_entry e : history_seq e = entry_seq e.
Proof.
  unfold history_seq, entry_seq. destruct (file_name e) as [f|]; simpl; [|done].
  destruct (ends_with ".json.tmp" f) eqn:Et.
  - apply ends_with_spec in Et as [r ->]. by rewrite strip_json_tmp.
  - simpl. unfold ends_with. destruct (strip_suffix ".json" f) eqn:E; [|done].
    by rewrite bool_decide_eq_true_2.
Qed.

Section history.
Context `{!Sha256, !SerdeJson, !SerdeJsonLaws} {St : Type} `{!Storage St, !StorageLaws St}.
Implicit Types s : St.

(** The retained sequences, oldest first. *)
Definition retained s table : list u64 := sort_by_key id (listed_seqs (files s) table).
(** [ms] are the manifests of the sequences [qs], all written since manifests
    carry a commit time. *)
Definition history s table (qs : list u64) (ms : list Manifest) : Prop :=
  Forall2 (λ q m, manifest_at (files s) table q = Some m ∧ mf_committed_at m ≠ None) qs ms.
Fixpoint linked (prev : option Manifest) (ms : list Manifest) : Prop :=
  match ms with
  | [] => True
  | m :: ms =>
      match prev with Some p => mf_parent_hash m = Some (mf_checksum p) | None => True end
      ∧ linked (Some m) ms
  end.

Lemma check_link_nil q prev m :
  mf_committed_at m ≠ None →
  check_link q prev m = []
  ↔ match prev with Some p => mf_parent_hash m = Some (mf_checksum p) | None => True end.
Proof.
  intros Hc. unfold check_link. destruct prev as [p|]; [|done].
  destruct (mf_parent_hash m) as [ph|]; [case_decide; naive_solver|].
  by destruct (mf_committed_at m).
Qed.

Lemma history_step_eq table bs prev q m s :
  clean table → manifest_at (files s) table q = Some m → mf_committed_at m ≠ None →
  history_step table (bs, prev) q s
  = (Ok (if verify_checksum m then (bs ++ check_link q prev m, Some m)
         else (bs ++ [mkBreak q "self-checksum mismatch"], None)), s).
Proof.
  intros Ht Hm Hc. unfold history_step.
  rewrite (m_try_eq _ _ _ _ _ (st_read_clean _ _ (manifest_path_clean table q Ht))).
  fold (manifest_path table q). unfold manifest_at in Hm. unfold read_result.
  destruct (files s !! manifest_path table q) as [b|]; [|done]. simpl in Hm |- *. rewrite Hm.
  destruct (verify_checksum m); [done|].
  rewrite (bool_decide_eq_false_2 (mf_committed_at m = None)) by done.
  by rewrite andb_false_r.
Qed.

Lemma history_fold table qs ms s bs prev :
  clean table → history s table qs ms →
  ∃ new last, m_fold (history_step table) (bs, prev) qs s = (Ok (bs ++ new, last), s)
    ∧ (new = [] ↔ Forall (λ m, verify_checksum m = true) ms ∧ linked prev ms).
Proof.
  intros Ht Hh. revert bs prev.
  induction Hh as [|q m qs ms [Hm Hc] Hh IH]; intros bs prev; cbn [m_fold].
  { exists [], prev. rewrite app_nil_r. repeat split; by constructor. }
  rewrite (m_bind_ok _ _ _ _ _ (history_step_eq table bs prev q m s Ht Hm Hc)).
  destruct (verify_checksum m) eqn:Hv.
  - destruct (IH (bs ++ check_link q prev m) (Some m)) as (new&last&->&Hn).
    exists (check_link q prev m ++ new), last. rewrite app_assoc. split; [done|].
    cbn [linked]. rewrite Forall_cons, <-(check_link_nil q prev m Hc).
    split; [intros [? ?]%app_eq_nil; naive_solver|].
    intros [[_ Hf] [-> Hl]]. by apply Hn.
  - destruct (IH (bs ++ [mkBreak q "self-checksum mismatch"]) None) as (new&last&->&Hn).
    exists (mkBreak q "self-checksum mismatch" :: new), last. rewrite <-app_assoc.
    split; [done|]. rewrite Forall_cons. naive_solver congruence.
Qed.

Lemma verify_history_eq table ms s :
  clean table → history s table (retained s table) ms →
  ∃ r, verify_history table s = (Ok r, s)
    ∧ hr_oldest r = default 0 (head (retained s table))
    ∧ hr_latest r = default 0 (last (retained s table))
    ∧ hr_intact r = is_empty (hr_breaks r)
    ∧ (hr_intact r = true ↔ Forall (λ m, verify_checksum m = true) ms ∧ linked None ms).
Proof.
  intros Ht Hh. unfold verify_history.
  pose proof (st_list_spec (table +:+ "/_manifests") _ s
    (clean_validate _ (manifests_dir_clean table Ht))) as Hls.
  rewrite <-(string_app_assoc table "/_manifests" "/") in Hls.
  rewrite (m_try_eq _ _ _ _ _ Hls).
  assert (∀ es, sort_by_key id (omap history_seq es) = sort_by_key id (omap entry_seq es))
    as Hseq by (intros es; f_equal; apply list_omap_ext, Forall2_same_length_lookup_2;
                [done|intros; simplify_eq; apply history_seq_entry]).
  assert (∀ es, (if decide (list_children (files s) (table +:+ "/_manifests" +:+ "/") = [])
                 then es = [] else es = list_children (files s) (table +:+ "/_manifests" +:+ "/"))
            → sort_by_key id (omap history_seq es) = retained s table) as Hret.
  { intros es He. rewrite Hseq. unfold retained, listed_seqs. f_equal.
    case_decide as E; by rewrite He, ?E. }
  assert (∃ es, m_bind (match (if decide (list_children (files s)
        (table +:+ "/_manifests" +:+ "/") = []) then Err (NotFound (table +:+ "/_manifests"))
        else Ok (list_children (files s) (table +:+ "/_manifests" +:+ "/")))
      with Ok e => m_ret e | Err e => if is_not_found e then m_ret [] else m_lift (Err e)
         | Panic => m_lift Panic end) = m_bind (St:=St) (B:=HistoryReport) (m_ret es)
      ∧ sort_by_key id (omap history_seq es) = retained s table) as (es&->&Hes).
  { case_decide; eexists; split; try done; by apply Hret. }
  unfold m_bind at 1, m_ret at 1. rewrite Hes.
  destruct (is_empty (retained s table)) eqn:Hemp.
  - destruct (retained s table); [|done]. inversion Hh; subst. eexists. split; [done|].
    repeat split; by constructor.
  - destruct (history_fold table (retained s table) ms s [] None Ht Hh) as (new&lst&E&Hn).
    rewrite (m_bind_ok _ _ _ _ _ E). eexists. split; [done|]. cbn. split; [done|].
    split; [done|]. split; [done|]. rewrite <-Hn. by destruct new.
Qed.
End history.

Section theorems.
Context `{!Sha256, !SerdeJson, !SerdeJsonLaws} {St : Type} `{!Storage St, !StorageLaws St}.
Implicit Types s : St.


(** Chains that end in the same manifest are the same chain. *)
Lemma linked_unique ms ms' prev prev' :
  Forall manifest_wf ms → Forall manifest_wf ms' →
  Forall (λ m, verify_checksum m = true) ms → Forall (λ m, verify_checksum m = true) ms' →
  linked prev ms → linked prev' ms' → List.length ms = List.length ms' →
  mf_checksum <$> last ms = mf_checksum <$> last ms' →
  ms = ms' ∨ ∃ m m', m ∈ ms ∧ m' ∈ ms' ∧ manifest_collision m m'.
Proof.
  revert ms' prev prev'. induction ms as [|m ms IH]; intros [|m' ms'] prev prev' Hw Hw' Hv Hv'
    Hl Hl' Hlen Hlast; try done; [by left|].
  apply Forall_cons in Hw as [Hwm Hw], Hw' as [Hwm' Hw'], Hv as [Hvm Hv], Hv' as [Hvm' Hv'].
  destruct Hl as [_ Hl], Hl' as [_ Hl']. injection Hlen as Hlen.
  assert (mf_checksum m = mf_checksum m' ∧ ms = ms'
          ∨ ∃ x x', x ∈ ms ∧ x' ∈ ms' ∧ manifest_collision x x') as [[Hc ->]|(x&x'&?&?&?)].
  2: { destruct (verified_inj m m') as [->|]; try done; [by left|right].
       exists m, m'. split; [by constructor|]. split; [by constructor|done]. }
  2: { right. exists x, x'. split; [by constructor|]. split; [by constructor|done]. }
  destruct ms as [|x ms], ms' as [|x' ms']; try done; [left; by simplify_eq/=|].
  destruct (IH (x' :: ms') (Some m) (Some m')) as [E|]; try done; [|by right]. left.
  split; [|done]. injection E as <- <-. destruct Hl as [Hl _], Hl' as [Hl' _]. congruence.
Qed.

Lemma history_wf s table qs ms : history s table qs ms → Forall manifest_wf ms.
Proof.
  induction 1 as [|q m qs ms [Hm _] _ IH]; constructor; [|done].
  unfold manifest_at in Hm. apply bind_Some in Hm as (b&_&Hm). exact (from_slice_wf b m Hm).
Qed.

End theorems.
