(* ===== verification/CommitDelta.v ===== *)
(** * What a commit changed

    [commit_delta.rs]: the difference of two consecutive manifests, by fragment. *)

From S2P Require Import Prelude Text OrdMap Json Manifest.

#[local] Open Scope list_scope.
#[local] Open Scope Z_scope.

Inductive CommitKind := Noop | Append | Replace | Delete | Update | Merge | Compact.

Record FragmentDelta := mkFragmentDelta {
  fd_fragment_id : u64;
  fd_old_deletes : option string;
  fd_new_deletes : option string;
  fd_old_deleted_count : u64;
  fd_new_deleted_count : u64;
}.

(** [R] stands for the reader's [PlannedRowGroup], which is only carried. *)
Record CommitDelta (R : Type) := mkDelta {
  cd_previous_sequence : u64;
  cd_new_sequence : u64;
  cd_kind : CommitKind;
  cd_previous_manifest : Manifest;
  cd_new_manifest : Manifest;
  cd_added_row_groups : list R;
}.
Arguments mkDelta {R}.
Arguments cd_previous_sequence {R}.
Arguments cd_new_sequence {R}.
Arguments cd_kind {R}.
Arguments cd_previous_manifest {R}.
Arguments cd_new_manifest {R}.
Arguments cd_added_row_groups {R}.

Section commit_delta.
Context {R : Type}.
Implicit Types d : CommitDelta R.

Definition CommitDelta_new (previous_manifest new_manifest : Manifest) (kind : CommitKind)
    : CommitDelta R :=
  mkDelta (mf_sequence previous_manifest) (mf_sequence new_manifest) kind
    previous_manifest new_manifest [].
Definition with_added_row_groups d (added : list R) : CommitDelta R :=
  mkDelta (cd_previous_sequence d) (cd_new_sequence d) (cd_kind d)
    (cd_previous_manifest d) (cd_new_manifest d) added.

Definition is_noop d : bool := cd_previous_sequence d =? cd_new_sequence d.
Definition schema_changed d : bool :=
  negb (mf_schema_id (cd_previous_manifest d) =? mf_schema_id (cd_new_manifest d)).

Definition fragment_ids (m : Manifest) : gset Z :=
  list_to_set (rg_fragment_id <$> mf_row_groups m).
Definition added_row_groups d : list RowGroupEntry :=
  filter (λ rg, rg_fragment_id rg ∉ fragment_ids (cd_previous_manifest d))
    (mf_row_groups (cd_new_manifest d)).
Definition removed_fragment_ids d : list u64 :=
  rg_fragment_id <$>
    filter (λ rg, rg_fragment_id rg ∉ fragment_ids (cd_new_manifest d))
      (mf_row_groups (cd_previous_manifest d)).

(** [collect] into a map: the last entry of an id wins. *)
Definition by_id (rgs : list RowGroupEntry) : gmap Z RowGroupEntry :=
  foldl (λ m rg, <[rg_fragment_id rg := rg]> m) ∅ rgs.
Definition fragment_delta (prev_by_id : gmap Z RowGroupEntry) (new : RowGroupEntry)
    : option FragmentDelta :=
  old ← prev_by_id !! rg_fragment_id new;
  if bool_decide (rg_data old = rg_data new) && bool_decide (rg_meta old = rg_meta new)
     && (negb (bool_decide (rg_deletes old = rg_deletes new))
         || negb (rg_deleted_count old =? rg_deleted_count new))
  then Some (mkFragmentDelta (rg_fragment_id new) (rg_deletes old) (rg_deletes new)
               (rg_deleted_count old) (rg_deleted_count new))
  else None.
Definition updated_fragments d : list FragmentDelta :=
  omap (fragment_delta (by_id (mf_row_groups (cd_previous_manifest d))))
    (mf_row_groups (cd_new_manifest d)).

(** ** The delta is the whole difference *)

(** Fragment ids are unique within a manifest. *)
Definition ids_unique (m : Manifest) : Prop :=
  NoDup (rg_fragment_id <$> mf_row_groups m).
(** The files of a fragment never change under its id; only its deletion vector does. *)
Definition fragments_immutable d : Prop :=
  ∀ e e', e ∈ mf_row_groups (cd_previous_manifest d) → e' ∈ mf_row_groups (cd_new_manifest d) →
    rg_fragment_id e = rg_fragment_id e' →
    rg_data e = rg_data e' ∧ rg_meta e = rg_meta e' ∧ rg_agg e = rg_agg e'.

(** Replaying a delta on the entries of the previous manifest. *)
Definition apply_updates (ups : list FragmentDelta) (e : RowGroupEntry) : RowGroupEntry :=
  match find_first (λ u, fd_fragment_id u =? rg_fragment_id e) ups with
  | Some u => mkEntry (rg_data e) (rg_meta e) (rg_fragment_id e) (fd_new_deletes u)
                (fd_new_deleted_count u) (rg_agg e)
  | None => e
  end.
Definition replay d : list RowGroupEntry :=
  (apply_updates (updated_fragments d) <$>
    filter (λ e, rg_fragment_id e ∉ removed_fragment_ids d)
      (mf_row_groups (cd_previous_manifest d)))
  ++ added_row_groups d.

Lemma by_id_lookup_ne rgs (m : gmap Z RowGroupEntry) id :
  id ∉ (rg_fragment_id <$> rgs) →
  foldl (λ m rg, <[rg_fragment_id rg := rg]> m) m rgs !! id = m !! id.
Proof.
  revert m. induction rgs as [|rg rgs IH]; intros m; [done|]. cbn [fmap list_fmap foldl].
  rewrite not_elem_of_cons. intros [? ?]. rewrite IH by done. by rewrite lookup_insert_ne.
Qed.
Lemma by_id_lookup rgs id e :
  NoDup (rg_fragment_id <$> rgs) →
  by_id rgs !! id = Some e ↔ e ∈ rgs ∧ rg_fragment_id e = id.
Proof.
  unfold by_id. assert ((∅ : gmap Z RowGroupEntry) !! id = Some e → False) as Hm by done.
  revert Hm. generalize (∅ : gmap Z RowGroupEntry) as m.
  induction rgs as [|rg rgs IH]; intros m Hm Hn; cbn [foldl].
  { split; [by intros ?%Hm|]. by intros [?%elem_of_nil _]. }
  inversion Hn as [|?? Hrg Hn']; subst.
  destruct (decide (rg_fragment_id rg = id)) as [<-|Hne].
  - rewrite by_id_lookup_ne by done. rewrite lookup_insert_eq. split.
    + intros [= ->]. split; [by constructor|done].
    + intros [[->|He]%elem_of_cons Hid]; [done|]. destruct Hrg.
      apply list_elem_of_fmap. eauto.
  - rewrite IH; [|by rewrite lookup_insert_ne|done]. rewrite elem_of_cons. naive_solver.
Qed.

Lemma elem_updated d u :
  ids_unique (cd_previous_manifest d) →
  u ∈ updated_fragments d ↔
  ∃ old new, old ∈ mf_row_groups (cd_previous_manifest d)
    ∧ new ∈ mf_row_groups (cd_new_manifest d)
    ∧ rg_fragment_id old = rg_fragment_id new ∧ rg_data old = rg_data new
    ∧ rg_meta old = rg_meta new
    ∧ (rg_deletes old, rg_deleted_count old) ≠ (rg_deletes new, rg_deleted_count new)
    ∧ u = mkFragmentDelta (rg_fragment_id new) (rg_deletes old) (rg_deletes new)
            (rg_deleted_count old) (rg_deleted_count new).
Proof.
  intros Hu. unfold updated_fragments. rewrite list_elem_of_omap. unfold fragment_delta. split.
  - intros (new&Hnew&(old&[Hold Hid]%by_id_lookup&E)%bind_Some); [|done].
    exists old, new. case_match eqn:Hc; simplify_eq. zbool. subst.
    repeat split; try done. intros [= Hd Hk]. apply orb_true_iff in H0 as [?|?]; zbool; done.
  - intros (old&new&Hold&Hnew&Hid&Hd&Hm&Hne&->). exists new. split; [done|].
    apply bind_Some. exists old. split; [by apply by_id_lookup|].
    rewrite !bool_decide_eq_true_2 by done. simpl.
    destruct (decide (rg_deletes old = rg_deletes new)) as [E|].
    + rewrite bool_decide_eq_true_2 by done. simpl.
      destruct (Z.eqb_spec (rg_deleted_count old) (rg_deleted_count new)); [congruence|done].
    + by rewrite bool_decide_eq_false_2.
Qed.

Lemma unique_entry m e e' :
  ids_unique m → e ∈ mf_row_groups m → e' ∈ mf_row_groups m →
  rg_fragment_id e = rg_fragment_id e' → e = e'.
Proof.
  intros Hu He He' Hid.
  assert (by_id (mf_row_groups m) !! rg_fragment_id e = Some e) as E1 by by apply by_id_lookup.
  assert (by_id (mf_row_groups m) !! rg_fragment_id e = Some e') as E2 by by apply by_id_lookup.
  congruence.
Qed.
Lemma elem_of_fragment_ids m id :
  id ∈ fragment_ids m ↔ ∃ e, e ∈ mf_row_groups m ∧ rg_fragment_id e = id.
Proof.
  unfold fragment_ids. rewrite elem_of_list_to_set, list_elem_of_fmap. naive_solver.
Qed.
Lemma elem_removed d id :
  id ∈ removed_fragment_ids d ↔
  id ∈ fragment_ids (cd_previous_manifest d) ∧ id ∉ fragment_ids (cd_new_manifest d).
Proof.
  unfold removed_fragment_ids. rewrite list_elem_of_fmap, elem_of_fragment_ids.
  setoid_rewrite list_elem_of_filter. naive_solver.
Qed.

Lemma apply_updates_new d old new :
  ids_unique (cd_previous_manifest d) → ids_unique (cd_new_manifest d) →
  fragments_immutable d →
  old ∈ mf_row_groups (cd_previous_manifest d) → new ∈ mf_row_groups (cd_new_manifest d) →
  rg_fragment_id old = rg_fragment_id new →
  apply_updates (updated_fragments d) old = new.
Proof.
  intros Hup Hun Him Ho Hn Hid. destruct (Him old new Ho Hn Hid) as (Hd&Hm&Ha).
  unfold apply_updates. destruct (find_first _ _) as [u|] eqn:E.
  - apply List.find_some in E as [Hu Hk]. apply list_elem_of_In, elem_updated in Hu; [|done].
    destruct Hu as (o2&n2&Ho2&Hn2&Hid2&_&_&_&->). simpl in Hk |- *. zbool.
    assert (n2 = new) as -> by (eapply unique_entry; eauto; congruence).
    destruct old, new. simpl in *. congruence.
  - apply find_none_Forall in E. rewrite Forall_forall in E.
    destruct (decide ((rg_deletes old, rg_deleted_count old)
                      = (rg_deletes new, rg_deleted_count new))) as [Heq|Hne].
    + destruct old, new. simpl in *. congruence.
    + set (u := mkFragmentDelta (rg_fragment_id new) (rg_deletes old) (rg_deletes new)
                  (rg_deleted_count old) (rg_deleted_count new)).
      assert (u ∈ updated_fragments d) as Hu.
      { apply elem_updated; [done|]. exists old, new. done. }
      specialize (E u Hu). simpl in E. zbool. congruence.
Qed.
Lemma apply_updates_id ups e : rg_fragment_id (apply_updates ups e) = rg_fragment_id e.
Proof. unfold apply_updates. by case_match. Qed.

(** The added, removed and updated fragments of a delta are complete: replayed on the
    previous manifest's row groups they give the new manifest's row groups. *)
Theorem commit_delta_complete d :
  ids_unique (cd_previous_manifest d) → ids_unique (cd_new_manifest d) →
  fragments_immutable d →
  replay d ≡ₚ mf_row_groups (cd_new_manifest d).
Proof.
  intros Hup Hun Him. apply NoDup_Permutation.
  - apply (NoDup_fmap_1 rg_fragment_id). unfold replay. rewrite fmap_app, <-list_fmap_compose.
    rewrite (list_fmap_ext (rg_fragment_id ∘ apply_updates (updated_fragments d)) rg_fragment_id)
      by (intros; simpl; apply apply_updates_id).
    apply NoDup_app. split; [|split].
    + eapply sublist_NoDup; [exact Hup|]. apply fmap_sublist, sublist_filter.
    + intros id (e&->&[_ He]%list_elem_of_filter)%list_elem_of_fmap
        (e'&Hid&[Hn _]%list_elem_of_filter)%list_elem_of_fmap.
      apply Hn. rewrite <-Hid. apply elem_of_fragment_ids. eauto.
    + eapply sublist_NoDup; [exact Hun|]. apply fmap_sublist, sublist_filter.
  - by apply NoDup_fmap_1 in Hun.
  - intros e. unfold replay. rewrite elem_of_app, list_elem_of_fmap. split.
    + intros [(old&->&[Hr Ho]%list_elem_of_filter)|[_ He]%list_elem_of_filter]; [|done].
      assert (rg_fragment_id old ∈ fragment_ids (cd_new_manifest d)) as Hin.
      { destruct (decide (rg_fragment_id old ∈ fragment_ids (cd_new_manifest d))); [done|].
        destruct Hr. apply elem_removed. split; [|done]. apply elem_of_fragment_ids. eauto. }
      apply elem_of_fragment_ids in Hin as (new&Hn&Hid).
      by rewrite (apply_updates_new d old new) by done.
    + intros He.
      destruct (decide (rg_fragment_id e ∈ fragment_ids (cd_previous_manifest d))) as [Hin|Hin].
      * left. apply elem_of_fragment_ids in Hin as (old&Ho&Hid). exists old.
        split; [by rewrite (apply_updates_new d old e)|]. apply list_elem_of_filter.
        split; [|done]. intros [_ Hr]%elem_removed. apply Hr, elem_of_fragment_ids. eauto.
      * right. by apply list_elem_of_filter.
Qed.
End commit_delta.
