(* ===== verification/RowIndexStore.v ===== *)
(** * Deriving, rebuilding and verifying the row index

    [rowindex/writer.rs] ([derive_base], [rebuild], [verify]) and
    [rowindex/reader.rs] ([AddressMap::open], [RangedBase]): the row index as a
    cache that the manifest determines. *)

From S2P Require Import Prelude Bytes StableSort RowId RowIndex Text OrdMap Storage Json.
From S2P Require Import RowGroupMeta Manifest.
From Stdlib Require Import Ascii.

#[local] Open Scope list_scope.
#[local] Open Scope Z_scope.

(** A live row: its id, fragment and physical offset. *)
Abbreviation live_row := (u64 * u64 * u32)%type.
Definition lr_row (r : live_row) : u64 := r.1.1.
Definition lr_frag (r : live_row) : u64 := r.1.2.
Definition lr_off (r : live_row) : u32 := r.2.

(** Coalescing: extend the last segment or start a new one. *)
Definition coalesce_step (segments : list AddrSegment) (r : live_row) : list AddrSegment :=
  let '(row_id, fragment_id, offset) := r in
  let fresh := mkSeg row_id fragment_id offset 1 in
  match last segments with
  | None => segments ++ [fresh]
  | Some l =>
      let expected_row_id := wrap64 (start_row_id l + seg_len l) in
      let expected_offset := wrap32 (start_offset l + seg_len l) in
      if (seg_fragment_id l =? fragment_id) && (row_id =? expected_row_id)
         && (offset =? expected_offset)
      then removelast segments
             ++ [mkSeg (start_row_id l) (seg_fragment_id l) (start_offset l)
                   (wrap32 (seg_len l + 1))]
      else segments ++ [fresh]
  end.
Definition coalesce (live : list live_row) : list AddrSegment := foldl coalesce_step [] live.

(** The duplicate check on the sorted rows. *)
Definition find_duplicate (live : list live_row) : option u64 :=
  match find_first (λ w, lr_row w.1 =? lr_row w.2) (windows2 live) with
  | Some w => Some (lr_row w.1)
  | None => None
  end.

Section store.
Context `{!SerdeJson} {B : Type} `{!RoaringBitmap B} {St : Type} `{!Storage St}.

(** The rows of one fragment in physical order, deleted offsets skipped. *)
Fixpoint walk (dv : option (DeletionVector B)) (fragment_id : u64) (offset : u32)
    (ids : list u64) : list live_row :=
  match ids with
  | [] => []
  | row_id :: ids =>
      let rest := walk dv fragment_id (wrap32 (offset + 1)) ids in
      if match dv with Some d => dv_contains d offset | None => false end then rest
      else (row_id, fragment_id, offset) :: rest
  end.

Definition fragment_rows (table : string) (entry : RowGroupEntry) : M St (list live_row) :=
  let! meta_bytes := st_read (table +:+ "/" +:+ rg_meta entry) in
  let! meta := m_lift (of_option (Serialization "RowGroupMeta")
                         (from_slice (A:=RowGroupMeta) meta_bytes)) in
  let! dv :=
    match rg_deletes entry with
    | Some del_path =>
        let! del_bytes := st_read (table +:+ "/" +:+ del_path) in
        m_lift (let? d := dv_deserialize (B:=B) del_bytes in Ok (Some d))
    | None => m_ret None
    end in
  m_ret (walk dv (rg_fragment_id entry) 0 (concat (segment_ids <$> rm_row_ids meta))).

Definition derive_base (table : string) (manifest : Manifest) : M St (list AddrSegment) :=
  let! live := m_fold (λ live entry, let! rows := fragment_rows table entry in m_ret (live ++ rows))
                 [] (mf_row_groups manifest) in
  let live := sort_by_key lr_row live in
  match find_duplicate live with
  | Some id =>
      m_lift (Err (Other ("derive_base: row_id " +:+ fmt_u64 id +:+
                          " appears more than once in the live set")))
  | None => m_ret (coalesce live)
  end.

Definition rebuild (table : string) (manifest : Manifest) : M St RowIndexRef :=
  let! segments := derive_base table manifest in
  let b := encode_idx segments in
  let rel_path := "_rowindex/base__v" +:+ fmt_09 (mf_sequence manifest) +:+ ".idx" in
  let! _ := st_write (table +:+ "/" +:+ rel_path) b in
  m_ret (mkRowIndexRef (Some rel_path) []).

(** One decoded file of a generation. *)
Definition load_segments (table rel : string) : M St (list AddrSegment) :=
  let! buf := st_read (table +:+ "/" +:+ rel) in m_lift (decode_idx buf).
Definition AddressMap_open (table : string) (gen : RowIndexRef) : M St AddressMap :=
  let! base :=
    match ri_base gen with Some rel => load_segments table rel | None => m_ret [] end in
  let! deltas := m_fold (λ ds rel, let! d := load_segments table rel in m_ret (ds ++ [d]))
                   [] (ri_deltas gen) in
  m_ret (mkAddressMap base deltas).

Definition RangedBase_lookup (path : string) (row_id : u64) : M St (option (u64 * u32)) :=
  let! buf := st_read path in
  m_lift (let? segments := decode_idx buf in Ok (lookup_in_base segments row_id)).

(** The comparison of one row of the fresh derivation with the map. *)
Definition verify_row (am : AddressMap) (seg : AddrSegment) (i : u32) : res unit :=
  let row_id := wrap64 (start_row_id seg + i) in
  let expected := (seg_fragment_id seg, wrap32 (start_offset seg + i)) in
  match AddressMap_lookup am row_id with
  | Some got =>
      if decide (got = expected) then Ok tt
      else Err (Other ("verify: row_id " +:+ fmt_u64 row_id +:+ " mismatch"))
  | None => Err (Other ("verify: row_id " +:+ fmt_u64 row_id +:+ " cannot be resolved"))
  end.
Definition verify_segments (am : AddressMap) (fresh : list AddrSegment) : res unit :=
  res_fold (λ _ seg, res_fold (λ _ i, verify_row am seg i) tt (seqZ 0 (seg_len seg))) tt fresh.

Definition verify (table : string) (manifest : Manifest) : M St unit :=
  let! fresh := derive_base table manifest in
  match mf_rowindex_generation manifest with
  | None =>
      if is_empty fresh then m_ret tt
      else m_lift (Err (Other "verify: manifest has no rowindex_generation but the table has live rows"))
  | Some gen =>
      let! am := AddressMap_open table gen in
      m_lift (verify_segments am fresh)
  end.
End store.

(** ** Coalescing loses nothing *)

Definition expand (seg : AddrSegment) : list live_row :=
  (λ i, (start_row_id seg + i, seg_fragment_id seg, start_offset seg + i)) <$> seqZ 0 (seg_len seg).
(** A segment under construction: not empty, every address representable. *)
Definition seg_ok (s : AddrSegment) : Prop :=
  0 < seg_len s ∧ 0 <= start_row_id s ∧ start_row_id s + seg_len s <= 2 ^ 64 - 1
  ∧ in_u64 (seg_fragment_id s) ∧ 0 <= start_offset s ∧ start_offset s + seg_len s <= 2 ^ 32 - 1.
Definition row_ok (r : live_row) : Prop :=
  0 <= lr_row r < 2 ^ 64 - 1 ∧ in_u64 (lr_frag r) ∧ 0 <= lr_off r < 2 ^ 32 - 1.

Lemma seg_ok_fits s : seg_ok s → seg_fits s.
Proof.
  intros (?&?&?&?&?&?). unfold seg_fits, seg_in_range, in_u64, in_u32 in *. lia.
Qed.

Lemma expand_snoc s :
  0 <= seg_len s →
  expand (mkSeg (start_row_id s) (seg_fragment_id s) (start_offset s) (seg_len s + 1))
  = expand s ++ [(start_row_id s + seg_len s, seg_fragment_id s, start_offset s + seg_len s)].
Proof.
  intros Hl. unfold expand. cbn [seg_len start_row_id seg_fragment_id start_offset].
  rewrite seqZ_app by lia. rewrite fmap_app. f_equal.
Qed.

Lemma coalesce_step_spec segs r :
  Forall seg_ok segs → row_ok r →
  Forall seg_ok (coalesce_step segs r)
  ∧ concat (expand <$> coalesce_step segs r) = concat (expand <$> segs) ++ [r].
Proof.
  destruct r as [[row f] o]. unfold row_ok, lr_row, lr_frag, lr_off. simpl.
  intros Hs (Hr&Hf&Ho).
  assert (Forall seg_ok (segs ++ [mkSeg row f o 1])
    ∧ concat (expand <$> segs ++ [mkSeg row f o 1]) = concat (expand <$> segs) ++ [(row, f, o)])
    as Hnew.
  { split.
    - apply Forall_app. split; [done|]. apply Forall_singleton.
      unfold seg_ok. simpl. unfold in_u64 in *. lia.
    - rewrite fmap_app, concat_app. f_equal. unfold expand. simpl. by rewrite !Z.add_0_r. }
  destruct segs as [|l segs _] using rev_ind; [done|]. rewrite last_snoc, removelast_last.
  apply Forall_app in Hs as [Hs Hl%Forall_inv]. destruct Hl as (?&?&?&?&?&?).
  rewrite wrap64_small, wrap32_small by (unfold in_u64, in_u32; lia).
  case_match; [|done]. zbool. subst. rewrite wrap32_small by (unfold in_u32; lia). split.
  - apply Forall_app. split; [done|]. apply Forall_singleton. unfold seg_ok. simpl.
    unfold in_u64 in *. lia.
  - rewrite !fmap_app, !concat_app. cbn [fmap list_fmap concat]. rewrite !app_nil_r.
    rewrite expand_snoc by lia. by rewrite app_assoc.
Qed.

Lemma coalesce_spec live :
  Forall row_ok live →
  Forall seg_ok (coalesce live) ∧ concat (expand <$> coalesce live) = live.
Proof.
  unfold coalesce. intros Hl.
  assert (∀ segs, Forall seg_ok segs →
    Forall seg_ok (foldl coalesce_step segs live)
    ∧ concat (expand <$> foldl coalesce_step segs live) = concat (expand <$> segs) ++ live) as H.
  { induction Hl as [|r live Hr Hl IH]; intros segs Hs; cbn [foldl]; [by rewrite app_nil_r|].
    destruct (coalesce_step_spec segs r Hs Hr) as [Hs' E].
    destruct (IH _ Hs') as [? ->]. rewrite E, <-app_assoc. done. }
  by apply (H []).
Qed.

Lemma expand_maps seg row f o :
  (row, f, o) ∈ expand seg ↔ seg_maps seg row f o.
Proof.
  unfold expand, seg_maps. rewrite list_elem_of_fmap. setoid_rewrite elem_of_seqZ. split.
  - intros (i&[= -> -> ->]&?). lia.
  - intros (?&->&->). exists (row - start_row_id seg). split; [repeat f_equal; lia|lia].
Qed.
Lemma expand_concat segs row f o :
  (row, f, o) ∈ concat (expand <$> segs) ↔ ∃ seg, seg ∈ segs ∧ seg_maps seg row f o.
Proof.
  rewrite list_elem_of_In, in_concat. setoid_rewrite <-list_elem_of_In. split.
  - intros (l&(seg&->&?)%list_elem_of_fmap&?%expand_maps). eauto.
  - intros (seg&?&?). exists (expand seg). split; [apply list_elem_of_fmap; eauto|].
    by apply expand_maps.
Qed.

(** Strictly increasing rows give non-overlapping segments. *)
Lemma segments_sorted segs :
  Forall seg_ok segs → StronglySorted Z.lt (lr_row <$> concat (expand <$> segs)) →
  StronglySorted (λ a b, start_row_id a + seg_len a <= start_row_id b) segs.
Proof.
  induction 1 as [|s segs Hs Hsegs IH]; [constructor|].
  rewrite fmap_cons, concat_cons, fmap_app. intros Hsort.
  assert (∀ x y, x ∈ (lr_row <$> expand s) → y ∈ (lr_row <$> concat (expand <$> segs)) → x < y)
    as Hlt.
  { clear -Hsort. induction (lr_row <$> expand s) as [|z l IH]; [set_solver|].
    inversion Hsort as [|?? Hs' Hz]; subst. intros x y [->|Hx]%elem_of_cons Hy.
    - rewrite Forall_forall in Hz. apply Hz, elem_of_app. by right.
    - by apply IH. }
  constructor.
  - apply IH. clear -Hsort. induction (lr_row <$> expand s) as [|z l IH]; [done|].
    apply IH. by inversion Hsort.
  - apply Forall_forall. intros s' Hs'. rewrite Forall_forall in Hsegs.
    pose proof (Hsegs s' Hs') as (?&?&_). destruct Hs as (?&?&_).
    assert (start_row_id s + seg_len s - 1 < start_row_id s'); [|lia]. apply Hlt.
    + apply list_elem_of_fmap.
      exists (start_row_id s + (seg_len s - 1), seg_fragment_id s, start_offset s + (seg_len s - 1)).
      split; [cbn; lia|]. apply expand_maps. unfold seg_maps. lia.
    + apply list_elem_of_fmap. exists (start_row_id s', seg_fragment_id s', start_offset s').
      split; [done|]. apply expand_concat. exists s'. split; [done|]. unfold seg_maps. lia.
Qed.

Lemma coalesce_wf live :
  Forall row_ok live → StronglySorted Z.lt (lr_row <$> live) → base_wf (coalesce live).
Proof.
  intros Hok Hs. destruct (coalesce_spec live Hok) as [Hsegs E]. split.
  - eapply Forall_impl; [exact Hsegs|apply seg_ok_fits].
  - apply segments_sorted; [done|]. by rewrite E.
Qed.

(** ** The duplicate check *)

Lemma sorted_no_duplicate live :
  key_sorted lr_row live → find_duplicate live = None →
  StronglySorted Z.lt (lr_row <$> live).
Proof.
  unfold key_sorted, find_duplicate. intros Hs Hf.
  destruct (find_first _ _) eqn:E; [done|]. clear Hf. apply find_none_Forall in E.
  apply Sorted_StronglySorted; [intros ???; lia|].
  induction Hs as [|a [|b l] Hl IH Ha]; [constructor|repeat constructor|].
  rewrite windows2_cons in E. inversion E as [|?? Hab El]; subst. simpl in Hab. zbool.
  constructor; [by apply IH|]. constructor. apply Forall_inv in Ha. lia.
Qed.
Lemma find_duplicate_Some live id :
  find_duplicate live = Some id → ¬ NoDup (lr_row <$> live).
Proof.
  unfold find_duplicate. destruct (find_first _ _) as [[a b]|] eqn:E; [|done]. intros _ Hn.
  apply List.find_some in E as [Hin Hab]. simpl in Hab. zbool. apply list_elem_of_In in Hin.
  induction live as [|x [|y live] IH]; [by apply elem_of_nil in Hin..|].
  rewrite windows2_cons in Hin. rewrite fmap_cons in Hn. inversion Hn as [|?? Hx Hn']; subst.
  apply elem_of_cons in Hin as [[= -> ->]|Hin]; [|by apply IH].
  apply Hx. rewrite Hab. by constructor.
Qed.

(** ** The live rows of a table *)

Section live.
Context `{!SerdeJson} {B : Type} `{!RoaringBitmap B}.

Definition frag_loaded (fs : gmap string bytes) (table : string) (e : RowGroupEntry)
    (md : RowGroupMeta * option (DeletionVector B)) : Prop :=
  fs !! (table +:+ "/" +:+ rg_meta e) ≫= from_slice = Some (md.1)
  ∧ match rg_deletes e with
    | Some d => ∃ b dv, fs !! (table +:+ "/" +:+ d) = Some b ∧ dv_deserialize b = Ok dv
                        ∧ md.2 = Some dv
    | None => md.2 = None
    end.
Definition frag_ids (meta : RowGroupMeta) : list u64 := concat (segment_ids <$> rm_row_ids meta).
Definition deleted (dv : option (DeletionVector B)) (o : u32) : bool :=
  match dv with Some d => dv_contains d o | None => false end.
Definition table_rows (es : list RowGroupEntry)
    (mds : list (RowGroupMeta * option (DeletionVector B))) : list live_row :=
  concat (zip_with (λ e md, walk md.2 (rg_fragment_id e) 0 (frag_ids md.1)) es mds).

(** Every fragment has fewer than [2^32] rows, and ids below [u64::MAX]. *)
Definition rows_fit (es : list RowGroupEntry)
    (mds : list (RowGroupMeta * option (DeletionVector B))) : Prop :=
  Forall2 (λ e md, in_u64 (rg_fragment_id e) ∧ len (frag_ids md.1) < 2 ^ 32
                   ∧ Forall (λ id, 0 <= id < 2 ^ 64 - 1) (frag_ids md.1)) es mds.

Lemma elem_of_walk dv f off ids row f' o :
  0 <= off → off + len ids < 2 ^ 32 →
  (row, f', o) ∈ walk dv f off ids ↔
  f' = f ∧ off <= o ∧ ids !! Z.to_nat (o - off) = Some row ∧ deleted dv o = false.
Proof.
  unfold len. revert off. induction ids as [|id ids IH]; intros off Ho Hl; cbn [walk].
  { split; [by intros ?%elem_of_nil|]. by intros (_&_&?&_). }
  cbn [length] in Hl. rewrite wrap32_small by (unfold in_u32; lia).
  specialize (IH (off + 1) ltac:(lia) ltac:(lia)).
  assert ((f' = f ∧ off <= o ∧ (id :: ids) !! Z.to_nat (o - off) = Some row ∧ deleted dv o = false)
    ↔ (f' = f ∧ o = off ∧ row = id ∧ deleted dv off = false)
      ∨ (f' = f ∧ off + 1 <= o ∧ ids !! Z.to_nat (o - (off + 1)) = Some row ∧ deleted dv o = false))
    as ->.
  { destruct (decide (o = off)) as [->|Hne].
    - rewrite Z.sub_diag. simpl. split; [|naive_solver lia].
      intros (?&?&[= ->]&?). by left.
    - destruct (decide (off < o)) as [Hlt|]; [|naive_solver lia].
      replace (Z.to_nat (o - off)) with (S (Z.to_nat (o - (off + 1)))) by lia.
      simpl. naive_solver lia. }
  rewrite <-IH. fold (deleted dv off). destruct (deleted dv off) eqn:Hd.
  - naive_solver.
  - rewrite elem_of_cons. naive_solver.
Qed.

Lemma elem_of_table_rows es mds row f o :
  rows_fit es mds →
  (row, f, o) ∈ table_rows es mds ↔
  ∃ i e md, es !! i = Some e ∧ mds !! i = Some md ∧ f = rg_fragment_id e ∧ 0 <= o
    ∧ frag_ids md.1 !! Z.to_nat o = Some row ∧ deleted md.2 o = false.
Proof.
  unfold table_rows. induction 1 as [|e md es mds (_&Hl&_) Hr IH]; cbn [zip_with concat].
  { split; [by intros ?%elem_of_nil|]. by intros (i&e&md&?&_). }
  rewrite elem_of_app, IH, elem_of_walk by lia. rewrite Z.sub_0_r. split.
  - intros [(->&?&?&?)|(i&e'&md'&?)]; [by exists 0%nat, e, md|by exists (S i), e', md'].
  - intros ([|i]&e'&md'&He&Hm&->&?&?&?); simpl in *; simplify_eq; [by left|right].
    by exists i, e', md'.
Qed.

Lemma table_rows_ok es mds : rows_fit es mds → Forall row_ok (table_rows es mds).
Proof.
  intros Hr. apply Forall_forall. intros [[row f] o] Hin.
  apply elem_of_table_rows in Hin as (i&e&md&He&Hm&->&Ho&Hid&_); [|done].
  pose proof (Forall2_lookup_lr _ _ _ _ _ _ Hr He Hm) as (?&Hl&Hids).
  rewrite Forall_lookup in Hids. specialize (Hids _ _ Hid).
  apply lookup_lt_Some in Hid. unfold len in Hl. unfold row_ok, lr_row, lr_frag, lr_off. simpl.
  split; [lia|]. split; [done|]. lia.
Qed.
End live.

Section derive.
Context `{!SerdeJson} {B : Type} `{!RoaringBitmap B} {St : Type} `{!Storage St, !StorageLaws St}.
Implicit Types s : St.

Definition paths_clean (table : string) (m : Manifest) : Prop :=
  Forall (λ e, clean (table +:+ "/" +:+ rg_meta e)
               ∧ ∀ d, rg_deletes e = Some d → clean (table +:+ "/" +:+ d)) (mf_row_groups m).

Lemma fragment_rows_eq table e md s :
  clean (table +:+ "/" +:+ rg_meta e) →
  (∀ d, rg_deletes e = Some d → clean (table +:+ "/" +:+ d)) →
  frag_loaded (B:=B) (files s) table e md →
  fragment_rows (B:=B) table e s
  = (Ok (walk md.2 (rg_fragment_id e) 0 (frag_ids md.1)), s).
Proof.
  intros Hm Hd [Hmeta Hdv]. unfold fragment_rows.
  apply bind_Some in Hmeta as (b&Hb&Hmeta).
  rewrite (m_bind_ok _ _ s b s) by (rewrite st_read_clean by done; unfold read_result; by rewrite Hb).
  unfold m_bind at 1, m_lift at 1. rewrite Hmeta. cbn [of_option].
  destruct (rg_deletes e) as [d|].
  - destruct Hdv as (db&dv&Hdb&Hdes&->).
    rewrite (m_bind_ok _ _ s (Some dv) s); [done|].
    rewrite (m_bind_ok _ _ s db s)
      by (rewrite st_read_clean by auto; unfold read_result; by rewrite Hdb).
    unfold m_lift. by rewrite Hdes.
  - rewrite Hdv. done.
Qed.

Lemma live_fold table es mds s acc :
  Forall (λ e, clean (table +:+ "/" +:+ rg_meta e)
               ∧ ∀ d, rg_deletes e = Some d → clean (table +:+ "/" +:+ d)) es →
  Forall2 (frag_loaded (B:=B) (files s) table) es mds →
  m_fold (λ live entry, let! rows := fragment_rows (B:=B) table entry in m_ret (live ++ rows))
    acc es s = (Ok (acc ++ table_rows es mds), s).
Proof.
  intros Hc Hl. revert acc. induction Hl as [|e md es mds He Hl IH]; intros acc; cbn [m_fold].
  { by rewrite app_nil_r. }
  inversion Hc as [|?? [Hm Hd] Hc']; subst.
  rewrite (m_bind_ok _ _ s (acc ++ walk md.2 (rg_fragment_id e) 0 (frag_ids md.1)) s).
  - rewrite IH by done. unfold table_rows. cbn [zip_with concat]. by rewrite app_assoc.
  - by rewrite (m_bind_ok _ _ _ _ _ (fragment_rows_eq table e md s Hm Hd He)).
Qed.

Lemma derive_base_eq table m mds s :
  paths_clean table m → Forall2 (frag_loaded (B:=B) (files s) table) (mf_row_groups m) mds →
  derive_base (B:=B) table m s
  = (match find_duplicate (sort_by_key lr_row (table_rows (mf_row_groups m) mds)) with
     | Some id => Err (Other ("derive_base: row_id " +:+ fmt_u64 id +:+
                          " appears more than once in the live set"))
     | None => Ok (coalesce (sort_by_key lr_row (table_rows (mf_row_groups m) mds)))
     end, s).
Proof.
  intros Hp Hl. unfold derive_base.
  rewrite (m_bind_ok _ _ _ _ _ (live_fold table _ mds s [] Hp Hl)). simpl.
  by case_match.
Qed.

Lemma derive_unique table m mds s :
  paths_clean table m → Forall2 (frag_loaded (B:=B) (files s) table) (mf_row_groups m) mds →
  rows_fit (mf_row_groups m) mds → NoDup (lr_row <$> table_rows (mf_row_groups m) mds) →
  ∃ segs, derive_base (B:=B) table m s = (Ok segs, s) ∧ base_wf segs ∧ Forall seg_ok segs
    ∧ concat (expand <$> segs) = sort_by_key lr_row (table_rows (mf_row_groups m) mds).
Proof.
  intros Hp Hl Hfit Hn. rewrite (derive_base_eq table m mds s Hp Hl).
  set (live := sort_by_key lr_row _).
  assert (Forall row_ok live) as Hok by (by apply Forall_sort_by_key, table_rows_ok).
  destruct (find_duplicate live) as [id|] eqn:E.
  { apply find_duplicate_Some in E. destruct E. unfold live. by rewrite sort_by_key_perm. }
  exists (coalesce live). split; [done|].
  split; [apply coalesce_wf; [done|apply sorted_no_duplicate; [|done]]|by apply coalesce_spec].
  apply sort_by_key_sorted.
Qed.

(** C16: On distinct live row ids derive_base yields a sorted non-overlapping base that maps
    a row id to a fragment and offset exactly when that row is at that offset of the
    fragment and not deleted; on a duplicated live row id it fails. *)
Theorem derive_base_correct table m mds s :
  paths_clean table m → Forall2 (frag_loaded (B:=B) (files s) table) (mf_row_groups m) mds →
  rows_fit (mf_row_groups m) mds →
  (NoDup (lr_row <$> table_rows (mf_row_groups m) mds) →
   ∃ segs, derive_base (B:=B) table m s = (Ok segs, s) ∧ base_wf segs
     ∧ ∀ row f o, lookup_in_base segs row = Some (f, o) ↔
         ∃ i e md, mf_row_groups m !! i = Some e ∧ mds !! i = Some md ∧ f = rg_fragment_id e
           ∧ 0 <= o ∧ frag_ids md.1 !! Z.to_nat o = Some row ∧ deleted md.2 o = false)
  ∧ (¬ NoDup (lr_row <$> table_rows (mf_row_groups m) mds) →
     ∃ e, derive_base (B:=B) table m s = (Err e, s)).
Proof.
  intros Hp Hl Hfit. split.
  - intros Hn. destruct (derive_unique table m mds s Hp Hl Hfit Hn) as (segs&E&Hwf&_&Hx).
    exists segs. split; [done|]. split; [done|]. intros row f o.
    rewrite lookup_in_base_iff by done. rewrite <-expand_concat, Hx, elem_of_sort_by_key.
    by apply elem_of_table_rows.
  - intros Hn. rewrite (derive_base_eq table m mds s Hp Hl).
    destruct (find_duplicate _) as [id|] eqn:E; [eauto|]. destruct Hn.
    apply sorted_no_duplicate in E; [|apply sort_by_key_sorted].
    rewrite <-(sort_by_key_perm lr_row).
    induction E as [|x l E IH Hx]; constructor; [|done]. intros Hin.
    rewrite Forall_forall in Hx. specialize (Hx x Hin). lia.
Qed.
End derive.

(** ** Verification *)

Lemma res_fold_unit_ok {A} (f : unit → A → res unit) l :
  res_fold f tt l = Ok tt ↔ Forall (λ x, f tt x = Ok tt) l.
Proof.
  induction l as [|x l IH]; simpl; [done|]. rewrite Forall_cons, <-IH.
  destruct (f tt x) as [[]|e|]; simpl; naive_solver.
Qed.

Lemma verify_row_ok am seg i :
  seg_ok seg → 0 <= i < seg_len seg →
  verify_row am seg i = Ok tt ↔
  AddressMap_lookup am (start_row_id seg + i) = Some (seg_fragment_id seg, start_offset seg + i).
Proof.
  intros (?&?&?&?&?&?) Hi. unfold verify_row.
  rewrite wrap64_small, wrap32_small by (unfold in_u64, in_u32; lia).
  destruct (AddressMap_lookup _ _) as [got|]; [|done]. case_decide; naive_solver.
Qed.
Lemma verify_segments_ok am segs :
  Forall seg_ok segs →
  verify_segments am segs = Ok tt ↔
  ∀ row f o, (row, f, o) ∈ concat (expand <$> segs) → AddressMap_lookup am row = Some (f, o).
Proof.
  intros Hs. unfold verify_segments. rewrite res_fold_unit_ok, Forall_forall.
  rewrite Forall_forall in Hs. split.
  - intros H row f o (seg&Hin&(Hr&->&->))%expand_concat. specialize (H seg Hin).
    apply res_fold_unit_ok in H. rewrite Forall_forall in H.
    assert (row - start_row_id seg ∈ seqZ 0 (seg_len seg)) as Hi by (apply elem_of_seqZ; lia).
    specialize (H _ Hi). apply verify_row_ok in H; [|by apply Hs|lia].
    rewrite <-H. f_equal. lia.
  - intros H seg Hin. apply res_fold_unit_ok, Forall_forall. intros i Hi%elem_of_seqZ.
    apply verify_row_ok; [by apply Hs|lia|]. apply H, expand_concat. exists seg.
    split; [done|]. unfold seg_maps. split; [lia|]. split; [done|lia].
Qed.

Definition set_rowindex (g : option RowIndexRef) (m : Manifest) : Manifest :=
  mkManifest (mf_format_version m) (mf_sequence m) (mf_schema_id m) (mf_row_groups m)
    (mf_row_counts m) (mf_partition_values m) (mf_next_row_id m) (mf_next_fragment_id m)
    g (mf_index_generations m) (mf_checkpoint m) (mf_parent_hash m) (mf_committed_at m)
    (mf_checksum m).

Definition rowindex_path (table : string) (seq : u64) : string :=
  table +:+ "/" +:+ ("_rowindex/base__v" +:+ fmt_09 seq +:+ ".idx").
Lemma rowindex_path_clean table seq : clean table → clean (rowindex_path table seq).
Proof.
  intros Ht. unfold rowindex_path. apply clean_join; [done|].
  change ("_rowindex/base__v" +:+ fmt_09 seq +:+ ".idx")
    with ("_rowindex" +:+ "/" +:+ ("base__v" +:+ fmt_09 seq +:+ ".idx")).
  apply clean_join; [by apply clean_bool|]. apply file_piece_clean.
  change ("base__v" +:+ fmt_09 seq +:+ ".idx")
    with ("base__v" +:+ (fmt_09 seq +:+ String "."%char "idx")).
  rewrite string_app_assoc. apply file_piece_suffix; [|done|].
  - rewrite contains_char_app, fmt_09_no_char by done. done.
  - right. rewrite !string_length_app. simpl. lia.
Qed.

Section verify.
Context `{!SerdeJson} {B : Type} `{!RoaringBitmap B} {St : Type} `{!Storage St, !StorageLaws St}.
Implicit Types s : St.

Lemma verify_ok table m gen am mds s :
  paths_clean table m → Forall2 (frag_loaded (B:=B) (files s) table) (mf_row_groups m) mds →
  rows_fit (mf_row_groups m) mds → NoDup (lr_row <$> table_rows (mf_row_groups m) mds) →
  mf_rowindex_generation m = Some gen → AddressMap_open table gen s = (Ok am, s) →
  verify (B:=B) table m s = (Ok tt, s) ↔
  ∀ row f o, (row, f, o) ∈ table_rows (mf_row_groups m) mds → AddressMap_lookup am row = Some (f, o).
Proof.
  intros Hp Hl Hfit Hn Hg Ham.
  destruct (derive_unique table m mds s Hp Hl Hfit Hn) as (segs&E&_&Hok&Hx).
  unfold verify. rewrite (m_bind_ok _ _ _ _ _ E), Hg, (m_bind_ok _ _ _ _ _ Ham).
  unfold m_lift. trans (verify_segments am segs = Ok tt); [split; [by intros [= ->]|by intros ->]|].
  rewrite verify_segments_ok by done. rewrite Hx. by setoid_rewrite elem_of_sort_by_key.
Qed.

(** C17: Verification of a manifest's row index succeeds exactly when the stored index maps
    every live row of the table to its fragment and physical offset. *)
Theorem verify_iff table m gen am mds s :
  paths_clean table m → Forall2 (frag_loaded (B:=B) (files s) table) (mf_row_groups m) mds →
  rows_fit (mf_row_groups m) mds → NoDup (lr_row <$> table_rows (mf_row_groups m) mds) →
  mf_rowindex_generation m = Some gen → AddressMap_open table gen s = (Ok am, s) →
  verify (B:=B) table m s = (Ok tt, s) ↔
  ∀ i e md o row, mf_row_groups m !! i = Some e → mds !! i = Some md → 0 <= o →
    frag_ids md.1 !! Z.to_nat o = Some row → deleted md.2 o = false →
    AddressMap_lookup am row = Some (rg_fragment_id e, o).
Proof.
  intros Hp Hl Hfit Hn Hg Ham. rewrite (verify_ok table m gen am mds s) by done.
  setoid_rewrite (elem_of_table_rows _ _ _ _ _ Hfit). naive_solver.
Qed.

Lemma frag_loaded_insert fs table e md p b :
  table +:+ "/" +:+ rg_meta e ≠ p → (∀ d, rg_deletes e = Some d → table +:+ "/" +:+ d ≠ p) →
  frag_loaded (B:=B) fs table e md → frag_loaded (B:=B) (<[p:=b]> fs) table e md.
Proof.
  intros Hm Hd [Hmeta Hdv]. split; [by rewrite lookup_insert_ne|].
  destruct (rg_deletes e) as [d|]; [|done]. destruct Hdv as (b'&dv&?&?&?).
  exists b', dv. by rewrite lookup_insert_ne by (by apply not_eq_sym, Hd).
Qed.

(** C15: Rebuilding the row index writes only its own file, and verification of the manifest
    with the rebuilt generation succeeds. *)
Theorem rebuild_then_verify table m mds s :
  clean table → paths_clean table m →
  Forall2 (frag_loaded (B:=B) (files s) table) (mf_row_groups m) mds →
  rows_fit (mf_row_groups m) mds → NoDup (lr_row <$> table_rows (mf_row_groups m) mds) →
  36 + 36 * len (table_rows (mf_row_groups m) mds) < 2 ^ 63 →
  Forall (λ e, table +:+ "/" +:+ rg_meta e ≠ rowindex_path table (mf_sequence m)
               ∧ ∀ d, rg_deletes e = Some d →
                      table +:+ "/" +:+ d ≠ rowindex_path table (mf_sequence m))
    (mf_row_groups m) →
  ∃ gen s', rebuild (B:=B) table m s = (Ok gen, s')
    ∧ (∀ p, p ≠ rowindex_path table (mf_sequence m) → files s' !! p = files s !! p)
    ∧ verify (B:=B) table (set_rowindex (Some gen) m) s' = (Ok tt, s').
Proof.
  intros Ht Hp Hl Hfit Hn Hsz Hne.
  destruct (derive_unique table m mds s Hp Hl Hfit Hn) as (segs&E&Hwf&Hok&Hx).
  set (path := rowindex_path table (mf_sequence m)) in *.
  pose proof (rowindex_path_clean table (mf_sequence m) Ht) as Hpc.
  destruct (st_write_spec path path (encode_idx segs) s (clean_validate _ Hpc)) as (s'&Ew&Hfs).
  eexists _, s'. split; [|split].
  - unfold rebuild. rewrite (m_bind_ok _ _ _ _ _ E). fold (rowindex_path table (mf_sequence m)).
    fold path. rewrite (m_bind_ok _ _ _ _ _ Ew). done.
  - intros p Hpne. rewrite Hfs. by rewrite lookup_insert_ne by done.
  - assert (Forall2 (frag_loaded (B:=B) (files s') table) (mf_row_groups m) mds) as Hl'.
    { rewrite Hfs. clear -Hl Hne. induction Hl as [|e md es mds He Hl IH]; constructor.
      - inversion Hne as [|?? [? ?]]; subst. by apply frag_loaded_insert.
      - apply IH. by inversion Hne. }
    destruct (derive_unique table m mds s' Hp Hl' Hfit Hn) as (segs'&E'&_&_&Hx').
    assert (segs' = segs) as ->.
    { rewrite (derive_base_eq table m mds s Hp Hl) in E.
      rewrite (derive_base_eq table m mds s' Hp Hl') in E'. case_match; congruence. }
    unfold verify. change (derive_base table (set_rowindex _ m)) with (derive_base (B:=B) (St:=St) table m).
    rewrite (m_bind_ok _ _ _ _ _ E'). cbn [mf_rowindex_generation set_rowindex].
    assert (len segs <= len (table_rows (mf_row_groups m) mds)) as Hlen.
    { unfold len. rewrite <-(length_sort_by_key lr_row), <-Hx. clear -Hok.
      induction Hok as [|seg segs (Hs&_) _ IH]; [done|]. cbn [fmap list_fmap concat].
      rewrite length_app. unfold expand at 1. rewrite length_fmap, length_seqZ. simpl. lia. }
    assert (AddressMap_open table (mkRowIndexRef (Some ("_rowindex/base__v"
      +:+ fmt_09 (mf_sequence m) +:+ ".idx")) []) s' = (Ok (mkAddressMap segs []), s')) as Eo.
    { unfold AddressMap_open, load_segments. cbn [ri_base ri_deltas].
      fold (rowindex_path table (mf_sequence m)). fold path. unfold m_bind at 1 2.
      rewrite (st_read_spec path path s' (clean_validate _ Hpc)). unfold read_result.
      rewrite Hfs, lookup_insert_eq. cbn [of_option]. unfold m_lift.
      rewrite decode_encode.
      - rewrite sort_by_key_id; [done|]. by apply base_wf_sorted.
      - destruct Hwf as [Hf _]. eapply Forall_impl; [exact Hf|]. by intros ? [].
      - unfold idx_fits. lia. }
    rewrite (m_bind_ok _ _ _ _ _ Eo). unfold m_lift. f_equal.
    apply verify_segments_ok; [done|]. intros row f o Hin%expand_concat.
    unfold AddressMap_lookup. simpl. by apply lookup_in_base_iff.
Qed.
End verify.
