(* ===== verification/LruCache.v ===== *)
(** * The process-wide LRU caches

    [meta_cache.rs] ([MetaCache]), the [AggStateCache] of [agg_cache.rs] and the
    [ParquetMetadataCache] of [metadata_cache.rs] share one algorithm: a map, a
    queue of keys in order of use, a capacity.  A lookup takes a read lock, then,
    on a hit, a write lock to move the key to the back, so other calls may come
    in between; the interleavings are a step relation.  No code panics under the
    locks, so the branches for a poisoned lock are unreachable. *)

From S2P Require Import Prelude Bytes Text OrdMap Json RowGroupMeta AggCache.
From stdpp Require Import gmap.

#[local] Open Scope list_scope.
#[local] Open Scope Z_scope.

(** ** The shared algorithm *)

Record CacheInner (K V : Type) `{Countable K} := mkCache {
  ci_capacity : usize;
  ci_entries : gmap K V;
  ci_order : list K;
}.
Arguments mkCache {K V _ _} _ _ _.
Arguments ci_capacity {K V _ _} _.
Arguments ci_entries {K V _ _} _.
Arguments ci_order {K V _ _} _.

Section lru.
Context {K V : Type} `{Countable K}.
Implicit Types c : CacheInner K V.

Definition cache_new (capacity : usize) : CacheInner K V := mkCache capacity ∅ [].

(** [get_or_init] of the process-wide cell. *)
Definition global_with_capacity (cell : option (CacheInner K V)) (capacity : usize) : CacheInner K V :=
  match cell with Some c => c | None => cache_new capacity end.

(** The lookup under the read lock, and the promotion under the write lock. *)
Definition cache_read c (key : K) : option V := ci_entries c !! key.
Definition promote c (key : K) : CacheInner K V :=
  match ci_entries c !! key with
  | Some _ => mkCache (ci_capacity c) (ci_entries c) (filter (λ k, k ≠ key) (ci_order c) ++ [key])
  | None => c
  end.
Definition cache_get c (key : K) : option V * CacheInner K V :=
  match cache_read c key with
  | Some v => (Some v, promote c key)
  | None => (None, c)
  end.

Definition cache_put c (key : K) (v : V) : CacheInner K V :=
  if ci_capacity c =? 0 then c else
  let existed := bool_decide (is_Some (ci_entries c !! key)) in
  let order := (if existed then filter (λ k, k ≠ key) (ci_order c) else ci_order c) ++ [key] in
  let entries := <[key := v]> (ci_entries c) in
  if negb existed && (ci_capacity c <? len order) then
    match order with
    | evicted :: order' => mkCache (ci_capacity c) (delete evicted entries) order'
    | [] => mkCache (ci_capacity c) entries order
    end
  else mkCache (ci_capacity c) entries order.

Definition cache_clear c : CacheInner K V := mkCache (ci_capacity c) ∅ [].
Definition cache_len c : usize := Z.of_nat (size (ci_entries c)).
Definition cache_is_empty c : bool := cache_len c =? 0.
End lru.

(** ** The three caches *)

Abbreviation MetaCache := (CacheInner string RowGroupMeta).

Record AggStateCache := mkAggCache {
  ac_inner : CacheInner string FragmentAggState;
  ac_hits : u64;
  ac_misses : u64;
}.
Definition AggStateCache_new (capacity : usize) : AggStateCache := mkAggCache (cache_new capacity) 0 0.
Definition AggStateCache_get (c : AggStateCache) (path : string)
    : option FragmentAggState * AggStateCache :=
  match cache_read (ac_inner c) path with
  | Some v => (Some v, mkAggCache (promote (ac_inner c) path) (wrap64 (ac_hits c + 1)) (ac_misses c))
  | None => (None, mkAggCache (ac_inner c) (ac_hits c) (wrap64 (ac_misses c + 1)))
  end.
Definition AggStateCache_put (c : AggStateCache) (path : string) (state : FragmentAggState)
    : AggStateCache :=
  mkAggCache (cache_put (ac_inner c) path state) (ac_hits c) (ac_misses c).
Definition AggStateCache_clear (c : AggStateCache) : AggStateCache :=
  mkAggCache (cache_clear (ac_inner c)) (ac_hits c) (ac_misses c).
Definition stats (c : AggStateCache) : u64 * u64 := (ac_hits c, ac_misses c).
Definition reset_stats (c : AggStateCache) : AggStateCache := mkAggCache (ac_inner c) 0 0.

(** [CacheKey]: compared, and hashed, by path and checksum.  [MD] is the decoded
    [ParquetMetaData]. *)
Abbreviation CacheKey := (string * string)%type.
Record CachedEntry (MD : Type) := mkCached { ce_metadata : MD; ce_metadata_len : u64 }.
Arguments mkCached {MD} _ _.
Arguments ce_metadata {MD} _.
Arguments ce_metadata_len {MD} _.

Section parquet_metadata.
Context {MD : Type}.
Abbreviation ParquetMetadataCache := (CacheInner CacheKey (CachedEntry MD)).
Definition get_entry (c : ParquetMetadataCache) (path checksum : string)
    : option (CachedEntry MD) * ParquetMetadataCache := cache_get c (path, checksum).
Definition get (c : ParquetMetadataCache) (path checksum : string)
    : option MD * ParquetMetadataCache := prod_map (fmap ce_metadata) id (get_entry c path checksum).
Definition get_with_footer (c : ParquetMetadataCache) (path checksum : string)
    : option (MD * u64) * ParquetMetadataCache :=
  prod_map (fmap (λ e, (ce_metadata e, ce_metadata_len e))) id (get_entry c path checksum).
Definition put_metadata (c : ParquetMetadataCache) (path checksum : string) (metadata : MD)
    (metadata_len : u64) : ParquetMetadataCache :=
  cache_put c (path, checksum) (mkCached metadata metadata_len).
End parquet_metadata.

(** ** Interleaved calls *)

Section steps.
Context {K V T : Type} `{Countable K, Countable T}.
Implicit Types c : CacheInner K V.

(** The cache and the calls between their two lock sections: the key a thread is
    about to promote. *)
Record Shared := mkShared { sh_cache : CacheInner K V; sh_pending : gmap T K }.

(** What a step shows to its caller. *)
Inductive Event :=
  | ERead (t : T) (key : K) (r : option V)
  | EPromote (t : T) (moved : option K)
  | EPut (key : K) (v : V)
  | EClear.

Inductive step : Shared → Event → Shared → Prop :=
  | step_read_hit c p t key v :
      p !! t = None → cache_read c key = Some v →
      step (mkShared c p) (ERead t key (Some v)) (mkShared c (<[t := key]> p))
  | step_read_miss c p t key :
      p !! t = None → cache_read c key = None →
      step (mkShared c p) (ERead t key None) (mkShared c p)
  | step_promote c p t key :
      p !! t = Some key →
      step (mkShared c p) (EPromote t ((λ _, key) <$> ci_entries c !! key))
        (mkShared (promote c key) (delete t p))
  | step_put c p key v :
      step (mkShared c p) (EPut key v) (mkShared (cache_put c key v) p)
  | step_clear c p :
      step (mkShared c p) EClear (mkShared (cache_clear c) p).

Inductive cache_run (s0 : Shared) : list Event → Shared → Prop :=
  | cache_run_nil : cache_run s0 [] s0
  | cache_run_snoc es s e s' : cache_run s0 es s → step s e s' → cache_run s0 (es ++ [e]) s'.

(** The value last put under a key. *)
Definition last_put (es : list Event) (key : K) : option V :=
  foldl (λ r e, match e with EPut k v => if decide (k = key) then Some v else r | _ => r end) None es.

(** The keys in order of their last use: put, or moved by a lookup. *)
Definition use (l : list K) (key : K) : list K := filter (λ k, k ≠ key) l ++ [key].
Definition uses (es : list Event) : list K :=
  foldl (λ l e, match e with
                | EPut k _ | EPromote _ (Some k) => use l k
                | EClear => []
                | _ => l
                end) [] es.

(** ** Invariants *)

(** The queue lists the keys of the map, each once, and respects the capacity. *)
Definition cache_wf (c : CacheInner K V) : Prop :=
  0 <= ci_capacity c ∧ NoDup (ci_order c) ∧ len (ci_order c) <= ci_capacity c
  ∧ ∀ k, k ∈ ci_order c ↔ is_Some (ci_entries c !! k).

Lemma cache_new_wf n : 0 <= n → cache_wf (cache_new n).
Proof.
  intros. split; [done|]. split; [constructor|]. split; [done|]. intros k. simpl.
  rewrite lookup_empty, is_Some_alt. set_solver.
Qed.
Lemma len_move (l : list K) k :
  NoDup l → k ∈ l → len (filter (λ x, x ≠ k) l ++ [k]) = len l.
Proof.
  intros Hl Hk. assert (filter (λ x, x ≠ k) l ++ [k] ≡ₚ l) as E.
  { apply NoDup_Permutation; [|done|].
    - apply NoDup_app. split; [by apply NoDup_filter|]. split; [|apply NoDup_singleton].
      intros x Hx%list_elem_of_filter. set_solver.
    - intros x. rewrite elem_of_app, list_elem_of_filter, list_elem_of_singleton.
      destruct (decide (x = k)) as [->|]; naive_solver. }
  unfold len. by rewrite E.
Qed.
Lemma elem_of_move (l : list K) k x : x ∈ filter (λ x, x ≠ k) l ++ [k] ↔ x = k ∨ x ∈ l.
Proof.
  rewrite elem_of_app, list_elem_of_filter, list_elem_of_singleton.
  destruct (decide (x = k)); naive_solver.
Qed.
Lemma NoDup_move (l : list K) k : NoDup l → NoDup (filter (λ x, x ≠ k) l ++ [k]).
Proof.
  intros. apply NoDup_app. split; [by apply NoDup_filter|]. split; [|apply NoDup_singleton].
  intros x [? _]%list_elem_of_filter. by rewrite list_elem_of_singleton.
Qed.

Lemma promote_wf c key : cache_wf c → cache_wf (promote c key).
Proof.
  intros (Hcap&Hnd&Hlen&Hdom). unfold promote. destruct (ci_entries c !! key) as [v|] eqn:E; [|done].
  assert (key ∈ ci_order c) as Hin by by apply Hdom.
  split; [done|]. split; [by apply NoDup_move|]. split; [cbn [ci_order ci_capacity]; by rewrite len_move|].
  intros k. cbn [ci_order ci_entries]. rewrite elem_of_move, Hdom.
  split; [|by right]. intros [->|?]; [by rewrite E|done].
Qed.

Lemma cache_put_wf c key v : cache_wf c → cache_wf (cache_put c key v).
Proof.
  intros (Hcap&Hnd&Hlen&Hdom). unfold cache_put. destruct (ci_capacity c =? 0) eqn:Ec; [done|]. zbool.
  case_bool_decide as Hex; cbn [negb andb].
  - assert (key ∈ ci_order c) as Hin by by apply Hdom.
    split; [done|]. split; [by apply NoDup_move|]. split; [cbn [ci_order ci_capacity]; by rewrite len_move|].
    intros k. cbn [ci_order ci_entries]. rewrite elem_of_move, Hdom, lookup_insert_is_Some.
    destruct (decide (key = k)); naive_solver.
  - assert (key ∉ ci_order c) as Hnin by by rewrite Hdom.
    assert (NoDup (ci_order c ++ [key])) as Hnd'.
    { apply NoDup_app. split; [done|]. split; [set_solver|apply NoDup_singleton]. }
    assert (∀ k, k ∈ ci_order c ++ [key] ↔ is_Some (<[key := v]> (ci_entries c) !! k)) as Hdom'.
    { intros k. rewrite elem_of_app, list_elem_of_singleton, Hdom, lookup_insert_is_Some.
      destruct (decide (key = k)); naive_solver. }
    destruct (ci_capacity c <? _) eqn:El; zbool; [|done].
    destruct (ci_order c ++ [key]) as [|x order] eqn:Eo; [by destruct (ci_order c)|].
    apply NoDup_cons in Hnd' as [Hx Hnd']. split; [done|]. split; [done|].
    split.
    { cbn [ci_order ci_capacity]. assert (len (x :: order) = len (ci_order c) + 1) as E
        by (rewrite <- Eo, len_app; done). unfold len in *. simpl in E. lia. }
    intros k. cbn [ci_order ci_entries]. specialize (Hdom' k). rewrite elem_of_cons in Hdom'.
    destruct (decide (x = k)) as [->|Hne].
    + rewrite lookup_delete_eq. split; [done|]. by intros [? [=]].
    + rewrite lookup_delete_ne by done. rewrite <- Hdom'. split; [by right|]. intros [?|?]; congruence.
Qed.

(** ** What every interleaving computes *)

(** The queue is the tail of the uses that fits. *)
Definition recent (c : CacheInner K V) (U : list K) : Prop :=
  NoDup U ∧ ∃ A, U = A ++ ci_order c ∧ (A ≠ [] → len (ci_order c) = ci_capacity c).
(** What is cached is what was last put. *)
Definition coherent (c : CacheInner K V) (es : list Event) : Prop :=
  ∀ k v, ci_entries c !! k = Some v → last_put es k = Some v.

Lemma recent_promote c U key v :
  cache_wf c → recent c U → ci_entries c !! key = Some v → recent (promote c key) (use U key).
Proof.
  intros (Hcap&Hnd&Hlen&Hdom) (HU&A&->&HA) E. unfold promote. rewrite E.
  assert (key ∈ ci_order c) as Hin by (apply Hdom; by rewrite E).
  split; [by apply NoDup_move|]. exists A. cbn [ci_order ci_capacity]. split.
  - unfold use. rewrite filter_app, <- app_assoc. f_equal. apply filter_all.
    intros x Hx ->. apply NoDup_app in HU as (_&HU&_). by apply (HU key).
  - intros ?. by rewrite len_move, HA.
Qed.

Lemma recent_put c U key v :
  cache_wf c → recent c U → recent (cache_put c key v) (use U key).
Proof.
  intros (Hcap&Hnd&Hlen&Hdom) (HU&A&->&HA). unfold cache_put. split; [by apply NoDup_move|].
  destruct (ci_capacity c =? 0) eqn:Ec; zbool.
  { exists (use (A ++ ci_order c) key). rewrite Ec in *.
    assert (ci_order c = []) as -> by (destruct (ci_order c); [done|unfold len in Hlen; simpl in Hlen; lia]).
    by rewrite !app_nil_r. }
  pose proof HU as (_&Hdisj&_)%NoDup_app.
  case_bool_decide as Hex; cbn [negb andb].
  - assert (key ∈ ci_order c) as Hin by by apply Hdom.
    exists A. cbn [ci_order ci_capacity]. split.
    + unfold use. rewrite filter_app, <- app_assoc. f_equal. apply filter_all.
      intros x Hx ->. by apply (Hdisj key).
    + intros ?. by rewrite len_move, HA.
  - assert (key ∉ ci_order c) as Hnin by by rewrite Hdom.
    assert (use (A ++ ci_order c) key = filter (λ x, x ≠ key) A ++ ci_order c ++ [key]) as ->.
    { unfold use. rewrite filter_app, <- app_assoc, (filter_all _ (ci_order c)); [done|]. by intros x Hx ->. }
    assert (len (ci_order c ++ [key]) = len (ci_order c) + 1) as El by by rewrite len_app.
    destruct (ci_capacity c <? _) eqn:Ecap; zbool.
    + destruct (ci_order c ++ [key]) as [|x order] eqn:Eo; [by destruct (ci_order c)|].
      exists (filter (λ x, x ≠ key) A ++ [x]). cbn [ci_order ci_capacity].
      split; [by rewrite <- app_assoc|]. intros _. unfold len in *. cbn [length] in *. lia.
    + assert (A = []) as ->.
      { destruct A; [done|]. specialize (HA ltac:(done)). lia. }
      exists []. by split.
Qed.

Lemma coherent_put c es key v : coherent c es → coherent (cache_put c key v) (es ++ [EPut key v]) ∨ ci_capacity c = 0.
Proof.
  intros Hc. unfold cache_put. destruct (ci_capacity c =? 0) eqn:Ec; zbool; [by right|left].
  intros k w Hk. unfold last_put. rewrite foldl_app. cbn [foldl].
  assert (<[key:=v]> (ci_entries c) !! k = Some w →
          (if decide (key = k) then Some v else last_put es k) = Some w) as Hins.
  { destruct (decide (key = k)) as [->|]; [by rewrite lookup_insert_eq|].
    rewrite lookup_insert_ne by done. apply Hc. }
  apply Hins. revert Hk. repeat case_match; cbn [ci_entries]; try (by intros ?);
    rewrite lookup_delete_Some; by intros [_ ?].
Qed.
Lemma coherent_other c es e :
  coherent c es → (∀ k v, e ≠ EPut k v) → coherent c (es ++ [e]).
Proof.
  intros Hc He k v Hk. unfold last_put. rewrite foldl_app. cbn [foldl].
  destruct e; try (by apply Hc). by destruct (He key v0).
Qed.

Lemma promote_entries c key : ci_entries (promote c key) = ci_entries c.
Proof. unfold promote. by case_match. Qed.
Lemma cache_put_capacity c key v : ci_capacity (cache_put c key v) = ci_capacity c.
Proof. unfold cache_put. by repeat case_match. Qed.
Lemma uses_snoc es e :
  uses (es ++ [e]) = match e with
                     | EPut k _ | EPromote _ (Some k) => use (uses es) k
                     | EClear => []
                     | _ => uses es
                     end.
Proof. unfold uses. by rewrite foldl_app. Qed.

Definition state_ok (n : usize) (es : list Event) (s : Shared) : Prop :=
  ci_capacity (sh_cache s) = n ∧ cache_wf (sh_cache s) ∧ recent (sh_cache s) (uses es)
  ∧ coherent (sh_cache s) es.

Lemma step_ok n es s e s' : state_ok n es s → step s e s' → state_ok n (es ++ [e]) s'.
Proof.
  intros (Hcap&Hwf&Hrec&Hcoh) Hstep. unfold state_ok. rewrite uses_snoc.
  destruct Hstep as [c p t key v _ _|c p t key _ _|c p t key _|c p key v|c p]; cbn [sh_cache] in *.
  - split; [done|]. split; [done|]. split; [done|]. by apply coherent_other.
  - split; [done|]. split; [done|]. split; [done|]. by apply coherent_other.
  - split; [by unfold promote; case_match|]. split; [by apply promote_wf|]. split.
    + destruct (ci_entries c !! key) as [v|] eqn:E; cbn [fmap option_fmap option_map].
      * by eapply recent_promote.
      * unfold promote. by rewrite E.
    + intros k v. rewrite promote_entries. by apply coherent_other.
  - rewrite cache_put_capacity. split; [done|]. split; [by apply cache_put_wf|].
    split; [by apply recent_put|].
    destruct (coherent_put c es key v Hcoh) as [?|E0]; [done|].
    (* a disabled cache is empty *)
    intros k w Hk. exfalso. destruct (cache_put_wf c key v Hwf) as (_&_&Hlen&Hdom).
    assert (k ∈ ci_order (cache_put c key v)) as Hin by by apply Hdom; eexists.
    rewrite cache_put_capacity, E0 in Hlen. destruct (ci_order _); [set_solver|].
    unfold len in Hlen. simpl in Hlen. lia.
  - split; [done|]. destruct Hwf as (Hc&_). split.
    { split; [done|]. split; [constructor|]. split; [done|]. intros k. simpl.
      rewrite lookup_empty, is_Some_alt. set_solver. }
    split; [split; [constructor|by exists []]|]. intros k v. simpl. by rewrite lookup_empty.
Qed.

Lemma run_ok n es s :
  0 <= n → cache_run (mkShared (cache_new n) ∅) es s → state_ok n es s.
Proof.
  intros Hn. induction 1 as [|es s e s' _ IH Hstep]; [|by eapply step_ok].
  split; [done|]. split; [by apply cache_new_wf|]. split; [split; [constructor|by exists []]|].
  intros k v. simpl. by rewrite lookup_empty.
Qed.
Lemma run_prefix s0 es s :
  cache_run s0 es s → ∀ es1 e es2, es = es1 ++ e :: es2 →
  ∃ s1 s2, cache_run s0 es1 s1 ∧ step s1 e s2.
Proof.
  induction 1 as [|es s e s' Hrun IH Hstep]; intros es1 e1 es2 E; [by destruct es1|].
  destruct es2 as [|e2 es2 _] using rev_ind.
  - apply app_inj_tail in E as [-> ->]. eauto.
  - rewrite app_comm_cons, app_assoc in E. apply app_inj_tail in E as [-> ->]. eauto.
Qed.

(** C35: Under every interleaving of lookups, promotions, puts and clears, the queue of a
    cache is the keys most recently used, as many as fit; its entries are the last values
    put under them; and every hit returns the value last put. *)
Theorem lru_interleavings n es s :
  0 <= n → cache_run (mkShared (cache_new n) ∅) es s →
  let c := sh_cache s in
  let U := uses es in
  ci_order c = drop (length U - Z.to_nat n) U ∧ Z.of_nat (size (ci_entries c)) <= n
  ∧ (∀ k, ci_entries c !! k = if decide (k ∈ ci_order c) then last_put es k else None)
  ∧ ∀ es1 t k v es2, es = es1 ++ ERead t k (Some v) :: es2 → last_put es1 k = Some v.
Proof.
  intros Hn Hrun c U. destruct (run_ok n es s Hn Hrun) as (Hcap&Hwf&Hrec&Hcoh).
  fold c U in Hcap, Hwf, Hrec, Hcoh. destruct Hwf as (_&Hnd&Hlen&Hdom). rewrite Hcap in Hlen.
  split; [|split; [|split]].
  - destruct Hrec as (_&A&->&HA). rewrite length_app. destruct (decide (A = [])) as [->|HneA].
    + replace (_ - _)%nat with 0%nat; [done|]. unfold len in *. simpl. lia.
    + rewrite drop_app_length'; [done|]. specialize (HA HneA). rewrite Hcap in HA. unfold len in *. lia.
  - assert (size (ci_entries c) = length (ci_order c)) as ->; [|done].
    rewrite <- size_dom, <- (size_list_to_set (C:=gset K) (ci_order c)) by done.
    f_equal. apply set_eq. intros k. rewrite elem_of_dom, elem_of_list_to_set. by rewrite Hdom.
  - intros k. destruct (decide (k ∈ ci_order c)) as [Hk|Hk].
    + apply Hdom in Hk as [v Hv]. rewrite Hv. symmetry. by apply Hcoh.
    + destruct (ci_entries c !! k) eqn:E; [|done]. by destruct Hk; apply Hdom; eexists.
  - intros es1 t k v es2 E. destruct (run_prefix _ _ _ Hrun _ _ _ E) as (s1&s2&Hrun1&Hstep).
    destruct (run_ok n es1 s1 Hn Hrun1) as (_&_&_&Hcoh1). inversion Hstep; subst. by apply Hcoh1.
Qed.
End steps.
