(* ===== verification/MutationWal.v ===== *)
(** * The mutation log: deferred commits, replay and checkpoint

    [mutation_wal.rs].  A record is printed straight from the struct, so its
    index-generation map appears in the iteration order of a [HashMap]; a record
    here keeps that order, and the order of a freshly filled map is the
    parameter [HashOrder]. *)

From S2P Require Import Prelude Bytes StableSort Text OrdMap Storage Json Manifest.
From Stdlib Require Import Strings.Byte.

#[local] Open Scope list_scope.
#[local] Open Scope Z_scope.

Record FragmentDelete := mkFragmentDelete {
  fdel_fragment_id : u64;
  fdel_deletes : string;
  fdel_deleted_count : u64;
}.
Record StagedArtifact := mkArtifact { sa_path : string; sa_hex : string }.

Record MutationRecord := mkRecord {
  mr_sequence : u64;
  mr_base_sequence : u64;
  mr_fragment_deletes : list FragmentDelete;
  mr_fragment_adds : list RowGroupEntry;
  mr_index_generations : list (string * IndexRef);
  mr_rowindex_generation : option RowIndexRef;
  mr_next_fragment_id : u64;
  mr_next_row_id : u64;
  mr_staged_artifacts : list StagedArtifact;
  mr_checksum : string;
}.

(** The iteration order of a map filled with these entries. *)
Class HashOrder := hash_order : list (string * IndexRef) → list (string * IndexRef).
Class HashOrderLaws `{!HashOrder} := hash_order_perm l : hash_order l ≡ₚ l.
(** [hex::decode]. *)
Class Hex := hex_decode : string → option bytes.

#[export] Instance Serde_FragmentDelete : Serde FragmentDelete := {
  to_value d := VObject
    (put "fragment_id" (fdel_fragment_id d) $ put "deletes" (fdel_deletes d) $
     put "deleted_count" (fdel_deleted_count d) []);
  of_value v :=
    m ← as_object v;
    fragment_id ← field "fragment_id" m;
    deletes ← field "deletes" m;
    deleted_count ← field "deleted_count" m;
    Some (mkFragmentDelete fragment_id deletes deleted_count);
}.
#[export] Instance Serde_StagedArtifact : Serde StagedArtifact := {
  to_value a := VObject (put "path" (sa_path a) $ put "hex" (sa_hex a) []);
  of_value v :=
    m ← as_object v;
    path ← field "path" m; hex ← field "hex" m; Some (mkArtifact path hex);
}.

(** What [serde_json::to_vec(record)] prints. *)
Definition record_value (r : MutationRecord) : Value := VObject
  (stream "sequence" (mr_sequence r) $ stream "base_sequence" (mr_base_sequence r) $
   stream "fragment_deletes" (mr_fragment_deletes r) $
   stream_if (negb (is_empty (mr_fragment_adds r))) "fragment_adds" (mr_fragment_adds r) $
   stream_if (negb (is_empty (mr_index_generations r))) "index_generations"
     (VObject (prod_map id to_value <$> mr_index_generations r)) $
   stream_some "rowindex_generation" (mr_rowindex_generation r) $
   stream_if (negb (is_zero_u64 (mr_next_fragment_id r))) "next_fragment_id"
     (mr_next_fragment_id r) $
   stream_if (negb (is_zero_u64 (mr_next_row_id r))) "next_row_id" (mr_next_row_id r) $
   stream_if (negb (is_empty (mr_staged_artifacts r))) "staged_artifacts"
     (mr_staged_artifacts r) $
   stream "checksum" (mr_checksum r) []).

(** [serde_json::from_slice::<MutationRecord>]. *)
Definition record_of_value `{!HashOrder} (v : Value) : option MutationRecord :=
  m ← as_object v;
  sequence ← field "sequence" m;
  base_sequence ← field "base_sequence" m;
  fragment_deletes ← field "fragment_deletes" m;
  fragment_adds ← field_default [] "fragment_adds" m;
  index_generations ← field_default (A:=gmap string IndexRef) ∅ "index_generations" m;
  rowindex_generation ← field_opt "rowindex_generation" m;
  next_fragment_id ← field_default 0 "next_fragment_id" m;
  next_row_id ← field_default 0 "next_row_id" m;
  staged_artifacts ← field_default [] "staged_artifacts" m;
  checksum ← field "checksum" m;
  Some (mkRecord sequence base_sequence fragment_deletes fragment_adds
          (hash_order (map_to_list index_generations)) rowindex_generation
          next_fragment_id next_row_id staged_artifacts checksum).

Definition record_with_checksum (c : string) (r : MutationRecord) : MutationRecord :=
  mkRecord (mr_sequence r) (mr_base_sequence r) (mr_fragment_deletes r) (mr_fragment_adds r)
    (mr_index_generations r) (mr_rowindex_generation r) (mr_next_fragment_id r)
    (mr_next_row_id r) (mr_staged_artifacts r) c.

Definition wal_path (table : string) : string := table +:+ "/_wal/mutations.log".

Section record.
Context `{!Sha256, !SerdeJson}.

Definition record_compute_checksum (r : MutationRecord) : string :=
  let bare := record_with_checksum "" r in
  checksum_bytes (json_to_vec (record_value bare)).
Definition record_verify (r : MutationRecord) : bool :=
  bool_decide (mr_checksum r = record_compute_checksum r).
Definition sealed (r : MutationRecord) : MutationRecord :=
  record_with_checksum (record_compute_checksum r) r.

(** [apply]: the diff of a record on a manifest. *)
Definition apply_delete (rgs : list RowGroupEntry) (fd : FragmentDelete) : list RowGroupEntry :=
  update_first (λ e, rg_fragment_id e =? fdel_fragment_id fd)
    (λ e, mkEntry (rg_data e) (rg_meta e) (rg_fragment_id e) (Some (fdel_deletes fd))
            (fdel_deleted_count fd) (rg_agg e)) rgs.
Definition apply (base : Manifest) (r : MutationRecord) : Manifest :=
  let row_groups := foldl apply_delete (mf_row_groups base) (mr_fragment_deletes r) in
  let m := mkManifest (mf_format_version base) (mr_sequence r) (mf_schema_id base)
    (row_groups ++ mr_fragment_adds r)
    None
    (mf_partition_values base)
    (if negb (mr_next_row_id r =? 0) then mr_next_row_id r else mf_next_row_id base)
    (if negb (mr_next_fragment_id r =? 0) then mr_next_fragment_id r
     else mf_next_fragment_id base)
    (match mr_rowindex_generation r with Some g => Some g | None => mf_rowindex_generation base end)
    (list_to_map (mr_index_generations r))
    None
    (mf_parent_hash base) (mf_committed_at base) (mf_checksum base) in
  with_checksum (compute_checksum m) m.
End record.

Section wal.
Context `{!Sha256, !SerdeJson, !HashOrder, !Hex} {St : Type} `{!Storage St}.

Definition record_line (r : MutationRecord) : bytes := json_to_vec (record_value r).

Definition append (table : string) (r : MutationRecord) : M St unit :=
  let path := wal_path table in
  let line := record_line r ++ [x0a] in
  let! _ := st_append path line in
  let! _ := st_sync_data path in
  m_ret tt.

(** The loop over the lines, stopping at the first that is not a verified record. *)
Fixpoint read_lines (lines : list bytes) : list MutationRecord :=
  match lines with
  | [] => []
  | line :: lines =>
      if is_empty line then read_lines lines else
      match json_parse line ≫= record_of_value with
      | Some rec => if record_verify rec then rec :: read_lines lines else []
      | None => []
      end
  end.

Definition read_records (table : string) : M St (list MutationRecord) :=
  match! st_read (wal_path table) as r in
  match r with
  | Ok data => m_ret (sort_by_key mr_sequence (read_lines (split_bytes x0a data)))
  | Err e => if is_not_found e then m_ret [] else m_lift (Err e)
  | Panic => m_lift Panic
  end.

Definition materialize_artifact (table : string) (art : StagedArtifact) : M St unit :=
  let abs := table +:+ "/" +:+ sa_path art in
  let! present := st_exists abs in
  if present then m_ret tt else
  let! b := m_lift (of_option (Other ("mutation_wal: bad artifact hex for " +:+ sa_path art))
                      (hex_decode (sa_hex art))) in
  st_write abs b.
Definition materialize (table : string) (r : MutationRecord) : M St unit :=
  m_fold (λ _ art, materialize_artifact table art) tt (mr_staged_artifacts r).

Definition live_manifest (table : string) (base : Manifest) : M St Manifest :=
  let! records := read_records table in
  m_fold (λ m rec,
    if mf_sequence m <? mr_sequence rec then
      let! _ := materialize table rec in m_ret (apply m rec)
    else m_ret m) base records.

Definition as_u64 (v : Value) : option u64 :=
  match v with VNumber (PosInt n) => Some n | _ => None end.
Definition get_key (k : string) (v : Value) : option Value :=
  match v with VObject m => bm_get k m | _ => None end.

Definition load_pointer_manifest (table : string) : M St Manifest :=
  let! data := st_read (table +:+ "/_manifest.json") in
  let! pointer := m_lift (of_option (Serialization "pointer") (json_parse data)) in
  let! seq := m_lift (of_option (InvalidManifestPointer "missing or invalid 'latest'")
                        (get_key "latest" pointer ≫= as_u64)) in
  let! b := st_read (table +:+ "/" +:+ Manifest_filename seq) in
  m_lift (of_option (Serialization "manifest") (from_slice (A:=Manifest) b)).

Definition pointer_bytes (seq : u64) : bytes :=
  json_to_vec (VObject [("latest", VNumber (PosInt seq))]).
Definition write_pointer (table : string) (seq : u64) : M St unit :=
  let pointer_path := table +:+ "/_manifest.json" in
  let tmp_path := pointer_path +:+ ".tmp" in
  let! _ := st_write tmp_path (pointer_bytes seq) in
  let! _ := st_sync tmp_path in
  let! _ := st_rename tmp_path pointer_path in
  let! _ := st_sync (table +:+ "/") in
  m_ret tt.

Definition clear (table : string) : M St unit :=
  match! st_delete (wal_path table) as r in
  match r with
  | Ok _ => m_ret tt
  | Err e => if is_not_found e then m_ret tt else m_lift (Err e)
  | Panic => m_lift Panic
  end.

(** One record folded into the manifest under construction, its artifacts made
    durable. *)
Definition fold_record (table : string) (live : Manifest) (rec : MutationRecord)
    : M St Manifest :=
  if mf_sequence live <? mr_sequence rec then
    let! _ := materialize table rec in
    let! _ := m_fold (λ _ art, st_sync_data (table +:+ "/" +:+ sa_path art)) tt
                (mr_staged_artifacts rec) in
    m_ret (apply live rec)
  else m_ret live.

(** [now] is the rendered [Utc::now()]. *)
Definition checkpoint_locked (table now : string) : M St bool :=
  let! records := read_records table in
  if is_empty records then m_ret false else
  let! base := load_pointer_manifest table in
  if forallb (λ r, mr_sequence r <=? mf_sequence base) records then
    let! _ := clear table in m_ret true
  else
  let! live := m_fold (fold_record table) base records in
  let! parent := parent_manifest_checksum table (mf_sequence live) in
  let live := finalize parent now live in
  let manifest_path := table +:+ "/" +:+ Manifest_filename (mf_sequence live) in
  let! _ := st_write manifest_path (to_vec live) in
  let! _ := st_sync_data manifest_path in
  let! _ := write_pointer table (mf_sequence live) in
  let! _ := clear table in
  m_ret true.

Definition checkpoint_if_pending (table now : string) : M St bool :=
  let! lock := st_lock_exclusive (table +:+ "/_write.lock") in
  λ s, let (r, s') := checkpoint_locked table now s in (r, st_unlock lock s').
End wal.

(** ** A record reads back *)

#[export, refine] Instance SerdeLaws_FragmentDelete : SerdeLaws FragmentDelete :=
  { serde_wf d := in_u64 (fdel_fragment_id d) ∧ in_u64 (fdel_deleted_count d) }.
Proof.
  - intros d [??]. cbn [to_value Serde_FragmentDelete]. solve_object.
  - intros d [??]. cbn [of_value to_value Serde_FragmentDelete as_object mbind option_bind].
    set (m := put "fragment_id" _ _).
    assert (field "fragment_id" m = Some (fdel_fragment_id d)) as E1 by read_field m.
    assert (field "deletes" m = Some (fdel_deletes d)) as E2 by read_field m.
    assert (field "deleted_count" m = Some (fdel_deleted_count d)) as E3 by read_field m.
    clearbody m. rewrite E1, E2, E3. by destruct d.
  - intros v d Hv E. cbn [of_value Serde_FragmentDelete] in E. inv_fields E. simplify_eq.
    split; eauto with icefall.
Defined.
#[export, refine] Instance SerdeLaws_StagedArtifact : SerdeLaws StagedArtifact :=
  { serde_wf _ := True }.
Proof.
  - intros a _. cbn [to_value Serde_StagedArtifact]. solve_object.
  - intros a _. cbn [of_value to_value Serde_StagedArtifact as_object mbind option_bind].
    set (m := put "path" _ _).
    assert (field "path" m = Some (sa_path a)) as E1 by read_field m.
    assert (field "hex" m = Some (sa_hex a)) as E2 by read_field m.
    clearbody m. rewrite E1, E2. by destruct a.
  - done.
Defined.

Definition record_wf (r : MutationRecord) : Prop :=
  in_u64 (mr_sequence r) ∧ in_u64 (mr_base_sequence r)
  ∧ Forall serde_wf (mr_fragment_deletes r) ∧ Forall serde_wf (mr_fragment_adds r)
  ∧ in_u64 (mr_next_fragment_id r) ∧ in_u64 (mr_next_row_id r).
(** At most one secondary index: a map whose iteration order is no matter. *)
Definition one_index (r : MutationRecord) : Prop := (length (mr_index_generations r) <= 1)%nat.

Section round_trip.
Context `{!Sha256, !SerdeJson, !SerdeJsonLaws, !HashOrder, !HashOrderLaws}.

#[export] Instance SerdeExact_FragmentDelete : SerdeExact FragmentDelete.
Proof. intros d. cbn [to_value Serde_FragmentDelete]. solve_exact. Qed.
#[export] Instance SerdeExact_StagedArtifact : SerdeExact StagedArtifact.
Proof. intros a. cbn [to_value Serde_StagedArtifact]. solve_exact. Qed.
Lemma staged_wf (l : list StagedArtifact) : serde_wf l.
Proof. by induction l; constructor. Qed.

Lemma index_generations_value r :
  one_index r →
  VObject (prod_map id to_value <$> mr_index_generations r)
  = to_value (list_to_map (mr_index_generations r) : gmap string IndexRef)
  ∧ hash_order (map_to_list (list_to_map (mr_index_generations r) : gmap string IndexRef))
    = mr_index_generations r.
Proof.
  unfold one_index. intros Hl.
  assert (∀ l, hash_order l ≡ₚ l) as Hp by apply hash_order_perm.
  destruct (mr_index_generations r) as [|[k x] [|]]; [| |simpl in Hl; lia].
  - simpl. rewrite map_to_list_empty. split; [done|].
    by apply Permutation_nil_r, Hp.
  - assert (map_to_list (list_to_map [(k, x)] : gmap string IndexRef) = [(k, x)]) as E.
    { cbn [list_to_map foldr]. rewrite insert_empty. apply map_to_list_singleton. }
    cbn [to_value Serde_gmap]. rewrite E. split; [done|].
    by apply Permutation_singleton_r, Hp.
Qed.

Lemma record_value_fields r :
  record_wf r → one_index r →
  ∃ l, record_value r = VObject l ∧ NoDup l.*1 ∧ Forall (λ kv, value_wf kv.2) l ∧ obj_exact l.
Proof.
  intros (?&?&?&?&?&?) Hone. unfold record_value. eexists. split; [done|]. split; [|split].
  - eapply sublist_NoDup; cycle 1.
    + repeat first [ apply stream_keys | apply stream_if_keys | apply stream_some_keys
                   | apply sublist_nil ].
    + apply (bool_decide_unpack _). vm_compute. done.
  - destruct (index_generations_value r Hone) as [-> _].
    repeat first [ apply stream_values | apply stream_if_values | apply stream_some_values
                 | apply Forall_nil ]; try (by constructor).
    + by apply (to_value_wf (mr_fragment_deletes r)).
    + by apply (to_value_wf (mr_fragment_adds r)).
    + by apply (to_value_wf (list_to_map (mr_index_generations r) : gmap string IndexRef)).
    + intros g _. by apply (to_value_wf g).
    + apply (to_value_wf (mr_staged_artifacts r)), staged_wf.
  - destruct (index_generations_value r Hone) as [-> _]. solve_exact.
Qed.

Lemma record_round_trip r :
  record_wf r → one_index r → json_parse (record_line r) ≫= record_of_value = Some r.
Proof.
  intros Hw Hone. destruct (record_value_fields r Hw Hone) as (l&El&Hn&Hv&Hx).
  unfold record_line. rewrite El, json_parse_fields by done. cbn [mbind option_bind].
  destruct Hw as (?&?&?&?&?&?). destruct (index_generations_value r Hone) as [Eix Eord].
  assert (serde_wf (mr_rowindex_generation r)) by by destruct (mr_rowindex_generation r).
  assert (serde_wf (mr_staged_artifacts r)) by apply staged_wf.
  assert (serde_wf (mr_fragment_adds r)) by done.
  assert (serde_wf (mr_fragment_deletes r)) by done.
  set (ix := list_to_map (mr_index_generations r) : gmap string IndexRef) in *.
  assert (serde_wf ix) by done.
  unfold record_value in El. injection El as El.
  assert (∀ k, bm_get k (bm_collect l) = bm_get k l) as Hg by (intros; by apply bm_get_collect).
  unfold record_of_value. cbn [as_object mbind option_bind].
  assert (field "sequence" (bm_collect l) = Some (mr_sequence r)) as ->
    by (apply field_put; [rewrite Hg, <-El|]; solve_field).
  assert (field "base_sequence" (bm_collect l) = Some (mr_base_sequence r)) as ->
    by (apply field_put; [rewrite Hg, <-El|]; solve_field).
  assert (field "fragment_deletes" (bm_collect l) = Some (mr_fragment_deletes r)) as ->
    by (apply field_put; [rewrite Hg, <-El|]; solve_field).
  assert (field_default [] "fragment_adds" (bm_collect l) = Some (mr_fragment_adds r)) as ->
    by (eapply field_default_put_if; [rewrite Hg, <-El| |]; solve_field).
  assert (field_default ∅ "index_generations" (bm_collect l) = Some ix) as ->.
  { eapply (field_default_put_if (negb (is_empty (mr_index_generations r)))); [|done|].
    - rewrite Hg, <-El. find_field. 
      destruct (negb (is_empty (mr_index_generations r))); [f_equal; exact Eix|reflexivity].
    - unfold ix. by destruct (mr_index_generations r). }
  assert (field_opt "rowindex_generation" (bm_collect l) = Some (mr_rowindex_generation r)) as ->
    by (apply field_opt_put_some; [rewrite Hg, <-El|]; solve_field).
  assert (field_default 0 "next_fragment_id" (bm_collect l) = Some (mr_next_fragment_id r)) as ->
    by (eapply field_default_put_if; [rewrite Hg, <-El| |]; solve_field).
  assert (field_default 0 "next_row_id" (bm_collect l) = Some (mr_next_row_id r)) as ->
    by (eapply field_default_put_if; [rewrite Hg, <-El| |]; solve_field).
  assert (field_default [] "staged_artifacts" (bm_collect l) = Some (mr_staged_artifacts r)) as ->
    by (eapply field_default_put_if; [rewrite Hg, <-El| |]; solve_field).
  assert (field "checksum" (bm_collect l) = Some (mr_checksum r)) as ->
    by (apply field_put; [rewrite Hg, <-El|]; solve_field).
  cbn [mbind option_bind]. rewrite Eord. by destruct r.
Qed.
End round_trip.

(** ** Reading the durable prefix *)

Lemma wal_path_clean table : clean table → clean (wal_path table).
Proof.
  intros Ht. unfold wal_path.
  change "/_wal/mutations.log" with ("/" +:+ "_wal/mutations.log").
  apply clean_join; [done|by apply clean_bool].
Qed.

Section read.
Context `{!Sha256, !SerdeJson, !SerdeJsonLaws, !HashOrder, !HashOrderLaws}
  {St : Type} `{!Storage St, !StorageLaws St}.
Implicit Types s : St.

(** A record as the writers append it. *)
Definition committed (r : MutationRecord) : Prop :=
  record_wf r ∧ one_index r ∧ record_verify r = true.
Definition log_of (rs : list MutationRecord) : bytes :=
  concat ((λ l, l ++ [x0a]) <$> (record_line <$> rs)).
(** What a crash in the middle of an append leaves of the last line. *)
Definition torn_line (torn : bytes) : Prop :=
  ∃ r rest, record_line r = torn ++ rest ∧ rest ≠ [].

Lemma sealed_committed r : record_wf r → one_index r → committed (sealed r).
Proof.
  intros Hw Ho. split; [by destruct r|]. split; [done|].
  unfold record_verify. by apply bool_decide_eq_true.
Qed.
Lemma record_line_no_newline r : x0a ∉ record_line r.
Proof. apply json_to_vec_line. Qed.
Lemma record_line_not_empty r : is_empty (record_line r) = false.
Proof.
  unfold record_line, record_value. pose proof (json_to_vec_brace (stream "sequence"
    (mr_sequence r) [])) as _.
  set (l := stream "sequence" _ _). pose proof (json_to_vec_brace l) as Hb.
  by destruct (json_to_vec (VObject l)).
Qed.
Lemma torn_unparsed torn : torn_line torn → json_parse torn = None.
Proof. intros (r&rest&E&?). by eapply json_to_vec_prefix. Qed.
Lemma torn_no_newline torn : torn_line torn → x0a ∉ torn.
Proof.
  intros (r&rest&E&_) Hin. apply (record_line_no_newline r). rewrite E. set_solver.
Qed.

Lemma read_lines_log rs torn :
  Forall committed rs → torn = [] ∨ torn_line torn →
  read_lines (split_bytes x0a (log_of rs ++ torn)) = rs.
Proof.
  intros Hrs Ht. unfold log_of. rewrite split_bytes_lines.
  - induction Hrs as [|r rs (Hw&Ho&Hv) Hrs IH]; cbn [fmap list_fmap app read_lines].
    + destruct Ht as [->|Ht]; [done|]. destruct (is_empty torn) eqn:E; [done|].
      by rewrite torn_unparsed.
    + rewrite record_line_not_empty, record_round_trip by done. by rewrite Hv, IH.
  - apply Forall_fmap, Forall_forall. intros r _. apply record_line_no_newline.
  - destruct Ht as [->|Ht]; [apply not_elem_of_nil|by apply torn_no_newline].
Qed.

Lemma read_records_log table rs torn s :
  clean table → Forall committed rs → torn = [] ∨ torn_line torn →
  files s !! wal_path table = Some (log_of rs ++ torn) →
  read_records table s = (Ok (sort_by_key mr_sequence rs), s).
Proof.
  intros Ht Hrs Htorn Hf. unfold read_records.
  rewrite (m_try_eq _ _ _ _ _ (st_read_clean _ s (wal_path_clean table Ht))).
  unfold read_result. rewrite Hf. cbn [of_option]. unfold m_ret.
  by rewrite read_lines_log.
Qed.
Lemma read_records_none table s :
  clean table → files s !! wal_path table = None → read_records table s = (Ok [], s).
Proof.
  intros Ht Hf. unfold read_records.
  rewrite (m_try_eq _ _ _ _ _ (st_read_clean _ s (wal_path_clean table Ht))).
  unfold read_result. by rewrite Hf.
Qed.

Lemma log_of_snoc rs r : log_of (rs ++ [r]) = log_of rs ++ record_line r ++ [x0a].
Proof.
  unfold log_of. rewrite !fmap_app, concat_app. simpl. by rewrite app_nil_r.
Qed.


(** A torn last line hides only itself: every record committed before it is read. *)
Theorem wal_durable_prefix table rs torn s :
  clean table → Forall committed rs → torn_line torn →
  files s !! wal_path table = Some (log_of rs ++ torn) →
  read_records table s = (Ok (sort_by_key mr_sequence rs), s).
Proof. intros. eapply read_records_log; eauto. Qed.

(** Appending grows the log by one line per record. *)
Lemma append_ok table r s :
  clean table →
  ∃ s', append table r s = (Ok tt, s')
    ∧ files s' = <[wal_path table := default [] (files s !! wal_path table)
                                     ++ record_line r ++ [x0a]]> (files s).
Proof.
  intros Ht. pose proof (clean_validate _ (wal_path_clean table Ht)) as Hv.
  destruct (st_append_spec (wal_path table) _ (record_line r ++ [x0a]) s Hv) as (s1&Ea&Hf1).
  destruct (st_sync_data_spec (wal_path table) s1) as (s2&Es&Hf2). exists s2.
  split; [|by rewrite Hf2]. unfold append.
  by rewrite (m_bind_ok _ _ _ _ _ Ea), (m_bind_ok _ _ _ _ _ Es).
Qed.
Lemma appends_ok table rs s :
  clean table →
  ∃ s', m_fold (λ _, append table) tt rs s = (Ok tt, s')
    ∧ default [] (files s' !! wal_path table)
      = default [] (files s !! wal_path table) ++ log_of rs.
Proof.
  intros Ht. revert s. induction rs as [|r rs IH]; intros s; cbn [m_fold].
  { exists s. split; [done|]. unfold log_of. by rewrite app_nil_r. }
  destruct (append_ok table r s Ht) as (s1&E1&Hf1).
  destruct (IH s1) as (s2&E2&Hf2). exists s2. rewrite (m_bind_ok _ _ _ _ _ E1).
  split; [done|]. rewrite Hf2, Hf1, lookup_insert_eq. cbn [default]. unfold log_of.
  cbn [fmap list_fmap concat]. by rewrite !app_assoc.
Qed.
(** Reading stops at the first line that is not a record. *)
Lemma read_lines_bad rs bad rest :
  Forall committed rs → x0a ∉ bad → is_empty bad = false → json_parse bad = None →
  read_lines (split_bytes x0a (log_of rs ++ bad ++ x0a :: rest)) = rs.
Proof.
  intros Hrs Hbad Hne Hp. induction Hrs as [|r rs (Hw&Ho&Hv) Hrs IH].
  - change (log_of [] ++ bad ++ x0a :: rest) with (bad ++ x0a :: rest).
    rewrite split_bytes_app by done. cbn [read_lines]. by rewrite Hne, Hp.
  - unfold log_of. cbn [fmap list_fmap concat]. rewrite <-!app_assoc.
    change ([x0a] ++ ?l) with (x0a :: l).
    rewrite split_bytes_app by apply record_line_no_newline. cbn [read_lines].
    rewrite record_line_not_empty, record_round_trip by done. rewrite Hv. f_equal. exact IH.
Qed.

(** Mutations appended and synced after a torn line are lost: the first joins the torn
    line, reading stops there, and neither it nor any later record is seen. *)
Theorem wal_append_after_torn_lost table rs torn r rs' s :
  clean table → Forall committed rs → torn_line torn → torn ≠ [] →
  Forall committed (r :: rs') → json_parse (torn ++ record_line r) = None →
  files s !! wal_path table = Some (log_of rs ++ torn) →
  ∃ s', m_fold (λ _, append table) tt (r :: rs') s = (Ok tt, s')
    ∧ read_records table s' = (Ok (sort_by_key mr_sequence rs), s').
Proof.
  intros Ht Hrs Htorn Hne Hr Hbad Hf.
  destruct (appends_ok table (r :: rs') s Ht) as (s'&E&Hf'). exists s'. split; [done|].
  unfold read_records.
  rewrite (m_try_eq _ _ _ _ _ (st_read_clean _ s' (wal_path_clean table Ht))).
  rewrite Hf in Hf'. cbn [default] in Hf'. unfold read_result.
  destruct (files s' !! wal_path table) as [b|]; cbn [default of_option] in *.
  2: { by destruct (log_of rs), torn. }
  unfold id in Hf'. unfold m_ret. rewrite Hf'. unfold log_of at 2. cbn [fmap list_fmap concat].
  rewrite <-!app_assoc, (app_assoc torn). change ([x0a] ++ ?l) with (x0a :: l).
  rewrite (read_lines_bad rs (torn ++ record_line r) _ Hrs); [done| | |done].
  - intros [?|?]%elem_of_app; [by apply torn_no_newline in Htorn|].
    by apply (record_line_no_newline r).
  - by destruct torn.
Qed.
End read.

(** ** Replay *)

Section apply.
Context `{!Sha256, !SerdeJson}.

(** The last deletion-vector replacement of an entry's fragment, if any. *)
Definition replaced (fds : list FragmentDelete) (e : RowGroupEntry) : RowGroupEntry :=
  match last (filter (λ fd, fdel_fragment_id fd = rg_fragment_id e) fds) with
  | Some fd => mkEntry (rg_data e) (rg_meta e) (rg_fragment_id e) (Some (fdel_deletes fd))
                 (fdel_deleted_count fd) (rg_agg e)
  | None => e
  end.
Lemma replaced_id fds e : rg_fragment_id (replaced fds e) = rg_fragment_id e.
Proof. unfold replaced. by case_match. Qed.

Lemma apply_delete_map rgs fd :
  NoDup (rg_fragment_id <$> rgs) →
  apply_delete rgs fd = replaced [fd] <$> rgs.
Proof.
  unfold apply_delete. induction rgs as [|e rgs IH]; [done|].
  rewrite fmap_cons. inversion 1 as [|?? He Hn]; subst. cbn [update_first fmap list_fmap].
  unfold replaced at 1. rewrite filter_cons, filter_nil.
  destruct (Z.eqb_spec (rg_fragment_id e) (fdel_fragment_id fd)) as [Heq|Hne].
  - rewrite decide_True by done. simpl. f_equal. symmetry.
    rewrite <-(list_fmap_id rgs) at 2. apply list_fmap_ext. intros i e' Hi.
    unfold replaced. rewrite filter_cons, filter_nil, decide_False; [done|].
    rewrite <-Heq. intros Hid. apply He, list_elem_of_fmap. exists e'.
    split; [done|by eapply list_elem_of_lookup_2].
  - rewrite decide_False by congruence. simpl. f_equal. by apply IH.
Qed.
Lemma replaced_app fds fds' e : replaced fds' (replaced fds e) = replaced (fds ++ fds') e.
Proof.
  unfold replaced at 1. rewrite replaced_id. unfold replaced. rewrite filter_app, last_app.
  destruct (last (filter _ fds')); [|done]. by destruct (last (filter _ fds)).
Qed.
Lemma apply_deletes_map rgs fds :
  NoDup (rg_fragment_id <$> rgs) → foldl apply_delete rgs fds = replaced fds <$> rgs.
Proof.
  revert rgs. induction fds as [|fd fds IH]; intros rgs Hn; cbn [foldl].
  - unfold replaced. simpl. by rewrite list_fmap_id.
  - rewrite (apply_delete_map rgs fd Hn), IH.
    + rewrite <-list_fmap_compose. apply list_fmap_ext. intros i e _. simpl.
      by rewrite replaced_app.
    + rewrite <-list_fmap_compose.
      by rewrite (list_fmap_ext (rg_fragment_id ∘ replaced [fd]) rg_fragment_id)
        by (intros; apply replaced_id).
Qed.

(** Applying a record replaces the deletion vectors of exactly the named fragments,
    last one first, appends the added row groups, takes over the index generations, drops
    the counters that would be stale and seals the result. *)
Theorem apply_spec base r :
  NoDup (rg_fragment_id <$> mf_row_groups base) →
  let m := apply base r in
  mf_sequence m = mr_sequence r
  ∧ mf_row_groups m = (replaced (mr_fragment_deletes r) <$> mf_row_groups base)
                      ++ mr_fragment_adds r
  ∧ mf_index_generations m = list_to_map (mr_index_generations r)
  ∧ mf_rowindex_generation m
    = match mr_rowindex_generation r with Some g => Some g | None => mf_rowindex_generation base end
  ∧ mf_row_counts m = None ∧ mf_checkpoint m = None
  ∧ mf_schema_id m = mf_schema_id base
  ∧ verify_checksum m = true.
Proof.
  intros Hn m. unfold m, apply. cbn. rewrite apply_deletes_map by done.
  repeat split_and; try done. unfold verify_checksum. by apply bool_decide_eq_true.
Qed.
End apply.

(** ** Checkpoint *)

(** The files of the commit protocol, which no artifact is staged over. *)
Definition pointer_path (table : string) : string := table +:+ "/_manifest.json".
Definition system_path (table p : string) : Prop :=
  p = wal_path table ∨ p = pointer_path table ∨ p = pointer_path table +:+ ".tmp"
  ∨ ∃ seq, p = manifest_path table seq.

Lemma pointer_path_clean table : clean table → clean (pointer_path table).
Proof.
  intros Ht. unfold pointer_path. change "/_manifest.json" with ("/" +:+ "_manifest.json").
  apply clean_join; [done|by apply clean_bool].
Qed.
Lemma tmp_path_clean table : clean table → clean (pointer_path table +:+ ".tmp").
Proof.
  intros Ht. unfold pointer_path. rewrite <-string_app_assoc.
  change ("/_manifest.json" +:+ ".tmp") with ("/" +:+ "_manifest.json.tmp").
  apply clean_join; [done|by apply clean_bool].
Qed.

(** The system paths are distinct. *)
Lemma wal_ne_pointer table : wal_path table ≠ pointer_path table.
Proof. by intros E%string_app_inj_l. Qed.
Lemma wal_ne_manifest table seq : wal_path table ≠ manifest_path table seq.
Proof. by intros E%string_app_inj_l. Qed.
Lemma pointer_ne_manifest table seq : pointer_path table ≠ manifest_path table seq.
Proof. by intros E%string_app_inj_l. Qed.
Lemma tmp_ne_manifest table seq : pointer_path table +:+ ".tmp" ≠ manifest_path table seq.
Proof. unfold pointer_path. rewrite <-string_app_assoc. by intros E%string_app_inj_l. Qed.
Lemma tmp_ne_pointer table : pointer_path table +:+ ".tmp" ≠ pointer_path table.
Proof. unfold pointer_path. rewrite <-string_app_assoc. by intros E%string_app_inj_l. Qed.
Lemma tmp_ne_wal table : pointer_path table +:+ ".tmp" ≠ wal_path table.
Proof.
  unfold pointer_path. rewrite <-string_app_assoc. unfold wal_path. by intros E%string_app_inj_l.
Qed.

Section checkpoint.
Context `{!Sha256, !SerdeJson, !SerdeJsonLaws, !HashOrder, !HashOrderLaws, !Hex}
  {St : Type} `{!Storage St, !StorageLaws St}.
Implicit Types s : St.

Definition live_step (m : Manifest) (rec : MutationRecord) : Manifest :=
  if mf_sequence m <? mr_sequence rec then apply m rec else m.
(** The table's state: the checkpoint with the newer records applied. *)
Definition live_of (base : Manifest) (rs : list MutationRecord) : Manifest :=
  foldl live_step base rs.

(** Artifacts are decodable and staged under the table, clear of the protocol's files. *)
Definition artifacts_ok (table : string) (rs : list MutationRecord) : Prop :=
  Forall (λ r, Forall (λ a, clean (table +:+ "/" +:+ sa_path a)
                            ∧ ¬ system_path table (table +:+ "/" +:+ sa_path a)
                            ∧ is_Some (hex_decode (sa_hex a)))
                 (mr_staged_artifacts r)) rs.
(** Only missing, non-system files are added. *)
Definition extends (table : string) (s s' : St) : Prop :=
  (∀ p b, files s !! p = Some b → files s' !! p = Some b)
  ∧ (∀ p, system_path table p → files s' !! p = files s !! p).

Lemma extends_refl table s s' : files s' = files s → extends table s s'.
Proof. unfold extends. by intros ->. Qed.
Lemma extends_trans table s1 s2 s3 :
  extends table s1 s2 → extends table s2 s3 → extends table s1 s3.
Proof.
  intros [Ha Hb] [Hc Hd]. split; [by auto|]. intros p Hp. by rewrite Hd, Hb.
Qed.

Lemma materialize_artifact_ok table a s :
  clean (table +:+ "/" +:+ sa_path a) → ¬ system_path table (table +:+ "/" +:+ sa_path a) →
  is_Some (hex_decode (sa_hex a)) →
  ∃ s', materialize_artifact table a s = (Ok tt, s') ∧ extends table s s'
    ∧ is_Some (files s' !! (table +:+ "/" +:+ sa_path a)).
Proof.
  intros Hc Hsys [d Hd]. pose proof (clean_validate _ Hc) as Hv. unfold materialize_artifact.
  rewrite (m_bind_ok _ _ _ _ _ (st_exists_spec _ _ s Hv)).
  case_bool_decide as He; [exists s; split; [done|]; split; [by apply extends_refl|done]|].
  rewrite Hd. unfold m_bind, m_lift. cbn [of_option].
  destruct (st_write_spec _ _ d s Hv) as (s'&E&Hf). exists s'. split; [done|].
  rewrite Hf. split; [|rewrite lookup_insert_eq; eauto].
  apply eq_None_not_Some in He.
  split; rewrite Hf.
  - intros p b Hp. rewrite lookup_insert_ne; [done|]. intros <-. congruence.
  - intros p Hp. rewrite lookup_insert_ne; [done|]. by intros <-.
Qed.

Lemma materialize_ok table arts s :
  Forall (λ a, clean (table +:+ "/" +:+ sa_path a)
               ∧ ¬ system_path table (table +:+ "/" +:+ sa_path a)
               ∧ is_Some (hex_decode (sa_hex a))) arts →
  ∃ s', m_fold (λ _ art, materialize_artifact table art) tt arts s = (Ok tt, s')
    ∧ extends table s s'
    ∧ Forall (λ a, is_Some (files s' !! (table +:+ "/" +:+ sa_path a))) arts.
Proof.
  intros Ha. revert s. induction Ha as [|a arts (Hc&Hsys&Hd) Ha IH]; intros s; cbn [m_fold].
  { exists s. split; [done|]. split; [by apply extends_refl|constructor]. }
  destruct (materialize_artifact_ok table a s Hc Hsys Hd) as (s1&E1&Hx1&[b Hb]).
  destruct (IH s1) as (s2&E2&Hx2&Hf2). exists s2.
  rewrite (m_bind_ok _ _ _ _ _ E1). split; [done|]. split; [by eapply extends_trans|].
  constructor; [|done]. exists b. by apply Hx2.
Qed.
Lemma sync_all_ok table (arts : list StagedArtifact) s :
  ∃ s', m_fold (λ _ art, st_sync_data (table +:+ "/" +:+ sa_path art)) tt arts s = (Ok tt, s')
    ∧ files s' = files s.
Proof.
  revert s. induction arts as [|a arts IH]; intros s; cbn [m_fold]; [by exists s|].
  destruct (st_sync_data_spec (table +:+ "/" +:+ sa_path a) s) as (s1&E1&Hf1).
  destruct (IH s1) as (s2&E2&Hf2). exists s2. rewrite (m_bind_ok _ _ _ _ _ E1).
  split; [done|congruence].
Qed.

Lemma fold_records_ok table rs base s :
  artifacts_ok table rs →
  ∃ s', m_fold (fold_record table) base rs s = (Ok (live_of base rs), s') ∧ extends table s s'.
Proof.
  intros Ha. revert base s. induction Ha as [|r rs Hr Ha IH]; intros base s; cbn [m_fold].
  { exists s. split; [done|by apply extends_refl]. }
  unfold live_of. cbn [foldl]. fold (live_of (live_step base r) rs).
  unfold fold_record at 1, live_step. case_match.
  - destruct (materialize_ok table _ s Hr) as (s1&E1&Hx1&_).
    destruct (sync_all_ok table (mr_staged_artifacts r) s1) as (s2&E2&Hf2).
    destruct (IH (apply base r) s2) as (s3&E3&Hx3). exists s3. split.
    + rewrite (m_bind_ok _ _ s (apply base r) s2); [done|].
      unfold materialize. rewrite (m_bind_ok _ _ _ _ _ E1), (m_bind_ok _ _ _ _ _ E2). done.
    + eapply extends_trans; [exact Hx1|].
      eapply extends_trans; [by apply extends_refl|exact Hx3].
  - destruct (IH base s) as (s1&E1&Hx1). exists s1. done.
Qed.

(** Every reader sees the folded state. *)
Lemma live_manifest_ok table rs torn base s :
  clean table → Forall committed rs → torn = [] ∨ torn_line torn →
  files s !! wal_path table = Some (log_of rs ++ torn) → artifacts_ok table rs →
  ∃ s', live_manifest table base s = (Ok (live_of base (sort_by_key mr_sequence rs)), s')
    ∧ extends table s s'.
Proof.
  intros Ht Hrs Htorn Hf Ha. unfold live_manifest.
  rewrite (m_bind_ok _ _ _ _ _ (read_records_log table rs torn s Ht Hrs Htorn Hf)).
  assert (artifacts_ok table (sort_by_key mr_sequence rs)) as Ha'
    by (by apply Forall_sort_by_key).
  revert Ha'. generalize (sort_by_key mr_sequence rs) as l. clear -StorageLaws0.
  intros l Ha. revert base s. induction Ha as [|r l Hr Ha IH]; intros base s; cbn [m_fold].
  { exists s. split; [done|by apply extends_refl]. }
  unfold live_of. cbn [foldl]. fold (live_of (live_step base r) l).
  unfold live_step. case_match.
  - destruct (materialize_ok table _ s Hr) as (s1&E1&Hx1&_).
    destruct (IH (apply base r) s1) as (s2&E2&Hx2). exists s2. split.
    + rewrite (m_bind_ok _ _ s (apply base r) s1); [done|].
      unfold materialize. by rewrite (m_bind_ok _ _ _ _ _ E1).
    + by eapply extends_trans.
  - destruct (IH base s) as (s1&E1&Hx1). exists s1. done.
Qed.
End checkpoint.

Section checkpoint_theorem.
Context `{!Sha256, !SerdeJson, !SerdeJsonLaws, !HashOrder, !HashOrderLaws, !Hex}
  {St : Type} `{!Storage St, !StorageLaws St}.
Implicit Types s : St.

Lemma write_pointer_ok table seq s :
  clean table →
  ∃ s', write_pointer table seq s = (Ok tt, s')
    ∧ files s' = <[pointer_path table := pointer_bytes seq]>
                   (delete (pointer_path table +:+ ".tmp") (files s)).
Proof.
  intros Ht. pose proof (clean_validate _ (tmp_path_clean table Ht)) as Hvt.
  pose proof (clean_validate _ (pointer_path_clean table Ht)) as Hvp.
  unfold write_pointer. fold (pointer_path table).
  destruct (st_write_spec _ _ (pointer_bytes seq) s Hvt) as (s1&E1&Hf1).
  destruct (st_sync_spec (pointer_path table +:+ ".tmp") s1) as (s2&E2&Hf2).
  pose proof (st_rename_spec _ _ _ _ s2 Hvt Hvp) as Hr.
  rewrite Hf2, Hf1, lookup_insert_eq in Hr. destruct Hr as (s3&E3&Hf3).
  destruct (st_sync_spec (table +:+ "/") s3) as (s4&E4&Hf4). exists s4.
  rewrite (m_bind_ok _ _ _ _ _ E1), (m_bind_ok _ _ _ _ _ E2), (m_bind_ok _ _ _ _ _ E3),
    (m_bind_ok _ _ _ _ _ E4). split; [done|].
  rewrite Hf4, Hf3. f_equal. apply delete_insert_eq.
Qed.

Lemma clear_ok table s :
  clean table →
  ∃ s', clear table s = (Ok tt, s') ∧ files s' = delete (wal_path table) (files s).
Proof.
  intros Ht.
  destruct (st_delete_spec _ _ s (clean_validate _ (wal_path_clean table Ht))) as (s'&E&Hf).
  exists s'. split; [|done]. unfold clear. rewrite (m_try_eq _ _ _ _ _ E).
  by destruct (files s !! wal_path table).
Qed.

Lemma load_pointer_eq table seq b m s :
  clean table → in_u64 seq → files s !! pointer_path table = Some (pointer_bytes seq) →
  files s !! manifest_path table seq = Some b → from_slice b = Some m →
  load_pointer_manifest table s = (Ok m, s).
Proof.
  intros Ht Hs Hp Hm Hb. unfold load_pointer_manifest. fold (pointer_path table).
  rewrite (m_bind_ok _ _ s (pointer_bytes seq) s)
    by (rewrite st_read_clean by (by apply pointer_path_clean); unfold read_result; by rewrite Hp).
  unfold pointer_bytes. rewrite json_parse_to_vec
    by first [ apply obj_wf_value; split; repeat constructor; apply Hs | by repeat constructor ].
  unfold m_bind at 1, m_lift at 1. cbn [of_option].
  unfold m_bind at 1, m_lift at 1. cbn [of_option get_key bm_get mbind option_bind].
  rewrite decide_True by done. cbn [mbind option_bind as_u64 of_option].
  rewrite (m_bind_ok _ _ s b s).
  - unfold m_lift. by rewrite Hb.
  - fold (manifest_path table seq). rewrite st_read_clean by by apply manifest_path_clean.
    unfold read_result. by rewrite Hm.
Qed.

Lemma apply_wf base r : manifest_wf base → record_wf r → manifest_wf (apply base r).
Proof.
  intros (?&?&?&?&?&Hrg&?&?) (?&?&Hd&?&?&?). unfold manifest_wf, apply. cbn.
  repeat split_and; try done; [by destruct (negb _)..|].
  apply Forall_app. split; [|done].
  assert (∀ rgs, Forall serde_wf rgs → Forall serde_wf
            (foldl apply_delete rgs (mr_fragment_deletes r))) as Hf; [|by apply Hf].
  induction Hd as [|fd fds [? ?] Hd IH]; intros rgs Hr; cbn [foldl]; [done|]. apply IH.
  unfold apply_delete. induction Hr as [|e rgs [? ?] Hr IHr]; cbn [update_first]; [constructor|].
  destruct (rg_fragment_id e =? _); by constructor.
Qed.
Lemma live_of_partition_values base rs :
  mf_partition_values (live_of base rs) = mf_partition_values base.
Proof.
  unfold live_of. revert base. induction rs as [|r rs IH]; intros base; cbn [foldl]; [done|].
  rewrite IH. unfold live_step. by case_match.
Qed.
Lemma live_of_wf base rs :
  manifest_wf base → Forall committed rs → manifest_wf (live_of base rs).
Proof.
  intros Hb Hrs. unfold live_of. revert base Hb.
  induction Hrs as [|r rs (Hr&_) Hrs IH]; intros base Hb; cbn [foldl]; [done|]. apply IH.
  unfold live_step. case_match; [by apply apply_wf|done].
Qed.

(** The same snapshot, the chain fields and the checksum apart. *)
Definition same_snapshot (m m' : Manifest) : Prop :=
  with_checksum "" (with_link None "" m) = with_checksum "" (with_link None "" m').
Lemma finalize_same p now m : same_snapshot (finalize p now m) m.
Proof. done. Qed.

(** What a checkpoint leaves in the files of the table. *)
Lemma checkpoint_files table now rs torn base s :
  clean table → Forall committed rs → torn = [] ∨ torn_line torn →
  files s !! wal_path table = Some (log_of rs ++ torn) → artifacts_ok table rs →
  load_pointer_manifest table s = (Ok base, s) → manifest_wf base → manifest_exact base →
  Exists (λ r, mf_sequence base < mr_sequence r) rs →
  let live := live_of base (sort_by_key mr_sequence rs) in
  ∃ parent s1 s',
    let live' := finalize parent now live in
    checkpoint_locked table now s = (Ok true, s') ∧ extends table s s1
    ∧ files s' = delete (wal_path table) (<[pointer_path table := pointer_bytes (mf_sequence live)]>
                   (delete (pointer_path table +:+ ".tmp")
                     (<[manifest_path table (mf_sequence live) := to_vec live']> (files s1))))
    ∧ in_u64 (mf_sequence live) ∧ from_slice (to_vec live') = Some live'.
Proof.
  intros Ht Hrs Htorn Hf Ha Hbase Hbw Hbx Hnew live.
  pose proof (read_records_log table rs torn s Ht Hrs Htorn Hf) as Hread.
  set (sorted := sort_by_key mr_sequence rs) in *.
  assert (artifacts_ok table sorted) as Ha' by (by apply Forall_sort_by_key).
  assert (Exists (λ r, mf_sequence base < mr_sequence r) sorted) as Hnew'.
  { unfold sorted. by rewrite sort_by_key_perm. }
  assert (Forall committed sorted) as Hrs' by (by apply Forall_sort_by_key).
  destruct (fold_records_ok table sorted base s Ha') as (s1&E1&Hext).
  destruct (parent_total table (mf_sequence live) s1 Ht) as (parent&Ep).
  set (live' := finalize parent now live).
  set (path := manifest_path table (mf_sequence live)).
  pose proof (clean_validate _ (manifest_path_clean table (mf_sequence live) Ht)) as Hvm.
  destruct (st_write_spec _ _ (to_vec live') s1 Hvm) as (s2&E2&Hf2).
  destruct (st_sync_data_spec path s2) as (s3&E3&Hf3).
  destruct (write_pointer_ok table (mf_sequence live) s3 Ht) as (s4&E4&Hf4).
  destruct (clear_ok table s4 Ht) as (s5&E5&Hf5).
  assert (manifest_wf live) as Hlw by (by apply live_of_wf).
  exists parent, s1, s5. fold live'. split; [|split; [done|split; [|split]]].
  - unfold checkpoint_locked. rewrite (m_bind_ok _ _ _ _ _ Hread).
    destruct (is_empty sorted) eqn:Hemp.
    { apply Exists_exists in Hnew' as (r&Hr&_). destruct sorted; [by apply elem_of_nil in Hr|done]. }
    rewrite (m_bind_ok _ _ _ _ _ Hbase).
    assert (forallb (λ r, mr_sequence r <=? mf_sequence base) sorted = false) as ->.
    { apply not_true_is_false. rewrite forallb_forall. intros Hall.
      apply Exists_exists in Hnew' as (r&Hr&Hlt). apply list_elem_of_In, Hall in Hr. zbool. lia. }
    rewrite (m_bind_ok _ _ _ _ _ E1). fold live. rewrite (m_bind_ok _ _ _ _ _ Ep). fold live'.
    fold path. rewrite (m_bind_ok _ _ _ _ _ E2), (m_bind_ok _ _ _ _ _ E3),
      (m_bind_ok _ _ _ _ _ E4), (m_bind_ok _ _ _ _ _ E5). done.
  - by rewrite Hf5, Hf4, Hf3, Hf2.
  - apply Hlw.
  - apply from_to_slice; [exact Hlw|]. apply manifest_value_exact. unfold manifest_exact in *.
    unfold live', live. cbn [finalize with_checksum with_link mf_partition_values].
    by rewrite live_of_partition_values.
Qed.

(** A checkpoint of a log with newer records than the base succeeds, and the manifest it
    publishes is, link and checksum fields apart, the state a reader saw by replaying the
    log; afterwards the log is empty and readers see the published manifest as it is. *)
Theorem checkpoint_preserves_live table now rs torn base s :
  clean table → Forall committed rs → torn = [] ∨ torn_line torn →
  files s !! wal_path table = Some (log_of rs ++ torn) → artifacts_ok table rs →
  load_pointer_manifest table s = (Ok base, s) → manifest_wf base → manifest_exact base →
  Exists (λ r, mf_sequence base < mr_sequence r) rs →
  let live := live_of base (sort_by_key mr_sequence rs) in
  (∃ s1, live_manifest table base s = (Ok live, s1))
  ∧ ∃ live' s', checkpoint_locked table now s = (Ok true, s')
    ∧ load_pointer_manifest table s' = (Ok live', s')
    ∧ same_snapshot live' live ∧ verify_checksum live' = true
    ∧ read_records table s' = (Ok [], s')
    ∧ live_manifest table live' s' = (Ok live', s').
Proof.
  intros Ht Hrs Htorn Hf Ha Hbase Hbw Hbx Hnew live. split.
  { destruct (live_manifest_ok table rs torn base s Ht Hrs Htorn Hf Ha) as (s1&E&_). eauto. }
  destruct (checkpoint_files table now rs torn base s) as (parent&s1&s'&E&_&Hf'&Hseq&Hs); [done..|].
  fold live in E, Hf', Hseq, Hs. exists (finalize parent now live), s'.
  assert (read_records table s' = (Ok [], s')) as Hr.
  { apply read_records_none; [done|]. by rewrite Hf', lookup_delete_eq. }
  split; [done|]. split; [|split; [apply finalize_same|split; [apply finalize_verifies|split; [done|]]]].
  - eapply (load_pointer_eq table (mf_sequence live)); [done|done| | |exact Hs].
    + rewrite Hf', lookup_delete_ne by (apply wal_ne_pointer). apply lookup_insert_eq.
    + rewrite Hf', lookup_delete_ne by apply wal_ne_manifest.
      rewrite lookup_insert_ne by apply pointer_ne_manifest.
      rewrite lookup_delete_ne by apply tmp_ne_manifest. apply lookup_insert_eq.
  - unfold live_manifest. by rewrite (m_bind_ok _ _ _ _ _ Hr).
Qed.
End checkpoint_theorem.
