(* ===== verification/SnapshotCatalog.v ===== *)
(** * Loading the current snapshot of a table

    [catalog.rs], and the stored form of schemas ([metadata/schema.rs]).  The
    pointer names a manifest, the manifest a schema; what readers get is that
    manifest with the mutation log replayed over it. *)

From S2P Require Import Prelude Bytes StableSort Text OrdMap Storage Json Arrow Schema FieldIds Manifest MutationWal.
From Stdlib Require Import Ascii String.

#[local] Open Scope list_scope.
#[local] Open Scope Z_scope.

(** ** The stored form of a schema *)

(** A number of type [i32]. *)
Record I32 := mkI32 { i32_get : Z }.
Definition in_i32 (x : Z) : Prop := - 2 ^ 31 <= x < 2 ^ 31.
#[export] Instance in_i32_dec x : Decision (in_i32 x) := _.

#[export] Instance Serde_I32 : Serde I32 := {
  to_value i := VNumber (if i32_get i <? 0 then NegInt (i32_get i) else PosInt (i32_get i));
  of_value v :=
    match v with
    | VNumber (PosInt n) | VNumber (NegInt n) => mkI32 <$> checked in_i32 n
    | _ => None
    end;
}.
#[export] Instance Serde_Column : Serde Column := {
  to_value c := VObject
    (put "name" (co_name c) $ put "type" (co_type c) $ put "nullable" (co_nullable c) $
     put "field_id" (mkI32 (co_field_id c)) []);
  of_value v :=
    m ← as_object v;
    name ← field "name" m;
    type ← field "type" m;
    nullable ← field "nullable" m;
    field_id ← field_default (mkI32 0) "field_id" m;
    Some (mkColumn name type nullable (i32_get field_id));
}.
#[export] Instance Serde_Schema : Serde Schema := {
  to_value s := VObject
    (put "schema_id" (sc_schema_id s) $ put "columns" (sc_columns s) $
     put_some "partition_by" (sc_partition_by s) $ put_some "sort" (sc_sort s) $
     put_some "agg_group_keys" (sc_agg_group_keys s) $
     put "row_group_target_rows" (sc_row_group_target_rows s) $
     put "row_group_target_bytes" (sc_row_group_target_bytes s) $
     put_if (negb (is_empty (sc_dropped_columns s))) "dropped_columns" (sc_dropped_columns s) $
     put "max_field_id" (mkI32 (sc_max_field_id s)) []);
  of_value v :=
    m ← as_object v;
    schema_id ← field "schema_id" m;
    columns ← field "columns" m;
    partition_by ← field_opt "partition_by" m;
    sort ← field_opt "sort" m;
    agg_group_keys ← field_opt "agg_group_keys" m;
    row_group_target_rows ← field "row_group_target_rows" m;
    row_group_target_bytes ← field "row_group_target_bytes" m;
    dropped_columns ← field_default [] "dropped_columns" m;
    max_field_id ← field_default (mkI32 0) "max_field_id" m;
    Some (mkSchema schema_id columns partition_by sort agg_group_keys row_group_target_rows
            row_group_target_bytes dropped_columns (i32_get max_field_id));
}.

(** ** The catalog of a table *)

Record Catalog := mkCatalog {
  cat_table : string;
  cat_latest_manifest : option Manifest;
  cat_latest_schema : option Schema;
}.

Section catalog.
Context `{!Sha256, !SerdeJson, !HashOrder, !Hex} {St : Type} `{!Storage St}.

(** [serde_json::from_slice] followed by [?]. *)
Definition parse_slice {A} `{!Serde A} (b : bytes) : res A :=
  of_option (Serialization "json") (from_slice b).
(** [pointer.get("latest").and_then(|v| v.as_u64()).ok_or_else(..)?]. *)
Definition pointer_latest (missing : error) (data : bytes) : res u64 :=
  let? pointer := of_option (Serialization "json") (json_parse data) in
  of_option missing (get_key "latest" pointer ≫= as_u64).
Definition repaired (schema : Schema) : Schema :=
  if has_field_ids schema then schema else repair_field_ids schema.

(** [latest == 0]: a created table without commits. *)
Definition refresh_empty (self : Catalog) : M St Catalog :=
  let schema_pointer_path := cat_table self +:+ "/_schema.json" in
  match! st_read schema_pointer_path as r in
  match r with
  | Panic => m_lift Panic
  | Err (NotFound _) => m_ret self
  | Err e => m_lift (Err e)
  | Ok schema_data =>
      let! schema_id := m_lift (pointer_latest (InvalidSchemaPointer schema_pointer_path) schema_data) in
      let! b := st_read (cat_table self +:+ "/" +:+ filename schema_id) in
      let! schema := m_lift (parse_slice (A:=Schema) b) in
      m_ret (mkCatalog (cat_table self) (cat_latest_manifest self) (Some (repaired schema)))
  end.

(** The snapshot the pointer names, with its schema and the mutation log. *)
Definition refresh_snapshot (self : Catalog) (latest : u64) : M St Catalog :=
  let table := cat_table self in
  let manifest_path := table +:+ "/" +:+ Manifest_filename latest in
  let! b := st_read manifest_path in
  let! manifest := m_lift (parse_slice (A:=Manifest) b) in
  if negb (verify_checksum manifest) then m_lift (Err (ChecksumMismatch manifest_path)) else
  if negb (mf_sequence manifest =? latest) then
    m_lift (Err (InvalidManifestPointer ("sequence mismatch: pointer expects " +:+ fmt_u64 latest
      +:+ ", manifest has " +:+ fmt_u64 (mf_sequence manifest)))) else
  let schema_path := table +:+ "/" +:+ filename (mf_schema_id manifest) in
  match! st_read schema_path as r in
  match r with
  | Panic => m_lift Panic
  | Err (NotFound _) => m_lift (Err (SchemaNotFound schema_path))
  | Err e => m_lift (Err e)
  | Ok schema_data =>
      let! schema := m_lift (parse_slice (A:=Schema) schema_data) in
      if negb (sc_schema_id schema =? mf_schema_id manifest) then
        m_lift (Err (SchemaMismatch "schema_id" (fmt_u64 (mf_schema_id manifest)) schema_path)) else
      let schema := repaired schema in
      let! manifest := live_manifest table manifest in
      m_ret (mkCatalog table (Some manifest) (Some schema))
  end.

(** [refresh]: fields of [self] are assigned last, so that a failure leaves it as
    it was. *)
Definition Catalog_refresh (self : Catalog) : M St Catalog :=
  let pointer_path := cat_table self +:+ "/_manifest.json" in
  match! st_read pointer_path as r in
  match r with
  | Panic => m_lift Panic
  | Err (NotFound _) =>
      match! st_exists (cat_table self +:+ "/_schema.json") as r in
      match r with
      | Ok true => m_lift (Err (MissingManifestPointer pointer_path))
      | Ok false => m_ret self
      | Err e => if is_not_found e then m_ret self else m_lift (Err e)
      | Panic => m_lift Panic
      end
  | Err e => m_lift (Err e)
  | Ok data =>
      let! latest := m_lift (pointer_latest (InvalidManifestPointer "missing or invalid 'latest'") data) in
      if latest =? 0 then refresh_empty self else refresh_snapshot self latest
  end.

Definition Catalog_load (table : string) : M St Catalog :=
  Catalog_refresh (mkCatalog table None None).
End catalog.

(** ** Schema files *)

#[export, refine] Instance SerdeLaws_I32 : SerdeLaws I32 := { serde_wf i := in_i32 (i32_get i) }.
Proof.
  - intros [n] Hn. unfold in_i32 in Hn. cbn in *. constructor. destruct (Z.ltb_spec n 0); simpl; unfold in_u64; lia.
  - intros [n] Hn. cbn in *. assert (checked in_i32 n = Some n) as E by by apply checked_Some.
    destruct (n <? 0); by rewrite E.
  - intros v [n] _ E. cbn in *. destruct v as [| |[m|m|m]| | |]; try done;
      apply fmap_Some in E as (m'&Hm&[= ->]); by apply checked_Some in Hm as [? ->].
Defined.
#[export] Instance SerdeNonNull_I32 : SerdeNonNull I32.
Proof. done. Qed.

#[export, refine] Instance SerdeLaws_Column : SerdeLaws Column :=
  { serde_wf c := in_i32 (co_field_id c) }.
Proof.
  - intros c Hc. cbn [to_value Serde_Column].
    assert (value_wf (to_value (mkI32 (co_field_id c)))) by (by apply (to_value_wf (mkI32 _))).
    assert (value_wf (to_value (co_nullable c))) by constructor.
    solve_object.
  - intros c Hc. cbn [of_value to_value Serde_Column as_object mbind option_bind].
    set (m := put "name" _ _).
    assert (field "name" m = Some (co_name c)) as E1 by read_field m.
    assert (field "type" m = Some (co_type c)) as E2 by read_field m.
    assert (field "nullable" m = Some (co_nullable c)) as E3
      by (apply field_put; [unfold m; solve_field|done]).
    assert (field_default (mkI32 0) "field_id" m = Some (mkI32 (co_field_id c))) as E4
      by (eapply (field_default_put_if true); [unfold m; solve_field|done|done]).
    clearbody m. rewrite E1, E2, E3, E4. by destruct c.
  - intros v c Hv E. cbn [of_value Serde_Column] in E. inv_fields E. simplify_eq. cbn [co_field_id].
    assert (obj_wf x) as Hx' by eauto with icefall.
    by refine (field_default_wf (A:=I32) (mkI32 0) "field_id" x _ _ _ _).
Defined.

(** The integers of a schema in memory have their width. *)
Definition schema_wf (s : Schema) : Prop :=
  in_u64 (sc_schema_id s) ∧ Forall serde_wf (sc_columns s)
  ∧ in_u64 (sc_row_group_target_rows s) ∧ in_u64 (sc_row_group_target_bytes s)
  ∧ in_i32 (sc_max_field_id s).
#[export, refine] Instance SerdeLaws_Schema : SerdeLaws Schema := { serde_wf := schema_wf }.
Proof.
  - intros t (?&?&?&?&?). cbn [to_value Serde_Schema].
    assert (value_wf (to_value (sc_columns t))) by (by apply (to_value_wf (sc_columns t))).
    assert (value_wf (to_value (mkI32 (sc_max_field_id t)))) by (by apply (to_value_wf (mkI32 _))).
    assert (∀ (o : option (list string)) l, o = Some l → value_wf (to_value l))
      by (intros; apply to_value_wf, strings_wf).
    assert (value_wf (to_value (sc_dropped_columns t))) by apply to_value_wf, strings_wf.
    solve_object.
  - intros t (?&?&?&?&?). cbn [of_value to_value Serde_Schema as_object mbind option_bind].
    assert (∀ o : option (list string), serde_wf o) as Ho by (intros [l|]; [apply strings_wf|done]).
    set (m := put "schema_id" _ _).
    assert (field "schema_id" m = Some (sc_schema_id t)) as E1 by read_field m.
    assert (field "columns" m = Some (sc_columns t)) as E2 by read_field m.
    assert (field_opt "partition_by" m = Some (sc_partition_by t)) as E3
      by (apply field_opt_put_some; [unfold m; solve_field|done]).
    assert (field_opt "sort" m = Some (sc_sort t)) as E4
      by (apply field_opt_put_some; [unfold m; solve_field|done]).
    assert (field_opt "agg_group_keys" m = Some (sc_agg_group_keys t)) as E5
      by (apply field_opt_put_some; [unfold m; solve_field|done]).
    assert (field "row_group_target_rows" m = Some (sc_row_group_target_rows t)) as E6 by read_field m.
    assert (field "row_group_target_bytes" m = Some (sc_row_group_target_bytes t)) as E7 by read_field m.
    assert (field_default [] "dropped_columns" m = Some (sc_dropped_columns t)) as E8 by read_field m.
    assert (field_default (mkI32 0) "max_field_id" m = Some (mkI32 (sc_max_field_id t))) as E9
      by (eapply (field_default_put_if true); [unfold m; solve_field|done|done]).
    clearbody m. rewrite E1, E2, E3, E4; cbn [mbind option_bind].
    rewrite E5, E6, E7, E8, E9; cbn [mbind option_bind]. by destruct t.
  - intros v t Hv E. cbn [of_value Serde_Schema] in E. inv_fields E. simplify_eq.
    assert (obj_wf x) as Hx' by eauto with icefall.
    unfold schema_wf. cbn. repeat split_and; [by eauto with icefall| |by eauto with icefall..|].
    + by refine (field_wf (A:=list Column) "columns" x _ _ _).
    + by refine (field_default_wf (A:=I32) (mkI32 0) "max_field_id" x _ _ _ _).
Defined.

(** The file of a schema version. *)
Definition schema_path (table : string) (id : u64) : string := table +:+ "/" +:+ filename id.

Lemma schema_path_clean table id : clean table → clean (schema_path table id).
Proof.
  intros Ht. unfold schema_path, filename. set (digits := pad_zeros _ _).
  assert (contains_char "/" digits = false) as Hd by (by apply pad_zeros_no_char, fmt_u64_no_char).
  assert (table +:+ "/" +:+ "_schemas/" +:+ digits +:+ ".json"
          = (table +:+ "/" +:+ "_schemas") +:+ "/" +:+ (digits +:+ ".json")) as ->
    by by rewrite <-!string_app_assoc.
  apply clean_append_piece.
  - apply clean_join; [done|by apply clean_bool].
  - apply file_piece_suffix; [done|done|right; rewrite string_length_app; simpl; lia].
  - rewrite contains_char_app, Hd. done.
Qed.

(** ** What a catalog shows *)

Section loaded.
Context `{!Sha256, !SerdeJson, !SerdeJsonLaws, !HashOrder, !HashOrderLaws, !Hex}
  {St : Type} `{!Storage St, !StorageLaws St}.
Implicit Types s : St.

Definition bad_pointer : error := InvalidManifestPointer "missing or invalid 'latest'".

(** The files of [table] hold the snapshot [base] with its schema: every link from
    the pointer on is there and checks. *)
Definition stored_snapshot (table : string) s (base : Manifest) (schema : Schema) : Prop :=
  ∃ p b sb,
    files s !! pointer_path table = Some p
    ∧ pointer_latest bad_pointer p = Ok (mf_sequence base) ∧ mf_sequence base ≠ 0
    ∧ files s !! manifest_path table (mf_sequence base) = Some b ∧ from_slice b = Some base
    ∧ verify_checksum base = true
    ∧ files s !! schema_path table (mf_schema_id base) = Some sb ∧ from_slice sb = Some schema
    ∧ sc_schema_id schema = mf_schema_id base.

(** Reading a file is a lookup. *)
Lemma read_file p s :
  clean p → st_read p s = (read_result (files s) p, s).
Proof. apply st_read_clean. Qed.
Lemma read_found p b s : clean p → files s !! p = Some b → st_read p s = (Ok b, s).
Proof. intros Hc Hb. rewrite st_read_clean by done. unfold read_result. by rewrite Hb. Qed.

Lemma schema_pointer_clean table : clean table → clean (table +:+ "/_schema.json").
Proof. intros. by apply (clean_join table "_schema.json"), clean_bool. Qed.

Lemma refresh_snapshot_eq table m0 sc0 s base schema :
  clean table → stored_snapshot table s base schema →
  Catalog_refresh (mkCatalog table m0 sc0) s
  = (let! m := live_manifest table base in
     m_ret (mkCatalog table (Some m) (Some (repaired schema)))) s.
Proof.
  intros Ht (p&b&sb&Hp&Hl&Hnz&Hb&Hbase&Hv&Hsb&Hsc&Hid).
  unfold Catalog_refresh. cbn [cat_table]. fold (pointer_path table).
  rewrite (m_try_eq _ _ _ _ _ (read_found _ _ s (pointer_path_clean table Ht) Hp)).
  fold bad_pointer. unfold m_bind at 1, m_lift at 1. rewrite Hl.
  destruct (Z.eqb_spec (mf_sequence base) 0); [done|]. unfold refresh_snapshot. cbn [cat_table].
  fold (manifest_path table (mf_sequence base)).
  rewrite (m_bind_ok _ _ _ _ _ (read_found _ _ s (manifest_path_clean table _ Ht) Hb)).
  unfold parse_slice. rewrite Hbase. unfold m_bind at 1, m_lift at 1. cbn [of_option].
  rewrite Hv, Z.eqb_refl. cbn [negb]. fold (schema_path table (mf_schema_id base)).
  rewrite (m_try_eq _ _ _ _ _ (read_found _ _ s (schema_path_clean table _ Ht) Hsb)).
  rewrite Hsc. unfold m_bind at 1, m_lift at 1. cbn [of_option]. by rewrite Hid, Z.eqb_refl.
Qed.

(** Replaying a log keeps a manifest verified and its schema. *)
Lemma live_manifest_inv table base s m s' :
  verify_checksum base = true → live_manifest table base s = (Ok m, s') →
  verify_checksum m = true ∧ mf_schema_id m = mf_schema_id base
  ∧ mf_sequence base <= mf_sequence m.
Proof.
  intros Hv. unfold live_manifest. intros E. apply bind_inv in E as (rs&s1&_&E).
  revert base s1 Hv E. induction rs as [|r rs IH]; intros base s1 Hv E; cbn [m_fold] in E.
  { injection E as <- _. done. }
  apply bind_inv in E as (m1&s2&E1&E). destruct (Z.ltb_spec (mf_sequence base) (mr_sequence r)).
  - apply bind_inv in E1 as (u&s3&_&E1). injection E1 as <- <-.
    apply IH in E as (?&Hid&?).
    + repeat split_and; [done|by rewrite Hid|]. unfold apply in *. cbn in *. lia.
    + unfold verify_checksum, apply. by apply bool_decide_eq_true.
  - injection E1 as <- <-. by eapply IH.
Qed.

Lemma repaired_schema_id schema : sc_schema_id (repaired schema) = sc_schema_id schema.
Proof.
  unfold repaired. case_match; [done|]. unfold repair_field_ids, assign_field_ids.
  by destruct (assign_columns _ _ _).
Qed.
Lemma repaired_has_ids schema : id_room schema None → has_field_ids (repaired schema) = true.
Proof.
  intros Hroom. unfold repaired. destruct (has_field_ids schema) eqn:E; [done|].
  unfold repair_field_ids.
  destruct (versions_ok [] _ (versions_first schema Hroom)) as (Hpos&_).
  unfold has_field_ids. rewrite forallb_forall. intros c Hc%list_elem_of_In.
  unfold positive_ids in Hpos. rewrite Forall_forall in Hpos. apply Z.ltb_lt. auto.
Qed.

(** The result of a read is [Ok] or [NotFound]. *)
Lemma read_cases p s r s' :
  clean p → st_read p s = (r, s') →
  s' = s ∧ ((∃ b, r = Ok b ∧ files s !! p = Some b) ∨ (r = Err (NotFound p) ∧ files s !! p = None)).
Proof.
  intros Hc. rewrite st_read_clean by done. unfold read_result.
  destruct (files s !! p) as [b|]; intros [= <- <-]; split; eauto.
Qed.

(** C10: A refresh that succeeds leaves the catalog as it was if the table does not exist,
    changes at most the schema if it has no commits, and otherwise shows the manifest that
    the pointer names, verified and with the log replayed over it, together with a schema of
    the same id whose columns have field ids. *)
Theorem refresh_sound self s c s' :
  let table := cat_table self in
  clean table → Catalog_refresh self s = (Ok c, s') →
  (* no table: nothing changes *)
  (files s !! pointer_path table = None ∧ files s !! (table +:+ "/_schema.json") = None
   ∧ c = self ∧ s' = s)
  (* a table without commits: at most the schema is replaced *)
  ∨ (∃ p, files s !! pointer_path table = Some p ∧ pointer_latest bad_pointer p = Ok 0 ∧ s' = s
      ∧ cat_table c = table ∧ cat_latest_manifest c = cat_latest_manifest self
      ∧ (files s !! (table +:+ "/_schema.json") = None ∧ c = self
         ∨ ∃ id b schema, files s !! schema_path table id = Some b ∧ from_slice b = Some schema
             ∧ cat_latest_schema c = Some (repaired schema)))
  (* a snapshot all of whose links check, with the mutation log replayed over it *)
  ∨ (∃ base schema m,
      stored_snapshot table s base schema ∧ live_manifest table base s = (Ok m, s')
      ∧ c = mkCatalog table (Some m) (Some (repaired schema))
      ∧ verify_checksum m = true ∧ mf_sequence base <= mf_sequence m
      ∧ mf_schema_id m = sc_schema_id (repaired schema)
      ∧ (id_room schema None → has_field_ids (repaired schema) = true)).
Proof.
  intros table Ht E. pose proof (schema_pointer_clean table Ht) as Hsp.
  unfold Catalog_refresh in E. fold table in E. fold (pointer_path table) bad_pointer in E.
  apply try_inv in E as (r&s1&E1&E).
  apply read_cases in E1 as [-> [(p&->&Hp)|[-> Hp]]]; [|..|by apply pointer_path_clean]; cycle 1.
  { left. rewrite (m_try_eq _ _ _ _ _ (st_exists_spec _ _ s (clean_validate _ Hsp))) in E.
    case_bool_decide as Hex; [done|]. injection E as <- <-. apply eq_None_not_Some in Hex. done. }
  right. apply bind_inv in E as (latest&s2&El&E). unfold m_lift in El. injection El as El <-.
  destruct (Z.eqb_spec latest 0) as [->|Hnz]; [left|right].
  - exists p. split; [done|]. split; [done|]. unfold refresh_empty in E. fold table in E.
    apply try_inv in E as (r&s1&E1&E).
    apply read_cases in E1 as [-> [(b&->&Hb)|[-> Hb]]]; [|..|done]; cycle 1.
    { injection E as <- <-. auto 6. }
    apply bind_inv in E as (id&s2&Eid&E). injection Eid as Eid <-.
    apply bind_inv in E as (sb&s3&Esb&E). fold (schema_path table id) in Esb.
    apply read_cases in Esb as [-> [(sb'&[= <-]&Hsb)|[? _]]]; [|done|by apply schema_path_clean].
    apply bind_inv in E as (schema&s4&Esc&E). injection Esc as Esc <-. injection E as <- <-.
    split; [done|]. split; [done|]. split; [done|]. right. exists id, sb, schema.
    unfold parse_slice in Esc. destruct (from_slice sb); [by injection Esc as ->|done].
  - unfold refresh_snapshot in E. fold table in E. apply bind_inv in E as (b&s1&Eb&E).
    fold (manifest_path table latest) in Eb.
    apply read_cases in Eb as [-> [(b'&[= <-]&Hb)|[? _]]]; [|done|by apply manifest_path_clean].
    apply bind_inv in E as (base&s2&Eba&E). injection Eba as Eba <-.
    unfold parse_slice in Eba. destruct (from_slice b) as [base'|] eqn:Hbase; [|done].
    injection Eba as ->. destruct (verify_checksum base) eqn:Hv; cbn [negb] in E; [|done].
    destruct (Z.eqb_spec (mf_sequence base) latest) as [<-|]; cbn [negb] in E; [|done].
    apply try_inv in E as (r&s1&E1&E). fold (schema_path table (mf_schema_id base)) in E1.
    apply read_cases in E1 as [-> [(sb&->&Hsb)|[-> _]]]; [|done|by apply schema_path_clean].
    apply bind_inv in E as (schema&s2&Esc&E). injection Esc as Esc <-.
    unfold parse_slice in Esc. destruct (from_slice sb) as [schema'|] eqn:Hschema; [|done].
    injection Esc as ->.
    destruct (Z.eqb_spec (sc_schema_id schema) (mf_schema_id base)) as [Hid|]; cbn [negb] in E; [|done].
    apply bind_inv in E as (m&s1&Em&E). injection E as <- <-.
    destruct (live_manifest_inv _ _ _ _ _ Hv Em) as (Hvm&Hidm&Hsq).
    exists base, schema, m. split; [by exists p, b, sb|]. repeat split_and; try done.
    + by rewrite repaired_schema_id, Hid.
    + apply repaired_has_ids.
Qed.

(** A file that no part of the protocol owns survives a checkpoint. *)
Lemma checkpoint_keeps table live s s1 s' p b :
  extends table s s1 → ¬ system_path table p →
  files s' = delete (wal_path table) (<[pointer_path table := pointer_bytes (mf_sequence live)]>
               (delete (pointer_path table +:+ ".tmp")
                 (<[manifest_path table (mf_sequence live) := b]> (files s1)))) →
  is_Some (files s !! p) → files s' !! p = files s !! p.
Proof.
  intros [Hext _] Hsys Hf [x Hx]. rewrite Hf, Hx. unfold system_path in Hsys.
  rewrite lookup_delete_ne by (intros <-; tauto). rewrite lookup_insert_ne by (intros <-; tauto).
  rewrite lookup_delete_ne by (intros <-; tauto).
  rewrite lookup_insert_ne by (intros <-; apply Hsys; eauto). by apply Hext.
Qed.
Lemma schema_path_not_system table id : ¬ system_path table (schema_path table id).
Proof.
  unfold schema_path, filename.
  intros [E|[E|[E|[seq E]]]]; unfold wal_path, pointer_path, manifest_path in E.
  - by apply string_app_inj_l in E.
  - by apply string_app_inj_l in E.
  - rewrite <-string_app_assoc in E. by apply string_app_inj_l in E.
  - by apply string_app_inj_l in E.
Qed.

Lemma pointer_latest_bytes n : in_u64 n → pointer_latest bad_pointer (pointer_bytes n) = Ok n.
Proof.
  intros Hn. unfold pointer_latest, pointer_bytes. rewrite json_parse_to_vec
    by first [ apply obj_wf_value; split; repeat constructor; apply Hn | by repeat constructor ].
  cbn [of_option res_bind get_key bm_get]. by rewrite decide_True by done.
Qed.
Lemma stored_snapshot_loads table s base schema :
  clean table → stored_snapshot table s base schema → load_pointer_manifest table s = (Ok base, s).
Proof.
  intros Ht (p&b&sb&Hp&Hl&_&Hb&Hbase&_). unfold load_pointer_manifest. fold (pointer_path table).
  rewrite (m_bind_ok _ _ _ _ _ (read_found _ _ s (pointer_path_clean table Ht) Hp)).
  unfold pointer_latest in Hl. destruct (json_parse p) as [v|]; [|done]. cbn [of_option res_bind] in Hl.
  unfold m_bind at 1, m_lift at 1. cbn [of_option].
  destruct (get_key "latest" v ≫= as_u64) as [n|]; [|done]. injection Hl as ->.
  unfold m_bind at 1, m_lift at 1. cbn [of_option]. fold (manifest_path table (mf_sequence base)).
  rewrite (m_bind_ok _ _ _ _ _ (read_found _ _ s (manifest_path_clean table _ Ht) Hb)).
  unfold m_lift. by rewrite Hbase.
Qed.

End loaded.
