(* ===== verification/TransactionLog.v ===== *)
(** * The write-ahead log of transactions and recovery from it

    [wal.rs] and [recovery.rs].  Entries are lines of JSON in segment files under
    [_wal/]; recovery groups them by transaction, and replays the inserts of the
    committed ones through the table writer.  The writer itself, whose insert path
    encodes Parquet, appears as the interface [TableWriter]; Arrow's IPC streams are
    the parameter [ArrowIpc]. *)

From S2P Require Import Prelude Bytes StableSort Text OrdMap Storage Json Arrow Schema Manifest CommitDelta MutationWal SnapshotCatalog.
From Stdlib Require Import Strings.Byte.

#[local] Open Scope list_scope.
#[local] Open Scope Z_scope.

(** ** Entries *)

Inductive LogEntryBody :=
  | TxBegin (tx_id : string)
  | TxInsert (tx_id table : string) (rows_ipc : bytes)
  | TxCommit (tx_id : string)
  | TxRollback (tx_id : string).
Record LogEntry := mkLogEntry { le_lsn : u64; le_body : LogEntryBody }.

Definition le_tx_id (e : LogEntry) : string :=
  match le_body e with
  | TxBegin tx_id | TxInsert tx_id _ _ | TxCommit tx_id | TxRollback tx_id => tx_id
  end.

(** [u8]: the elements of a [Vec<u8>] are printed as numbers. *)
#[export] Instance Serde_byte : Serde byte := {
  to_value b := VNumber (PosInt (Z.of_N (Byte.to_N b)));
  of_value v := match v with VNumber (PosInt n) => Byte.of_N (Z.to_N n) | _ => None end;
}.

(** [#[serde(tag = "op")]], flattened into the entry: one object. *)
Definition entry_value (e : LogEntry) : Value := VObject
  (stream "lsn" (le_lsn e) $
   match le_body e with
   | TxBegin tx_id => stream "op" ("Begin" : string) $ stream "tx_id" tx_id []
   | TxInsert tx_id table rows_ipc =>
       stream "op" ("Insert" : string) $ stream "tx_id" tx_id $ stream "table" table $
       stream "rows_ipc" rows_ipc []
   | TxCommit tx_id => stream "op" ("Commit" : string) $ stream "tx_id" tx_id []
   | TxRollback tx_id => stream "op" ("Rollback" : string) $ stream "tx_id" tx_id []
   end).
(** A variant is named by its name or by its position. *)
Definition op_variant (v : Value) : option Z :=
  match v with
  | VString s =>
      if decide (s = "Begin") then Some 0 else
      if decide (s = "Insert") then Some 1 else
      if decide (s = "Commit") then Some 2 else
      if decide (s = "Rollback") then Some 3 else None
  | VNumber (PosInt n) => if n <=? 3 then Some n else None
  | _ => None
  end.
Definition entry_of_value (v : Value) : option LogEntry :=
  m ← as_object v;
  lsn ← field "lsn" m;
  op ← bm_get "op" m ≫= op_variant;
  tx_id ← field "tx_id" m;
  if op =? 0 then Some (mkLogEntry lsn (TxBegin tx_id)) else
  if op =? 1 then
    table ← field "table" m;
    rows_ipc ← field "rows_ipc" m;
    Some (mkLogEntry lsn (TxInsert tx_id table rows_ipc))
  else
  if op =? 2 then Some (mkLogEntry lsn (TxCommit tx_id))
  else Some (mkLogEntry lsn (TxRollback tx_id)).

Definition WAL_DIR : string := "_wal".
Definition SEGMENT_SIZE : u64 := 16 * 1024 * 1024.
Definition segment_for_lsn (lsn : u64) : u64 := lsn / SEGMENT_SIZE.
(** [format!("{}/{:020}.log", WAL_DIR, segment)]. *)
Definition segment_path (segment : u64) : string :=
  WAL_DIR +:+ "/" +:+ (pad_zeros (20 - String.length (fmt_u64 segment)) (fmt_u64 segment) +:+ ".log").

(** [names.sort()]. *)
Definition str_le (a b : string) : Prop := str_ltb b a = false.
#[export] Instance str_le_dec a b : Decision (str_le a b).
Proof. unfold str_le. apply _. Defined.
Definition sort_strings (l : list string) : list string := merge_sort str_le l.

Section wal.
Context `{!SerdeJson} {St : Type} `{!Storage St}.

Definition entry_line (e : LogEntry) : bytes := json_to_vec (entry_value e).

(** The lines of one segment, added to the entries read so far. *)
Definition read_line (entries : list LogEntry) (line : bytes) : res (list LogEntry) :=
  if is_empty line then Ok entries else
  let? entry := of_option (Serialization "json") (json_parse line ≫= entry_of_value) in
  Ok (entries ++ [entry]).
Definition read_segment (entries : list LogEntry) (name : string) : M St (list LogEntry) :=
  let! data := st_read name in
  m_lift (res_fold read_line entries (split_bytes x0a data)).
(** [WalReader::entries]. *)
Definition wal_entries : M St (list LogEntry) :=
  let! listed := st_list WAL_DIR in
  let segment_names := sort_strings (filter (λ n, ends_with ".log" n = true) listed) in
  let! entries := m_fold read_segment [] segment_names in
  m_ret (sort_by_key le_lsn entries).

(** [Wal::open]: the next LSN. *)
Definition next_after (next_lsn : u64) (entry : LogEntry) : u64 :=
  if next_lsn <=? le_lsn entry then wrap64 (le_lsn entry + 1) else next_lsn.
Definition Wal_open : M St u64 :=
  match! wal_entries as r in
  match r with
  | Ok entries => m_ret (foldl next_after 0 entries)
  | Err _ => m_ret 0
  | Panic => m_lift Panic
  end.

(** The storage calls of [Wal::append]; the LSN is taken before them. *)
Definition append_entry (lsn : u64) (body : LogEntryBody) : M St LogEntry :=
  let path := segment_path (segment_for_lsn lsn) in
  let entry := mkLogEntry lsn body in
  let line := entry_line entry ++ [x0a] in
  let! _ := st_append path line in
  let! _ := st_sync_data path in
  m_ret entry.
End wal.

(** ** Recovery *)

Record RecoveryState := mkRecovery {
  rs_committed : list string;
  rs_aborted : list string;
  rs_undecided : list string;
}.

Definition group_by_tx (entries : list LogEntry) : bmap (list LogEntry) :=
  foldl (λ m e, bm_push (le_tx_id e) e m) [] entries.
(** The first commit or rollback decides. *)
Fixpoint decision (entries : list LogEntry) : option bool :=
  match entries with
  | [] => None
  | e :: entries =>
      match le_body e with
      | TxCommit _ => Some true
      | TxRollback _ => Some false
      | _ => decision entries
      end
  end.
Definition classify (state : RecoveryState) (tx : string * list LogEntry) : RecoveryState :=
  match decision tx.2 with
  | Some true => mkRecovery (rs_committed state ++ [tx.1]) (rs_aborted state) (rs_undecided state)
  | Some false => mkRecovery (rs_committed state) (rs_aborted state ++ [tx.1]) (rs_undecided state)
  | None => mkRecovery (rs_committed state) (rs_aborted state) (rs_undecided state ++ [tx.1])
  end.
Definition recovery_of (entries : list LogEntry) : RecoveryState :=
  foldl classify (mkRecovery [] [] []) (group_by_tx entries).

(** Arrow's stream format: the batches of a stream, or the reader's error. *)
Class ArrowIpc := {
  ipc_write : RecordBatch → res bytes;
  ipc_read : bytes → res (list RecordBatch);
}.
Class ArrowIpcLaws `{!ArrowIpc} := {
  ipc_read_write b d : ipc_write b = Ok d → ipc_read d = Ok [b];
}.
(** The insert path of the table writer: a writer is created (taking the table's lock
    unless told that it is held), the batches inserted, the whole committed. *)
Class TableWriter (St R : Type) :=
  insert_and_commit : string → Schema → bool → list RecordBatch → M St (CommitDelta R).

(** [m.entry(k).or_default().extend(xs)]. *)
Definition bm_extend {V} (k : string) (xs : list V) (m : bmap (list V)) : bmap (list V) :=
  bm_insert k (default [] (bm_get k m) ++ xs) m.

Section recovery.
Context `{!Sha256, !SerdeJson, !HashOrder, !Hex, !ArrowIpc} {St R : Type} `{!Storage St, !TableWriter St R}.

Definition recover : M St RecoveryState :=
  let! entries := wal_entries in m_ret (recovery_of entries).

Definition collect_entry (committed : list string) (m : bmap (bmap (list RecordBatch)))
    (entry : LogEntry) : res (bmap (bmap (list RecordBatch))) :=
  match le_body entry with
  | TxInsert tx_id table rows_ipc =>
      if decide (tx_id ∈ committed) then
        let? batches := ipc_read rows_ipc in
        let? tx_map := or_panic (bm_get tx_id m) in
        Ok (bm_insert tx_id (bm_extend table batches tx_map) m)
      else Ok m
  | _ => Ok m
  end.
Definition inserts_by_tx_table (committed : list string) (entries : list LogEntry)
    : res (bmap (bmap (list RecordBatch))) :=
  res_fold (collect_entry committed)
    (foldl (λ m tx_id, bm_insert tx_id [] m) [] committed) entries.

(** One table of one transaction, by a new writer. *)
Definition write_table (lock_held : bool) (table : string) (batches : list RecordBatch)
    : M St (CommitDelta R) :=
  let! catalog := Catalog_load table in
  let! schema := m_lift (of_option (SchemaNotFound (table +:+ "/_schema.json"))
                           (cat_latest_schema catalog)) in
  insert_and_commit table schema lock_held batches.
Definition replay_tables (tables : bmap (list RecordBatch)) : M St unit :=
  m_fold (λ _ tb, let! _ := write_table false tb.1 tb.2 in m_ret tt) tt tables.

Definition apply_committed_transactions : M St unit :=
  match! wal_entries as r in
  match r with
  | Ok entries =>
      let! state := recover in
      let! by_tx := m_lift (inserts_by_tx_table (rs_committed state) entries) in
      m_fold (λ _ tx, replay_tables tx.2) tt by_tx
  | Err e => if is_not_found e then m_ret tt else m_lift (Err e)
  | Panic => m_lift Panic
  end.
End recovery.

(** ** Entries read back *)

#[export, refine] Instance SerdeLaws_byte : SerdeLaws byte := { serde_wf _ := True }.
Proof.
  - intros b _. constructor. pose proof (Byte.to_N_bounded b). simpl. unfold in_u64. lia.
  - intros b _. cbn. rewrite N2Z.id. apply Byte.of_to_N.
  - done.
Defined.
Lemma bytes_wf (b : bytes) : serde_wf b.
Proof. by induction b; constructor. Qed.

Section read_back.
Context `{!SerdeJson, !SerdeJsonLaws}.

#[export] Instance SerdeExact_byte : SerdeExact byte.
Proof. intros b. constructor. done. Qed.

(** What [serde_json] prints for an entry, and what a reader finds in it. *)
Lemma log_entry_fields e :
  in_u64 (le_lsn e) →
  ∃ l, entry_value e = VObject l ∧ NoDup l.*1 ∧ Forall (λ kv, value_wf kv.2) l ∧ obj_exact l.
Proof.
  intros Hl. destruct e as [lsn [t|t tb rows|t|t]]; cbn [le_lsn] in Hl; unfold entry_value;
    cbn [le_lsn le_body]; (eexists; split; [done|]; split; [|split];
    [apply (bool_decide_unpack _); vm_compute; done
    |repeat first [apply stream_values | apply Forall_nil]; try (by constructor)
    |solve_exact]).
  apply to_value_wf, bytes_wf.
Qed.
Lemma entry_round_trip e :
  in_u64 (le_lsn e) → json_parse (entry_line e) ≫= entry_of_value = Some e.
Proof.
  intros Hl. destruct (log_entry_fields e Hl) as (l&El&Hn&Hv&Hx).
  unfold entry_line. rewrite El, json_parse_fields by done. cbn [mbind option_bind].
  assert (∀ k, bm_get k (bm_collect l) = bm_get k l) as Hg by (intros; by apply bm_get_collect).
  unfold entry_of_value. cbn [as_object mbind option_bind]. unfold field. rewrite !Hg. clear Hg Hn Hv Hx.
  destruct e as [lsn [t|t tb rows|t|t]]; unfold entry_value in El; cbn [le_lsn le_body] in *;
    match type of El with VObject ?x = VObject l => assert (l = x) as -> by congruence end; clear El;
    rewrite !bm_get_stream;
    repeat first [rewrite decide_True by reflexivity | rewrite decide_False by discriminate];
    cbn [mbind option_bind];
    assert (of_value (to_value lsn) = Some lsn) as -> by (by apply of_to_value); cbn [mbind option_bind];
    assert (of_value (to_value t) = Some t) as -> by done; try done.
  assert (of_value (to_value rows) = Some rows) as -> by (apply of_to_value, bytes_wf). done.
Qed.
Lemma entry_line_no_newline e : x0a ∉ entry_line e.
Proof. apply json_to_vec_line. Qed.
Lemma entry_line_not_empty e : is_empty (entry_line e) = false.
Proof.
  unfold entry_line, entry_value. set (l := stream "lsn" _ _). pose proof (json_to_vec_brace l).
  by destruct (json_to_vec (VObject l)).
Qed.
End read_back.

(** ** The log as a sequence *)

(** The segment file an entry belongs to. *)
Definition entry_path (e : LogEntry) : string := segment_path (segment_for_lsn (le_lsn e)).
Definition of_segment (p : string) (es : list LogEntry) : list LogEntry :=
  filter (λ e, entry_path e = p) es.

Lemma segment_piece seg :
  file_piece (pad_zeros (20 - String.length (fmt_u64 seg)) (fmt_u64 seg) +:+ ".log").
Proof.
  apply file_piece_suffix; [by apply pad_zeros_no_char, fmt_u64_no_char|done|right].
  rewrite string_length_app. simpl. lia.
Qed.
Lemma entry_path_clean e : clean (entry_path e).
Proof.
  unfold entry_path, segment_path.
  apply clean_join; [by apply clean_bool|]. apply file_piece_clean, segment_piece.
Qed.
Lemma child_of_entry e : child_of (WAL_DIR +:+ "/") (entry_path e) = Some (entry_path e).
Proof. unfold entry_path, segment_path. rewrite string_app_assoc. apply child_of_file, segment_piece. Qed.
Lemma entry_path_listed e fs b :
  fs !! entry_path e = Some b → entry_path e ∈ list_children fs (WAL_DIR +:+ "/").
Proof. apply list_children_file. apply segment_piece. Qed.
Lemma entry_path_log e : ends_with ".log" (entry_path e) = true.
Proof.
  apply ends_with_spec. unfold entry_path, segment_path. eexists. by rewrite !string_app_assoc.
Qed.

Section log.
Context `{!SerdeJson, !SerdeJsonLaws}.

Definition entries_text (es : list LogEntry) : bytes :=
  concat ((λ l, l ++ [x0a]) <$> (entry_line <$> es)).

(** The files hold the log [es]: each segment the lines of its entries, in order, and
    no other file in the directory is taken for a segment. *)
Record wal_holds (fs : gmap string bytes) (es : list LogEntry) : Prop := {
  wal_ordered : StronglySorted (λ a b, le_lsn a < le_lsn b) es;
  wal_lsns : Forall (λ e, in_u64 (le_lsn e)) es;
  wal_segments : ∀ e, e ∈ es → fs !! entry_path e = Some (entries_text (of_segment (entry_path e) es));
  wal_only : ∀ n, n ∈ list_children fs (WAL_DIR +:+ "/") → ends_with ".log" n = true →
    ∃ e, e ∈ es ∧ n = entry_path e;
}.

Lemma entries_text_snoc es e : entries_text (es ++ [e]) = entries_text es ++ entry_line e ++ [x0a].
Proof. unfold entries_text. rewrite !fmap_app, concat_app. simpl. by rewrite app_nil_r. Qed.

Lemma read_lines_app acc l1 l2 :
  res_fold read_line acc (l1 ++ l2) = let? a := res_fold read_line acc l1 in res_fold read_line a l2.
Proof.
  revert acc. induction l1 as [|x l1 IH]; intros acc; cbn [app res_fold]; [done|].
  destruct (read_line acc x); cbn [res_bind]; auto.
Qed.
Lemma read_entries acc es :
  Forall (λ e, in_u64 (le_lsn e)) es →
  res_fold read_line acc (entry_line <$> es) = Ok (acc ++ es).
Proof.
  intros Hes. revert acc. induction Hes as [|e es He _ IH]; intros acc; cbn [fmap list_fmap res_fold].
  { by rewrite app_nil_r. }
  unfold read_line at 1. rewrite entry_line_not_empty, entry_round_trip by done.
  cbn [of_option res_bind]. rewrite IH. by rewrite <-app_assoc.
Qed.
(** The lines of a segment with what a crash may have left behind them. *)
Lemma split_entries es tail :
  x0a ∉ tail → split_bytes x0a (entries_text es ++ tail) = (entry_line <$> es) ++ [tail].
Proof.
  intros Ht. unfold entries_text. rewrite split_bytes_lines; [done| |done].
  apply Forall_fmap, Forall_forall. intros e _. apply entry_line_no_newline.
Qed.
Lemma read_text acc es :
  Forall (λ e, in_u64 (le_lsn e)) es →
  res_fold read_line acc (split_bytes x0a (entries_text es)) = Ok (acc ++ es).
Proof.
  intros Hes. rewrite <-(app_nil_r (entries_text es)), split_entries by apply not_elem_of_nil.
  by rewrite read_lines_app, read_entries.
Qed.
End log.

Section read_log.
Context `{!SerdeJson, !SerdeJsonLaws} {St : Type} `{!Storage St, !StorageLaws St}.
Implicit Types s : St.

Lemma wal_dir_valid : validate_path WAL_DIR = Ok WAL_DIR.
Proof. by apply clean_validate, clean_bool. Qed.
Lemma sort_strings_perm l : sort_strings l ≡ₚ l.
Proof. apply merge_sort_Permutation. Qed.

(** The names of the segments. *)
Definition segment_names (fs : gmap string bytes) : list string :=
  sort_strings (filter (λ n, ends_with ".log" n = true) (list_children fs (WAL_DIR +:+ "/"))).
Lemma elem_of_segment_names fs n :
  n ∈ segment_names fs ↔ n ∈ list_children fs (WAL_DIR +:+ "/") ∧ ends_with ".log" n = true.
Proof. unfold segment_names. rewrite sort_strings_perm, list_elem_of_filter. tauto. Qed.
Lemma segment_names_NoDup fs : NoDup (segment_names fs).
Proof.
  unfold segment_names. rewrite sort_strings_perm.
  apply NoDup_filter, list_children_NoDup.
Qed.

Lemma read_segments acc es s names :
  wal_holds (files s) es → (∀ n, n ∈ names → ∃ e, e ∈ es ∧ n = entry_path e) →
  m_fold read_segment acc names s = (Ok (acc ++ (names ≫= λ n, of_segment n es)), s).
Proof.
  intros Hw. revert acc. induction names as [|n names IH]; intros acc Hn; cbn [m_fold].
  { cbn. by rewrite app_nil_r. }
  destruct (Hn n) as (e&He&->); [apply list_elem_of_here|].
  assert (read_segment acc (entry_path e) s = (Ok (acc ++ of_segment (entry_path e) es), s)) as E.
  { unfold read_segment.
    rewrite (m_bind_ok _ _ _ _ _ (read_found _ _ s (entry_path_clean e) (wal_segments _ _ Hw e He))).
      unfold m_lift. rewrite read_text; [done|]. pose proof (wal_lsns _ _ Hw) as Hls.
    apply Forall_forall. intros x [_ Hx]%list_elem_of_filter. rewrite Forall_forall in Hls. auto. }
  rewrite (m_bind_ok _ _ _ _ _ E), IH by (intros; apply Hn; by apply list_elem_of_further).
  cbn. by rewrite <-app_assoc.
Qed.

Lemma list_wal s :
  st_list WAL_DIR s = ((if decide (list_children (files s) (WAL_DIR +:+ "/") = [])
                       then Err (NotFound WAL_DIR)
                       else Ok (list_children (files s) (WAL_DIR +:+ "/"))), s).
Proof. apply st_list_spec, wal_dir_valid. Qed.

(** A log that holds something reads back as it is. *)
Lemma wal_entries_eq es s :
  wal_holds (files s) es → es ≠ [] → wal_entries s = (Ok es, s).
Proof.
  intros Hw Hne. destruct es as [|e0 es0] eqn:Hes; [done|]. rewrite <-Hes in *.
  assert (e0 ∈ es) as He0 by (rewrite Hes; apply list_elem_of_here).
  pose proof (entry_path_listed _ _ _ (wal_segments _ _ Hw e0 He0)) as Hl.
  unfold wal_entries.
  rewrite (m_bind_ok _ _ s (list_children (files s) (WAL_DIR +:+ "/")) s).
  2: { rewrite list_wal, decide_False; [done|]. intros E. rewrite E in Hl. by apply elem_of_nil in Hl. }
  fold (segment_names (files s)).
  rewrite (m_bind_ok _ _ _ _ _ (read_segments [] es s (segment_names (files s)) Hw
    ltac:(intros n [? ?]%elem_of_segment_names; by apply (wal_only _ _ Hw)))).
  unfold m_ret. do 2 f_equal. apply sort_by_key_unique; [|apply (wal_ordered _ _ Hw)].
  apply (bind_filter_perm entry_path); [apply segment_names_NoDup|].
  intros e He. apply elem_of_segment_names. split; [|apply entry_path_log].
  eapply entry_path_listed, (wal_segments _ _ Hw e He).
Qed.
Lemma wal_entries_empty s :
  wal_holds (files s) [] →
  wal_entries s = (Ok [], s) ∨ wal_entries s = (Err (NotFound WAL_DIR), s).
Proof.
  intros Hw. unfold wal_entries.
  destruct (decide (list_children (files s) (WAL_DIR +:+ "/") = [])) as [Hc|Hc]; [right|left].
  { unfold m_bind at 1. by rewrite list_wal, decide_True. }
  rewrite (m_bind_ok _ _ s (list_children (files s) (WAL_DIR +:+ "/")) s)
    by by rewrite list_wal, decide_False.
  fold (segment_names (files s)).
  assert (segment_names (files s) = []) as ->; [|done].
  destruct (segment_names (files s)) as [|n l] eqn:E; [done|].
  destruct (elem_of_segment_names (files s) n) as [[Hn Hlog] _].
  { rewrite E. apply list_elem_of_here. }
  destruct (wal_only _ _ Hw n Hn Hlog) as (e&He&_). by apply elem_of_nil in He.
Qed.

(** The next LSN is above all those in use. *)
Lemma next_after_fold es n lsn :
  Forall (λ e, in_u64 (le_lsn e) ∧ le_lsn e < lsn) es → n <= lsn → lsn < 2 ^ 64 →
  foldl next_after n es <= lsn.
Proof.
  intros Hes. revert n. induction Hes as [|e es [He Hlt] _ IH]; intros n Hn Hl; [done|].
  cbn [foldl]. apply IH; [|done]. unfold next_after. case_match; zbool; [|done].
  rewrite wrap64_small; unfold in_u64 in *; lia.
Qed.

Lemma append_entry_ok lsn body s :
  let p := segment_path (segment_for_lsn lsn) in
  let e := mkLogEntry lsn body in
  ∃ s', append_entry lsn body s = (Ok e, s')
    ∧ files s' = <[p := default [] (files s !! p) ++ entry_line e ++ [x0a]]> (files s).
Proof.
  intros p e. assert (validate_path p = Ok p) as Hv by (apply clean_validate, (entry_path_clean e)).
  destruct (st_append_spec p _ (entry_line e ++ [x0a]) s Hv) as (s1&Ea&Hf1).
  destruct (st_sync_data_spec p s1) as (s2&Es&Hf2). exists s2.
  split; [|congruence]. unfold append_entry. fold p e.
  by rewrite (m_bind_ok _ _ _ _ _ Ea), (m_bind_ok _ _ _ _ _ Es).
Qed.

(** Appending keeps the log. *)
Lemma wal_holds_append fs es e :
  wal_holds fs es → in_u64 (le_lsn e) → Forall (λ e', le_lsn e' < le_lsn e) es →
  wal_holds (<[entry_path e := default [] (fs !! entry_path e) ++ entry_line e ++ [x0a]]> fs)
    (es ++ [e]).
Proof.
  intros Hw Hl Hlt. set (p := entry_path e).
  assert (default [] (fs !! p) = entries_text (of_segment p es)) as Hp.
  { destruct (fs !! p) as [b|] eqn:E.
    - destruct (wal_only _ _ Hw p) as (e'&He'&Hp); [by eapply entry_path_listed|apply entry_path_log|].
      pose proof (wal_segments _ _ Hw e' He') as E'. rewrite <-Hp in E'. rewrite E in E'. by injection E' as ->.
    - unfold of_segment. rewrite filter_nil_in; [done|]. intros e' He' Hp'.
      pose proof (wal_segments _ _ Hw e' He') as E'. rewrite Hp' in E'. congruence. }
  constructor.
  - pose proof (wal_ordered _ _ Hw) as Hs. clear -Hs Hlt. induction Hs as [|x es Hs IH Hx].
    + repeat constructor.
    + inversion Hlt; subst. simpl. constructor; [by apply IH|]. apply Forall_app. by repeat constructor.
  - apply Forall_app. split; [apply (wal_lsns _ _ Hw)|by constructor].
  - intros e' He'. rewrite Hp. destruct (decide (entry_path e' = p)) as [->|Hne].
    + rewrite lookup_insert_eq. unfold of_segment. rewrite filter_app, filter_cons, decide_True by done.
      cbn [filter list_filter]. by rewrite entries_text_snoc.
    + apply elem_of_app in He' as [He'|He']; [|by apply list_elem_of_singleton in He' as ->].
      rewrite lookup_insert_ne by done. unfold of_segment.
      rewrite filter_app, filter_cons, decide_False by done. rewrite filter_nil, app_nil_r.
      by apply (wal_segments _ _ Hw).
  - intros n (key&d&Hk&Hch)%elem_of_list_children Hlog. destruct (decide (key = p)) as [->|Hne].
    + exists e. split; [set_solver|]. unfold p in Hch. rewrite child_of_entry in Hch. by injection Hch as <-.
    + rewrite lookup_insert_ne in Hk by done.
      destruct (wal_only _ _ Hw n) as (e'&He'&->); [by apply elem_of_list_children; eauto|done|].
      exists e'. split; [set_solver|done].
Qed.

(** C8: An entry appended to the write-ahead log is read back after all entries before it,
    whatever segments they are in; only its own segment changes; and a log opened again
    continues with the next LSN. *)
Theorem wal_append_reopen es lsn body s :
  wal_holds (files s) es → Forall (λ e, le_lsn e < lsn) es → in_u64 (lsn + 1) → 0 <= lsn →
  let e := mkLogEntry lsn body in
  ∃ s', append_entry lsn body s = (Ok e, s')
    ∧ wal_holds (files s') (es ++ [e])
    ∧ (∀ p, p ≠ entry_path e → files s' !! p = files s !! p)
    ∧ wal_entries s' = (Ok (es ++ [e]), s')
    ∧ Wal_open s' = (Ok (lsn + 1), s').
Proof.
  intros Hw Hlt Hl Hl0 e. destruct (append_entry_ok lsn body s) as (s'&Ea&Hf). fold e in Ea, Hf.
  assert (in_u64 lsn) as Hin by (unfold in_u64 in *; lia).
  assert (wal_holds (files s') (es ++ [e])) as Hw'.
  { rewrite Hf. by apply (wal_holds_append _ _ e). }
  assert (wal_entries s' = (Ok (es ++ [e]), s')) as Er by (apply wal_entries_eq; [done|by destruct es]).
  exists s'. split; [done|]. split; [done|]. split; [|split; [done|]].
  - intros p Hp. rewrite Hf. apply lookup_insert_ne. intros Eq. by apply Hp.
  - unfold Wal_open. rewrite (m_try_eq _ _ _ _ _ Er). unfold m_ret. do 2 f_equal.
    rewrite foldl_app. cbn [foldl]. unfold next_after at 1. cbn [le_lsn e].
    assert (foldl next_after 0 es <= lsn) as Hle.
    { apply next_after_fold; [|done|unfold in_u64 in *; lia].
      pose proof (wal_lsns _ _ Hw) as Hls. rewrite Forall_forall in *. naive_solver. }
    destruct (Z.leb_spec (foldl next_after 0 es) lsn); [|lia]. by apply wrap64_small.
Qed.
End read_log.

(** ** Recovery decides by the first commit or rollback *)

Definition of_tx (tx : string) (es : list LogEntry) : list LogEntry :=
  filter (λ e, le_tx_id e = tx) es.
(** The first decision of [tx] in the log is [body]. *)
Definition first_decision (tx : string) (body : LogEntryBody) (es : list LogEntry) : Prop :=
  ∃ pre lsn post, es = pre ++ mkLogEntry lsn body :: post
    ∧ Forall (λ e, le_body e ≠ TxCommit tx ∧ le_body e ≠ TxRollback tx) pre.

Lemma decision_app pre e post :
  Forall (λ e, decision [e] = None) pre → decision (pre ++ e :: post) = decision (e :: post).
Proof.
  induction 1 as [|x pre Hx _ IH]; [done|]. cbn [app decision] in *.
  by destruct (le_body x).
Qed.
Lemma decision_none es : decision es = None ↔ Forall (λ e, decision [e] = None) es.
Proof.
  induction es as [|e es IH]; [by split|]. rewrite Forall_cons, <-IH.
  cbn [decision]. destruct (le_body e); naive_solver.
Qed.
Lemma decision_split es d :
  decision es = Some d →
  ∃ pre e post, es = pre ++ e :: post ∧ Forall (λ e, decision [e] = None) pre ∧ decision [e] = Some d.
Proof.
  induction es as [|e es IH]; [done|]. intros E. destruct (decision [e]) as [d'|] eqn:Ee.
  - exists [], e, es. split; [done|]. split; [constructor|].
    cbn [decision] in *. destruct (le_body e); congruence.
  - destruct IH as (pre&x&post&->&Hp&Hx). { cbn [decision] in *. destruct (le_body e); congruence. }
    exists (e :: pre), x, post. split; [done|]. by split; [constructor|].
Qed.
Lemma of_tx_app tx a b : of_tx tx (a ++ b) = of_tx tx a ++ of_tx tx b.
Proof. apply filter_app. Qed.
Lemma of_tx_cons tx e es : of_tx tx (e :: es) = if decide (le_tx_id e = tx) then e :: of_tx tx es else of_tx tx es.
Proof. unfold of_tx. by rewrite filter_cons. Qed.

(** In terms of the whole log. *)
Lemma decision_first tx es (b : bool) :
  decision (of_tx tx es) = Some b ↔ first_decision tx (if b then TxCommit tx else TxRollback tx) es.
Proof.
  induction es as [|e es IH].
  { split; [done|]. intros (pre&lsn&post&E&_). by destruct pre. }
  rewrite of_tx_cons. split.
  - case_decide as Ht; intros E.
    + destruct e as [lsn body]. cbn [decision le_body le_tx_id] in *.
      destruct body as [t|t tb rows|t|t]; unfold le_tx_id in Ht; cbn [le_body] in Ht; subst t;
        [apply IH in E|apply IH in E|injection E as <-|injection E as <-].
      1-2: destruct E as (pre&l&post&->&Hp); eexists (_ :: pre), l, post; (split; [done|]);
        constructor; [by split|done].
      all: exists [], lsn, es; split; [done|constructor].
    + apply IH in E as (pre&l&post&->&Hp). exists (e :: pre), l, post. split; [done|].
      constructor; [|done]. split; intros E; apply Ht; unfold le_tx_id; by rewrite E.
  - intros (pre&lsn&post&E&Hp). destruct pre as [|x pre]; injection E as -> ->.
    + assert (le_tx_id (mkLogEntry lsn (if b then TxCommit tx else TxRollback tx)) = tx) as ->
        by by destruct b.
      rewrite decide_True by done. cbn [decision le_body]. by destruct b.
    + inversion Hp as [|?? [Hc Hr] Hp']; subst.
      assert (decision (of_tx tx (pre ++ mkLogEntry lsn (if b then TxCommit tx else TxRollback tx) :: post))
              = Some b) as Hd by (apply IH; by exists pre, lsn, post).
      case_decide as Ht; [|done]. cbn [decision]. unfold le_tx_id in Ht.
      destruct (le_body x); simplify_eq; done.
Qed.

Lemma group_by_tx_sorted es : bm_sorted (group_by_tx es).
Proof.
  unfold group_by_tx. assert (bm_sorted ([] : bmap (list LogEntry))) as Hs by apply bm_sorted_nil.
  revert Hs. generalize ([] : bmap (list LogEntry)) as m.
  induction es as [|e es IH]; intros m Hm; cbn [foldl]; [done|]. apply IH. by apply bm_push_sorted.
Qed.
Lemma group_by_tx_get es tx :
  bm_get tx (group_by_tx es) = if decide (of_tx tx es = []) then None else Some (of_tx tx es).
Proof.
  unfold group_by_tx.
  assert (∀ m, bm_get tx (foldl (λ m e, bm_push (le_tx_id e) e m) m es)
    = if decide (of_tx tx es = []) then bm_get tx m else Some (default [] (bm_get tx m) ++ of_tx tx es)) as Hm.
  { induction es as [|e es IH]; intros m; cbn [foldl]; [done|]. rewrite IH, of_tx_cons.
    unfold bm_push. rewrite bm_get_insert. destruct (decide (le_tx_id e = tx)) as [->|Hne].
    - rewrite (decide_True (P:=tx = tx)) by done. cbn [default].
      destruct (decide (of_tx tx es = [])) as [->|]; [done|]. simpl. unfold id. by rewrite <-app_assoc.
    - rewrite (decide_False (P:=tx = le_tx_id e)) by done. done. }
  rewrite Hm. done.
Qed.

Definition decided (d : option bool) (m : bmap (list LogEntry)) : list string :=
  (filter (λ x, decision x.2 = d) m).*1.
Lemma classify_fold m st :
  let st' := foldl classify st m in
  rs_committed st' = rs_committed st ++ decided (Some true) m
  ∧ rs_aborted st' = rs_aborted st ++ decided (Some false) m
  ∧ rs_undecided st' = rs_undecided st ++ decided None m.
Proof.
  revert st. unfold decided. induction m as [|x m IH]; intros st; cbn [foldl].
  { cbn. by rewrite !app_nil_r. }
  destruct (IH (classify st x)) as (->&->&->). rewrite !filter_cons. unfold classify.
  destruct (decision x.2) as [[]|]; cbn [rs_committed rs_aborted rs_undecided];
    repeat first [rewrite decide_True by done | rewrite decide_False by done];
    rewrite ?fmap_cons, <-?app_assoc; done.
Qed.
Lemma elem_of_decided tx d es :
  tx ∈ decided d (group_by_tx es) ↔ decision (of_tx tx es) = d ∧ of_tx tx es ≠ [].
Proof.
  unfold decided. rewrite list_elem_of_fmap. split.
  - intros ([k l]&->&[Hd Hin]%list_elem_of_filter). cbn [fst snd] in *.
    apply bm_elem_get in Hin; [|apply group_by_tx_sorted]. rewrite group_by_tx_get in Hin.
    case_decide; [done|]. by injection Hin as <-.
  - intros [Hd Hne]. exists (tx, of_tx tx es). split; [done|]. apply list_elem_of_filter.
    split; [done|]. apply bm_get_Some_elem. by rewrite group_by_tx_get, decide_False.
Qed.
Lemma decided_sorted d es : StronglySorted str_lt (decided d (group_by_tx es)).
Proof.
  unfold decided. pose proof (filter_sorted (λ x, decision x.2 = d) _ (group_by_tx_sorted es)) as Hs.
  induction Hs as [|x m Hm IH Hx]; cbn; constructor; [done|]. by apply Forall_fmap.
Qed.
Lemma decision_some_ne es b : decision es = Some b → es ≠ [].
Proof. by destruct es. Qed.
Lemma recovery_of_eq es :
  recovery_of es = mkRecovery (decided (Some true) (group_by_tx es))
    (decided (Some false) (group_by_tx es)) (decided None (group_by_tx es)).
Proof.
  unfold recovery_of. pose proof (classify_fold (group_by_tx es) (mkRecovery [] [] [])) as (Hc&Ha&Hu).
  destruct (foldl _ _ _) as [c a u]. cbn in *. congruence.
Qed.

Section recovered.
Context `{!SerdeJson, !SerdeJsonLaws} {St : Type} `{!Storage St, !StorageLaws St}.
Implicit Types s : St.

(** C9: Recovery lists a transaction as committed or aborted exactly when the first decision
    on it in the log is a commit or a rollback, as undecided exactly when it occurs without
    a decision, each list in the order of ids without repetition. *)
Theorem recover_decides es s :
  wal_holds (files s) es → es ≠ [] →
  ∃ st, recover s = (Ok st, s)
  ∧ (∀ tx, (tx ∈ rs_committed st ↔ first_decision tx (TxCommit tx) es)
      ∧ (tx ∈ rs_aborted st ↔ first_decision tx (TxRollback tx) es)
      ∧ (tx ∈ rs_undecided st ↔
           Exists (λ e, le_tx_id e = tx) es
           ∧ Forall (λ e, le_body e ≠ TxCommit tx ∧ le_body e ≠ TxRollback tx) es))
  ∧ StronglySorted str_lt (rs_committed st) ∧ StronglySorted str_lt (rs_aborted st)
  ∧ StronglySorted str_lt (rs_undecided st).
Proof.
  intros Hw Hne. exists (recovery_of es). split.
  { unfold recover. by rewrite (m_bind_ok _ _ _ _ _ (wal_entries_eq es s Hw Hne)). }
  rewrite recovery_of_eq. cbn [rs_committed rs_aborted rs_undecided].
  split; [|split; [|split]; apply decided_sorted]. intros tx. rewrite !elem_of_decided.
  split; [|split].
  - rewrite <-(decision_first tx es true). split; [by intros []|]. eauto using decision_some_ne.
  - rewrite <-(decision_first tx es false). split; [by intros []|]. eauto using decision_some_ne.
  - rewrite decision_none. unfold of_tx. split.
    + intros [Hd Ht]. split.
      * apply Exists_exists. destruct (filter _ es) as [|e l] eqn:E; [done|].
        assert (e ∈ filter (λ e, le_tx_id e = tx) es) as [??]%list_elem_of_filter
          by (rewrite E; apply list_elem_of_here). eauto.
      * apply Forall_forall. intros e He. rewrite Forall_forall in Hd.
        split; intros Eb; (assert (decision [e] = None) as Hn;
          [apply Hd, list_elem_of_filter; split; [unfold le_tx_id; by rewrite Eb|done]|]);
          cbn [decision] in Hn; by rewrite Eb in Hn.
    + intros [Hx Hf]. rewrite Forall_forall in Hf. split.
      * apply Forall_forall. intros e [Ht He]%list_elem_of_filter. apply Hf in He as [Hc Hr].
        cbn [decision]. unfold le_tx_id in Ht. destruct (le_body e); simplify_eq; done.
      * apply Exists_exists in Hx as (e&He&Ht). intros E.
        assert (e ∈ filter (λ e, le_tx_id e = tx) es) as Hin by by apply list_elem_of_filter.
        rewrite E in Hin. by apply elem_of_nil in Hin.
Qed.
End recovered.

(** ** What recovery replays *)

Section replay.
Context `{!ArrowIpc}.

(** The batches that the log holds for a table of a transaction. *)
Definition entry_batches (tx table : string) (e : LogEntry) : list RecordBatch :=
  match le_body e with
  | TxInsert tx' table' rows_ipc =>
      if decide (tx' = tx ∧ table' = table)
      then match ipc_read rows_ipc with Ok batches => batches | _ => [] end else []
  | _ => []
  end.
Definition tx_inserts (es : list LogEntry) (tx table : string) : list RecordBatch :=
  es ≫= entry_batches tx table.
Definition inserts_into (tx table : string) (e : LogEntry) : Prop :=
  ∃ rows_ipc, le_body e = TxInsert tx table rows_ipc.
(** A map of the batches per table, as the log has them for [tx]. *)
Definition tables_of (es : list LogEntry) (tx : string) (tables : bmap (list RecordBatch)) : Prop :=
  bm_sorted tables ∧ ∀ table,
    default [] (bm_get table tables) = tx_inserts es tx table
    ∧ (is_Some (bm_get table tables) ↔ Exists (inserts_into tx table) es).
(** ... for each of the transactions [txs], and no others, in the order of ids. *)
Definition collected (txs : list string) (es : list LogEntry) (m : bmap (bmap (list RecordBatch))) : Prop :=
  bm_sorted m ∧ (∀ tx, tx ∈ txs ↔ is_Some (bm_get tx m))
  ∧ ∀ tx tables, bm_get tx m = Some tables → tables_of es tx tables.
(** The logged batches can be read. *)
Definition decodable (txs : list string) (e : LogEntry) : Prop :=
  match le_body e with
  | TxInsert tx _ rows_ipc => tx ∈ txs → ∃ batches, ipc_read rows_ipc = Ok batches
  | _ => True
  end.

Lemma bm_get_extend {V} k k' (xs : list V) m :
  bm_get k (bm_extend k' xs m)
  = if decide (k = k') then Some (default [] (bm_get k m) ++ xs) else bm_get k m.
Proof. unfold bm_extend. rewrite bm_get_insert. by case_decide; subst. Qed.
Lemma tx_inserts_snoc es e tx table :
  tx_inserts (es ++ [e]) tx table = tx_inserts es tx table ++ entry_batches tx table e.
Proof. unfold tx_inserts. rewrite bind_app. cbn. by rewrite app_nil_r. Qed.
Lemma Exists_snoc {A} (P : A → Prop) l x : Exists P (l ++ [x]) ↔ Exists P l ∨ P x.
Proof. rewrite Exists_app, Exists_cons, Exists_nil. tauto. Qed.

(** An entry that is not an insert of [tx] changes nothing. *)
Lemma tables_of_other es e tx tables :
  tables_of es tx tables → (∀ table, ¬ inserts_into tx table e) → tables_of (es ++ [e]) tx tables.
Proof.
  intros [Hs Ht] He. split; [done|]. intros table. destruct (Ht table) as [Hd Hi].
  rewrite tx_inserts_snoc, Exists_snoc. split.
  - rewrite Hd. unfold entry_batches. destruct (le_body e) as [|t tb r| |] eqn:Eb;
      rewrite ?app_nil_r; [done| |done..].
    rewrite decide_False by (intros [-> ->]; by destruct (He table); exists r).
    by rewrite app_nil_r.
  - rewrite Hi. naive_solver.
Qed.
Lemma tables_of_insert es lsn tx table rows_ipc batches tables :
  tables_of es tx tables → ipc_read rows_ipc = Ok batches →
  tables_of (es ++ [mkLogEntry lsn (TxInsert tx table rows_ipc)]) tx (bm_extend table batches tables).
Proof.
  intros [Hs Ht] Hr. split; [by apply bm_insert_sorted|]. intros table'. destruct (Ht table') as [Hd Hi].
  rewrite bm_get_extend, tx_inserts_snoc, Exists_snoc. unfold entry_batches, inserts_into. cbn [le_body].
  case_decide as Et.
  - subst. rewrite decide_True by done. rewrite Hr, Hd. split; [done|]. split; [eauto|by intros _].
  - rewrite decide_False by (intros [_ ?]; congruence). rewrite app_nil_r, Hd. split; [done|].
    rewrite Hi. split; [by left|]. intros [?|[r E]]; [done|]. congruence.
Qed.

Lemma collect_entry_ok txs es e m :
  collected txs es m → decodable txs e →
  ∃ m', collect_entry txs m e = Ok m' ∧ collected txs (es ++ [e]) m'.
Proof.
  intros (Hs&Hk&Ht) Hd. unfold collect_entry, decodable in *. destruct e as [lsn body]. cbn [le_body] in *.
  destruct body as [t|t tb rows|t|t].
  1,3,4: exists m; split; [done|]; split; [done|]; split; [done|]; intros tx tables Hg;
    apply tables_of_other; [by apply Ht|intros table [r E]; done].
  case_decide as Hin.
  - destruct (Hd Hin) as [batches Hr]. rewrite Hr. cbn [res_bind].
    destruct (proj1 (Hk t) Hin) as [tables Hg]. rewrite Hg. cbn [or_panic res_bind].
    eexists. split; [done|]. split; [by apply bm_insert_sorted|]. split.
    + intros tx. rewrite bm_get_insert, Hk. case_decide; subst; [|done]. rewrite Hg. by split; eauto.
    + intros tx tables'. rewrite bm_get_insert. case_decide as Et.
      * intros [= <-]. subst. apply tables_of_insert; auto.
      * intros Hg'. apply tables_of_other; [by apply Ht|]. intros table [r E]. cbn in E. congruence.
  - exists m. split; [done|]. split; [done|]. split; [done|]. intros tx tables Hg.
    apply tables_of_other; [by apply Ht|]. intros table [r E]. cbn in E. injection E as -> _ _.
    by destruct Hin; apply Hk; eauto.
Qed.

Lemma collected_init txs : collected txs [] (foldl (λ m tx_id, bm_insert tx_id [] m) [] txs).
Proof.
  assert (∀ m, bm_sorted m → (∀ tx tables, bm_get tx m = Some tables → tables = []) →
    let m' := foldl (λ m tx_id, bm_insert tx_id ([] : bmap (list RecordBatch)) m) m txs in
    bm_sorted m' ∧ (∀ tx, is_Some (bm_get tx m') ↔ tx ∈ txs ∨ is_Some (bm_get tx m))
    ∧ ∀ tx tables, bm_get tx m' = Some tables → tables = []) as Hfold.
  { induction txs as [|t txs IH]; intros m Hs Hm; cbn [foldl].
    - split; [done|]. split; [|done]. intros tx. split; [by right|].
      intros [?%elem_of_nil|]; done.
    - destruct (IH (bm_insert t [] m)) as (Hs'&Hk&He).
      + by apply bm_insert_sorted.
      + intros tx tables. rewrite bm_get_insert. case_decide; [by intros [= <-]|apply Hm].
      + split; [done|]. split; [|done]. intros tx. rewrite Hk, bm_get_insert, elem_of_cons.
        case_decide; subst; split; naive_solver. }
  destruct (Hfold [] bm_sorted_nil) as (Hs&Hk&He); [done|]. split; [done|]. split.
  - intros tx. rewrite Hk. split; [by left|]. intros [?|[? ?]]; done.
  - intros tx tables ->%He. split; [apply bm_sorted_nil|]. intros table. split; [done|].
    rewrite Exists_nil. split; [by intros [? ?]|done].
Qed.
Lemma collect_inserts_ok txs es :
  Forall (decodable txs) es → ∃ m, inserts_by_tx_table txs es = Ok m ∧ collected txs es m.
Proof.
  intros Hes. unfold inserts_by_tx_table.
  assert (∀ dn m, collected txs dn m →
    ∃ m', res_fold (collect_entry txs) m es = Ok m' ∧ collected txs (dn ++ es) m') as Hgen.
  { induction Hes as [|e es He _ IH]; intros dn m Hc; cbn [res_fold].
    { exists m. by rewrite app_nil_r. }
    destruct (collect_entry_ok txs dn e m Hc He) as (m1&->&Hc1). cbn [res_bind].
    destruct (IH (dn ++ [e]) m1 Hc1) as (m2&->&Hc2). exists m2. by rewrite <-app_assoc in Hc2. }
  apply (Hgen []), collected_init.
Qed.
End replay.

Section replays.
Context `{!Sha256, !SerdeJson, !SerdeJsonLaws, !HashOrder, !Hex, !ArrowIpc} {St R : Type}
  `{!Storage St, !StorageLaws St, !TableWriter St R}.
Implicit Types s : St.

Lemma apply_committed_eq es s m :
  wal_holds (files s) es → inserts_by_tx_table (rs_committed (recovery_of es)) es = Ok m →
  apply_committed_transactions s = m_fold (λ _ tx, replay_tables tx.2) tt m s.
Proof.
  intros Hw Em. unfold apply_committed_transactions. destruct (decide (es = [])) as [->|Hne].
  - injection Em as <-. unfold recovery_of. cbn.
    destruct (wal_entries_empty s Hw) as [E|E]; rewrite (m_try_eq _ _ _ _ _ E); [|done].
    unfold recover. unfold m_bind at 1. by rewrite (m_bind_ok _ _ _ _ _ E).
  - pose proof (wal_entries_eq es s Hw Hne) as E. rewrite (m_try_eq _ _ _ _ _ E).
    rewrite (m_bind_ok _ _ s (recovery_of es) s)
      by (unfold recover; by rewrite (m_bind_ok _ _ _ _ _ E)).
    rewrite (m_bind_ok _ _ s m s) by (unfold m_lift; by rewrite Em). done.
Qed.

(** Recovery replays the inserts of the committed transactions and no others, per
    transaction and table, in the order of the log. *)
Theorem recovery_replays_all es s :
  wal_holds (files s) es → Forall (decodable (rs_committed (recovery_of es))) es →
  ∃ by_tx, collected (rs_committed (recovery_of es)) es by_tx
    ∧ apply_committed_transactions s = m_fold (λ _ tx, replay_tables tx.2) tt by_tx s.
Proof.
  intros Hw Hd. destruct (collect_inserts_ok _ _ Hd) as (m&Em&Hm). exists m. split; [done|].
  by apply (apply_committed_eq es).
Qed.

(** ** A torn last line *)

Definition bad_line (line : bytes) : Prop := is_empty line = false ∧ json_parse line = None.
Definition torn : error := Serialization "json".

Lemma read_line_fails acc line : fails_with (λ e, e = torn) (read_line acc line).
Proof.
  unfold read_line. case_match; [done|].
  destruct (json_parse line ≫= entry_of_value); done.
Qed.
Lemma read_bad acc lines line :
  line ∈ lines → bad_line line → res_fold read_line acc lines = Err torn.
Proof.
  intros Hin [He Hp]. revert acc. induction lines as [|l lines IH]; intros acc; [by apply elem_of_nil in Hin|].
  cbn [res_fold]. pose proof (read_line_fails acc l) as Hf.
  apply elem_of_cons in Hin as [<-|Hin].
  - unfold read_line. by rewrite He, Hp.
  - destruct (read_line acc l); cbn in Hf |- *; [by apply IH|by subst|done].
Qed.
Lemma read_segments_bad acc names s n b line :
  (∀ n, n ∈ names → ∃ b, clean n ∧ files s !! n = Some b) →
  n ∈ names → files s !! n = Some b → line ∈ split_bytes x0a b → bad_line line →
  m_fold read_segment acc names s = (Err torn, s).
Proof.
  intros Hr Hn Hb Hl Hbad. revert acc Hn.
  induction names as [|n0 names IH]; intros acc Hn; [by apply elem_of_nil in Hn|]. cbn [m_fold].
  destruct (Hr n0) as (b0&Hc&Hb0); [apply list_elem_of_here|].
  assert (read_segment acc n0 s = (res_fold read_line acc (split_bytes x0a b0), s)) as E.
  { unfold read_segment. by rewrite (m_bind_ok _ _ _ _ _ (read_found _ _ s Hc Hb0)). }
  apply elem_of_cons in Hn as [<-|Hn].
  - rewrite Hb in Hb0. injection Hb0 as <-. rewrite (read_bad acc _ line Hl Hbad) in E.
    unfold m_bind. by rewrite E.
  - pose proof (res_fold_fails (λ e, e = torn) read_line acc (split_bytes x0a b0) read_line_fails) as Hf.
    unfold m_bind. rewrite E. destruct (res_fold _ _ _); cbn in Hf; [|by subst|done].
    apply IH; [|done]. intros. apply Hr. by apply list_elem_of_further.
Qed.

(** C40: When a crash tears the last line of the log, reading it, recovery and the replay
    fail, so that the server does not start, and a log opened on it starts again at LSN 0.
    *)
Theorem torn_log_blocks es fs e part rest s :
  wal_holds fs es → in_u64 (le_lsn e) → entry_line e = part ++ rest → part ≠ [] → rest ≠ [] →
  files s = <[entry_path e := default [] (fs !! entry_path e) ++ part]> fs →
  wal_entries s = (Err torn, s)
  ∧ recover s = (Err torn, s)
  ∧ apply_committed_transactions s = (Err torn, s)
  ∧ Wal_open s = (Ok 0, s).
Proof.
  intros Hw Hl El Hp Hr Hf.
  assert (bad_line part) as Hbad.
  { split; [by destruct part|]. destruct (log_entry_fields e Hl) as (l&Ev&_). unfold entry_line in El.
    rewrite Ev in El. by eapply json_to_vec_prefix. }
  assert (x0a ∉ part) as Hnl.
  { intros Hin. apply (entry_line_no_newline e). rewrite El. set_solver. }
  assert (files s !! entry_path e = Some (default [] (fs !! entry_path e) ++ part)) as He
    by (rewrite Hf; apply lookup_insert_eq).
  pose proof (entry_path_listed _ _ _ He) as Hlist.
  assert (part ∈ split_bytes x0a (default [] (fs !! entry_path e) ++ part)) as Hline.
  { destruct (fs !! entry_path e) as [b|] eqn:Eb; cbn [default].
    - destruct (wal_only _ _ Hw (entry_path e)) as (e'&He'&Hpath);
        [by eapply entry_path_listed|apply entry_path_log|].
      pose proof (wal_segments _ _ Hw e' He') as E'. rewrite <-Hpath, Eb in E'. injection E' as ->.
      unfold id. rewrite split_entries by done. set_solver.
    - cbn [app]. rewrite split_bytes_clean by done. set_solver. }
  assert (wal_entries s = (Err torn, s)) as E.
  { unfold wal_entries.
    rewrite (m_bind_ok _ _ s (list_children (files s) (WAL_DIR +:+ "/")) s).
    2: { rewrite list_wal, decide_False; [done|]. intros Ec. rewrite Ec in Hlist.
         by apply elem_of_nil in Hlist. }
    fold (segment_names (files s)). unfold m_bind.
    rewrite (read_segments_bad [] _ s (entry_path e) (default [] (fs !! entry_path e) ++ part) part);
      [done| | |exact He|exact Hline|exact Hbad].
    - intros n [Hn Hlog]%elem_of_segment_names.
      apply elem_of_list_children in Hn as (key&d&Hk&Hch). rewrite Hf in Hk.
      destruct (decide (key = entry_path e)) as [->|Hne].
      + rewrite child_of_entry in Hch. injection Hch as <-.
        eexists. split; [apply entry_path_clean|exact He].
      + rewrite lookup_insert_ne in Hk by done.
        destruct (wal_only _ _ Hw n) as (e'&He'&->); [by apply elem_of_list_children; eauto|done|].
        rewrite Hf. destruct (decide (entry_path e = entry_path e')) as [->|].
        * eexists. split; [apply entry_path_clean|apply lookup_insert_eq].
        * rewrite lookup_insert_ne by done. eexists. split; [apply entry_path_clean|].
          by apply (wal_segments _ _ Hw).
    - apply elem_of_segment_names. split; [done|apply entry_path_log]. }
  split; [done|]. split; [|split].
  - unfold recover, m_bind. by rewrite E.
  - unfold apply_committed_transactions. by rewrite (m_try_eq _ _ _ _ _ E).
  - unfold Wal_open. by rewrite (m_try_eq _ _ _ _ _ E).
Qed.
End replays.
