(* ===== verification/Transactions.v ===== *)
(** * Transactions of the server

    [icefalldb-server/src/transaction.rs], and the start of the server
    ([server.rs]): inserts are logged and buffered; a commit writes the buffered
    batches of every table and then logs the commit.  The theorems relate the
    manager's buffers to what recovery reads from the log. *)

From S2P Require Import Prelude Bytes StableSort Text OrdMap Storage Json Arrow Schema Manifest CommitDelta MutationWal SnapshotCatalog TransactionLog.
From Stdlib Require Import Ascii.

#[local] Open Scope list_scope.
#[local] Open Scope Z_scope.

Record Transaction := mkTransaction {
  tr_tx_id : string;
  tr_inserts : bmap (list RecordBatch);
}.
Definition Transaction_new (tx_id : string) : Transaction := mkTransaction tx_id [].
Definition add_batch (self : Transaction) (table : string) (batch : RecordBatch) : Transaction :=
  mkTransaction (tr_tx_id self) (bm_push table batch (tr_inserts self)).

(** The manager with the log it shares: the storage, the log's next LSN and the
    active transactions. *)
Record TransactionManager (St : Type) := mkManager {
  tm_storage : St;
  tm_next_lsn : u64;
  tm_transactions : bmap Transaction;
}.
Arguments mkManager {St}.
Arguments tm_storage {St}.
Arguments tm_next_lsn {St}.
Arguments tm_transactions {St}.

Section manager.
Context `{!Sha256, !SerdeJson, !HashOrder, !Hex, !ArrowIpc} {St R : Type} `{!Storage St, !TableWriter St R}.
Abbreviation TM := (M (TransactionManager St)).

Definition on_storage {A} (m : M St A) : TM A := λ tm,
  let (r, s') := m (tm_storage tm) in (r, mkManager s' (tm_next_lsn tm) (tm_transactions tm)).
Definition set_transactions (t : bmap Transaction) : TM unit := λ tm,
  (Ok tt, mkManager (tm_storage tm) (tm_next_lsn tm) t).
Definition transactions : TM (bmap Transaction) := λ tm, (Ok (tm_transactions tm), tm).
Definition next_lsn : TM u64 := λ tm,
  (Ok (tm_next_lsn tm), mkManager (tm_storage tm) (wrap64 (tm_next_lsn tm + 1)) (tm_transactions tm)).

(** [Wal::append]: the LSN is used up even if the entry cannot be written. *)
Definition Wal_append (body : LogEntryBody) : TM LogEntry :=
  let! lsn := next_lsn in
  on_storage (append_entry lsn body).

(** [tx_id] is a new version-4 UUID. *)
Definition begin (tx_id : string) : TM string :=
  let! _ := Wal_append (TxBegin tx_id) in
  let! txs := transactions in
  let! _ := set_transactions (bm_insert tx_id (Transaction_new tx_id) txs) in
  m_ret tx_id.

Definition not_found : error := Other "transaction not found".

Definition add_insert (tx_id table : string) (batch : RecordBatch) : TM unit :=
  let! rows_ipc := m_lift (ipc_write batch) in
  let! _ := Wal_append (TxInsert tx_id table rows_ipc) in
  let! txs := transactions in
  let! tx := m_lift (of_option not_found (bm_get tx_id txs)) in
  set_transactions (bm_insert tx_id (add_batch tx table batch) txs).

(** The guards taken so far are released, in order, however the body ends. *)
Definition release {A} (guards : list string) (r : res A * TransactionManager St)
    : res A * TransactionManager St :=
  (r.1, mkManager (foldl (λ s guard, st_unlock guard s) (tm_storage r.2) guards)
          (tm_next_lsn r.2) (tm_transactions r.2)).
Fixpoint with_locks {A} (guards tables : list string) (body : TM A) : TM A := λ tm,
  match tables with
  | [] => release guards (body tm)
  | table :: tables =>
      match on_storage (st_lock_exclusive (table +:+ "/_write.lock")) tm with
      | (Ok guard, tm') => with_locks (guards ++ [guard]) tables body tm'
      | (Err e, tm') => release guards (Err e, tm')
      | (Panic, tm') => release guards (Panic, tm')
      end
  end.

Definition write_tables (inserts : bmap (list RecordBatch)) : M St (list (string * CommitDelta R)) :=
  m_fold (λ deltas tb, let! delta := write_table true tb.1 tb.2 in m_ret (deltas ++ [(tb.1, delta)]))
    [] inserts.
Definition take_transaction (tx_id : string) : TM Transaction :=
  let! txs := transactions in
  let! tx := m_lift (of_option not_found (bm_get tx_id txs)) in
  let! _ := set_transactions (bm_remove tx_id txs) in
  m_ret tx.
Definition commit (tx_id : string) : TM (list (string * CommitDelta R)) :=
  let! tx := take_transaction tx_id in
  with_locks [] (tr_inserts tx).*1
    (let! deltas := on_storage (write_tables (tr_inserts tx)) in
     let! _ := Wal_append (TxCommit tx_id) in
     m_ret deltas).

Definition rollback (tx_id : string) : TM unit :=
  let! _ := take_transaction tx_id in
  let! _ := Wal_append (TxRollback tx_id) in
  m_ret tt.

(** The start of the server: the log is opened, then replayed. *)
Definition start_server : M St (TransactionManager St) :=
  let! lsn := Wal_open in
  let! _ := apply_committed_transactions in
  λ s, (Ok (mkManager s lsn []), s).
End manager.

(** ** What a transaction's writes touch *)

(** Paths inside the directory of a table. *)
Definition under (table p : string) : Prop := ∃ r, p = table +:+ "/" +:+ r.
(** The writer touches its own table only. *)
Class TableWriterLaws (St R : Type) `{!Storage St, !StorageLaws St, !TableWriter St R} :=
  insert_and_commit_frame table schema lock_held batches s r s' p :
    clean table → insert_and_commit table schema lock_held batches s = (r, s') → ¬ under table p →
    files s' !! p = files s !! p.

(** A table of the database, without deferred mutations. *)
Definition table_name (table : string) : Prop :=
  clean table ∧ contains_char "/"%char table = false ∧ table ≠ WAL_DIR.
Definition quiet_table (fs : gmap string bytes) (table : string) : Prop :=
  table_name table ∧ fs !! wal_path table = None.

Lemma under_inj a b p :
  contains_char "/"%char a = false → contains_char "/"%char b = false → under a p → under b p → a = b.
Proof.
  intros Ha Hb [r ->] [r' E]. revert b Hb E.
  induction a as [|x a IH]; intros [|y b] Hb E; simpl in *; [done|..].
  - injection E as <- _. by rewrite bool_decide_eq_true_2 in Hb.
  - injection E as -> _. by rewrite bool_decide_eq_true_2 in Ha.
  - injection E as -> E. apply orb_false_iff in Ha as [_ Ha], Hb as [_ Hb]. f_equal. eauto.
Qed.
Lemma under_wal table p : table_name table → under WAL_DIR p → ¬ under table p.
Proof. intros (_&Hs&Hne) Hw Hp. apply Hne. by eapply under_inj. Qed.
Lemma wal_path_under table : under table (wal_path table).
Proof. by exists "_wal/mutations.log". Qed.

(** The log depends on its own directory only. *)
Lemma wal_holds_frame `{!SerdeJson} fs fs' es :
  (∀ p, under WAL_DIR p → fs' !! p = fs !! p) → wal_holds fs es → wal_holds fs' es.
Proof.
  intros Hf Hw. constructor; [apply (wal_ordered _ _ Hw)|apply (wal_lsns _ _ Hw)|..].
  - intros e He. rewrite Hf; [by apply (wal_segments _ _ Hw)|].
    unfold entry_path, segment_path. by eexists.
  - intros n (key&d&Hk&Hch)%elem_of_list_children Hlog. apply (wal_only _ _ Hw); [|done].
    apply elem_of_list_children. exists key, d. split; [|done]. rewrite <-Hk. symmetry. apply Hf.
    unfold child_of in Hch. apply bind_Some in Hch as (rest&Hrest&_).
    apply strip_prefix_Some in Hrest as ->. by exists rest.
Qed.

Section frame.
Context `{!Sha256, !SerdeJson, !SerdeJsonLaws, !HashOrder, !HashOrderLaws, !Hex} {St R : Type}
  `{!Storage St, !StorageLaws St, !TableWriter St R, !TableWriterLaws St R}.
Implicit Types s : St.

(** [m] leaves the state [s] as it is. *)
Definition leaves {A} (m : M St A) s : Prop := ∀ r s', m s = (r, s') → s' = s.
Lemma leaves_lift {A} (r : res A) s : leaves (m_lift r) s.
Proof. by intros r' s' [= _ <-]. Qed.
Lemma leaves_read p s : clean p → leaves (st_read p) s.
Proof. intros Hc r s' E. by apply read_cases in E as [-> _]. Qed.
Lemma leaves_bind {A B} (m : M St A) (f : A → M St B) s :
  leaves m s → (∀ a, leaves (f a) s) → leaves (m_bind m f) s.
Proof.
  intros Hm Hf r s' E. unfold m_bind in E. destruct (m s) as [[a|e|] s1] eqn:Em;
    apply Hm in Em as ->; [by eapply Hf|by injection E..].
Qed.
Lemma leaves_try {A B} (m : M St A) (f : res A → M St B) s :
  leaves m s → (∀ a, leaves (f a) s) → leaves (m_try m f) s.
Proof.
  intros Hm Hf r s' E. unfold m_try in E. destruct (m s) as [a s1] eqn:Em.
  apply Hm in Em as ->. by eapply Hf.
Qed.

(** Loading the catalog of a quiet table changes nothing. *)
Lemma catalog_load_leaves table s : quiet_table (files s) table → leaves (Catalog_load table) s.
Proof.
  intros [(Ht&_&_) Hlog].
  assert (∀ b, leaves (live_manifest table b) s) as Hlive.
  { intros b r s' E. unfold live_manifest in E.
    rewrite (m_bind_ok _ _ _ _ _ (read_records_none table s Ht Hlog)) in E. by injection E. }
  unfold Catalog_load, Catalog_refresh. cbn [cat_table].
  apply leaves_try; [by apply leaves_read, pointer_path_clean|]. intros [data|e|]; [|..].
  - apply leaves_bind; [apply leaves_lift|]. intros latest. case_match.
    + unfold refresh_empty. cbn [cat_table].
      apply leaves_try; [by apply leaves_read, schema_pointer_clean|]. intros [b|e|]; [..|apply leaves_lift].
      * apply leaves_bind; [apply leaves_lift|]. intros id.
        apply leaves_bind; [by apply (leaves_read (schema_path table id)), schema_path_clean|].
        intros sb. apply leaves_bind; [apply leaves_lift|]. intros sc. apply (leaves_lift (Ok _)).
      * destruct e; first [apply (leaves_lift (Ok _)) | apply leaves_lift].
    + unfold refresh_snapshot. cbn [cat_table].
      apply leaves_bind; [by apply (leaves_read (manifest_path table latest)), manifest_path_clean|].
      intros b. apply leaves_bind; [apply leaves_lift|]. intros m.
      case_match; [apply leaves_lift|]. case_match; [apply leaves_lift|].
      apply leaves_try; [by apply (leaves_read (schema_path table (mf_schema_id m))), schema_path_clean|].
      intros [sb|e|]; [..|apply leaves_lift].
      * apply leaves_bind; [apply leaves_lift|]. intros sc. case_match; [apply leaves_lift|].
        apply leaves_bind; [apply Hlive|]. intros l. apply (leaves_lift (Ok _)).
      * destruct e; apply leaves_lift.
  - assert (leaves (st_exists (table +:+ "/_schema.json")) s) as Hex.
    { intros r s' E. rewrite (st_exists_spec _ _ s (clean_validate _ (schema_pointer_clean table Ht))) in E.
      by injection E. }
    destruct e; try apply leaves_lift. apply leaves_try; [done|].
    intros [[]|e|]; [apply leaves_lift|apply (leaves_lift (Ok _))| |apply leaves_lift].
    case_match; [apply (leaves_lift (Ok _))|apply leaves_lift].
  - apply leaves_lift.
Qed.
Lemma write_table_frame lock_held table batches s r s' p :
  quiet_table (files s) table → write_table (R:=R) lock_held table batches s = (r, s') → ¬ under table p →
  files s' !! p = files s !! p.
Proof.
  intros Hq E Hp. unfold write_table, m_bind at 1 in E.
  destruct (Catalog_load table s) as [[c|e|] s1] eqn:Ec;
    apply (catalog_load_leaves table s Hq) in Ec as ->; [|by injection E as _ <-..].
  unfold m_bind, m_lift in E. destruct (of_option _ (cat_latest_schema c)) as [sc|e|];
    [eapply insert_and_commit_frame; [apply Hq|exact E|done]|by injection E as _ <-..].
Qed.
Lemma write_tables_frame inserts s r s' p :
  bm_sorted inserts → Forall (quiet_table (files s)) inserts.*1 →
  write_tables (R:=R) inserts s = (r, s') → Forall (λ t, ¬ under t p) inserts.*1 →
  files s' !! p = files s !! p.
Proof.
  intros Hs Hq E Hp. apply bm_sorted_NoDup in Hs. unfold write_tables in E.
  revert E. cut (∀ acc, m_fold (λ deltas tb, let! delta := write_table true tb.1 tb.2 in
                                  m_ret (deltas ++ [(tb.1, delta)])) acc inserts s = (r, s') →
                        files s' !! p = files s !! p); [eauto|].
  revert s Hs Hq Hp. induction inserts as [|[t bs] inserts IH]; intros s Hs Hq Hp acc E; cbn [m_fold] in E.
  { by injection E as _ <-. }
  rewrite fmap_cons in Hs, Hq, Hp. cbn [fst] in *. inversion Hs as [|?? Hnin Hs']; subst.
  inversion Hq as [|?? Hqt Hq']; subst. inversion Hp as [|?? Hpt Hp']; subst.
  unfold m_bind at 1 2 in E. cbn [fst snd] in E.
  destruct (write_table true t bs s) as [r1 s1] eqn:E1.
  assert (∀ q, ¬ under t q → files s1 !! q = files s !! q) as Hf1
    by (intros q Hnq; by eapply write_table_frame).
  destruct r1 as [d|e|]; [|injection E as _ <-; by apply Hf1..].
  cbn [m_ret] in E. rewrite <-(Hf1 p Hpt). eapply (IH s1); [done| |done|exact E].
  rewrite Forall_forall in Hq' |- *. intros t' Hin. destruct (Hq' t' Hin) as [Ht' Hl].
  split; [done|]. rewrite Hf1; [done|]. intros Hu. destruct Hqt as [(_&Hst&_) _], Ht' as (_&Hst'&_).
  apply Hnin. by rewrite (under_inj t t' _ Hst Hst' Hu (wal_path_under t')).
Qed.
End frame.

(** ** The manager and the log *)

Section manager_theorems.
Context `{!Sha256, !SerdeJson, !SerdeJsonLaws, !HashOrder, !HashOrderLaws, !Hex, !ArrowIpc, !ArrowIpcLaws}
  {St R : Type} `{!Storage St, !StorageLaws St, !TableWriter St R, !TableWriterLaws St R}.
Implicit Types tm : TransactionManager St.
Abbreviation tm_files tm := (files (tm_storage tm)).

(** The log holds [es] and the manager's buffers are those of the undecided
    transactions it knows. *)
Record manager_inv tm (es : list LogEntry) : Prop := {
  mi_log : wal_holds (tm_files tm) es;
  mi_next : 0 <= tm_next_lsn tm;
  mi_fresh : Forall (λ e, le_lsn e < tm_next_lsn tm) es;
  mi_readable : ∀ txs, Forall (decodable txs) es;
  mi_sorted : bm_sorted (tm_transactions tm);
  mi_active : ∀ tx t, bm_get tx (tm_transactions tm) = Some t →
    decision (of_tx tx es) = None ∧ tables_of es tx (tr_inserts t);
}.
(** LSNs are not exhausted. *)
Definition lsn_room tm : Prop := tm_next_lsn tm + 1 < 2 ^ 64.

Lemma on_storage_eq {A} (m : M St A) tm r s' :
  m (tm_storage tm) = (r, s') →
  on_storage m tm = (r, mkManager s' (tm_next_lsn tm) (tm_transactions tm)).
Proof. unfold on_storage. by intros ->. Qed.

(** An append on a log in good order. *)
Lemma Wal_append_ok body tm es :
  wal_holds (tm_files tm) es → 0 <= tm_next_lsn tm → Forall (λ e, le_lsn e < tm_next_lsn tm) es →
  lsn_room tm →
  let e := mkLogEntry (tm_next_lsn tm) body in
  ∃ tm', Wal_append body tm = (Ok e, tm')
    ∧ wal_holds (tm_files tm') (es ++ [e]) ∧ tm_next_lsn tm' = tm_next_lsn tm + 1
    ∧ tm_transactions tm' = tm_transactions tm
    ∧ (∀ p, ¬ under WAL_DIR p → tm_files tm' !! p = tm_files tm !! p).
Proof.
  intros Hw Hn Hf Hr e. unfold lsn_room in Hr.
  destruct (append_entry_ok (tm_next_lsn tm) body (tm_storage tm)) as (s'&Ea&Hf').
  fold e in Ea, Hf'.
  exists (mkManager s' (tm_next_lsn tm + 1) (tm_transactions tm)). split; [|split; [|split; [|split]]]; try done.
  - unfold Wal_append, next_lsn. unfold m_bind. rewrite wrap64_small by (unfold in_u64; lia).
    by rewrite (on_storage_eq _ (mkManager (tm_storage tm) (tm_next_lsn tm + 1) (tm_transactions tm)) _ _ Ea).
  - cbn [tm_storage]. rewrite Hf'. apply (wal_holds_append _ _ e); [done| |done].
    cbn. unfold in_u64. lia.
  - cbn [tm_storage]. intros p Hp. rewrite Hf'. apply lookup_insert_ne. intros <-. apply Hp.
    unfold segment_path. by eexists.
Qed.

Lemma fresh_snoc tm tm' es e :
  Forall (λ e, le_lsn e < tm_next_lsn tm) es → tm_next_lsn tm' = tm_next_lsn tm + 1 →
  le_lsn e = tm_next_lsn tm → Forall (λ e, le_lsn e < tm_next_lsn tm') (es ++ [e]).
Proof.
  intros Hf Hn He. apply Forall_app. split; [|constructor; [lia|constructor]].
  eapply Forall_impl; [exact Hf|]. simpl. intros. lia.
Qed.
Lemma of_tx_other tx e es : le_tx_id e ≠ tx → of_tx tx (es ++ [e]) = of_tx tx es.
Proof. intros. rewrite of_tx_app, of_tx_cons, decide_False by done. apply app_nil_r. Qed.
Lemma active_other tx t e es :
  decision (of_tx tx es) = None ∧ tables_of es tx (tr_inserts t) → le_tx_id e ≠ tx →
  decision (of_tx tx (es ++ [e])) = None ∧ tables_of (es ++ [e]) tx (tr_inserts t).
Proof.
  intros [Hd Ht] Hne. rewrite of_tx_other by done. split; [done|]. apply tables_of_other; [done|].
  intros table [r E]. apply Hne. unfold le_tx_id. by rewrite E.
Qed.
Lemma not_insert_decodable e :
  match le_body e with TxInsert _ _ _ => False | _ => True end → ∀ txs, decodable txs e.
Proof. unfold decodable. by destruct (le_body e). Qed.
Lemma readable_snoc es e :
  (∀ txs, Forall (decodable txs) es) → (∀ txs, decodable txs e) →
  ∀ txs, Forall (decodable txs) (es ++ [e]).
Proof. intros He Hd1 txs. apply Forall_app. by split; [|constructor]. Qed.
Lemma tables_of_none es tx :
  (∀ e table, e ∈ es → ¬ inserts_into tx table e) → tables_of es tx [].
Proof.
  intros Hn. split; [apply bm_sorted_nil|]. intros table. cbn [bm_get default]. split.
  - unfold tx_inserts. symmetry. induction es as [|e es IH]; [done|]. cbn.
    rewrite IH by (intros; apply Hn; by apply list_elem_of_further). rewrite app_nil_r.
    unfold entry_batches. destruct (le_body e) as [|t tb r| |] eqn:E; try done.
    rewrite decide_False; [done|]. intros [-> ->].
    apply (Hn e table); [apply list_elem_of_here|by exists r].
  - split; [by intros [? ?]|]. intros (e&He&Hi)%Exists_exists. by destruct (Hn e table He).
Qed.

(** A new transaction: its id is one that the log does not know. *)
Lemma begin_inv tx tm es :
  manager_inv tm es → lsn_room tm → Forall (λ e, le_tx_id e ≠ tx) es →
  ∃ tm' e, begin tx tm = (Ok tx, tm') ∧ manager_inv tm' (es ++ [e])
    ∧ bm_get tx (tm_transactions tm') = Some (Transaction_new tx).
Proof.
  intros Hi Hr Hfr. destruct (Wal_append_ok (TxBegin tx) tm es) as (tm1&E&Hw&Hn&Ht&_);
    [apply Hi|apply Hi|apply Hi|done|].
  set (e := mkLogEntry (tm_next_lsn tm) (TxBegin tx)) in *.
  exists (mkManager (tm_storage tm1) (tm_next_lsn tm1) (bm_insert tx (Transaction_new tx) (tm_transactions tm1))), e.
  split; [|split].
  - unfold begin. by rewrite (m_bind_ok _ _ _ _ _ E).
  - constructor; cbn [tm_storage tm_next_lsn tm_transactions].
    + done.
    + pose proof (mi_next _ _ Hi). lia.
    + eapply (fresh_snoc tm tm1); [apply Hi|done|done].
    + apply readable_snoc; [apply Hi|]. by apply not_insert_decodable.
    + rewrite Ht. apply bm_insert_sorted, Hi.
    + intros tx' t. rewrite Ht, bm_get_insert. case_decide as Etx.
      * intros [= <-]. subst tx'. split.
        -- rewrite of_tx_app, of_tx_cons, decide_True by done. unfold of_tx.
           rewrite filter_nil_in; [done|]. intros x Hx. rewrite Forall_forall in Hfr. by apply Hfr.
        -- apply tables_of_none. intros x table [Hx|Hx%list_elem_of_singleton]%elem_of_app [r E'].
           ++ rewrite Forall_forall in Hfr. apply (Hfr x Hx). unfold le_tx_id. by rewrite E'.
           ++ by subst x.
      * intros Hg. apply active_other; [by apply (mi_active _ _ Hi)|]. by intros <-.
  - cbn [tm_transactions]. apply bm_get_insert_eq.
Qed.

(** A buffered insert; one of an unknown transaction is logged all the same. *)
Lemma add_insert_inv tx table batch rows tm es :
  manager_inv tm es → lsn_room tm → ipc_write batch = Ok rows →
  let e := mkLogEntry (tm_next_lsn tm) (TxInsert tx table rows) in
  ∃ tm', add_insert tx table batch tm
         = (match bm_get tx (tm_transactions tm) with Some _ => Ok tt | None => Err not_found end, tm')
    ∧ manager_inv tm' (es ++ [e]).
Proof.
  intros Hi Hr Hrows e. pose proof (ipc_read_write _ _ Hrows) as Hread.
  destruct (Wal_append_ok (TxInsert tx table rows) tm es) as (tm1&E&Hw&Hn&Ht&_);
    [apply Hi|apply Hi|apply Hi|done|]. fold e in E, Hw.
  assert (∀ txs, Forall (decodable txs) (es ++ [e])) as Hdec.
  { apply readable_snoc; [apply Hi|]. intros txs _. by exists [batch]. }
  pose proof (mi_next _ _ Hi) as Hn0.
  assert (add_insert tx table batch tm
    = match bm_get tx (tm_transactions tm1) with
      | Some t => (Ok tt, mkManager (tm_storage tm1) (tm_next_lsn tm1)
                            (bm_insert tx (add_batch t table batch) (tm_transactions tm1)))
      | None => (Err not_found, tm1)
      end) as Eadd.
  { unfold add_insert. rewrite Hrows. unfold m_bind at 1, m_lift at 1.
    rewrite (m_bind_ok _ _ _ _ _ E). unfold m_bind, transactions, m_lift.
    by destruct (bm_get tx (tm_transactions tm1)). }
  rewrite Eadd, Ht. clear Eadd.
  destruct (bm_get tx (tm_transactions tm)) as [t|] eqn:Eg; eexists; (split; [done|]);
    constructor; cbn [tm_storage tm_next_lsn tm_transactions]; try done; try lia;
    try (by eapply (fresh_snoc tm tm1); [apply Hi|done|done]).
  - apply bm_insert_sorted, Hi.
  - intros tx' t'. rewrite bm_get_insert. case_decide as Etx.
    + intros [= <-]. subst tx'. destruct (mi_active _ _ Hi tx t Eg) as [Hd Htab]. split.
      * rewrite of_tx_app, of_tx_cons, decide_True by done. unfold of_tx at 2. rewrite filter_nil.
        apply decision_none, Forall_app. split; [by apply decision_none|by repeat constructor].
      * cbn [tr_inserts add_batch]. unfold bm_push. apply (tables_of_insert _ _ _ _ _ [batch]); done.
    + intros Hg. apply active_other; [by apply (mi_active _ _ Hi)|]. by intros <-.
  - rewrite Ht. apply Hi.
  - intros tx' t'. rewrite Ht. intros Hg. apply active_other; [by apply (mi_active _ _ Hi)|].
    intros <-. cbn in Hg. congruence.
Qed.

(** A transaction taken out of the manager is not active any more. *)
Lemma take_inv tx t tm es :
  manager_inv tm es → bm_get tx (tm_transactions tm) = Some t →
  ∃ tm', take_transaction tx tm = (Ok t, tm') ∧ manager_inv tm' es
    ∧ tm_storage tm' = tm_storage tm ∧ tm_next_lsn tm' = tm_next_lsn tm
    ∧ bm_get tx (tm_transactions tm') = None.
Proof.
  intros Hi Hg. eexists. split; [|split; [|split; [|split]]].
  - unfold take_transaction, m_bind, transactions, m_lift. by rewrite Hg.
  - constructor; cbn [tm_storage tm_next_lsn tm_transactions]; try apply Hi.
    + apply filter_sorted, Hi.
    + intros tx' t'. rewrite bm_get_remove by apply Hi. case_decide; [done|]. apply (mi_active _ _ Hi).
  - done.
  - done.
  - cbn [tm_transactions]. rewrite bm_get_remove by apply Hi. by rewrite decide_True.
Qed.
Lemma take_unknown tx tm :
  bm_get tx (tm_transactions tm) = None → take_transaction tx tm = (Err not_found, tm).
Proof. intros Hg. unfold take_transaction, m_bind, transactions, m_lift. by rewrite Hg. Qed.

(** A decision on a transaction that is not active. *)
Lemma decide_inv tx body tm es :
  manager_inv tm es → lsn_room tm → bm_get tx (tm_transactions tm) = None →
  body = TxCommit tx ∨ body = TxRollback tx →
  let e := mkLogEntry (tm_next_lsn tm) body in
  ∃ tm', Wal_append body tm = (Ok e, tm') ∧ manager_inv tm' (es ++ [e])
    ∧ tm_transactions tm' = tm_transactions tm.
Proof.
  intros Hi Hr Hg Hb e.
  destruct (Wal_append_ok body tm es) as (tm'&E&Hw&Hn&Ht&_); [apply Hi|apply Hi|apply Hi|done|].
  fold e in E, Hw. exists tm'. split; [done|]. split; [|done]. constructor.
  - done.
  - pose proof (mi_next _ _ Hi). lia.
  - eapply fresh_snoc; [apply Hi|done|done].
  - apply readable_snoc; [apply Hi|]. apply not_insert_decodable. by destruct Hb as [-> | ->].
  - rewrite Ht. apply Hi.
  - intros tx' t'. rewrite Ht. intros Hg'. apply active_other; [by apply (mi_active _ _ Hi)|].
    intros Etx. assert (le_tx_id e = tx) as Ee by by destruct Hb as [-> | ->]. congruence.
Qed.

(** Locks do not matter to the log. *)
Definition same_tm tm tm' : Prop :=
  tm_files tm' = tm_files tm ∧ tm_next_lsn tm' = tm_next_lsn tm ∧ tm_transactions tm' = tm_transactions tm.
Lemma same_tm_trans tm1 tm2 tm3 : same_tm tm1 tm2 → same_tm tm2 tm3 → same_tm tm1 tm3.
Proof. unfold same_tm. intuition congruence. Qed.
Lemma manager_inv_same tm tm' es : same_tm tm tm' → manager_inv tm es → manager_inv tm' es.
Proof.
  intros (Ef&En&Et) Hi. constructor; rewrite ?Ef, ?En, ?Et; apply Hi.
Qed.
Lemma release_same {A} guards (r : res A) tm :
  ∃ tm', release guards (r, tm) = (r, tm') ∧ same_tm tm tm'.
Proof.
  unfold release. cbn [fst snd]. eexists. split; [done|]. unfold same_tm. cbn [tm_storage tm_next_lsn tm_transactions].
  split; [|done]. generalize (tm_storage tm). induction guards as [|g guards IH]; intros s; cbn [foldl]; [done|].
  by rewrite IH, st_unlock_spec.
Qed.
Lemma with_locks_inv {A} guards tables (body : M (TransactionManager St) A) tm r tm' :
  Forall clean tables → with_locks guards tables body tm = (r, tm') →
  (∃ e, r = Err e ∧ same_tm tm tm')
  ∨ ∃ tm1 tm2, same_tm tm tm1 ∧ body tm1 = (r, tm2) ∧ same_tm tm2 tm'.
Proof.
  intros Hc. revert guards tm. induction Hc as [|t tables Ht _ IH]; intros guards tm E; cbn [with_locks] in E.
  - right. destruct (body tm) as [r1 tm2] eqn:Eb. destruct (release_same guards r1 tm2) as (tm3&Er&Hs).
    rewrite Er in E. injection E as <- <-. by exists tm, tm2.
  - assert (clean (t +:+ "/_write.lock")) as Hl by (by apply (clean_join t "_write.lock"), clean_bool).
    destruct (st_lock_spec _ _ (tm_storage tm) (clean_validate _ Hl)) as (rl&s'&El&Hf&[-> | ->]);
      rewrite (on_storage_eq _ _ _ _ El) in E.
    + apply IH in E. destruct E as [(e&->&Hs)|(tm1&tm2&Hs&Eb&Hs2)]; [left|right].
      * exists e. split; [done|]. eapply same_tm_trans; [|exact Hs]. done.
      * exists tm1, tm2. split; [|done]. eapply same_tm_trans; [|exact Hs]. done.
    + destruct (release_same (A:=A) guards (Err (LockTimeout (t +:+ "/_write.lock")))
        (mkManager s' (tm_next_lsn tm) (tm_transactions tm))) as (tm3&Er&Hs).
      rewrite Er in E. injection E as <- <-. left. eexists. split; [done|].
      eapply same_tm_trans; [|exact Hs]. done.
Qed.

(** A commit either writes nothing to the log, and the transaction is gone; or it has
    written all the buffered batches and then the decision. *)
Lemma commit_inv tx t tm es r tm' :
  manager_inv tm es → lsn_room tm → bm_get tx (tm_transactions tm) = Some t →
  Forall (quiet_table (tm_files tm)) (tr_inserts t).*1 → commit tx tm = (r, tm') →
  (manager_inv tm' es ∧ ∀ ds, r ≠ Ok ds)
  ∨ ∃ ds s1 s2, r = Ok ds ∧ files s1 = tm_files tm
      ∧ write_tables (R:=R) (tr_inserts t) s1 = (Ok ds, s2)
      ∧ manager_inv tm' (es ++ [mkLogEntry (tm_next_lsn tm) (TxCommit tx)]).
Proof.
  intros Hi Hr Hg Hq E. destruct (take_inv tx t tm es Hi Hg) as (tm0&E0&Hi0&Es0&En0&Hg0).
  unfold commit in E. rewrite (m_bind_ok _ _ _ _ _ E0) in E.
  destruct (mi_active _ _ Hi tx t Hg) as [_ [Hsorted _]].
  apply with_locks_inv in E.
  2: { eapply Forall_impl; [exact Hq|]. by intros x [(?&_) _]. }
  destruct E as [(e&->&Hs)|(tm1&tm2&Hs1&E&Hs2)].
  { left. split; [by eapply manager_inv_same|done]. }
  pose proof (manager_inv_same _ _ _ Hs1 Hi0) as Hi1. destruct Hs1 as (Ef1&En1&Et1).
  destruct (write_tables (R:=R) (tr_inserts t) (tm_storage tm1)) as [rw s2] eqn:Ew.
  set (tm1' := mkManager s2 (tm_next_lsn tm1) (tm_transactions tm1)) in *.
  assert (manager_inv tm1' es) as Hi1'.
  { constructor; cbn [tm_storage tm_next_lsn tm_transactions tm1']; try apply Hi1.
    apply (wal_holds_frame (tm_files tm1)); [|apply Hi1]. intros p Hp.
    eapply write_tables_frame; [done| |exact Ew|].
    - by rewrite Ef1, Es0.
    - eapply Forall_impl; [exact Hq|]. intros x [Hx _]. by apply under_wal. }
  unfold m_bind at 1 in E. rewrite (on_storage_eq _ _ _ _ Ew) in E. fold tm1' in E.
  destruct rw as [ds|e|].
  2-3: injection E as <- <-; left; split; [by eapply manager_inv_same|done].
  destruct (decide_inv tx (TxCommit tx) tm1' es) as (tm3&E3&Hi3&_).
  { done. }
  { unfold lsn_room. cbn. by rewrite En1, En0. }
  { cbn. by rewrite Et1. }
  { by left. }
  rewrite (m_bind_ok _ _ _ _ _ E3) in E. injection E as <- <-. right.
  exists ds, (tm_storage tm1), s2. split; [done|]. split; [by rewrite Ef1, Es0|]. split; [done|].
  cbn [tm_next_lsn tm1'] in Hi3. rewrite En1, En0 in Hi3. by eapply manager_inv_same.
Qed.

(** Any of the calls, with any outcome. *)
Inductive Call :=
  | CBegin (tx_id : string)
  | CInsert (tx_id table : string) (batch : RecordBatch)
  | CCommit (tx_id : string)
  | CRollback (tx_id : string).
Definition after_call (c : Call) tm : TransactionManager St :=
  match c with
  | CBegin tx => snd (begin tx tm)
  | CInsert tx table batch => snd (add_insert tx table batch tm)
  | CCommit tx => snd (commit (R:=R) tx tm)
  | CRollback tx => snd (rollback tx tm)
  end.
(** Ids of transactions are new, and commits are to tables without deferred mutations. *)
Definition call_ready (c : Call) tm (es : list LogEntry) : Prop :=
  lsn_room tm ∧
  match c with
  | CBegin tx => Forall (λ e, le_tx_id e ≠ tx) es
  | CCommit tx => ∀ t, bm_get tx (tm_transactions tm) = Some t →
      Forall (quiet_table (tm_files tm)) (tr_inserts t).*1
  | _ => True
  end.


Lemma committed_spec tx es :
  tx ∈ rs_committed (recovery_of es) ↔ decision (of_tx tx es) = Some true.
Proof.
  rewrite recovery_of_eq. cbn [rs_committed]. rewrite elem_of_decided.
  split; [by intros []|]. eauto using decision_some_ne.
Qed.
Lemma tables_of_unique es tx m m' : tables_of es tx m → tables_of es tx m' → m = m'.
Proof.
  intros [Hs Ht] [Hs' Ht']. apply bm_ext; [done..|]. intros k.
  destruct (Ht k) as [Hd Hi], (Ht' k) as [Hd' Hi'].
  destruct (bm_get k m) as [x|] eqn:E, (bm_get k m') as [y|] eqn:E'; cbn [default] in *.
  - unfold id in *. congruence.
  - destruct (proj2 Hi' (proj1 Hi (ex_intro _ x eq_refl))) as [? ?]. done.
  - destruct (proj2 Hi (proj1 Hi' (ex_intro _ y eq_refl))) as [? ?]. done.
  - done.
Qed.
Lemma decision_commit tx lsn es :
  decision (of_tx tx es) = None → decision (of_tx tx (es ++ [mkLogEntry lsn (TxCommit tx)])) = Some true.
Proof.
  intros Hd. rewrite of_tx_app, of_tx_cons, decide_True by done. cbn [of_tx filter list_filter].
  rewrite decision_app; [done|]. by apply decision_none.
Qed.
Lemma decision_prefix a b d : decision a = Some d → decision (a ++ b) = Some d.
Proof.
  induction a as [|x a IH]; [done|]. cbn [app decision]. by destruct (le_body x).
Qed.
(** What a restart does with the log. *)
Lemma restart_replays tm es tx t :
  manager_inv tm es → tx ∈ rs_committed (recovery_of es) → tables_of es tx t →
  ∃ by_tx, bm_get tx by_tx = Some t
    ∧ apply_committed_transactions (R:=R) (tm_storage tm)
      = m_fold (λ _ tx, replay_tables (R:=R) tx.2) tt by_tx (tm_storage tm).
Proof.
  intros Hi Htx Ht.
  destruct (collect_inserts_ok (rs_committed (recovery_of es)) es) as (m&Em&Hm); [apply Hi|].
  exists m. split.
  - destruct Hm as (_&Hk&Htabs). destruct (proj1 (Hk tx) Htx) as [t' Ht']. rewrite Ht'. f_equal.
    eapply tables_of_unique; [by apply Htabs|done].
  - apply (apply_committed_eq es); [apply Hi|done].
Qed.


End manager_theorems.
