(* ===== verification/Gc.v ===== *)
(** * Garbage collection

    [gc.rs], with [Writer::manifest_referenced_files] ([writer.rs]) and
    [require_table_exists] ([reader.rs]): which files a run keeps and deletes. *)

From S2P Require Import Prelude Bytes StableSort Text OrdMap Storage Json RowGroupMeta Manifest.
From S2P Require Import MutationWal.
From Stdlib Require Import Ascii.

#[local] Open Scope list_scope.
#[local] Open Scope Z_scope.

(** ** The files a manifest refers to *)

Definition index_ref_files (r : IndexRef) : list string :=
  match ir_base r with
  | Some base =>
      base :: match strip_suffix ".json" base with
              | Some stem => [stem +:+ ".idx"; stem +:+ ".model"]
              | None => []
              end
  | None => []
  end ++ ir_deltas r.
Definition manifest_referenced_files (m : Manifest) : gset string :=
  list_to_set (
    (mf_row_groups m ≫= λ e, [rg_data e; rg_meta e])
    ++ (mf_row_groups m ≫= λ e, option_list (rg_deletes e) ++ option_list (rg_agg e))
    ++ ((map_to_list (mf_index_generations m)).*2 ≫= index_ref_files)
    ++ match mf_rowindex_generation m with
       | Some ri => option_list (ri_base ri) ++ ri_deltas ri
       | None => []
       end
    ++ match mf_checkpoint m with
       | Some checkpoint => [checkpoint; archive_filename (mf_sequence m)]
       | None => []
       end).

Definition fmt_06 (n : u64) : string :=
  let s := fmt_u64 n in pad_zeros (6 - String.length s) s.
Definition Schema_filename (id : u64) : string := "_schemas/" +:+ fmt_06 id +:+ ".json".

Record GcResult := mkGcResult { gc_deleted : list string; gc_retained_snapshots : list u64 }.

Definition filename_of (entry : string) : string := default "" (file_name entry).

(** [sort_unstable_by(|a, b| b.cmp(a))]. *)
Definition sort_descending (l : list u64) : list u64 := sort_by_key Z.opp l.

Section gc.
Context `{!Sha256, !SerdeJson, !HashOrder, !Hex} {St : Type} `{!Storage St}.

Definition require_table_exists (table : string) : M St unit :=
  let schema_pointer_path := table +:+ "/_schema.json" in
  let! present := st_exists schema_pointer_path in
  let! schema_id :=
    (if present then
      let! data := st_read schema_pointer_path in
      let! pointer := m_lift (of_option (Serialization "schema pointer") (json_parse data)) in
      m_ret (get_key "latest" pointer ≫= as_u64)
    else m_ret None) in
  match schema_id with
  | None => m_lift (Err (TableNotFound table))
  | Some schema_id =>
      let! present := st_exists (table +:+ "/" +:+ Schema_filename schema_id) in
      if present then m_ret tt else m_lift (Err (TableNotFound table))
  end.

(** [match list(dir) { Ok(e) => e, Err(NotFound) => default, Err(e) => return Err(e) }]. *)
Definition list_or_empty (dir : string) : M St (list string) :=
  match! st_list dir as r in
  match r with
  | Ok e => m_ret e
  | Err e => if is_not_found e then m_ret [] else m_lift (Err e)
  | Panic => m_lift Panic
  end.

(** Deleting the entries that satisfy [p], in order. *)
Definition delete_matching (p : string → bool) (entries : list string) : M St (list string) :=
  m_fold (λ deleted entry,
    if p entry then let! _ := st_delete entry in m_ret (deleted ++ [entry]) else m_ret deleted)
    [] entries.
(** ... followed by a sync of [sync_path] if anything went. *)
Definition sweep (dir sync_path : string) (p : string → bool) : M St (list string) :=
  let! entries := list_or_empty dir in
  let! deleted := delete_matching p entries in
  if is_empty deleted then m_ret deleted
  else let! _ := st_sync sync_path in m_ret deleted.

Definition is_referenced (referenced : gset string) (entry : string) : bool :=
  bool_decide (entry ∈ referenced).

Definition root_garbage (referenced : gset string) (entry : string) : bool :=
  let filename := filename_of entry in
  let is_row_group := starts_with "rg_" filename
    && (ends_with ".parquet" filename || ends_with ".meta" filename || ends_with ".agg" filename) in
  let is_temp := ends_with ".json.tmp" filename in
  is_temp || (is_row_group && negb (is_referenced referenced entry)).
Definition deletion_garbage (referenced : gset string) (entry : string) : bool :=
  ends_with ".del" (filename_of entry) && negb (is_referenced referenced entry).
Definition direct_garbage (suffixes : list string) (referenced : gset string) (entry : string)
    : bool :=
  existsb (λ suffix, ends_with suffix (filename_of entry)) suffixes
  && negb (is_referenced referenced entry).
Definition generation_garbage (referenced : gset string) (entry : string) : bool :=
  let filename := filename_of entry in
  let is_generated := ends_with ".json" filename || ends_with ".idx" filename
                      || ends_with ".model" filename || ends_with ".tmp" filename in
  is_generated && negb (is_referenced referenced entry).

Definition delete_unreferenced_direct_files (dir : string) (referenced : gset string)
    (suffixes : list string) : M St (list string) :=
  sweep dir dir (direct_garbage suffixes referenced).

Definition delete_unreferenced_index_generations (table : string) (referenced : gset string)
    : M St (list string) :=
  let! entries := list_or_empty (table +:+ "/_indexes") in
  m_fold (λ deleted entry,
    let! d := sweep entry entry (generation_garbage referenced) in m_ret (deleted ++ d))
    [] entries.

(** Manifests below the cutoff and leftover temporaries. *)
Definition manifest_garbage (cutoff_seq : u64) (entry : string) : M St bool :=
  let filename := filename_of entry in
  if ends_with ".json.tmp" filename then m_ret true else
  if negb (ends_with ".json" filename) then m_ret false else
  match strip_suffix ".json" filename ≫= parse_u64 with
  | None => m_ret false
  | Some seq => if seq <? cutoff_seq then st_exists entry else m_ret false
  end.
Definition delete_old_manifests (table : string) (cutoff_seq : u64) : M St (list string) :=
  let manifests_dir := table +:+ "/_manifests" in
  let! entries := list_or_empty manifests_dir in
  let! deleted := m_fold (λ deleted entry,
    let! g := manifest_garbage cutoff_seq entry in
    if g then let! _ := st_delete entry in m_ret (deleted ++ [entry]) else m_ret deleted)
    [] entries in
  if is_empty deleted then m_ret deleted
  else let! _ := st_sync manifests_dir in m_ret deleted.

Definition read_pointer (table : string) : M St (option u64) :=
  match! st_read (table +:+ "/_manifest.json") as r in
  match r with
  | Ok data => m_ret (v ← json_parse data; x ← get_key "latest" v; as_u64 x)
  | Err _ => m_ret None
  | Panic => m_lift Panic
  end.

(** One entry of [_manifests/]: a valid snapshot or nothing. *)
Definition load_snapshot (entry : string) : M St (option (u64 * Manifest)) :=
  let filename := filename_of entry in
  if negb (ends_with ".json" filename) then m_ret None else
  match strip_suffix ".json" filename ≫= parse_u64 with
  | None => m_ret None
  | Some seq =>
      match! st_read entry as r in
      match r with
      | Err e => match e with Io _ => m_lift (Err e) | _ => m_ret None end
      | Panic => m_lift Panic
      | Ok data =>
          match from_slice (A:=Manifest) data with
          | None => m_ret None
          | Some manifest =>
              if negb (mf_sequence manifest =? seq) then m_ret None else
              if negb (mf_format_version manifest =? 1) then m_ret None else
              if negb (verify_checksum manifest) then m_ret None else
              m_ret (Some (seq, manifest))
          end
      end
  end.
Definition load_valid_snapshots (table : string) : M St (gmap Z Manifest * list u64) :=
  let! entries := list_or_empty (table +:+ "/_manifests") in
  m_fold (λ acc entry,
    let! o := load_snapshot entry in
    m_ret (match o with
           | Some (seq, m) => (<[seq := m]> acc.1, acc.2 ++ [seq])
           | None => acc
           end)) (∅, []) entries.

Definition resolve_current_sequence (table : string) (valid : gmap Z Manifest)
    (sequences : list u64) : M St u64 :=
  let! p := read_pointer table in
  let repair :=
    let! seq := m_lift (or_panic (head sequences)) in
    let! _ := write_pointer table seq in
    m_ret seq in
  match p with
  | Some seq => if decide (is_Some (valid !! seq)) then m_ret seq else repair
  | None => repair
  end.

Definition cutoff (retain_snapshots : usize) (current_sequence : u64) : u64 :=
  if retain_snapshots =? 0 then 0
  else saturating_sub current_sequence (saturating_sub retain_snapshots 1).
Definition retained_sequences (cutoff_seq current_sequence : u64) (sequences : list u64)
    : list u64 :=
  let retained := filter (λ seq, cutoff_seq <= seq) sequences in
  if decide (current_sequence ∈ retained) then retained
  else sort_descending (retained ++ [current_sequence]).
Definition referenced_set (table : string) (valid : gmap Z Manifest) (retained : list u64)
    : gset string :=
  list_to_set (retained ≫= λ seq,
    match valid !! seq with
    | Some m => (λ bare, table +:+ "/" +:+ bare) <$> elements (manifest_referenced_files m)
    | None => []
    end).

(** The staging leftovers and the intents, whatever refers to them. *)
Definition sweep_staging (table : string) : M St (list string) :=
  let! a := sweep (table +:+ "/_staging/incoming") (table +:+ "/_staging/incoming")
              (ends_with ".part") in
  let! b := sweep (table +:+ "/_staging/compact") (table +:+ "/_staging/compact")
              (ends_with ".part") in
  let! c := sweep (table +:+ "/_staging/intents") (table +:+ "/_staging/intents")
              (ends_with ".json") in
  m_ret (a ++ b ++ c).

(** The body of [run] once the snapshots are known. *)
Definition collect (table : string) (retain_snapshots : usize) (valid : gmap Z Manifest)
    (sequences : list u64) : M St GcResult :=
  let sequences := sort_descending sequences in
  let! current_sequence := resolve_current_sequence table valid sequences in
  let cutoff_seq := cutoff retain_snapshots current_sequence in
  let retained := retained_sequences cutoff_seq current_sequence sequences in
  let referenced := referenced_set table valid retained in
  let! root := sweep table (table +:+ "/") (root_garbage referenced) in
  let! dels := sweep (table +:+ "/_deletions") (table +:+ "/_deletions")
                 (deletion_garbage referenced) in
  let! ri := delete_unreferenced_direct_files (table +:+ "/_rowindex") referenced [".idx"] in
  let! cp := delete_unreferenced_direct_files (table +:+ "/_checkpoints") referenced
               [".json"; ".rkyv"; ".tmp"] in
  let! ix := delete_unreferenced_index_generations table referenced in
  let! st := sweep_staging table in
  let! ms := delete_old_manifests table cutoff_seq in
  m_ret (mkGcResult (root ++ dels ++ ri ++ cp ++ ix ++ st ++ ms) retained).

(** [run]; the lock is released when the guard is dropped. *)
Definition run (table now : string) (retain_snapshots : usize) : M St GcResult :=
  let! _ := require_table_exists table in
  let! lock := st_lock_exclusive (table +:+ "/_write.lock") in
  λ s,
    let (r, s') :=
      (let! _ := checkpoint_locked table now in
       let! snapshots := load_valid_snapshots table in
       let (valid, sequences) := (snapshots : gmap Z Manifest * list u64) in
       if decide (valid = ∅) then m_ret (mkGcResult [] [])
       else collect table retain_snapshots valid sequences) s in
    (r, st_unlock lock s').
End gc.

(** ** What one sweep does *)

Section sweep.
Context {St : Type} `{!Storage St, !StorageLaws St}.
Implicit Types s : St.

(** [s'] is [s] with exactly the files [dl] deleted. *)
Definition removed (s : St) (dl : list string) (s' : St) : Prop :=
  ∀ q, files s' !! q = if decide (q ∈ dl) then None else files s !! q.
Lemma removed_nil s s' : files s' = files s → removed s [] s'.
Proof. intros E q. by rewrite E. Qed.
Lemma removed_app s1 d1 s2 d2 s3 :
  removed s1 d1 s2 → removed s2 d2 s3 → removed s1 (d1 ++ d2) s3.
Proof.
  intros Ha Hb q. rewrite Hb, Ha. repeat case_decide; try done; set_solver.
Qed.
Lemma removed_sub s dl s' : removed s dl s' → files s' ⊆ files s.
Proof.
  intros Hr. apply map_subseteq_spec. intros q b. rewrite Hr. by case_decide.
Qed.
Lemma removed_same s dl s1 s2 : removed s dl s1 → files s2 = files s1 → removed s dl s2.
Proof. intros Hr E q. by rewrite E. Qed.

(** Directories that look like garbage do not exist: what matches is a file. *)
Definition only_files (fs : gmap string bytes) (dir : string) (p : string → bool) : Prop :=
  ∀ e, e ∈ list_children fs (dir +:+ "/") → p e = true → is_Some (fs !! e).
Lemma only_files_sub fs fs' dir (p p' : string → bool) :
  fs' ⊆ fs → tidy fs → (∀ e, p' e = true → p e = true) →
  only_files fs dir p → only_files fs' dir p'.
Proof.
  intros Hs Ht Hp Ho e He Hpe. eapply child_still_file; [done|done|done|].
  apply Ho; [by eapply list_children_mono|auto].
Qed.

Lemma list_or_empty_ok dir s :
  clean dir → list_or_empty dir s = (Ok (list_children (files s) (dir +:+ "/")), s).
Proof.
  intros Hd. unfold list_or_empty.
  rewrite (m_try_eq _ _ _ _ _ (st_list_spec dir dir s (clean_validate _ Hd))).
  case_decide as E; [by rewrite E|done].
Qed.

Lemma delete_entry s q :
  clean q → is_Some (files s !! q) →
  ∃ s', st_delete q s = (Ok tt, s') ∧ removed s [q] s'.
Proof.
  intros Hc [b Hb]. destruct (st_delete_spec q q s (clean_validate _ Hc)) as (s'&E&Hf).
  exists s'. rewrite Hb in E. split; [done|]. intros q'. rewrite Hf.
  case_decide as Hd; [apply list_elem_of_singleton in Hd as ->; apply lookup_delete_eq|].
  rewrite lookup_delete_ne; [done|]. intros ->. apply Hd. set_solver.
Qed.

Lemma delete_matching_ok (p : string → bool) entries s :
  NoDup entries →
  (∀ e, e ∈ entries → p e = true → clean e ∧ is_Some (files s !! e)) →
  ∃ s', delete_matching p entries s = (Ok (filter (λ e, p e = true) entries), s')
    ∧ removed s (filter (λ e, p e = true) entries) s'.
Proof.
  intros Hn He. unfold delete_matching.
  enough (∀ acc, ∃ s', m_fold (λ deleted entry,
      if p entry then let! _ := st_delete entry in m_ret (deleted ++ [entry])
      else m_ret deleted) acc entries s
    = (Ok (acc ++ filter (λ e, p e = true) entries), s')
    ∧ removed s (filter (λ e, p e = true) entries) s') as Hgen by apply (Hgen []).
  revert s He. induction Hn as [|e entries Hnin Hn IH]; intros s He acc; cbn [m_fold].
  { exists s. rewrite filter_nil, app_nil_r. split; [done|by apply removed_nil]. }
  rewrite filter_cons. destruct (p e) eqn:Hp.
  - rewrite decide_True by done. destruct (He e) as [Hc Hf]; [set_solver|done|].
    destruct (delete_entry s e Hc Hf) as (s1&E1&Hr1).
    destruct (IH s1) with (acc := acc ++ [e]) as (s2&E2&Hr2).
    { intros e' Hin' Hp'. destruct (He e') as [? ?]; [set_solver|done|]. split; [done|].
      rewrite Hr1. rewrite decide_False; [done|]. intros ->%list_elem_of_singleton. done. }
    exists s2. rewrite (m_bind_ok _ _ s (acc ++ [e]) s1).
    + rewrite E2, <-app_assoc. split; [done|]. by apply (removed_app s [e] s1).
    + by rewrite (m_bind_ok _ _ _ _ _ E1).
  - rewrite decide_False by done. apply IH. intros e' ? ?. apply He; [set_solver|done].
Qed.

Lemma sweep_ok dir sync_path (p : string → bool) s :
  clean dir → tidy (files s) → only_files (files s) dir p →
  ∃ dl s', sweep dir sync_path p s = (Ok dl, s') ∧ removed s dl s'
    ∧ dl = filter (λ e, p e = true) (list_children (files s) (dir +:+ "/")).
Proof.
  intros Hd Ht Ho. unfold sweep. rewrite (m_bind_ok _ _ _ _ _ (list_or_empty_ok dir s Hd)).
  destruct (delete_matching_ok p (list_children (files s) (dir +:+ "/")) s) as (s1&E1&Hr1).
  { apply list_children_NoDup. }
  { intros e He Hp. split; [by eapply child_clean|by apply Ho]. }
  rewrite (m_bind_ok _ _ _ _ _ E1). set (dl := filter _ _) in *. exists dl.
  destruct (is_empty dl); [by exists s1|].
  destruct (st_sync_spec sync_path s1) as (s2&E2&Hf2). exists s2.
  rewrite (m_bind_ok _ _ _ _ _ E2). split; [done|]. split; [by eapply removed_same|done].
Qed.
End sweep.

Section collect.
Context `{!Sha256, !SerdeJson, !SerdeJsonLaws, !HashOrder, !Hex}
  {St : Type} `{!Storage St, !StorageLaws St}.
Implicit Types s : St.

Lemma generations_ok (p : string → bool) entries s :
  tidy (files s) → Forall clean entries → Forall (λ e, only_files (files s) e p) entries →
  ∃ dl s', m_fold (λ deleted entry, let! d := sweep entry entry p in m_ret (deleted ++ d))
             [] entries s = (Ok dl, s')
    ∧ removed s dl s' ∧ ∀ q, q ∈ dl → p q = true.
Proof.
  intros Ht Hc Ho.
  enough (∀ acc, ∃ dl s', m_fold (λ deleted entry, let! d := sweep entry entry p in
      m_ret (deleted ++ d)) acc entries s = (Ok (acc ++ dl), s')
    ∧ removed s dl s' ∧ ∀ q, q ∈ dl → p q = true) as Hgen by apply (Hgen []).
  revert s Ht Ho. induction Hc as [|e entries He Hc IH]; intros s Ht Ho acc; cbn [m_fold].
  { exists [], s. rewrite app_nil_r. split; [done|]. split; [by apply removed_nil|].
    by intros q ?%elem_of_nil. }
  inversion Ho as [|?? Hoe Ho']; subst.
  destruct (sweep_ok e e p s He Ht Hoe) as (d1&s1&E1&Hr1&Hd1).
  assert (files s1 ⊆ files s) as Hsub by (by eapply removed_sub).
  destruct (IH s1) with (acc := acc ++ d1) as (d2&s2&E2&Hr2&Hp2).
  { by eapply tidy_sub. }
  { eapply Forall_impl; [exact Ho'|]. intros e' He'. eapply only_files_sub; eauto. }
  exists (d1 ++ d2), s2. rewrite (m_bind_ok _ _ s (acc ++ d1) s1)
    by (by rewrite (m_bind_ok _ _ _ _ _ E1)).
  rewrite E2, app_assoc. split; [done|]. split; [by eapply removed_app|].
  intros q [Hq|Hq]%elem_of_app; [|by apply Hp2]. rewrite Hd1 in Hq.
  by apply list_elem_of_filter in Hq as [? _].
Qed.

(** The entries of [_manifests/] a cutoff condemns. *)
Definition old_manifest (cutoff_seq : u64) (e : string) : Prop :=
  ends_with ".json.tmp" (filename_of e) = true
  ∨ ∃ seq, strip_suffix ".json" (filename_of e) ≫= parse_u64 = Some seq ∧ seq < cutoff_seq.

Lemma manifest_garbage_ok cutoff_seq e s :
  clean e →
  (ends_with ".json.tmp" (filename_of e) = true → is_Some (files s !! e)) →
  ∃ g : bool, manifest_garbage cutoff_seq e s = (Ok g, s)
    ∧ (g = true → is_Some (files s !! e) ∧ old_manifest cutoff_seq e).
Proof.
  intros Hc Htmp. unfold manifest_garbage, old_manifest.
  destruct (ends_with ".json.tmp" (filename_of e)) eqn:E1; [exists true; by auto|].
  destruct (negb (ends_with ".json" (filename_of e))); [by exists false|].
  destruct (strip_suffix ".json" (filename_of e) ≫= parse_u64) as [seq|]; [|by exists false].
  destruct (Z.ltb_spec seq cutoff_seq); [|by exists false].
  rewrite (st_exists_spec e e s (clean_validate _ Hc)). eexists. split; [done|].
  intros Hb%bool_decide_eq_true. eauto.
Qed.

Lemma delete_old_manifests_ok table cutoff_seq s :
  clean table → tidy (files s) →
  only_files (files s) (table +:+ "/_manifests")
    (λ e, ends_with ".json.tmp" (filename_of e)) →
  ∃ dl s', delete_old_manifests table cutoff_seq s = (Ok dl, s') ∧ removed s dl s'
    ∧ ∀ q, q ∈ dl → old_manifest cutoff_seq q
                    ∧ q ∈ list_children (files s) (table +:+ "/_manifests" +:+ "/").
Proof.
  intros Ht Htidy Ho. set (dir := table +:+ "/_manifests").
  assert (clean dir) as Hd by (by apply manifests_dir_clean).
  assert (table +:+ "/_manifests" +:+ "/" = dir +:+ "/") as -> by apply string_app_assoc.
  assert (∀ entries acc s1, NoDup entries → files s1 ⊆ files s →
    (∀ e, e ∈ entries → e ∈ list_children (files s) (dir +:+ "/")) →
    (∀ e, e ∈ entries → files s1 !! e = files s !! e) →
    ∃ dl s', m_fold (λ deleted entry,
      let! g := manifest_garbage cutoff_seq entry in
      if g then let! _ := st_delete entry in m_ret (deleted ++ [entry]) else m_ret deleted)
      acc entries s1 = (Ok (acc ++ dl), s') ∧ removed s1 dl s'
      ∧ ∀ q, q ∈ dl → old_manifest cutoff_seq q
                      ∧ q ∈ list_children (files s) (dir +:+ "/")) as Hfold.
  { induction entries as [|e entries IH]; intros acc s1 Hn Hsub Hl Hsame; cbn [m_fold].
    { exists [], s1. rewrite app_nil_r. split; [done|]. split; [by apply removed_nil|].
      by intros q ?%elem_of_nil. }
    apply NoDup_cons in Hn as [Hne Hn].
    assert (clean e) as Hc by (eapply child_clean; [exact Htidy|]; apply Hl; set_solver).
    destruct (manifest_garbage_ok cutoff_seq e s1 Hc) as (g&Eg&Hg).
    { intros Htmp. rewrite Hsame by set_solver. apply Ho; [apply Hl; set_solver|done]. }
    rewrite (m_bind_ok _ _ s1 (if g then acc ++ [e] else acc)
      (if g then (st_delete e s1).2 else s1)).
    2: { rewrite (m_bind_ok _ _ _ _ _ Eg). destruct g; [|done]. destruct (Hg eq_refl) as [Hf _].
         destruct (delete_entry s1 e Hc Hf) as (s2&E2&_). by rewrite (m_bind_ok _ _ _ _ _ E2), E2. }
    destruct g.
    - destruct (Hg eq_refl) as [Hf Hold].
      destruct (delete_entry s1 e Hc Hf) as (s2&E2&Hr2). rewrite E2. cbn [snd].
      destruct (IH (acc ++ [e]) s2) as (dl&s3&E3&Hr3&Hp3); [done| | | |].
      + etrans; [by eapply removed_sub|done].
      + intros e' ?. apply Hl. set_solver.
      + intros e' He'. rewrite Hr2. rewrite decide_False by set_solver. apply Hsame. set_solver.
      + exists (e :: dl), s3. rewrite E3, <-app_assoc. split; [done|].
        split; [by apply (removed_app s1 [e] s2)|].
        intros q [->|Hq]%elem_of_cons; [|by apply Hp3]. split; [done|]. apply Hl. set_solver.
    - destruct (IH acc s1) as (dl&s3&E3&Hr3&Hp3); [done|done| | |].
      + intros e' ?. apply Hl. set_solver.
      + intros e' ?. apply Hsame. set_solver.
      + eauto. }
  unfold delete_old_manifests. fold dir. rewrite (m_bind_ok _ _ _ _ _ (list_or_empty_ok dir s Hd)).
  destruct (Hfold (list_children (files s) (dir +:+ "/")) [] s) as (dl&s1&E1&Hr1&Hp1);
    [apply list_children_NoDup|done|done|done|].
  rewrite (m_bind_ok _ _ _ _ _ E1). exists dl. cbn [app]. destruct (is_empty dl); [by exists s1|].
  destruct (st_sync_spec dir s1) as (s2&E2&Hf2). exists s2.
  rewrite (m_bind_ok _ _ _ _ _ E2). split; [done|]. split; [by eapply removed_same|done].
Qed.
End collect.

(** ** Safety of a run *)

(** Why a file may go. *)
Inductive dead (table : string) (referenced : gset string) (cutoff_seq : u64) : string → Prop :=
  | dead_root c :
      contains_char "/" c = false → root_garbage referenced (table +:+ "/" +:+ c) = true →
      dead table referenced cutoff_seq (table +:+ "/" +:+ c)
  | dead_generated d c :
      d ∈ ["_deletions"; "_rowindex"; "_checkpoints"; "_indexes"] →
      table +:+ "/" +:+ d +:+ "/" +:+ c ∉ referenced →
      dead table referenced cutoff_seq (table +:+ "/" +:+ d +:+ "/" +:+ c)
  | dead_staging c : dead table referenced cutoff_seq (table +:+ "/_staging/" +:+ c)
  | dead_manifest c :
      old_manifest cutoff_seq (table +:+ "/_manifests/" +:+ c) →
      dead table referenced cutoff_seq (table +:+ "/_manifests/" +:+ c).

(** The shape of a table directory that lets a run complete: a tree of files in
    which no directory carries the name of a collectable file. *)
Record gc_tree (fs : gmap string bytes) (table : string) : Prop := {
  gt_tidy : tidy fs;
  gt_root : only_files fs table (root_garbage ∅);
  gt_del : only_files fs (table +:+ "/_deletions") (deletion_garbage ∅);
  gt_row : only_files fs (table +:+ "/_rowindex") (direct_garbage [".idx"] ∅);
  gt_cp : only_files fs (table +:+ "/_checkpoints") (direct_garbage [".json"; ".rkyv"; ".tmp"] ∅);
  gt_ix : Forall (λ e, only_files fs e (generation_garbage ∅))
            (list_children fs (table +:+ "/_indexes" +:+ "/"));
  gt_inc : only_files fs (table +:+ "/_staging/incoming") (ends_with ".part");
  gt_com : only_files fs (table +:+ "/_staging/compact") (ends_with ".part");
  gt_int : only_files fs (table +:+ "/_staging/intents") (ends_with ".json");
  gt_man : only_files fs (table +:+ "/_manifests") (λ e, ends_with ".json.tmp" (filename_of e));
}.

Lemma unreferenced_empty R e : negb (is_referenced R e) = true → negb (is_referenced ∅ e) = true.
Proof.
  unfold is_referenced. intros _. apply negb_true_iff, bool_decide_eq_false. set_solver.
Qed.
Lemma root_garbage_empty R e : root_garbage R e = true → root_garbage ∅ e = true.
Proof.
  unfold root_garbage. rewrite !orb_true_iff, !andb_true_iff.
  pose proof (unreferenced_empty R e). naive_solver.
Qed.
Lemma deletion_garbage_empty R e : deletion_garbage R e = true → deletion_garbage ∅ e = true.
Proof.
  unfold deletion_garbage. rewrite !andb_true_iff. pose proof (unreferenced_empty R e). naive_solver.
Qed.
Lemma direct_garbage_empty l R e : direct_garbage l R e = true → direct_garbage l ∅ e = true.
Proof.
  unfold direct_garbage. rewrite !andb_true_iff. pose proof (unreferenced_empty R e). naive_solver.
Qed.
Lemma generation_garbage_empty R e :
  generation_garbage R e = true → generation_garbage ∅ e = true.
Proof.
  unfold generation_garbage. rewrite !andb_true_iff. pose proof (unreferenced_empty R e).
  naive_solver.
Qed.
Lemma not_referenced R e : negb (is_referenced R e) = true → e ∉ R.
Proof. unfold is_referenced. intros H%negb_true_iff. by apply bool_decide_eq_false in H. Qed.

Lemma only_files_mono fs fs' dir p :
  fs' ⊆ fs → tidy fs → only_files fs dir p → only_files fs' dir p.
Proof. intros. eapply only_files_sub; eauto. Qed.
Lemma gc_tree_sub fs fs' table : fs' ⊆ fs → gc_tree fs table → gc_tree fs' table.
Proof.
  intros Hs []. split; try (by eapply only_files_mono); [by eapply tidy_sub|].
  rewrite Forall_forall in *. intros e He. eapply only_files_mono; [done|done|].
  eapply gt_ix0, list_children_mono; eauto.
Qed.

(** The shape of a tree is a matter of its paths, and can be computed. *)
Definition same_paths (fs fs' : gmap string bytes) : Prop :=
  ∀ p, is_Some (fs !! p) ↔ is_Some (fs' !! p).
Lemma same_paths_insert fs p b : is_Some (fs !! p) → same_paths fs (<[p:=b]> fs).
Proof.
  intros Hp q. destruct (decide (p = q)) as [->|]; [by rewrite lookup_insert_eq|].
  by rewrite lookup_insert_ne.
Qed.
Lemma same_paths_children fs fs' n e :
  same_paths fs fs' → e ∈ list_children fs' n → e ∈ list_children fs n.
Proof.
  intros Hs (key&d&Hk&Hch)%elem_of_list_children. apply elem_of_list_children.
  destruct (proj2 (Hs key)) as [d' Hd']; [eauto|]. by exists key, d'.
Qed.
Lemma same_paths_only fs fs' dir p :
  same_paths fs fs' → only_files fs dir p → only_files fs' dir p.
Proof. intros Hs Ho e He Hp. apply Hs, Ho; [by eapply same_paths_children|done]. Qed.
Lemma gc_tree_same_paths fs fs' table : same_paths fs fs' → gc_tree fs table → gc_tree fs' table.
Proof.
  intros Hs [[Hc Ht]]. split; try (by eapply same_paths_only).
  - split; [intros p Hp; by apply Hc, Hs|]. intros p r Hp. apply Hs in Hp.
    apply eq_None_not_Some. intros Hx%Hs. rewrite (Ht p r Hp) in Hx. by destruct Hx.
  - rewrite Forall_forall in *. intros e He. eapply same_paths_only; [done|].
    by eapply gt_ix0, same_paths_children.
Qed.

Definition only_filesb (fs : gmap string bytes) (dir : string) (p : string → bool) : bool :=
  forallb (λ e, negb (p e) || bool_decide (is_Some (fs !! e))) (list_children fs (dir +:+ "/")).
Definition tidyb (fs : gmap string bytes) : bool :=
  let keys := fst <$> map_to_list fs in
  forallb (λ p, bool_decide (clean p)
                && forallb (λ q, negb (starts_with (p +:+ "/") q)) keys) keys.
Definition gc_treeb (fs : gmap string bytes) (table : string) : bool :=
  tidyb fs && only_filesb fs table (root_garbage ∅)
  && only_filesb fs (table +:+ "/_deletions") (deletion_garbage ∅)
  && only_filesb fs (table +:+ "/_rowindex") (direct_garbage [".idx"] ∅)
  && only_filesb fs (table +:+ "/_checkpoints") (direct_garbage [".json"; ".rkyv"; ".tmp"] ∅)
  && forallb (λ e, only_filesb fs e (generation_garbage ∅))
       (list_children fs (table +:+ "/_indexes" +:+ "/"))
  && only_filesb fs (table +:+ "/_staging/incoming") (ends_with ".part")
  && only_filesb fs (table +:+ "/_staging/compact") (ends_with ".part")
  && only_filesb fs (table +:+ "/_staging/intents") (ends_with ".json")
  && only_filesb fs (table +:+ "/_manifests") (λ e, ends_with ".json.tmp" (filename_of e)).

Lemma only_filesb_spec fs dir p : only_filesb fs dir p = true → only_files fs dir p.
Proof.
  unfold only_filesb. rewrite forallb_forall. intros Hb e He%list_elem_of_In Hp.
  specialize (Hb e He). rewrite Hp in Hb. by apply bool_decide_eq_true in Hb.
Qed.
Lemma starts_with_prefix p r : starts_with p (p +:+ r) = true.
Proof. unfold starts_with. rewrite strip_prefix_app. by apply bool_decide_eq_true_2. Qed.
Lemma tidyb_spec fs : tidyb fs = true → tidy fs.
Proof.
  unfold tidyb. rewrite forallb_forall. intros Hb.
  assert (∀ p, is_Some (fs !! p) → In p (fst <$> map_to_list fs)) as Hin.
  { intros p [b Hp]. apply list_elem_of_In, list_elem_of_fmap. exists (p, b).
    split; [done|by apply elem_of_map_to_list]. }
  split.
  - intros p Hp. specialize (Hb p (Hin p Hp)). by apply andb_true_iff in Hb as [?%bool_decide_eq_true _].
  - intros p r Hp. specialize (Hb p (Hin p Hp)). apply andb_true_iff in Hb as [_ Hb].
    rewrite forallb_forall in Hb. apply eq_None_not_Some. intros Hx. specialize (Hb _ (Hin _ Hx)).
    by rewrite string_app_assoc, starts_with_prefix in Hb.
Qed.
Lemma gc_treeb_spec fs table : gc_treeb fs table = true → gc_tree fs table.
Proof.
  unfold gc_treeb. rewrite !andb_true_iff. intros H'. destruct_and! H'.
  split; try (by apply only_filesb_spec); [by apply tidyb_spec|].
  rewrite Forall_forall. intros e He%list_elem_of_In. apply only_filesb_spec.
  match goal with H : forallb _ _ = true |- _ => rewrite forallb_forall in H; by apply H end.
Qed.

Lemma list_children_below fs n e :
  e ∈ list_children fs n → ∃ c, e = n +:+ c ∧ contains_char "/" c = false.
Proof. intros (key&d&_&Hc)%elem_of_list_children. by eapply child_of_prefix. Qed.

Lemma dir_clean table d : clean table → clean d → clean (table +:+ "/" +:+ d).
Proof. apply clean_join. Qed.

Section run.
Context `{!Sha256, !SerdeJson, !SerdeJsonLaws, !HashOrder, !Hex}
  {St : Type} `{!Storage St, !StorageLaws St}.
Implicit Types s : St.

(** A sweep of a directory of the tree, with the fate of what it deletes. *)
Lemma tree_sweep table referenced cutoff_seq dir sync_path (p p0 : string → bool) s :
  clean dir → gc_tree (files s) table → only_files (files s) dir p0 →
  (∀ e, p e = true → p0 e = true) →
  (∀ c, contains_char "/" c = false → p (dir +:+ "/" +:+ c) = true →
        dead table referenced cutoff_seq (dir +:+ "/" +:+ c)) →
  ∃ dl s', sweep dir sync_path p s = (Ok dl, s') ∧ removed s dl s'
    ∧ Forall (dead table referenced cutoff_seq) dl ∧ gc_tree (files s') table.
Proof.
  intros Hc Ht Ho Hp Hd.
  destruct (sweep_ok dir sync_path p s) as (dl&s'&E&Hr&->); [done|apply Ht| |].
  { eapply only_files_sub; [done|apply Ht|exact Hp|done]. }
  eexists _, s'. split; [exact E|]. split; [done|]. split.
  - apply Forall_forall. intros q [Hpq Hq]%list_elem_of_filter.
    apply list_children_below in Hq as (c&->&Hslash).
    rewrite <-string_app_assoc in Hpq |- *. by apply Hd.
  - eapply gc_tree_sub; [by eapply removed_sub|done].
Qed.

Lemma tree_generations table referenced cutoff_seq s :
  clean table → gc_tree (files s) table →
  ∃ dl s', delete_unreferenced_index_generations table referenced s = (Ok dl, s')
    ∧ removed s dl s' ∧ Forall (dead table referenced cutoff_seq) dl
    ∧ gc_tree (files s') table.
Proof.
  intros Hc Ht. unfold delete_unreferenced_index_generations.
  assert (clean (table +:+ "/_indexes")) as Hd
    by (apply (dir_clean table "_indexes"); [done|by apply clean_bool]).
  rewrite (m_bind_ok _ _ _ _ _ (list_or_empty_ok _ s Hd)).
  rewrite <-(string_app_assoc table "/_indexes" "/").
  set (entries := list_children _ _).
  assert (Forall clean entries) as Hce.
  { apply Forall_forall. intros e He. eapply child_clean; [apply Ht|exact He]. }
  assert (Forall (λ e, only_files (files s) e (generation_garbage referenced)) entries) as Ho.
  { eapply Forall_impl; [apply Ht|]. intros e He.
    eapply only_files_sub; [done|apply Ht|apply generation_garbage_empty|done]. }
  (* what is deleted lies below an entry *)
  enough (∀ acc s1, files s1 ⊆ files s →
    ∃ dl s', m_fold (λ deleted entry, let! d := sweep entry entry (generation_garbage referenced)
        in m_ret (deleted ++ d)) acc entries s1 = (Ok (acc ++ dl), s')
      ∧ removed s1 dl s' ∧ Forall (dead table referenced cutoff_seq) dl) as Hgen.
  { destruct (Hgen [] s ltac:(done)) as (dl&s'&E&Hr&Hdd). exists dl, s'.
    split; [done|]. split; [done|]. split; [done|].
    eapply gc_tree_sub; [by eapply removed_sub|done]. }
  assert (Forall (λ e, ∃ c, e = table +:+ "/_indexes/" +:+ c) entries) as Hpre.
  { apply Forall_forall. intros e (c&->&_)%list_children_below. exists c.
    by rewrite <-!string_app_assoc. }
  clearbody entries. induction entries as [|e entries IH]; intros acc s1 Hsub; cbn [m_fold].
  { exists [], s1. rewrite app_nil_r. split; [done|]. split; [by apply removed_nil|done]. }
  inversion Hce; inversion Ho as [|?? Hoe Ho']; inversion Hpre as [|?? [c ->]]; subst.
  destruct (sweep_ok (table +:+ "/_indexes/" +:+ c) (table +:+ "/_indexes/" +:+ c)
    (generation_garbage referenced) s1) as (d1&s2&E1&Hr1&Hd1); [done| | |].
  { eapply tidy_sub; [exact Hsub|apply Ht]. }
  { eapply only_files_mono; [exact Hsub|apply Ht|done]. }
  destruct (IH ltac:(done) ltac:(done) ltac:(done) (acc ++ d1) s2) as (d2&s3&E2&Hr2&Hdd2).
  { etrans; [by eapply removed_sub|done]. }
  exists (d1 ++ d2), s3. rewrite (m_bind_ok _ _ s1 (acc ++ d1) s2)
    by (by rewrite (m_bind_ok _ _ _ _ _ E1)).
  rewrite E2, app_assoc. split; [done|]. split; [by eapply removed_app|].
  apply Forall_app. split; [|done]. apply Forall_forall. rewrite Hd1.
  intros q [Hpq (c'&->&_)%list_children_below]%list_elem_of_filter.
  assert (((table +:+ "/_indexes/" +:+ c) +:+ "/") +:+ c'
    = table +:+ "/" +:+ "_indexes" +:+ "/" +:+ (c +:+ "/" +:+ c')) as E.
  { by rewrite <-!string_app_assoc. }
  rewrite E in Hpq |- *. apply dead_generated; [set_solver|].
  unfold generation_garbage in Hpq. apply andb_true_iff in Hpq as [_ Hpq].
  by apply not_referenced in Hpq.
Qed.
End run.

Section safety.
Context `{!Sha256, !SerdeJson, !SerdeJsonLaws, !HashOrder, !HashOrderLaws, !Hex}
  {St : Type} `{!Storage St, !StorageLaws St}.
Implicit Types s : St.

Lemma read_pointer_ok table s :
  clean table → ∃ p, read_pointer table s = (Ok p, s).
Proof.
  intros Ht. unfold read_pointer.
  rewrite (m_try_eq _ _ _ _ _ (st_read_clean _ s (pointer_path_clean table Ht))).
  unfold read_result. fold (pointer_path table). destruct (files s !! _); by eexists.
Qed.

(** The sequence that defines the window is a valid snapshot; the pointer is
    only ever rewritten to it. *)
Lemma resolve_ok table valid (sequences : list Z) s :
  clean table → sequences ≠ [] → (∀ q, q ∈ sequences → is_Some (valid !! q)) →
  ∃ cur s', resolve_current_sequence table valid sequences s = (Ok cur, s')
    ∧ is_Some (valid !! cur)
    ∧ (files s' = files s
       ∨ files s' = <[pointer_path table := pointer_bytes cur]>
                      (delete (pointer_path table +:+ ".tmp") (files s))).
Proof.
  intros Ht Hne Hv. unfold resolve_current_sequence.
  destruct (read_pointer_ok table s Ht) as [p Ep]. rewrite (m_bind_ok _ _ _ _ _ Ep).
  destruct sequences as [|q qs]; [done|]. cbn [head or_panic].
  destruct (write_pointer_ok table q s Ht) as (s'&Ew&Hf).
  assert ((let! seq := m_lift (Ok q) in let! _ := write_pointer table seq in m_ret seq) s
          = (Ok q, s')) as Er.
  { unfold m_bind at 1, m_lift. by rewrite (m_bind_ok _ _ _ _ _ Ew). }
  destruct p as [seq|]; [|exists q, s'; split; [done|]; split; [apply Hv; set_solver|by right]].
  case_decide; [by exists seq, s; auto|].
  exists q, s'. split; [done|]. split; [apply Hv; set_solver|by right].
Qed.

Lemma sweep_staging_ok table referenced cutoff_seq s :
  clean table → gc_tree (files s) table →
  ∃ dl s', sweep_staging table s = (Ok dl, s') ∧ removed s dl s'
    ∧ Forall (dead table referenced cutoff_seq) dl ∧ gc_tree (files s') table.
Proof.
  intros Hc Ht. unfold sweep_staging.
  assert (∀ d, clean d → clean (table +:+ "/_staging/" +:+ d)) as Hcl.
  { intros d Hd. change ("/_staging/" +:+ d) with ("/" +:+ ("_staging" +:+ "/" +:+ d)).
    apply dir_clean; [done|]. apply clean_join; [by apply clean_bool|done]. }
  assert (∀ d c, dead table referenced cutoff_seq
                   ((table +:+ "/_staging/" +:+ d) +:+ "/" +:+ c)) as Hdead.
  { intros d c. rewrite <-!string_app_assoc.
    apply (dead_staging table referenced cutoff_seq (d +:+ "/" +:+ c)). }
  destruct (tree_sweep table referenced cutoff_seq (table +:+ "/_staging/incoming")
    (table +:+ "/_staging/incoming") (ends_with ".part") (ends_with ".part") s)
    as (d1&s1&E1&Hr1&Hd1&Ht1);
    [apply (Hcl "incoming"); by apply clean_bool|done|apply Ht|done|
     intros c _ _; apply (Hdead "incoming")|].
  destruct (tree_sweep table referenced cutoff_seq (table +:+ "/_staging/compact")
    (table +:+ "/_staging/compact") (ends_with ".part") (ends_with ".part") s1)
    as (d2&s2&E2&Hr2&Hd2&Ht2);
    [apply (Hcl "compact"); by apply clean_bool|done|apply Ht1|done|
     intros c _ _; apply (Hdead "compact")|].
  destruct (tree_sweep table referenced cutoff_seq (table +:+ "/_staging/intents")
    (table +:+ "/_staging/intents") (ends_with ".json") (ends_with ".json") s2)
    as (d3&s3&E3&Hr3&Hd3&Ht3);
    [apply (Hcl "intents"); by apply clean_bool|done|apply Ht2|done|
     intros c _ _; apply (Hdead "intents")|].
  exists (d1 ++ d2 ++ d3), s3. rewrite (m_bind_ok _ _ _ _ _ E1), (m_bind_ok _ _ _ _ _ E2),
    (m_bind_ok _ _ _ _ _ E3). split; [done|]. split; [by eauto using removed_app|].
  split; [|done]. by rewrite !Forall_app.
Qed.

Lemma collect_ok table retain valid sequences cur s s0 :
  clean table → gc_tree (files s0) table →
  resolve_current_sequence table valid (sort_descending sequences) s = (Ok cur, s0) →
  let cutoff_seq := cutoff retain cur in
  let retained := retained_sequences cutoff_seq cur (sort_descending sequences) in
  let referenced := referenced_set table valid retained in
  ∃ dl s', collect table retain valid sequences s = (Ok (mkGcResult dl retained), s')
    ∧ removed s0 dl s' ∧ Forall (dead table referenced cutoff_seq) dl
    ∧ ∀ e, e ∈ list_children (files s0) (table +:+ "/") →
           root_garbage referenced e = true → e ∈ dl.
Proof.
  intros Hc Ht Er cutoff_seq retained referenced. unfold collect.
  rewrite (m_bind_ok _ _ _ _ _ Er). fold cutoff_seq. fold retained. fold referenced.
  assert (∀ d, bool_decide (clean d) = true → clean (table +:+ "/" +:+ d)) as Hcl
    by (intros d Hd; apply dir_clean; [done|by apply clean_bool]).
  assert (∀ d c (p : string → bool), d ∈ ["_deletions"; "_rowindex"; "_checkpoints"; "_indexes"] →
    (∀ e, p e = true → negb (is_referenced referenced e) = true) →
    contains_char "/" c = false → p ((table +:+ "/" +:+ d) +:+ "/" +:+ c) = true →
    dead table referenced cutoff_seq ((table +:+ "/" +:+ d) +:+ "/" +:+ c)) as Hgen.
  { intros d c p Hd Hp _ Hpc. apply Hp, not_referenced in Hpc.
    rewrite <-!string_app_assoc in Hpc |- *. by apply dead_generated. }
  destruct (sweep_ok table (table +:+ "/") (root_garbage referenced) s0)
    as (d1&s1&E1&Hr1&Hd1'); [done|apply Ht| |].
  { eapply only_files_sub; [done|apply Ht|apply root_garbage_empty|apply Ht]. }
  assert (Forall (dead table referenced cutoff_seq) d1) as Hd1.
  { rewrite Hd1'. apply Forall_forall.
    intros q [Hp (c&->&Hs)%list_children_below]%list_elem_of_filter.
    rewrite <-string_app_assoc in Hp |- *. by apply dead_root. }
  assert (gc_tree (files s1) table) as Ht1 by (eapply gc_tree_sub; [by eapply removed_sub|done]).
  destruct (tree_sweep table referenced cutoff_seq (table +:+ "/_deletions")
    (table +:+ "/_deletions") (deletion_garbage referenced) (deletion_garbage ∅) s1)
    as (d2&s2&E2&Hr2&Hd2&Ht2);
    [by apply (Hcl "_deletions")|done|apply Ht1|apply deletion_garbage_empty| |].
  { intros c. apply (Hgen "_deletions" c (deletion_garbage referenced)); [set_solver|].
    unfold deletion_garbage. by intros e [_ ?]%andb_true_iff. }
  unfold delete_unreferenced_direct_files.
  destruct (tree_sweep table referenced cutoff_seq (table +:+ "/_rowindex")
    (table +:+ "/_rowindex") (direct_garbage [".idx"] referenced) (direct_garbage [".idx"] ∅) s2)
    as (d3&s3&E3&Hr3&Hd3&Ht3);
    [by apply (Hcl "_rowindex")|done|apply Ht2|apply direct_garbage_empty| |].
  { intros c. apply (Hgen "_rowindex" c (direct_garbage [".idx"] referenced)); [set_solver|].
    unfold direct_garbage. by intros e [_ ?]%andb_true_iff. }
  destruct (tree_sweep table referenced cutoff_seq (table +:+ "/_checkpoints")
    (table +:+ "/_checkpoints") (direct_garbage [".json"; ".rkyv"; ".tmp"] referenced)
    (direct_garbage [".json"; ".rkyv"; ".tmp"] ∅) s3) as (d4&s4&E4&Hr4&Hd4&Ht4);
    [by apply (Hcl "_checkpoints")|done|apply Ht3|apply direct_garbage_empty| |].
  { intros c. apply (Hgen "_checkpoints" c (direct_garbage [".json"; ".rkyv"; ".tmp"] referenced));
      [set_solver|]. unfold direct_garbage. by intros e [_ ?]%andb_true_iff. }
  destruct (tree_generations table referenced cutoff_seq s4 Hc Ht4) as (d5&s5&E5&Hr5&Hd5&Ht5).
  destruct (sweep_staging_ok table referenced cutoff_seq s5 Hc Ht5) as (d6&s6&E6&Hr6&Hd6&Ht6).
  destruct (delete_old_manifests_ok table cutoff_seq s6) as (d7&s7&E7&Hr7&Hd7');
    [done|apply Ht6|apply Ht6|].
  exists (d1 ++ d2 ++ d3 ++ d4 ++ d5 ++ d6 ++ d7), s7.
  rewrite (m_bind_ok _ _ _ _ _ E1), (m_bind_ok _ _ _ _ _ E2), (m_bind_ok _ _ _ _ _ E3),
    (m_bind_ok _ _ _ _ _ E4), (m_bind_ok _ _ _ _ _ E5), (m_bind_ok _ _ _ _ _ E6),
    (m_bind_ok _ _ _ _ _ E7).
  split; [done|]. split; [by eauto 8 using removed_app|]. split.
  - rewrite !Forall_app. repeat split_and; try done. apply Forall_forall. intros q Hq.
    destruct (Hd7' q Hq) as [Hold (c&->&_)%list_children_below].
    assert ((table +:+ "/_manifests" +:+ "/") +:+ c = table +:+ "/_manifests/" +:+ c) as E
      by by rewrite <-!string_app_assoc.
    rewrite E in Hold |- *. by apply dead_manifest.
  - intros e He Hg. apply elem_of_app. left. rewrite Hd1'. by apply list_elem_of_filter.
Qed.
End safety.

Section theorem.
Context `{!Sha256, !SerdeJson, !SerdeJsonLaws, !HashOrder, !HashOrderLaws, !Hex}
  {St : Type} `{!Storage St, !StorageLaws St}.
Implicit Types s : St.

(** The snapshot an entry of [_manifests/] holds, if it is a valid one. *)
Definition snapshot_at (fs : gmap string bytes) (entry : string) : option (u64 * Manifest) :=
  if negb (ends_with ".json" (filename_of entry)) then None else
  seq ← strip_suffix ".json" (filename_of entry) ≫= parse_u64;
  data ← fs !! entry;
  m ← from_slice (A:=Manifest) data;
  if negb (mf_sequence m =? seq) then None else
  if negb (mf_format_version m =? 1) then None else
  if negb (verify_checksum m) then None else Some (seq, m).

Lemma load_snapshot_ok entry s :
  clean entry → load_snapshot entry s = (Ok (snapshot_at (files s) entry), s).
Proof.
  intros Hc. unfold load_snapshot, snapshot_at. case_match; [done|].
  destruct (strip_suffix ".json" (filename_of entry) ≫= parse_u64) as [seq|]; [|done].
  rewrite (m_try_eq _ _ _ _ _ (st_read_clean _ s Hc)). unfold read_result.
  destruct (files s !! entry) as [data|]; [|done]. simpl.
  destruct (from_slice data) as [m|]; [|done]. simpl. by repeat case_match.
Qed.

Lemma snapshot_at_seq fs e q m :
  snapshot_at fs e = Some (q, m) →
  strip_suffix ".json" (filename_of e) ≫= parse_u64 = Some q ∧ in_u64 q
  ∧ verify_checksum m = true ∧ mf_sequence m = q.
Proof.
  unfold snapshot_at. case_match; [done|]. intros E. inv_fields E.
  repeat case_match; simplify_eq. zbool. split; [done|].
  split; [|done]. apply bind_Some in Hx as (st&_&Hp).
  unfold parse_u64 in Hp. apply bind_Some in Hp as (n&_&Hp).
  apply checked_Some in Hp as [Hin Heq]. by rewrite Heq.
Qed.

Lemma load_valid_ok table s :
  clean table → tidy (files s) →
  ∃ valid sequences, load_valid_snapshots table s = (Ok (valid, sequences), s)
    ∧ (∀ q, q ∈ sequences ↔ is_Some (valid !! q))
    ∧ (∀ q m, valid !! q = Some m → ∃ e,
         e ∈ list_children (files s) (table +:+ "/_manifests" +:+ "/")
         ∧ snapshot_at (files s) e = Some (q, m)).
Proof.
  intros Hc Ht. unfold load_valid_snapshots.
  rewrite (m_bind_ok _ _ _ _ _ (list_or_empty_ok _ s (manifests_dir_clean table Hc))).
  rewrite <-(string_app_assoc table "/_manifests" "/").
  set (entries := list_children _ _).
  assert (∀ l (acc : gmap Z Manifest * list u64), (∀ e, e ∈ l → e ∈ entries) →
    (∀ q, q ∈ acc.2 ↔ is_Some (acc.1 !! q)) →
    (∀ q m, acc.1 !! q = Some m → ∃ e, e ∈ entries ∧ snapshot_at (files s) e = Some (q, m)) →
    ∃ valid sequences, m_fold (λ (acc : gmap Z Manifest * list u64) entry,
      let! o := load_snapshot entry in
      m_ret (match o with
             | Some (seq, m) => (<[seq := m]> acc.1, acc.2 ++ [seq])
             | None => acc
             end)) acc l s = (Ok (valid, sequences), s)
      ∧ (∀ q, q ∈ sequences ↔ is_Some (valid !! q))
      ∧ (∀ q m, valid !! q = Some m → ∃ e, e ∈ entries ∧ snapshot_at (files s) e = Some (q, m)))
    as Hf.
  { induction l as [|e l IH]; intros [v sq] Hl H1' H2'; cbn [m_fold]; [by exists v, sq|].
    assert (clean e) as Hce by (eapply child_clean; [exact Ht|apply Hl; set_solver]).
    rewrite (m_bind_ok _ _ s (match snapshot_at (files s) e with
                              | Some (seq, m) => (<[seq := m]> v, sq ++ [seq])
                              | None => (v, sq) end) s)
      by (rewrite (m_bind_ok _ _ _ _ _ (load_snapshot_ok e s Hce)); by repeat case_match).
    apply IH; [set_solver| |]; destruct (snapshot_at (files s) e) as [[q m]|] eqn:E; try done;
      simpl in *.
    - intros q'. rewrite elem_of_app, list_elem_of_singleton, H1'.
      destruct (decide (q = q')) as [->|]; [rewrite lookup_insert_eq; naive_solver|].
      rewrite lookup_insert_ne by done. naive_solver.
    - intros q' m'. destruct (decide (q = q')) as [->|].
      + rewrite lookup_insert_eq. intros [= ->]. exists e. split; [apply Hl; set_solver|done].
      + rewrite lookup_insert_ne by done. apply H2'. }
  apply (Hf entries (∅, [])); [done| |]; simpl.
  - intros q. rewrite lookup_empty. split; [by intros ?%elem_of_nil|by intros []].
  - intros q m. by rewrite lookup_empty.
Qed.

(** A path where the writers put what a manifest refers to. *)
Definition placed (table f : string) : Prop :=
  starts_with "_staging/" f = false ∧ starts_with "_manifests/" f = false
  ∧ ends_with ".json.tmp" (filename_of (table +:+ "/" +:+ f)) = false
  ∧ f ≠ "_manifest.json" ∧ f ≠ "_manifest.json.tmp".

Lemma referenced_elem table valid retained seq m f :
  seq ∈ retained → valid !! seq = Some m → f ∈ manifest_referenced_files m →
  table +:+ "/" +:+ f ∈ referenced_set table valid retained.
Proof.
  intros Hs Hm Hf. unfold referenced_set. apply elem_of_list_to_set, list_elem_of_bind.
  exists seq. rewrite Hm. split; [|done]. apply list_elem_of_fmap. exists f.
  split; [done|by apply elem_of_elements].
Qed.

Lemma dead_not_placed table referenced cutoff_seq f :
  placed table f → table +:+ "/" +:+ f ∈ referenced →
  ¬ dead table referenced cutoff_seq (table +:+ "/" +:+ f).
Proof.
  intros (Hst&Hma&Htmp&_&_) Href Hd.
  inversion Hd as [c Hc Hg E|d c Hdir Hn E|c E|c Hold E]; subst.
  - apply string_app_inj_l in E. injection E as ->. unfold root_garbage in Hg.
    rewrite Htmp in Hg. simpl in Hg. apply andb_true_iff in Hg as [_ Hg].
    by apply not_referenced in Hg.
  - apply Hn. exact (eq_ind_r (λ p, p ∈ referenced) Href E).
  - apply string_app_inj_l in E. assert (f = "_staging/" +:+ c) as -> by by injection E as <-.
    by rewrite starts_with_prefix in Hst.
  - apply string_app_inj_l in E. assert (f = "_manifests/" +:+ c) as -> by by injection E as <-.
    by rewrite starts_with_prefix in Hma.
Qed.

Lemma dead_not_manifest table referenced cutoff_seq c q :
  strip_suffix ".json" (filename_of (table +:+ "/_manifests/" +:+ c)) ≫= parse_u64 = Some q →
  cutoff_seq <= q →
  ¬ dead table referenced cutoff_seq (table +:+ "/_manifests/" +:+ c).
Proof.
  intros Hq Hle Hd. inversion Hd as [c' Hc Hg E|d c' Hdir Hn E|c' E|c' Hold E]; subst.
  - apply string_app_inj_l in E. injection E as ->. by vm_compute in Hc.
  - apply string_app_inj_l in E. simpl in E. injection E as E.
    repeat (apply elem_of_cons in Hdir as [->|Hdir]; [discriminate E|]).
    by apply elem_of_nil in Hdir.
  - apply string_app_inj_l in E. discriminate E.
  - apply string_app_inj_l in E. injection E as ->. destruct Hold as [Htmp|(q'&Hq'&?)].
    + apply ends_with_spec in Htmp as [r Hr]. rewrite Hr, strip_json_tmp in Hq. done.
    + rewrite Hq in Hq'. simplify_eq. lia.
Qed.

Lemma retained_bounds retain cur sequences q :
  0 <= cur → 0 <= retain →
  q ∈ retained_sequences (cutoff retain cur) cur (sort_descending sequences) ↔
  q = cur ∨ q ∈ sequences ∧ cutoff retain cur <= q.
Proof.
  intros Hcur Hr. assert (cutoff retain cur <= cur) as Hle.
  { unfold cutoff, saturating_sub. case_match; lia. }
  unfold retained_sequences, sort_descending. case_decide as Hin.
  - rewrite list_elem_of_filter, elem_of_sort_by_key in Hin |- *. naive_solver.
  - rewrite elem_of_sort_by_key, elem_of_app, list_elem_of_singleton, list_elem_of_filter,
      elem_of_sort_by_key. naive_solver.
Qed.

Lemma gc_tree_pointer fs table :
  (∀ b, gc_tree (<[pointer_path table := b]> fs) table) → gc_tree fs table.
Proof.
  intros H'. eapply gc_tree_sub; [|exact (H' (default [] (fs !! pointer_path table)))].
  apply map_subseteq_spec. intros p b Hp. destruct (decide (p = pointer_path table)) as [->|].
  - by rewrite lookup_insert_eq, Hp.
  - by rewrite lookup_insert_ne.
Qed.

Lemma placed_paths table f :
  placed table f → table +:+ "/" +:+ f ≠ pointer_path table
                   ∧ table +:+ "/" +:+ f ≠ pointer_path table +:+ ".tmp".
Proof.
  intros (_&_&_&Hp&Ht). unfold pointer_path. rewrite <-string_app_assoc.
  split; intros E%string_app_inj_l; injection E as E; [by apply Hp|by apply Ht].
Qed.
Lemma manifests_paths table c :
  table +:+ "/_manifests/" +:+ c ≠ pointer_path table
  ∧ table +:+ "/_manifests/" +:+ c ≠ pointer_path table +:+ ".tmp".
Proof.
  unfold pointer_path. rewrite <-string_app_assoc.
  split; intros E%string_app_inj_l; discriminate E.
Qed.

(** The effect of [collect] on the files, and why the live ones survive. *)
Lemma collect_keeps table retain valid sequences s :
  clean table → (∀ b, gc_tree (<[pointer_path table := b]> (files s)) table) → 0 <= retain →
  sequences ≠ [] → (∀ q, q ∈ sequences ↔ is_Some (valid !! q)) →
  (∀ q, q ∈ sequences → 0 <= q) →
  ∃ res s' cur, collect table retain valid sequences s = (Ok res, s')
    ∧ is_Some (valid !! cur)
    ∧ (∀ q, q ∈ gc_retained_snapshots res ↔ is_Some (valid !! q) ∧ cutoff retain cur <= q)
    ∧ (∀ q m f, q ∈ gc_retained_snapshots res → valid !! q = Some m →
         f ∈ manifest_referenced_files m → placed table f →
         files s' !! (table +:+ "/" +:+ f) = files s !! (table +:+ "/" +:+ f))
    ∧ (∀ c q, strip_suffix ".json" (filename_of (table +:+ "/_manifests/" +:+ c))
                ≫= parse_u64 = Some q → q ∈ gc_retained_snapshots res →
         files s' !! (table +:+ "/_manifests/" +:+ c)
         = files s !! (table +:+ "/_manifests/" +:+ c))
    ∧ (∀ c, contains_char "/" c = false → is_Some (files s' !! (table +:+ "/" +:+ c)) →
         root_garbage (referenced_set table valid (gc_retained_snapshots res))
           (table +:+ "/" +:+ c) = false).
Proof.
  intros Hc Hg Hret Hne Hv Hpos.
  assert (sort_descending sequences ≠ []) as Hne'.
  { unfold sort_descending. intros E. apply (f_equal length) in E.
    rewrite length_sort_by_key in E. by destruct sequences. }
  destruct (resolve_ok table valid (sort_descending sequences) s Hc Hne') as (cur&s0&Er&Hcv&Hf0).
  { intros q. unfold sort_descending. rewrite elem_of_sort_by_key. apply Hv. }
  assert (gc_tree (files s0) table) as Ht0.
  { destruct Hf0 as [->| ->]; [by apply gc_tree_pointer|].
    eapply gc_tree_sub; [|exact (Hg (pointer_bytes cur))].
    apply insert_mono, delete_subseteq. }
  assert (∀ p, p ≠ pointer_path table → p ≠ pointer_path table +:+ ".tmp" →
               files s0 !! p = files s !! p) as Hsame.
  { intros p Hp1 Hp2. destruct Hf0 as [->| ->]; [done|].
    by rewrite lookup_insert_ne, lookup_delete_ne. }
  destruct (collect_ok table retain valid sequences cur s s0 Hc Ht0 Er)
    as (dl&s'&Ec&Hr&Hdead&Hroot).
  assert (0 <= cur) as Hcur by (by apply Hpos, Hv).
  eexists _, s', cur. split; [exact Ec|]. split; [done|]. cbn [gc_retained_snapshots].
  assert (∀ q, q ∈ retained_sequences (cutoff retain cur) cur (sort_descending sequences)
            ↔ is_Some (valid !! q) ∧ cutoff retain cur <= q) as Hb.
  { intros q. rewrite retained_bounds, Hv by done.
    assert (cutoff retain cur <= cur) by (unfold cutoff, saturating_sub; case_match; lia).
    naive_solver. }
  split; [exact Hb|]. rewrite Forall_forall in Hdead. split; [|split].
  - intros q m f Hq Hm Hf Hp. destruct (placed_paths table f Hp) as [Hp1 Hp2].
    rewrite Hr, decide_False; [by apply Hsame|]. intros Hin. apply Hdead in Hin.
    eapply dead_not_placed; [done| |exact Hin]. by eapply referenced_elem.
  - intros c q Hq Hin. destruct (manifests_paths table c) as [Hp1 Hp2].
    rewrite Hr, decide_False; [by apply Hsame|]. intros Hd. apply Hdead in Hd.
    eapply dead_not_manifest; [exact Hq| |exact Hd]. by apply Hb.
  - intros c Hcc [b Hb']. rewrite Hr in Hb'. case_decide as Hnd; [done|].
    apply not_true_is_false. intros Hgb. apply Hnd, Hroot; [|done].
    rewrite string_app_assoc. apply elem_of_list_children.
    exists (table +:+ "/" +:+ c), b. split; [done|]. rewrite string_app_assoc.
    by apply child_of_file.
Qed.

End theorem.
