(* ===== verification/BTreeIndex.v ===== *)
(** * Secondary indexes in memory

    [index.rs]: the B-tree index of one snapshot, the builder from collected
    entries, the uniqueness check, and the learned model that replaces an index
    whose keys and row ids are both arithmetic progressions. *)

From S2P Require Import Prelude StableSort Text OrdMap Json.

#[local] Open Scope list_scope.
#[local] Open Scope Z_scope.

Definition INDEXES_DIR : string := "_indexes".

Record IndexDefinition := mkIndexDef {
  id_name : string;
  id_table : string;
  id_column : string;
  id_unique : bool;
}.
(** [entries]: value key to row ids, a [BTreeMap]. *)
Record BTreeIndex := mkBTree {
  bt_definition : IndexDefinition;
  bt_snapshot_sequence : u64;
  bt_entries : bmap (list u64);
}.
Record LearnedKeyModel := mkModel {
  lm_key_base : i64;
  lm_key_stride : i64;
  lm_rid_base : u64;
  lm_rid_stride : i64;
  lm_count : u64;
}.
Record LearnedIndexFile := mkLearnedFile {
  lf_definition : IndexDefinition;
  lf_model : LearnedKeyModel;
}.

Definition BTreeIndex_lookup (index : BTreeIndex) (value : string) : list u64 :=
  default [] (bm_get value (bt_entries index)).

Definition base_filename (name : string) (seq : u64) (ext : string) : string :=
  INDEXES_DIR +:+ "/" +:+ name +:+ "/base__v" +:+ fmt_09 seq +:+ ext.
Definition BTreeIndex_versioned_filename (name : string) (seq : u64) : string :=
  base_filename name seq ".json".
Definition BTreeIndex_legacy_filename (name : string) : string :=
  INDEXES_DIR +:+ "/" +:+ name +:+ ".json".
Definition Model_versioned_filename (name : string) (seq : u64) : string :=
  base_filename name seq ".model".
Definition Model_legacy_filename (name : string) : string :=
  INDEXES_DIR +:+ "/" +:+ name +:+ ".model".

(** ** Learned models *)

(** [x as i64] of a [u64]. *)
Definition as_i64 (x : u64) : i64 := if x <? 2 ^ 63 then x else x - 2 ^ 64.

(** The entries as [(key, row id)] pairs, if every key is an integer with one row. *)
Definition model_pair (kv : string * list u64) : option (i64 * u64) :=
  match kv.2 with
  | [r] => key ← parse_i64 kv.1; Some (key, r)
  | _ => None
  end.
(** [base.checked_add(i.checked_mul(stride)?)?]. *)
Definition grid (base stride i : i64) : option i64 :=
  off ← checked in_i64 (i * stride); checked in_i64 (base + off).
Definition on_grid (m : LearnedKeyModel) (ip : Z * (i64 * u64)) : bool :=
  let '(i, (k, r)) := ip in
  bool_decide (grid (lm_key_base m) (lm_key_stride m) i = Some k
               ∧ grid (as_i64 (lm_rid_base m)) (lm_rid_stride m) i = Some (as_i64 r)).

Definition fit (index : BTreeIndex) : option LearnedKeyModel :=
  pairs ← mapM model_pair (bt_entries index);
  if (length pairs <? 2)%nat then None else
  let pairs := sort_by_key fst pairs in
  if existsb (λ p, 2 ^ 63 - 1 <? p.2) pairs then None else
  match pairs with
  | (k0, r0) :: (k1, r1) :: _ =>
      key_stride ← checked in_i64 (k1 - k0);
      rid_stride ← checked in_i64 (as_i64 r1 - as_i64 r0);
      if key_stride =? 0 then None else
      let m := mkModel k0 key_stride r0 rid_stride (Z.of_nat (length pairs)) in
      if forallb (on_grid m) (indexed pairs) then Some m else None
  | _ => None
  end.

(** [i64::MIN % -1] panics in every profile. *)
Definition Model_lookup (m : LearnedKeyModel) (value : string) : res (list u64) :=
  match parse_i64 value with
  | None => Ok []
  | Some k =>
      match checked in_i64 (k - lm_key_base m) with
      | None => Ok []
      | Some off =>
          if lm_key_stride m =? 0 then Ok [] else
          if (off =? - 2 ^ 63) && (lm_key_stride m =? -1) then Panic else
          if negb (Z.rem off (lm_key_stride m) =? 0) then Ok [] else
          let i := Z.quot off (lm_key_stride m) in
          if (i <? 0) || (lm_count m <=? i) then Ok [] else
          match grid (as_i64 (lm_rid_base m)) (lm_rid_stride m) i with
          | Some r => if 0 <=? r then Ok [r] else Ok []
          | None => Ok []
          end
      end
  end.

(** ** Building and checking *)

Definition unique_violation (d : IndexDefinition) (key : string) : error :=
  UniqueKeyViolation (id_table d) (id_name d) key.

Definition build_btree_index_from_adds (definition : IndexDefinition) (snapshot_sequence : u64)
    (adds : list (string * u64)) : res BTreeIndex :=
  let entries := foldl (λ m a, bm_push a.1 a.2 m) [] adds in
  let entries := prod_map id (λ ids, dedup (sort_by_key id ids)) <$> entries in
  match (if id_unique definition
         then find_first (λ kv, (1 <? length kv.2)%nat) entries else None) with
  | Some kv => Err (unique_violation definition kv.1)
  | None => Ok (mkBTree definition snapshot_sequence entries)
  end.

(** One add against the keys seen so far and the existing index. *)
Definition check_unique_add (definition : IndexDefinition) (existing : BTreeIndex)
    (tombstoned : gset Z) (seen : gmap string Z) (add : string * u64) : res (gmap string Z) :=
  let '(key, row_id) := add in
  let? seen :=
    match seen !! key with
    | Some first_rid =>
        if first_rid =? row_id then Ok seen else Err (unique_violation definition key)
    | None => Ok (<[key := row_id]> seen)
    end in
  match bm_get key (bt_entries existing) with
  | Some ids =>
      if existsb (λ id, bool_decide (id ∉ tombstoned)) ids
      then Err (unique_violation definition key) else Ok seen
  | None => Ok seen
  end.
Definition check_unique_adds (definition : IndexDefinition) (existing : BTreeIndex)
    (adds : list (string * u64)) (tombstoned_row_ids : list u64) : res unit :=
  if negb (id_unique definition) then Ok tt else
  let? _ := res_fold (check_unique_add definition existing (list_to_set tombstoned_row_ids))
              ∅ adds in
  Ok tt.

(** ** Deltas *)

Record TombstoneDelta := mkTombstone {
  td_tombstoned_row_ids : list u64;
  td_adds : list (string * u64);
}.
Definition TombstoneDelta_versioned_filename (name : string) (seq : u64) : string :=
  INDEXES_DIR +:+ "/" +:+ name +:+ "/delta__v" +:+ fmt_09 seq +:+ ".json".

Definition push_adds (adds : list (string * u64)) (m : bmap (list u64)) : bmap (list u64) :=
  foldl (λ m a, bm_push a.1 a.2 m) m adds.
Definition drop_ids (tombstoned : list u64) (ids : list u64) : list u64 :=
  filter (λ id, id ∉ tombstoned) ids.
(** One delta of [apply_deltas]: tombstones, then adds. *)
Definition apply_delta (index : BTreeIndex) (delta : TombstoneDelta) : BTreeIndex :=
  let entries := bt_entries index in
  let entries :=
    if is_empty (td_tombstoned_row_ids delta) then entries
    else filter (λ kv, negb (is_empty kv.2) = true)
           (prod_map id (drop_ids (td_tombstoned_row_ids delta)) <$> entries) in
  mkBTree (bt_definition index) (bt_snapshot_sequence index) (push_adds (td_adds delta) entries).

(** The same deltas without the base. *)
Record IndexDeltaOverlay := mkOverlay {
  ov_tombstones : gset Z;
  ov_adds : bmap (list u64);
}.
Definition overlay_default : IndexDeltaOverlay := mkOverlay ∅ [].
Definition overlay_is_empty (o : IndexDeltaOverlay) : bool :=
  bool_decide (ov_tombstones o = ∅) && is_empty (ov_adds o).
Definition overlay_tombstone (o : IndexDeltaOverlay) (row : u64) : IndexDeltaOverlay :=
  mkOverlay ({[row]} ∪ ov_tombstones o)
    (prod_map id (filter (λ x, x ≠ row)) <$> ov_adds o).
Definition overlay_delta (o : IndexDeltaOverlay) (delta : TombstoneDelta) : IndexDeltaOverlay :=
  let o := foldl overlay_tombstone o (td_tombstoned_row_ids delta) in
  mkOverlay (ov_tombstones o) (push_adds (td_adds delta) (ov_adds o)).
Definition overlay_merge (o : IndexDeltaOverlay) (value : string) (base : list u64) : list u64 :=
  filter (λ id, id ∉ ov_tombstones o) base
  ++ match bm_get value (ov_adds o) with Some adds => adds | None => [] end.

(** ** Maps of vectors *)

Definition adds_of (v : string) (adds : list (string * u64)) : list u64 :=
  snd <$> filter (λ a, a.1 = v) adds.
Lemma push_adds_sorted adds m : bm_sorted m → bm_sorted (push_adds adds m).
Proof.
  unfold push_adds. revert m. induction adds as [|a adds IH]; intros m Hm; cbn; [done|].
  by apply IH, bm_push_sorted.
Qed.
Lemma push_adds_get v adds m :
  default [] (bm_get v (push_adds adds m)) = default [] (bm_get v m) ++ adds_of v adds.
Proof.
  unfold push_adds, adds_of. revert m. induction adds as [|[k r] adds IH]; intros m; cbn [foldl].
  { by rewrite filter_nil, app_nil_r. }
  rewrite IH, bm_get_push, <-app_assoc. f_equal. rewrite filter_cons. simpl.
  destruct (decide (v = k)) as [->|]; [by rewrite decide_True|].
  by rewrite decide_False.
Qed.
Lemma push_adds_is_Some v adds m :
  is_Some (bm_get v (push_adds adds m)) ↔ is_Some (bm_get v m) ∨ v ∈ adds.*1.
Proof.
  unfold push_adds. revert m. induction adds as [|[k r] adds IH]; intros m; cbn [foldl].
  { cbn. rewrite elem_of_nil. naive_solver. }
  rewrite IH. unfold bm_push. rewrite bm_get_insert, fmap_cons, elem_of_cons. simpl.
  case_decide; naive_solver.
Qed.
Lemma elem_of_adds_of v r adds : r ∈ adds_of v adds ↔ (v, r) ∈ adds.
Proof.
  unfold adds_of. rewrite list_elem_of_fmap. split.
  - intros ([k x]&->&[Hk Hin]%list_elem_of_filter). simpl in *. by subst.
  - intros Hin. exists (v, r). split; [done|]. by apply list_elem_of_filter.
Qed.

(** What a delta does to a lookup. *)
Lemma lookup_apply_delta index delta v :
  bm_sorted (bt_entries index) →
  BTreeIndex_lookup (apply_delta index delta) v
  = drop_ids (td_tombstoned_row_ids delta) (BTreeIndex_lookup index v) ++ adds_of v (td_adds delta).
Proof.
  intros Hs. unfold BTreeIndex_lookup, apply_delta. cbn [bt_entries].
  rewrite push_adds_get. f_equal.
  destruct (td_tombstoned_row_ids delta) as [|t ts] eqn:Et; cbn [is_empty].
  { unfold drop_ids. symmetry. apply filter_all.
    intros x _. apply not_elem_of_nil. }
  rewrite bm_get_filter by by apply (bm_fmap_sorted (drop_ids (t :: ts))).
  rewrite (bm_get_fmap (drop_ids (t :: ts))). destruct (bm_get v (bt_entries index)); cbn [fmap option_fmap option_map default]; [|done].
  cbn [snd].
  case_decide as Hd; [done|]. by destruct (drop_ids _ _).
Qed.
Lemma apply_delta_sorted index delta :
  bm_sorted (bt_entries index) → bm_sorted (bt_entries (apply_delta index delta)).
Proof.
  intros Hs. unfold apply_delta. cbn [bt_entries]. apply push_adds_sorted. case_match; [done|].
  by apply filter_sorted, (bm_fmap_sorted (drop_ids _)).
Qed.

(** ** The overlay is the replayed index *)

Lemma overlay_tombstones_spec ts o v :
  ov_tombstones (foldl overlay_tombstone o ts) = list_to_set ts ∪ ov_tombstones o
  ∧ default [] (bm_get v (ov_adds (foldl overlay_tombstone o ts)))
    = drop_ids ts (default [] (bm_get v (ov_adds o))).
Proof.
  revert o. induction ts as [|t ts IH]; intros o; cbn [foldl].
  - split; [set_solver|]. symmetry. apply filter_all. intros x _. apply not_elem_of_nil.
  - destruct (IH (overlay_tombstone o t)) as [-> ->]. cbn [ov_tombstones ov_adds overlay_tombstone].
    split; [set_solver|]. rewrite (bm_get_fmap (filter (λ x, x ≠ t))).
    destruct (bm_get v (ov_adds o)) as [l|]; cbn [fmap option_fmap option_map default]; [|done].
    unfold drop_ids, id. rewrite list_filter_filter. apply list_filter_iff.
    intros x. rewrite not_elem_of_cons. naive_solver.
Qed.
Lemma overlay_merge_default o v base :
  overlay_merge o v base
  = filter (λ id, id ∉ ov_tombstones o) base ++ default [] (bm_get v (ov_adds o)).
Proof. unfold overlay_merge. by destruct (bm_get v (ov_adds o)). Qed.

Lemma overlay_delta_merge o d v base :
  overlay_merge (overlay_delta o d) v base
  = drop_ids (td_tombstoned_row_ids d) (overlay_merge o v base) ++ adds_of v (td_adds d).
Proof.
  rewrite !overlay_merge_default. unfold overlay_delta. cbn [ov_tombstones ov_adds].
  rewrite push_adds_get. destruct (overlay_tombstones_spec (td_tombstoned_row_ids d) o v) as [-> ->].
  unfold drop_ids. rewrite filter_app, <-app_assoc. f_equal.
  rewrite list_filter_filter. apply list_filter_iff. intros x.
  rewrite not_elem_of_union, not_elem_of_list_to_set. done.
Qed.

Lemma overlay_refines_replay deltas index v :
  bm_sorted (bt_entries index) →
  overlay_merge (foldl overlay_delta overlay_default deltas) v (BTreeIndex_lookup index v)
  = BTreeIndex_lookup (foldl apply_delta index deltas) v.
Proof.
  intros Hs. set (base := BTreeIndex_lookup index v).
  assert (overlay_merge overlay_default v base = BTreeIndex_lookup index v) as E.
  { unfold overlay_merge. cbn. rewrite app_nil_r. apply filter_all. set_solver. }
  clearbody base. revert E. generalize overlay_default. revert index Hs.
  induction deltas as [|d ds IH]; intros index Hs o E; cbn [foldl]; [done|].
  apply IH; [by apply apply_delta_sorted|].
  by rewrite overlay_delta_merge, lookup_apply_delta, E.
Qed.

(** ** Uniqueness *)

(** No key has two rows. *)
Definition index_unique (index : BTreeIndex) : Prop :=
  ∀ v r r', r ∈ BTreeIndex_lookup index v → r' ∈ BTreeIndex_lookup index v → r = r'.
(** What the check must establish of the adds. *)
Definition adds_ok (existing : BTreeIndex) (tombstoned : gset Z) (adds : list (string * u64))
    : Prop :=
  (∀ k r r', (k, r) ∈ adds → (k, r') ∈ adds → r = r')
  ∧ ∀ k r id, (k, r) ∈ adds → id ∈ BTreeIndex_lookup existing k → id ∈ tombstoned.

Lemma check_unique_add_ok d existing ts seen a seen' :
  check_unique_add d existing ts seen a = Ok seen' ↔
  (seen !! a.1 = None ∨ seen !! a.1 = Some a.2)
  ∧ (∀ id, id ∈ BTreeIndex_lookup existing a.1 → id ∈ ts)
  ∧ seen' = <[a.1 := a.2]> seen.
Proof.
  destruct a as [k r]. unfold check_unique_add, BTreeIndex_lookup. cbn [fst snd].
  assert (∀ s : gmap string Z, (match bm_get k (bt_entries existing) with
    | Some ids => if existsb (λ id, bool_decide (id ∉ ts)) ids
                  then Err (unique_violation d k) else Ok s
    | None => Ok s end) = Ok seen'
    ↔ (∀ id, id ∈ default [] (bm_get k (bt_entries existing)) → id ∈ ts) ∧ seen' = s) as Hx.
  { intros s. destruct (bm_get k (bt_entries existing)) as [ids|]; cbn [default].
    2: { split; [intros [= <-]; split; [by intros ? ?%elem_of_nil|done]|by intros [_ ->]]. }
    destruct (existsb _ ids) eqn:E.
    - apply existsb_exists in E as (id&Hin%list_elem_of_In&Hd). zbool. naive_solver.
    - split; [intros [= <-]; split; [|done]|by intros [_ ->]]. intros id Hin.
      destruct (decide (id ∈ ts)) as [|Hn]; [done|]. rewrite <-not_true_iff_false, existsb_exists in E.
      destruct E. exists id. split; [by apply list_elem_of_In|by apply bool_decide_eq_true]. }
  destruct (seen !! k) as [r0|] eqn:E.
  - destruct (Z.eqb_spec r0 r) as [->|]; cbn [res_bind].
    + rewrite Hx, insert_id by done. naive_solver.
    + naive_solver.
  - cbn [res_bind]. rewrite Hx. naive_solver.
Qed.

Lemma check_unique_fold d existing ts adds seen :
  (∃ seen', res_fold (check_unique_add d existing ts) seen adds = Ok seen') ↔
  (∀ k r, (k, r) ∈ adds → seen !! k = None ∨ seen !! k = Some r) ∧ adds_ok existing ts adds.
Proof.
  unfold adds_ok. revert seen. induction adds as [|[k r] adds IH]; intros seen; cbn [res_fold].
  { setoid_rewrite elem_of_nil. naive_solver. }
  transitivity (∃ s, check_unique_add d existing ts seen (k, r) = Ok s
                  ∧ ∃ s', res_fold (check_unique_add d existing ts) s adds = Ok s').
  { destruct (check_unique_add _ _ _ _ _); cbn [res_bind]; naive_solver. }
  setoid_rewrite check_unique_add_ok. setoid_rewrite IH. setoid_rewrite elem_of_cons. simpl. split.
  - intros (s&(Hk&Hid&->)&Hseen&Hb&Hx).
    assert (∀ r', (k, r') ∈ adds → r' = r) as Hkr.
    { intros r' Hin. specialize (Hseen k r' Hin). rewrite lookup_insert_eq in Hseen. naive_solver. }
    repeat split.
    + intros k' r' [[= -> ->]|Hin]; [done|]. specialize (Hseen k' r' Hin).
      destruct (decide (k = k')) as [<-|]; [|by rewrite lookup_insert_ne in Hseen].
      by rewrite (Hkr r' Hin).
    + intros k' r1 r2 [[= -> ->]|H1'] [[= E]|H2']; [done|symmetry|subst|]; by eauto.
    + intros k' r' i [[= -> ->]|Hin]; eauto.
  - intros (Hseen&Hb&Hx). exists (<[k:=r]> seen). repeat split; eauto.
    intros k' r' Hin. destruct (decide (k = k')) as [<-|]; [|rewrite lookup_insert_ne; eauto].
    rewrite lookup_insert_eq. right. f_equal. eauto.
Qed.

Lemma check_unique_fails d existing adds ts :
  fails_with (λ e, ∃ k, e = unique_violation d k) (check_unique_adds d existing adds ts).
Proof.
  unfold check_unique_adds. case_match; [done|].
  pose proof (res_fold_fails (λ e, ∃ k, e = unique_violation d k)
    (check_unique_add d existing (list_to_set ts)) ∅ adds) as Hf.
  destruct (res_fold _ _ _); cbn in *; [done|apply Hf|apply Hf];
    (intros s [k r]; unfold check_unique_add; repeat case_match; cbn; eauto).
Qed.

Lemma check_unique_adds_correct d existing adds ts :
  id_unique d = true → bm_sorted (bt_entries existing) →
  (check_unique_adds d existing adds ts = Ok tt ↔ adds_ok existing (list_to_set ts) adds)
  ∧ (check_unique_adds d existing adds ts ≠ Ok tt →
     ∃ k, check_unique_adds d existing adds ts = Err (unique_violation d k))
  ∧ (index_unique existing → check_unique_adds d existing adds ts = Ok tt →
     index_unique (apply_delta existing (mkTombstone ts adds))).
Proof.
  intros Hd Hs.
  assert (check_unique_adds d existing adds ts = Ok tt ↔ adds_ok existing (list_to_set ts) adds)
    as Hiff.
  { unfold check_unique_adds. rewrite Hd. simpl.
    transitivity (∃ s, res_fold (check_unique_add d existing (list_to_set ts)) ∅ adds = Ok s).
    { destruct (res_fold _ _ _); cbn; naive_solver. }
    rewrite check_unique_fold. setoid_rewrite lookup_empty. naive_solver. }
  split; [done|]. split.
  - pose proof (check_unique_fails d existing adds ts) as Hf.
    destruct (check_unique_adds _ _ _ _) as [[]| |]; naive_solver.
  - rewrite Hiff. intros Hu [Hb Hx] v r r'. rewrite lookup_apply_delta by done.
    cbn [td_tombstoned_row_ids td_adds].
    unfold drop_ids. rewrite !elem_of_app, !list_elem_of_filter, !elem_of_adds_of.
    intros [[? ?]|?] [[? ?]|?]; eauto; exfalso.
    + specialize (Hx v r' r ltac:(done) ltac:(done)). set_solver.
    + specialize (Hx v r r' ltac:(done) ltac:(done)). set_solver.
Qed.

(** ** Building *)

Lemma dedup_sublist l : sublist (dedup l) l.
Proof.
  induction l as [|x [|y l] IH]; [done..|]. rewrite dedup_cons2. case_match.
  - by constructor.
  - by constructor.
Qed.
Lemma sorted_ids_spec (ids : list u64) :
  StronglySorted Z.lt (dedup (sort_by_key id ids))
  ∧ ∀ r, r ∈ dedup (sort_by_key id ids) ↔ r ∈ ids.
Proof.
  pose proof (sort_by_key_sorted id ids) as Hs. unfold key_sorted in Hs. split.
  - assert (StronglySorted Z.le (dedup (sort_by_key id ids))) as Hle.
    { clear -Hs. pose proof (dedup_sublist (sort_by_key id ids)) as Hd. revert Hd Hs.
      generalize (dedup (sort_by_key id ids)) (sort_by_key id ids). intros k0 l0 Hkl0.
      induction Hkl0 as [|x k l Hkl IH|x k l Hkl IH]; intros Hs; [constructor| |].
      - inversion Hs as [|?? Hl Hx]; subst. constructor; [by apply IH|].
        rewrite Forall_forall in *. intros y Hy. apply Hx.
        eapply elem_of_submseteq; [exact Hy|by apply sublist_submseteq].
      - inversion Hs; subst. by apply IH. }
    pose proof (dedup_sorted_NoDup (sort_by_key id ids) Hs) as Hn. revert Hle Hn.
    generalize (dedup (sort_by_key id ids)).
    induction 1 as [|x l Hl IH Hx]; intros Hn; constructor.
    + inversion Hn; auto.
    + inversion Hn; subst. rewrite Forall_forall in *. intros y Hy. specialize (Hx y Hy).
      assert (x ≠ y) by (by intros ->). lia.
  - intros r. by rewrite elem_of_dedup, elem_of_sort_by_key.
Qed.

Lemma built_lookup adds v (d : IndexDefinition) seq :
  BTreeIndex_lookup (mkBTree d seq
    (prod_map id (λ ids, dedup (sort_by_key id ids)) <$> push_adds adds [])) v
  = dedup (sort_by_key id (adds_of v adds)).
Proof.
  unfold BTreeIndex_lookup. cbn [bt_entries].
  rewrite (bm_get_fmap (λ ids : list Z, dedup (sort_by_key id ids))).
  pose proof (push_adds_get v adds []) as E. cbn in E. rewrite <-E.
  by destruct (bm_get v (push_adds adds [])).
Qed.

Lemma build_from_adds_spec d seq adds :
  (∀ index, build_btree_index_from_adds d seq adds = Ok index →
     bt_definition index = d ∧ bt_snapshot_sequence index = seq ∧ bm_sorted (bt_entries index)
     ∧ (∀ v, StronglySorted Z.lt (BTreeIndex_lookup index v))
     ∧ ∀ v r, r ∈ BTreeIndex_lookup index v ↔ (v, r) ∈ adds)
  ∧ ((∃ index, build_btree_index_from_adds d seq adds = Ok index) ↔
     (id_unique d = true → ∀ v r r', (v, r) ∈ adds → (v, r') ∈ adds → r = r')).
Proof.
  unfold build_btree_index_from_adds. fold (push_adds adds []).
  set (entries := prod_map id (λ ids : list Z, dedup (sort_by_key id ids)) <$> push_adds adds []).
  assert (bm_sorted entries) as Hs.
  { apply (bm_fmap_sorted (λ ids : list Z, dedup (sort_by_key id ids))).
    apply push_adds_sorted. constructor. }
  pose proof (λ v, built_lookup adds v d seq) as Hl. fold entries in Hl.
  assert (∀ v r, r ∈ BTreeIndex_lookup (mkBTree d seq entries) v ↔ (v, r) ∈ adds) as Hin.
  { intros v r. rewrite Hl, (proj2 (sorted_ids_spec _)). apply elem_of_adds_of. }
  split.
  - intros index. case_match; [done|]. intros [= <-]. split; [done|]. split; [done|].
    split; [done|]. split; [|done]. intros v. rewrite Hl. apply sorted_ids_spec.
  - destruct (id_unique d) eqn:Hu; [|naive_solver].
    unfold find_first. destruct (find _ entries) as [[k ids]|] eqn:E.
    + split; [by intros [? ?]|]. intros Hx. exfalso.
      apply List.find_some in E as [Hkv%list_elem_of_In Hlen]. apply Nat.ltb_lt in Hlen.
      apply bm_elem_get in Hkv; [|done]. simpl in Hlen.
      assert (BTreeIndex_lookup (mkBTree d seq entries) k = ids) as Ek
        by (unfold BTreeIndex_lookup; cbn; by rewrite Hkv).
      pose proof (proj1 (sorted_ids_spec (adds_of k adds))) as Hlt. rewrite <-Hl, Ek in Hlt.
      destruct ids as [|x [|y ids]]; simpl in Hlen; [lia..|].
      inversion Hlt as [|?? _ Hx']; subst. inversion Hx'; subst.
      assert (x = y); [|lia]. apply (Hx eq_refl k); apply Hin; rewrite Ek; set_solver.
    + split; [|by eauto]. intros _ _ v r r' Hr%Hin Hr'%Hin.
      assert (length (BTreeIndex_lookup (mkBTree d seq entries) v) <= 1)%nat as Hlen.
      { unfold BTreeIndex_lookup. cbn. destruct (bm_get v entries) as [ids|] eqn:Ev; cbn; [|lia].
        apply bm_get_Some_elem in Ev. apply find_none_Forall in E. rewrite Forall_forall in E.
        specialize (E _ Ev). simpl in E. by apply Nat.ltb_ge in E. }
      destruct (BTreeIndex_lookup _ v) as [|x [|y l]]; simpl in Hlen; [|set_solver|lia].
      by apply elem_of_nil in Hr.
Qed.

(** ** The learned model answers for the index *)

(** Row ids are [u64]s and the index fits in memory. *)
Definition index_wf (index : BTreeIndex) : Prop :=
  bm_sorted (bt_entries index) ∧ Forall (λ kv, Forall in_u64 kv.2) (bt_entries index)
  ∧ Z.of_nat (length (bt_entries index)) < 2 ^ 63.

Lemma as_i64_small r : 0 <= r <= 2 ^ 63 - 1 → as_i64 r = r.
Proof. intros. unfold as_i64. destruct (Z.ltb_spec r (2 ^ 63)); lia. Qed.
Lemma grid_Some b st i x : grid b st i = Some x ↔ in_i64 (i * st) ∧ in_i64 x ∧ x = b + i * st.
Proof.
  unfold grid. split.
  - intros (y&[? ->]%checked_Some&[? ->]%checked_Some)%bind_Some. auto.
  - intros (?&?&->). assert (checked in_i64 (i * st) = Some (i * st)) as -> by (by apply checked_Some).
    by apply checked_Some.
Qed.
Lemma parse_i64_range v k : parse_i64 v = Some k → in_i64 k.
Proof.
  unfold parse_i64. case_match; intros (n&_&[? ->]%checked_Some)%bind_Some; done.
Qed.

(** What [fit] establishes: the sorted pairs lie on the two grids. *)
Lemma fit_pairs index m :
  fit index = Some m →
  ∃ pairs, mapM model_pair (bt_entries index) = Some pairs
    ∧ lm_count m = Z.of_nat (length pairs) ∧ 0 < lm_key_stride m
    ∧ Forall (λ p, p.2 <= 2 ^ 63 - 1) pairs ∧ lm_rid_base m <= 2 ^ 63 - 1
    ∧ (∃ k, (k, lm_rid_base m) ∈ pairs)
    ∧ ∀ i k r, sort_by_key fst pairs !! i = Some (k, r) →
        grid (lm_key_base m) (lm_key_stride m) (Z.of_nat i) = Some k
        ∧ grid (as_i64 (lm_rid_base m)) (lm_rid_stride m) (Z.of_nat i) = Some (as_i64 r).
Proof.
  unfold fit. intros (pairs&Hp&E)%bind_Some. exists pairs. split; [done|].
  case_match; [done|]. destruct (existsb _ _) eqn:Hx; [done|].
  pose proof (sort_by_key_sorted fst pairs) as Hs.
  pose proof (length_sort_by_key fst pairs) as Hlen.
  pose proof (sort_by_key_perm fst pairs) as Hperm. set (l := sort_by_key fst pairs) in *.
  assert (∃ k0 r0 k1 r1 l', l = (k0, r0) :: (k1, r1) :: l') as (k0&r0&k1&r1&l'&El).
  { clear -E. destruct l as [|[k0 r0] [|[k1 r1] l']]; [done..|]. by eexists _, _, _, _, _. }
  rewrite El in E. rewrite <-El in E.
  apply bind_Some in E as (ks&[Hks ->]%checked_Some&E).
  apply bind_Some in E as (rs&[Hrs ->]%checked_Some&E). destruct (Z.eqb_spec (k1 - k0) 0); [done|].
  destruct (forallb _ _) eqn:Hg; [|done]. injection E as <-. cbn.
  assert (Forall (λ p : Z * Z, p.2 <= 2 ^ 63 - 1) l) as Hf.
  { rewrite <-not_true_iff_false, existsb_exists in Hx. apply Forall_forall. intros p Hin.
    destruct (Z.ltb_spec (2 ^ 63 - 1) p.2); [|done]. destruct Hx. exists p.
    split; [by apply list_elem_of_In|by apply Z.ltb_lt]. }
  rewrite Hlen. split; [done|]. split.
  { rewrite El in Hs. inversion Hs as [|?? _ Hk]; subst. inversion Hk; subst. simpl in *. lia. }
  split; [by rewrite <-Hperm|]. split; [rewrite El in Hf; by inversion Hf|].
  split; [exists k0; rewrite <-Hperm, El; constructor|].
  intros i k r Hi. rewrite forallb_forall in Hg.
  assert (In (Z.of_nat i, (k, r)) (indexed l)) as Hin.
  { apply list_elem_of_In, list_elem_of_lookup. exists i. unfold indexed.
    by rewrite indexed_from_lookup, Hi. }
  apply Hg in Hin. simpl in Hin. by apply bool_decide_eq_true in Hin.
Qed.

Lemma model_pairs_elem index pairs k r :
  bm_sorted (bt_entries index) → mapM model_pair (bt_entries index) = Some pairs →
  (k, r) ∈ pairs ↔ ∃ key, parse_i64 key = Some k ∧ bm_get key (bt_entries index) = Some [r].
Proof.
  intros Hs Hp. apply mapM_Some in Hp.
  assert (∀ kv p, model_pair kv = Some p ↔ kv.2 = [p.2] ∧ parse_i64 kv.1 = Some p.1) as Hm.
  { intros [key ids] [k' r']. unfold model_pair. simpl. destruct ids as [|x [|y ids]]; [naive_solver| |naive_solver].
    destruct (parse_i64 key); naive_solver. }
  split.
  - intros (i&Hi)%list_elem_of_lookup.
    destruct (Forall2_lookup_r _ _ _ _ _ Hp Hi) as ([key ids]&Hk&[E1 E2]%Hm). simpl in *. subst.
    exists key. split; [done|]. apply bm_elem_get; [done|]. by eapply list_elem_of_lookup_2.
  - intros (key&Hk&(i&Hi)%bm_get_Some_elem%list_elem_of_lookup).
    destruct (Forall2_lookup_l _ _ _ _ _ Hp Hi) as ([k' r']&Hi'&[E1 E2]%Hm). simpl in *.
    simplify_eq. by eapply list_elem_of_lookup_2.
Qed.

Lemma model_lookup_pairs index m pairs v :
  index_wf index → fit index = Some m → mapM model_pair (bt_entries index) = Some pairs →
  ∃ ids, Model_lookup m v = Ok ids ∧ (length ids <= 1)%nat
    ∧ ∀ r, r ∈ ids ↔ ∃ k, parse_i64 v = Some k ∧ (k, r) ∈ pairs.
Proof.
  intros (Hs&Hu&_) Hfit Hp. destruct (fit_pairs index m Hfit) as (pairs'&Hp'&Hn&Hst&Hmax&Hrb&[kb Hkb]&Hg).
  simplify_eq. assert (∀ k r, (k, r) ∈ pairs → 0 <= r <= 2 ^ 63 - 1) as Hr.
  { intros k r Hin. rewrite Forall_forall in Hmax. specialize (Hmax _ Hin). simpl in Hmax.
    apply (model_pairs_elem index) in Hin as (key&_&Hin%bm_get_Some_elem); [|done..].
    rewrite Forall_forall in Hu. specialize (Hu _ Hin). inversion Hu as [|?? Hx]; subst.
    unfold in_u64 in Hx. lia. }
  pose proof (Hr _ _ Hkb) as Hb. rewrite as_i64_small in Hg by done.
  assert (∀ k r, (k, r) ∈ pairs ↔ ∃ i, 0 <= i < lm_count m ∧ in_i64 (i * lm_key_stride m)
    ∧ in_i64 k ∧ k = lm_key_base m + i * lm_key_stride m
    ∧ sort_by_key fst pairs !! Z.to_nat i = Some (k, r)) as Hel.
  { intros k r. rewrite <-(elem_of_sort_by_key fst), list_elem_of_lookup, Hn. split.
    - intros [i Hi]. exists (Z.of_nat i). rewrite Nat2Z.id. destruct (Hg i k r Hi) as [Hk _].
      apply grid_Some in Hk as (?&?&?). pose proof (lookup_lt_Some _ _ _ Hi) as Hlt.
      rewrite length_sort_by_key in Hlt. split; [lia|]. by repeat (split; [done|]).
    - intros (i&_&_&_&_&Hi). eauto. }
  unfold Model_lookup. destruct (parse_i64 v) as [k|] eqn:Hv.
  2: { exists []. split; [done|]. split; [simpl; lia|]. intros r. rewrite elem_of_nil. naive_solver. }
  pose proof (parse_i64_range v k Hv) as Hk.
  assert ((∀ r, (k, r) ∉ pairs) → ∀ r, r ∈ ([] : list Z) ↔ ∃ k', Some k = Some k' ∧ (k', r) ∈ pairs)
    as Hnone by (intros Hno r; rewrite elem_of_nil; naive_solver).
  destruct (checked in_i64 (k - lm_key_base m)) as [off|] eqn:Hoff.
  2: { exists []. split; [done|]. split; [simpl; lia|]. apply Hnone.
       intros r (i&_&Hi&_&->&_)%Hel. apply checked_None in Hoff. apply Hoff.
       by replace (_ - _) with (i * lm_key_stride m) by lia. }
  apply checked_Some in Hoff as [Hoff ->].
  destruct (Z.eqb_spec (lm_key_stride m) 0); [lia|].
  destruct (Z.eqb_spec (lm_key_stride m) (-1)); [lia|]. rewrite andb_false_r.
  set (i := Z.quot (k - lm_key_base m) (lm_key_stride m)).
  assert (∀ j, k = lm_key_base m + j * lm_key_stride m →
    Z.rem (k - lm_key_base m) (lm_key_stride m) = 0 ∧ i = j) as Hj.
  { intros j ->. unfold i. replace (_ - _) with (j * lm_key_stride m) by lia.
    by rewrite Z.rem_mul, Z.quot_mul. }
  destruct (Z.eqb_spec (Z.rem (k - lm_key_base m) (lm_key_stride m)) 0) as [Hrem|Hrem]; cbn [negb].
  2: { exists []. split; [done|]. split; [simpl; lia|]. apply Hnone.
       intros r (j&_&_&_&E&_)%Hel. apply Hrem, (Hj j E). }
  destruct ((i <? 0) || (lm_count m <=? i)) eqn:Hrange.
  { exists []. split; [done|]. split; [simpl; lia|]. apply Hnone.
    intros r (j&Hj'&_&_&E&_)%Hel. destruct (Hj j E) as [_ ->].
    apply orb_true_iff in Hrange as [?|?]; zbool; lia. }
  zbool. assert (k = lm_key_base m + i * lm_key_stride m) as Eki.
  { pose proof (Z.quot_rem' (k - lm_key_base m) (lm_key_stride m)) as Hq.
    rewrite Hrem in Hq. fold i in Hq. lia. }
  destruct (lookup_lt_is_Some_2 (sort_by_key fst pairs) (Z.to_nat i)) as [[k' r'] Hi].
  { rewrite length_sort_by_key. lia. }
  destruct (Hg _ _ _ Hi) as [Hk' Hr']. rewrite Z2Nat.id in Hk', Hr' by lia.
  apply grid_Some in Hk' as (_&_&Hk').
  assert ((k, r') ∈ pairs) as Hin.
  { rewrite <-(elem_of_sort_by_key fst). apply list_elem_of_lookup. exists (Z.to_nat i).
    rewrite Hi. do 2 f_equal. lia. }
  pose proof (Hr _ _ Hin) as Hr1. rewrite as_i64_small in Hr' by done. rewrite as_i64_small by done.
  rewrite Hr'. destruct (Z.leb_spec 0 r'); [|lia]. exists [r']. split; [done|].
  split; [simpl; lia|]. intros r. rewrite list_elem_of_singleton. split.
  - intros ->. eauto.
  - intros (k2&[= <-]&(j&_&_&_&E&Hl)%Hel). destruct (Hj j E) as [_ <-]. by simplify_eq.
Qed.

(** C23: A fitted model answers a value with the row whose key parses to the same integer,
    without panicking; on keys written in canonical decimal form it agrees with the index on
    every integer. *)
Theorem learned_model_sound index m :
  index_wf index → fit index = Some m →
  (∀ v, ∃ ids, Model_lookup m v = Ok ids
     ∧ ∀ r, r ∈ ids ↔ ∃ key k, parse_i64 v = Some k ∧ parse_i64 key = Some k
                               ∧ BTreeIndex_lookup index key = [r])
  ∧ ((∀ key, is_Some (bm_get key (bt_entries index)) → ∃ k, in_i64 k ∧ key = fmt_i64 k) →
     ∀ k, in_i64 k → Model_lookup m (fmt_i64 k) = Ok (BTreeIndex_lookup index (fmt_i64 k))).
Proof.
  intros Hw Hfit. destruct (fit_pairs index m Hfit) as (pairs&Hp&_).
  assert (∀ key r, BTreeIndex_lookup index key = [r] ↔ bm_get key (bt_entries index) = Some [r]) as Hl.
  { intros key r. unfold BTreeIndex_lookup. destruct (bm_get key _); naive_solver. }
  split.
  - intros v. destruct (model_lookup_pairs index m pairs v Hw Hfit Hp) as (ids&E&_&Hr).
    exists ids. split; [done|]. intros r. rewrite Hr. setoid_rewrite Hl.
    setoid_rewrite (model_pairs_elem index pairs _ _ (proj1 Hw) Hp). naive_solver.
  - intros Hcanon k Hk.
    destruct (model_lookup_pairs index m pairs (fmt_i64 k) Hw Hfit Hp) as (ids&E&Hlen&Hr).
    rewrite E. f_equal. setoid_rewrite (model_pairs_elem index pairs _ _ (proj1 Hw) Hp) in Hr.
    rewrite parse_i64_fmt in Hr by done.
    assert (∀ r, r ∈ ids ↔ bm_get (fmt_i64 k) (bt_entries index) = Some [r]) as Hr'.
    { intros r. rewrite Hr. split; [|intros ?; exists k; split; [done|]; exists (fmt_i64 k)].
      - intros (k'&[= <-]&key&Hkey&Hg). destruct (Hcanon key) as (k2&Hk2&->); [eauto|].
        rewrite parse_i64_fmt in Hkey by done. by simplify_eq.
      - by rewrite parse_i64_fmt. }
    unfold BTreeIndex_lookup. destruct (bm_get _ _) as [l|] eqn:Eg; cbn.
    + assert (∃ r, l = [r]) as [r ->].
      { apply mapM_Some in Hp. apply bm_get_Some_elem, list_elem_of_lookup in Eg as [i Hi].
        destruct (Forall2_lookup_l _ _ _ _ _ Hp Hi) as (p&_&Hm). unfold model_pair in Hm.
        simpl in Hm. destruct l as [|x [|y l]]; naive_solver. }
      destruct ids as [|x [|y ids]]; simpl in Hlen; [| |lia].
      * exfalso. by eapply elem_of_nil, Hr'.
      * f_equal. assert (x ∈ [x]) as Hx%Hr' by set_solver. congruence.
    + destruct ids as [|x ids]; [done|]. assert (x ∈ x :: ids) as Hx%Hr' by set_solver. done.
Qed.
