(* ===== verification/BinaryIndex.v ===== *)
(** * The binary form of a secondary index

    [index/binary.rs]: the file layout derived from a B-tree index, and the
    lookup that binary-searches its key directory without decoding the rest. *)

From S2P Require Import Prelude Bytes Text OrdMap Json BTreeIndex.
From Stdlib Require Import Strings.Byte.
From Stdlib Require Strings.String.

#[local] Open Scope list_scope.
#[local] Open Scope Z_scope.

(** ** The definition as a document *)

Definition definition_value (d : IndexDefinition) : Value := VObject
  (stream "name" (id_name d) $ stream "table" (id_table d) $ stream "column" (id_column d) $
   stream "unique" (id_unique d) []).
Definition definition_of_value (v : Value) : option IndexDefinition :=
  m ← as_object v;
  name ← field "name" m;
  table ← field "table" m;
  column ← field "column" m;
  unique ← field_default false "unique" m;
  Some (mkIndexDef name table column unique).

(** ** UTF-8 *)

Definition byte_in (lo hi : Z) (b : byte) : bool :=
  let n := Z.of_N (to_N b) in (lo <=? n) && (n <=? hi).
Definition continuation : byte → bool := byte_in 128 191.
(** [str::from_utf8] accepts exactly the well-formed sequences. *)
Fixpoint utf8_valid (b : bytes) : bool :=
  match b with
  | [] => true
  | x :: b1 =>
      if byte_in 0 127 x then utf8_valid b1 else
      match b1 with
      | [] => false
      | y :: b2 =>
          if byte_in 194 223 x && continuation y then utf8_valid b2 else
          match b2 with
          | [] => false
          | z :: b3 =>
              if ((byte_in 224 224 x && byte_in 160 191 y)
                  || (byte_in 225 236 x && continuation y)
                  || (byte_in 237 237 x && byte_in 128 159 y)
                  || (byte_in 238 239 x && continuation y)) && continuation z
              then utf8_valid b3 else
              match b3 with
              | [] => false
              | w :: b4 =>
                  if ((byte_in 240 240 x && byte_in 144 191 y)
                      || (byte_in 241 243 x && continuation y)
                      || (byte_in 244 244 x && byte_in 128 143 y))
                     && continuation z && continuation w
                  then utf8_valid b4 else false
              end
          end
      end
  end.
Definition from_utf8 (b : bytes) : option string :=
  if utf8_valid b then Some (String.string_of_list_byte b) else None.
(** [s.as_bytes()]. *)
Definition as_bytes (s : string) : bytes := String.list_byte_of_string s.

(** ** Layout *)

Definition BIN_MAGIC : bytes := String.list_byte_of_string "BLZIDX01".
Definition BIN_HEADER_LEN : usize := 32.
Definition DIR_ENTRY_LEN : usize := 32.

Definition align8 (n : usize) : usize := Z.ldiff (wrap64 (n + 7)) 7.
Definition u64_at (b : bytes) (off : usize) : option u64 :=
  end_ ← checked in_u64 (off + 8);
  s ← slice_get b off end_; Some (from_le_bytes s).

Definition zeros (n : Z) : bytes := replicate (Z.to_nat n) x00.
(** [buf[off..off + v.len()].copy_from_slice(v)]. *)
Definition write_at (off : usize) (v : bytes) (buf : bytes) : res bytes :=
  if off + len v <=? len buf then Ok (splice buf (Z.to_nat off) v) else Panic.
Definition write_u64 (off : usize) (x : u64) (buf : bytes) : res bytes :=
  write_at off (to_le_bytes 8 x) buf.

(** The loop state: the buffer and the two cursors. *)
Definition serialize_entry (dir_off : usize) (acc : bytes * usize * usize)
    (e : Z * (string * list u64)) : res (bytes * usize * usize) :=
  let '(buf, key_cursor, post_cursor) := acc in
  let '(i, (key, ids)) := e in
  let dir := dir_off + i * DIR_ENTRY_LEN in
  let? buf := write_u64 dir key_cursor buf in
  let? buf := write_u64 (dir + 8) (len (as_bytes key)) buf in
  let? buf := write_u64 (dir + 16) post_cursor buf in
  let? buf := write_u64 (dir + 24) (len ids) buf in
  let? buf := write_at key_cursor (as_bytes key) buf in
  let key_cursor := key_cursor + len (as_bytes key) in
  let? acc := res_fold (λ '(buf, post_cursor) id,
    let? buf := write_u64 post_cursor id buf in Ok (buf, post_cursor + 8)) (buf, post_cursor) ids in
  Ok (acc.1, key_cursor, acc.2).

Section serialize.
Context `{!SerdeJson}.

Definition serialize (index : BTreeIndex) : res bytes :=
  let entries := bt_entries index in
  let key_count := len entries in
  let def_json := json_to_vec (definition_value (bt_definition index)) in
  let dir_off := align8 (BIN_HEADER_LEN + len def_json) in
  let key_blob_off := dir_off + key_count * DIR_ENTRY_LEN in
  let key_blob_len := foldr Z.add 0 ((λ e, len (as_bytes e.1)) <$> entries) in
  let postings_off := align8 (key_blob_off + key_blob_len) in
  let total_postings := foldr Z.add 0 ((λ e, len e.2) <$> entries) in
  let total_len := postings_off + total_postings * 8 in
  let buf := zeros total_len in
  let? buf := write_at 0 BIN_MAGIC buf in
  let? buf := write_u64 8 (bt_snapshot_sequence index) buf in
  let? buf := write_u64 16 key_count buf in
  let? buf := write_u64 24 (len def_json) buf in
  let? buf := write_at BIN_HEADER_LEN def_json buf in
  let? acc := res_fold (serialize_entry dir_off) (buf, key_blob_off, postings_off)
                (indexed entries) in
  Ok acc.1.1.

Record BinaryIndexRef := mkBinRef {
  br_bytes : bytes;
  br_key_count : usize;
  br_snapshot_sequence : u64;
  br_dir_off : usize;
  br_definition : IndexDefinition;
}.

Definition parse (b : bytes) : option BinaryIndexRef :=
  if (len b <? BIN_HEADER_LEN) || negb (bool_decide (slice_get b 0 8 = Some BIN_MAGIC))
  then None else
  snapshot_sequence ← u64_at b 8;
  key_count ← u64_at b 16;
  def_len ← u64_at b 24;
  def_end ← checked in_u64 (BIN_HEADER_LEN + def_len);
  def_bytes ← slice_get b BIN_HEADER_LEN def_end;
  definition ← json_parse def_bytes ≫= definition_of_value;
  let dir_off := align8 def_end in
  dir_len ← checked in_u64 (key_count * DIR_ENTRY_LEN);
  dir_end ← checked in_u64 (dir_off + dir_len);
  if len b <? dir_end then None else
  Some (mkBinRef b key_count snapshot_sequence dir_off definition).
End serialize.

(** [bytes.chunks_exact(8)] decoded. *)
Fixpoint chunks8 (fuel : nat) (b : bytes) : list u64 :=
  match fuel with
  | O => []
  | S fuel => if len b <? 8 then [] else from_le_bytes (take 8 b) :: chunks8 fuel (drop 8 b)
  end.

Definition dir_of (b : BinaryIndexRef) (i : usize) : usize :=
  wrap64 (br_dir_off b + i * DIR_ENTRY_LEN).
Definition key_at (b : BinaryIndexRef) (i : usize) : option string :=
  let dir := dir_of b i in
  key_off ← u64_at (br_bytes b) dir;
  key_len ← u64_at (br_bytes b) (wrap64 (dir + 8));
  key_end ← checked in_u64 (key_off + key_len);
  slice_get (br_bytes b) key_off key_end ≫= from_utf8.
Definition entry (b : BinaryIndexRef) (i : usize) : option (string * list u64) :=
  let dir := dir_of b i in
  key_off ← u64_at (br_bytes b) dir;
  key_len ← u64_at (br_bytes b) (wrap64 (dir + 8));
  post_off ← u64_at (br_bytes b) (wrap64 (dir + 16));
  post_count ← u64_at (br_bytes b) (wrap64 (dir + 24));
  key_end ← checked in_u64 (key_off + key_len);
  key ← slice_get (br_bytes b) key_off key_end ≫= from_utf8;
  post_len ← checked in_u64 (post_count * 8);
  post_end ← checked in_u64 (post_off + post_len);
  post_bytes ← slice_get (br_bytes b) post_off post_end;
  Some (key, chunks8 (length post_bytes) post_bytes).

Fixpoint key_search (fuel : nat) (b : BinaryIndexRef) (value : string) (lo hi : usize)
    : option (list u64) :=
  if lo <? hi then
    match fuel with
    | O => None
    | S fuel =>
        let mid := lo + (hi - lo) / 2 in
        k ← key_at b mid;
        if decide (value = k) then snd <$> entry b mid
        else if str_ltb value k then key_search fuel b value lo mid
        else key_search fuel b value (mid + 1) hi
    end
  else Some [].
Definition lookup_checked (b : BinaryIndexRef) (value : string) : option (list u64) :=
  key_search 64 b value 0 (br_key_count b).
Definition BinaryIndexRef_lookup (b : BinaryIndexRef) (value : string) : list u64 :=
  default [] (lookup_checked b value).

(** [MmapBinaryIndex::lookup_checked], which parses the mapping again. *)
Definition Mmap_lookup_checked `{!SerdeJson} (mmap : bytes) (value : string)
    : option (list u64) :=
  b ← parse mmap; lookup_checked b value.

(** ** What is written *)

Definition le8 (x : u64) : bytes := to_le_bytes 8 x.
Definition klen (e : string * list u64) : Z := len (as_bytes e.1).
Definition plen (e : string * list u64) : Z := 8 * len e.2.
Definition sum (f : string * list u64 → Z) (es : list (string * list u64)) : Z :=
  foldr Z.add 0 (f <$> es).
Definition dir_entry (kc pc : Z) (e : string * list u64) : bytes :=
  le8 kc ++ le8 (klen e) ++ le8 pc ++ le8 (len e.2).
Fixpoint directory (kc pc : Z) (es : list (string * list u64)) : bytes :=
  match es with
  | [] => []
  | e :: es => dir_entry kc pc e ++ directory (kc + klen e) (pc + plen e) es
  end.
Definition key_blob (es : list (string * list u64)) : bytes := concat ((λ e, as_bytes e.1) <$> es).
Definition posting (e : string * list u64) : bytes := concat (le8 <$> e.2).
Definition postings (es : list (string * list u64)) : bytes := concat (posting <$> es).

Lemma len_le8 x : len (le8 x) = 8.
Proof. unfold len, le8. by rewrite length_to_le_bytes. Qed.
Lemma len_posting e : len (posting e) = plen e.
Proof.
  unfold posting, plen. destruct e as [k ids]. simpl. induction ids as [|x ids IH]; [done|].
  cbn [fmap list_fmap concat]. rewrite len_app, len_le8, IH. unfold len. cbn [length]. lia.
Qed.
Lemma len_key_blob es : len (key_blob es) = sum klen es.
Proof.
  unfold key_blob, sum. induction es as [|e es IH]; [done|]. cbn [fmap list_fmap concat foldr].
  by rewrite len_app, IH.
Qed.
Lemma len_postings es : len (postings es) = sum plen es.
Proof.
  unfold postings, sum. induction es as [|e es IH]; [done|]. cbn [fmap list_fmap concat foldr].
  by rewrite len_app, IH, len_posting.
Qed.
Lemma len_dir_entry kc pc e : len (dir_entry kc pc e) = 32.
Proof. unfold dir_entry. by rewrite !len_app, !len_le8. Qed.
Lemma len_directory kc pc es : len (directory kc pc es) = 32 * len es.
Proof.
  revert kc pc. induction es as [|e es IH]; intros kc pc; [done|]. cbn [directory].
  rewrite len_app, len_dir_entry, IH. unfold len. cbn [length]. lia.
Qed.
Lemma sum_nonneg f es : (∀ e, 0 <= f e) → 0 <= sum f es.
Proof.
  intros Hf. unfold sum. induction es as [|e es IH]; [done|]. rewrite fmap_cons. cbn [foldr].
  specialize (Hf e). lia.
Qed.
Lemma sum_cons f e es : sum f (e :: es) = f e + sum f es.
Proof. done. Qed.
Lemma klen_nonneg e : 0 <= klen e.
Proof. apply len_nonneg. Qed.
Lemma plen_nonneg e : 0 <= plen e.
Proof. unfold plen. pose proof (len_nonneg e.2). lia. Qed.
Lemma sum_postings es : sum plen es = 8 * sum (λ e, len e.2) es.
Proof.
  unfold sum. induction es as [|e es IH]; [done|]. rewrite !fmap_cons. cbn [foldr].
  rewrite IH. unfold plen. lia.
Qed.

Lemma len_zeros n : 0 <= n → len (zeros n) = n.
Proof. intros. unfold len, zeros. rewrite length_replicate. lia. Qed.
Lemma zeros_add n m : 0 <= n → 0 <= m → zeros (n + m) = zeros n ++ zeros m.
Proof. intros. unfold zeros. by rewrite Z2Nat.inj_add, replicate_add by lia. Qed.

(** Writing over zeros that follow what is already written. *)
Lemma write_zeros off p v n q :
  off = len p → len v <= n →
  write_at off v (p ++ zeros n ++ q) = Ok (p ++ v ++ zeros (n - len v) ++ q).
Proof.
  intros -> Hn. pose proof (len_nonneg v). pose proof (len_nonneg p). pose proof (len_nonneg q).
  unfold write_at. destruct (Z.leb_spec (len p + len v) (len (p ++ zeros n ++ q))) as [_|Hlt].
  2: { rewrite !len_app, len_zeros in Hlt by lia. lia. }
  f_equal. replace n with (len v + (n - len v)) at 1 by lia. rewrite zeros_add by lia.
  rewrite <-app_assoc. apply splice_app; [unfold len; lia|].
  unfold zeros. rewrite length_replicate. unfold len. lia.
Qed.
Lemma write_zeros_u64 off p x n q :
  off = len p → 8 <= n →
  write_u64 off x (p ++ zeros n ++ q) = Ok ((p ++ le8 x) ++ zeros (n - 8) ++ q).
Proof.
  intros. unfold write_u64. rewrite write_zeros; [|done|by rewrite len_le8].
  by rewrite len_le8, <-app_assoc.
Qed.

Lemma write_exact off p v n q :
  off = len p → n = len v → write_at off v (p ++ zeros n ++ q) = Ok ((p ++ v) ++ q).
Proof. intros -> ->. rewrite write_zeros by done. by rewrite Z.sub_diag, <-app_assoc. Qed.

Lemma serialize_ids ids p n q pc :
  pc = len p → 8 * len ids <= n →
  res_fold (λ '(buf, post_cursor) id,
    let? buf := write_u64 post_cursor id buf in Ok (buf, post_cursor + 8)) (p ++ zeros n ++ q, pc) ids
  = Ok ((p ++ concat (le8 <$> ids)) ++ zeros (n - 8 * len ids) ++ q, pc + 8 * len ids).
Proof.
  revert p n pc. induction ids as [|x ids IH]; intros p n pc Hpc Hn; cbn [res_fold].
  { cbn. rewrite app_nil_r. unfold len. simpl. do 3 f_equal; [f_equal; f_equal; lia|lia]. }
  assert (len (x :: ids) = 1 + len ids) as El by (unfold len; cbn [length]; lia).
  pose proof (len_nonneg ids).
  rewrite (write_zeros_u64 pc p x n q) by lia. cbn [res_bind].
  rewrite IH by (rewrite ?len_app, ?len_le8; lia). cbn [fmap list_fmap concat].
  rewrite El, <-!app_assoc. replace (n - 8 - 8 * len ids) with (n - 8 * (1 + len ids)) by lia.
  by replace (pc + 8 + 8 * len ids) with (pc + 8 * (1 + len ids)) by lia.
Qed.

Lemma serialize_entry_ok dir_off i e p k g q n_dir n_key n_post kc pc :
  dir_off + i * 32 = len p → kc = len p + n_dir + len k → 32 <= n_dir →
  klen e <= n_key → pc = kc + n_key + len g → plen e <= n_post →
  serialize_entry dir_off (p ++ zeros n_dir ++ k ++ zeros n_key ++ g ++ zeros n_post ++ q, kc, pc)
    (i, e)
  = Ok ((p ++ dir_entry kc pc e) ++ zeros (n_dir - 32) ++ (k ++ as_bytes e.1)
        ++ zeros (n_key - klen e) ++ (g ++ posting e) ++ zeros (n_post - plen e) ++ q,
        kc + klen e, pc + plen e).
Proof.
  destruct e as [key ids]. intros Hd Hkc Hnd Hk Hpc Hp. pose proof (len_nonneg g).
  pose proof (len_nonneg k). unfold serialize_entry, DIR_ENTRY_LEN, klen, plen, posting, dir_entry in *.
  cbn [fst snd] in *. pose proof (len_nonneg (as_bytes key)). pose proof (len_nonneg ids).
  rewrite Hd. do 4 (rewrite write_zeros_u64 by (rewrite ?len_app, ?len_le8; lia); cbn [res_bind]).
  rewrite (app_assoc _ (zeros _) (k ++ _)), (app_assoc _ k (zeros _ ++ _)).
  rewrite write_zeros by (rewrite ?len_app, ?len_le8, ?len_zeros by lia; lia). cbn [res_bind].
  rewrite (app_assoc _ (as_bytes key) (zeros _ ++ _)), (app_assoc _ (zeros _) (g ++ _)),
    (app_assoc _ g (zeros _ ++ _)).
  rewrite serialize_ids by (rewrite ?len_app, ?len_le8, ?len_zeros by lia; lia). cbn [res_bind fst snd].
  rewrite <-!app_assoc. by replace (n_dir - 8 - 8 - 8 - 8) with (n_dir - 32) by lia.
Qed.

Lemma serialize_entries_ok dir_off i es p k g st q kc pc :
  dir_off + i * 32 = len p → kc = len p + 32 * len es + len k →
  pc = kc + sum klen es + len g + len st →
  res_fold (serialize_entry dir_off)
    (p ++ zeros (32 * len es) ++ k ++ zeros (sum klen es) ++ (g ++ st) ++ zeros (sum plen es) ++ q,
     kc, pc) (indexed_from i es)
  = Ok (p ++ directory kc pc es ++ k ++ key_blob es ++ (g ++ st) ++ postings es ++ q,
        kc + sum klen es, pc + sum plen es).
Proof.
  revert i p k st kc pc. induction es as [|e es IH]; intros i p k st kc pc Hd Hkc Hpc.
  { cbn. by rewrite !Z.add_0_r. }
  cbn [indexed_from res_fold]. rewrite !sum_cons in *.
  assert (len (e :: es) = 1 + len es) as El by (unfold len; cbn [length]; lia). rewrite El in *.
  pose proof (len_nonneg es). pose proof (sum_nonneg klen es klen_nonneg).
  pose proof (sum_nonneg plen es plen_nonneg).
  rewrite (serialize_entry_ok dir_off i e p k (g ++ st) q) by (rewrite ?len_app; lia).
  cbn [res_bind]. rewrite <-(app_assoc g st (posting e)).
  replace (32 * (1 + len es) - 32) with (32 * len es) by lia.
  replace (klen e + sum klen es - klen e) with (sum klen es) by lia.
  replace (plen e + sum plen es - plen e) with (sum plen es) by lia.
  rewrite IH.
  - cbn [directory]. unfold key_blob, postings. rewrite !fmap_cons. cbn [concat].
    rewrite <-!app_assoc. do 2 f_equal; [f_equal|]; lia.
  - rewrite len_app, len_dir_entry. lia.
  - rewrite !len_app, len_dir_entry. fold (klen e). lia.
  - rewrite len_app, len_posting. lia.
Qed.

(** ** The whole file *)

Lemma align8_spec n : 0 <= n < 2 ^ 63 → n <= align8 n < n + 8 ∧ align8 n mod 8 = 0.
Proof.
  intros Hn. unfold align8. rewrite wrap64_small by (unfold in_u64; lia).
  change 7 with (Z.ones 3). rewrite Z.ldiff_ones_r, Z.shiftl_mul_pow2, Z.shiftr_div_pow2 by lia.
  change (2 ^ 3) with 8. change (Z.ones 3) with 7. split.
  - Z.to_euclidean_division_equations; lia.
  - by rewrite Z.mod_mul.
Qed.

Lemma u64_at_app p x q off :
  off = len p → in_u64 x → off + 8 < 2 ^ 64 → u64_at (p ++ le8 x ++ q) off = Some x.
Proof.
  intros -> Hx Hoff. pose proof (len_nonneg p). unfold u64_at.
  assert (checked in_u64 (len p + 8) = Some (len p + 8)) as ->
    by (apply checked_Some; unfold in_u64; lia). cbn [mbind option_bind].
  rewrite (slice_get_app p (le8 x) q) by (rewrite ?len_le8; done). cbn [mbind option_bind].
  unfold le8. by rewrite from_to_le_u64.
Qed.
Lemma chunks8_ids ids fuel :
  Forall in_u64 ids → (length ids <= fuel)%nat → chunks8 fuel (concat (le8 <$> ids)) = ids.
Proof.
  intros Hi. revert fuel. induction Hi as [|x ids Hx Hi IH]; intros [|fuel] Hf; simpl in Hf;
    [done|done|lia|]. cbn [fmap list_fmap concat chunks8].
  destruct (Z.ltb_spec (len (le8 x ++ concat (le8 <$> ids))) 8) as [Hlt|_].
  { rewrite len_app, len_le8 in Hlt. pose proof (len_nonneg (concat (le8 <$> ids))). lia. }
  rewrite take_app_length', drop_app_length' by (by unfold le8; rewrite length_to_le_bytes).
  unfold le8 at 1. rewrite from_to_le_u64 by done. f_equal. apply IH. lia.
Qed.
Lemma from_utf8_as_bytes s : utf8_valid (as_bytes s) = true → from_utf8 (as_bytes s) = Some s.
Proof.
  intros Hs. unfold from_utf8. rewrite Hs. unfold as_bytes.
  by rewrite String.string_of_list_byte_of_string.
Qed.

Lemma definition_exact `{!SerdeJson} d : value_exact (definition_value d).
Proof. unfold definition_value. solve_exact. Qed.

Section definition.
Context `{!SerdeJson, !SerdeJsonLaws}.

Lemma definition_round_trip d :
  json_parse (json_to_vec (definition_value d)) ≫= definition_of_value = Some d.
Proof.
  unfold definition_value. rewrite json_parse_fields.
  - cbn [mbind option_bind]. destruct d. reflexivity.
  - apply (bool_decide_unpack _). vm_compute. done.
  - repeat constructor.
  - pose proof (definition_exact d) as Hx. by inversion Hx.
Qed.

End definition.

Section layout.
Context `{!SerdeJson}.
Context (index : BTreeIndex).

Let es := bt_entries index.
Let def_json := json_to_vec (definition_value (bt_definition index)).
Let dir_off := align8 (32 + len def_json).
Let key_off := dir_off + 32 * len es.
Let post_off := align8 (key_off + sum klen es).

Definition file_fits : Prop :=
  align8 (align8 (32 + len (json_to_vec (definition_value (bt_definition index))))
          + 32 * len (bt_entries index) + sum klen (bt_entries index))
  + sum plen (bt_entries index) < 2 ^ 63
  ∧ 32 + len (json_to_vec (definition_value (bt_definition index)))
    + 32 * len (bt_entries index) + sum klen (bt_entries index) + 7 < 2 ^ 63.

Definition file_layout : bytes :=
  (BIN_MAGIC ++ le8 (bt_snapshot_sequence index) ++ le8 (len es) ++ le8 (len def_json))
  ++ def_json ++ zeros (dir_off - (32 + len def_json))
  ++ directory key_off post_off es ++ key_blob es
  ++ zeros (post_off - (key_off + sum klen es)) ++ postings es.

Lemma serialize_layout : file_fits → serialize index = Ok file_layout.
Proof.
  intros [_ Hfit]. unfold serialize, file_layout.
  fold es def_json in Hfit |- *. pose proof (len_nonneg es). pose proof (len_nonneg def_json).
  pose proof (sum_nonneg klen es klen_nonneg). pose proof (sum_nonneg plen es plen_nonneg).
  destruct (align8_spec (32 + len def_json)) as [Hd _]; [lia|]. fold dir_off in Hd.
  destruct (align8_spec (key_off + sum klen es)) as [Hp _]; [unfold key_off; lia|].
  fold post_off in Hp.
  change (foldr Z.add 0 ((λ e, len (as_bytes e.1)) <$> es)) with (sum klen es).
  change (foldr Z.add 0 ((λ e, len e.2) <$> es)) with (sum (λ e, len e.2) es).
  change (align8 (BIN_HEADER_LEN + len def_json)) with dir_off.
  unfold DIR_ENTRY_LEN. rewrite (Z.mul_comm (len es) 32). fold key_off. fold post_off.
  replace (post_off + sum (λ e, len e.2) es * 8) with
    (8 + 8 + 8 + 8 + len def_json + (dir_off - (32 + len def_json)) + 32 * len es + sum klen es
     + (post_off - (key_off + sum klen es)) + sum plen es)
    by (rewrite sum_postings; unfold key_off; lia).
  rewrite !zeros_add by lia. rewrite <-!app_assoc.
  set (tail := zeros (dir_off - _) ++ _).
  assert (∀ q, write_at 0 BIN_MAGIC (zeros 8 ++ q) = Ok (BIN_MAGIC ++ q)) as ->
    by (intros q; by apply (write_exact 0 [] BIN_MAGIC 8 q)).
  cbn [res_bind].
  unfold write_u64. fold (le8 (bt_snapshot_sequence index)) (le8 (len es)) (le8 (len def_json)).
  do 3 (rewrite write_exact by (rewrite ?len_app, ?len_le8; done); cbn [res_bind]).
  rewrite write_exact by (rewrite ?len_app, ?len_le8; done). cbn [res_bind]. unfold tail.
  set (p := (((BIN_MAGIC ++ _) ++ _) ++ _) ++ def_json).
  assert (len p = 32 + len def_json) as Hlp by (unfold p; by rewrite !len_app, !len_le8).
  pose proof (serialize_entries_ok dir_off 0 es (p ++ zeros (dir_off - (32 + len def_json))) []
    (zeros (post_off - (key_off + sum klen es))) [] [] key_off post_off) as Hl.
  rewrite !app_nil_r in Hl. cbn [app] in Hl. rewrite <-!app_assoc in Hl.
  unfold indexed. rewrite Hl.
  - cbn [res_bind fst]. unfold p. by rewrite <-!app_assoc.
  - rewrite len_app, len_zeros by lia. lia.
  - rewrite len_app, len_zeros by lia. change (len []) with 0. unfold key_off. lia.
  - rewrite len_zeros by lia. change (len []) with 0. lia.
Qed.

(** *** Reading it back *)

Lemma len_file_layout : file_fits →
  len file_layout = post_off + sum plen es ∧ post_off + sum plen es < 2 ^ 63.
Proof.
  intros [Hf1 Hf2]. fold es def_json in Hf1, Hf2. fold dir_off in Hf1. fold key_off in Hf1.
  fold post_off in Hf1. pose proof (len_nonneg es). pose proof (len_nonneg def_json).
  pose proof (sum_nonneg klen es klen_nonneg). pose proof (sum_nonneg plen es plen_nonneg).
  destruct (align8_spec (32 + len def_json)) as [Hd _]; [lia|]. fold dir_off in Hd.
  destruct (align8_spec (key_off + sum klen es)) as [Hp _]; [unfold key_off; lia|].
  fold post_off in Hp. split; [|lia]. unfold file_layout.
  rewrite !len_app, !len_le8, !len_zeros, len_directory, len_key_blob, len_postings by lia.
  change (len BIN_MAGIC) with 8. unfold key_off in *. lia.
Qed.

(** The three places of an entry. *)
Lemma layout_entry es1 e es2 :
  file_fits → es = es1 ++ e :: es2 →
  let kc := key_off + sum klen es1 in
  let pc := post_off + sum plen es1 in
  (∃ p q, file_layout = p ++ dir_entry kc pc e ++ q ∧ len p = dir_off + 32 * len es1)
  ∧ (∃ p q, file_layout = p ++ as_bytes e.1 ++ q ∧ len p = kc)
  ∧ ∃ p q, file_layout = p ++ posting e ++ q ∧ len p = pc.
Proof.
  intros Hfit He kc pc. pose proof (len_nonneg es). pose proof (len_nonneg def_json).
  pose proof (sum_nonneg klen es klen_nonneg).
  destruct Hfit as [Hf1 Hf2]. fold es def_json in Hf1, Hf2.
  destruct (align8_spec (32 + len def_json)) as [Hd _]; [lia|]. fold dir_off in Hd.
  destruct (align8_spec (key_off + sum klen es)) as [Hp _]; [unfold key_off; lia|].
  fold post_off in Hp.
  assert (∀ kc pc l1 l2, directory kc pc (l1 ++ l2)
    = directory kc pc l1 ++ directory (kc + sum klen l1) (pc + sum plen l1) l2) as Hdir.
  { intros k0 p0 l1. revert k0 p0. induction l1 as [|x l1 IH]; intros k0 p0 l2.
    - cbn. by rewrite !Z.add_0_r.
    - cbn [app directory]. rewrite IH, !sum_cons, <-app_assoc, !Z.add_assoc. done. }
  set (pad1 := zeros (dir_off - (32 + len def_json))).
  assert (len pad1 = dir_off - (32 + len def_json)) as Lp1 by (apply len_zeros; lia).
  set (pad2 := zeros (post_off - (key_off + sum klen es))).
  assert (len pad2 = post_off - (key_off + sum klen es)) as Lp2 by (apply len_zeros; lia).
  set (h := BIN_MAGIC ++ le8 (bt_snapshot_sequence index) ++ le8 (len es) ++ le8 (len def_json)).
  assert (len h = 32) as Lh by (unfold h; by rewrite !len_app, !len_le8).
  assert (file_layout = h ++ def_json ++ pad1 ++ directory key_off post_off es ++ key_blob es
                        ++ pad2 ++ postings es) as EF by done.
  assert (directory key_off post_off es = directory key_off post_off es1 ++ dir_entry kc pc e
            ++ directory (kc + klen e) (pc + plen e) es2) as Ed
    by (rewrite He, Hdir; done).
  assert (key_blob es = key_blob es1 ++ as_bytes e.1 ++ key_blob es2) as Ek
    by (rewrite He; unfold key_blob; by rewrite fmap_app, fmap_cons, concat_app).
  assert (postings es = postings es1 ++ posting e ++ postings es2) as Ep
    by (rewrite He; unfold postings; by rewrite fmap_app, fmap_cons, concat_app).
  rewrite EF. split; [|split].
  - exists (h ++ def_json ++ pad1 ++ directory key_off post_off es1). eexists.
    split; [|rewrite !len_app, Lh, Lp1, len_directory; lia].
    rewrite Ed. by rewrite <-!app_assoc.
  - exists (h ++ def_json ++ pad1 ++ directory key_off post_off es ++ key_blob es1). eexists.
    split; [|rewrite !len_app, Lh, Lp1, len_directory, len_key_blob; unfold kc, key_off; lia].
    rewrite Ek. by rewrite <-!app_assoc.
  - exists (h ++ def_json ++ pad1 ++ directory key_off post_off es ++ key_blob es ++ pad2
            ++ postings es1). exists (postings es2).
    split; [|rewrite !len_app, Lh, Lp1, Lp2, len_directory, len_key_blob, len_postings;
             unfold pc, key_off; lia].
    rewrite Ep. by rewrite <-!app_assoc.
Qed.

Let ref := mkBinRef file_layout (len es) (bt_snapshot_sequence index) dir_off (bt_definition index).

Context (Hfit : file_fits) (Hsorted : bm_sorted es).
Context (Hutf8 : Forall (λ e, utf8_valid (as_bytes e.1) = true) es).
Context (Hids : Forall (λ e, Forall in_u64 e.2) es).

Lemma layout_bounds :
  0 <= len es ∧ 32 + len def_json <= dir_off ∧ 0 <= sum klen es ∧ 0 <= sum plen es
  ∧ key_off = dir_off + 32 * len es ∧ key_off + sum klen es <= post_off
  ∧ post_off + sum plen es < 2 ^ 63 ∧ 0 <= len def_json.
Proof.
  pose proof (len_nonneg es). pose proof (len_nonneg def_json).
  pose proof (sum_nonneg klen es klen_nonneg). pose proof (sum_nonneg plen es plen_nonneg).
  destruct (len_file_layout Hfit) as [_ ?]. destruct Hfit as [_ Hf]. fold es def_json in Hf.
  destruct (align8_spec (32 + len def_json)) as [Hd _]; [lia|]. fold dir_off in Hd.
  destruct (align8_spec (key_off + sum klen es)) as [Hp _]; [unfold key_off; lia|].
  fold post_off in Hp. repeat split; lia.
Qed.
Lemma sum_app f l1 l2 : sum f (l1 ++ l2) = sum f l1 + sum f l2.
Proof. induction l1 as [|x l1 IH]; [done|]. cbn [app]. rewrite !sum_cons, IH. lia. Qed.

(** Every directory entry reads back: its four fields, its key and its postings. *)
Lemma entry_fields i e :
  es !! Z.to_nat i = Some e → 0 <= i →
  ∃ kc pc, let d := dir_off + 32 * i in
    dir_of ref i = d ∧ 0 <= d < 2 ^ 63
    ∧ u64_at file_layout d = Some kc ∧ u64_at file_layout (d + 8) = Some (klen e)
    ∧ u64_at file_layout (d + 16) = Some pc ∧ u64_at file_layout (d + 24) = Some (len e.2)
    ∧ slice_get file_layout kc (kc + klen e) = Some (as_bytes e.1)
    ∧ slice_get file_layout pc (pc + plen e) = Some (posting e)
    ∧ checked in_u64 (kc + klen e) = Some (kc + klen e)
    ∧ checked in_u64 (len e.2 * 8) = Some (plen e)
    ∧ checked in_u64 (pc + plen e) = Some (pc + plen e).
Proof.
  intros Hi Hi0. pose proof (eq_sym (take_drop_middle _ _ _ Hi)) as He.
  pose proof (lookup_lt_Some _ _ _ Hi) as Hlt.
  assert (length (take (Z.to_nat i) es) = Z.to_nat i) as Hlen by (rewrite length_take; lia).
  revert He Hlen. generalize (take (Z.to_nat i) es) (drop (S (Z.to_nat i)) es).
  intros es1 es2 He Hlen.
  destruct (layout_entry es1 e es2 Hfit He) as ((p1&q1&E1&L1)&(p2&q2&E2&L2)&(p3&q3&E3&L3)).
  destruct layout_bounds as (?&?&?&?&Hk&?&?&?).
  assert (len es1 = i) as Li by (unfold len; lia).
  pose proof (sum_nonneg klen es1 klen_nonneg). pose proof (sum_nonneg plen es1 plen_nonneg).
  pose proof (sum_nonneg klen es2 klen_nonneg). pose proof (sum_nonneg plen es2 plen_nonneg).
  assert (sum klen es = sum klen es1 + (klen e + sum klen es2)
          ∧ sum plen es = sum plen es1 + (plen e + sum plen es2)) as [Sk Sp]
    by (rewrite He, !sum_app, !sum_cons; done).
  assert (len es = i + 1 + len es2) as Le.
  { rewrite He, len_app, Li. unfold len. cbn [length]. lia. }
  pose proof (klen_nonneg e). pose proof (plen_nonneg e). pose proof (len_nonneg es2).
  pose proof (len_nonneg e.2). assert (plen e = 8 * len e.2) as Pe by done.
  assert (dir_of ref i = dir_off + 32 * i) as Hdir.
  { unfold dir_of, DIR_ENTRY_LEN. cbn [br_dir_off ref]. rewrite wrap64_small; [lia|].
    unfold in_u64. lia. }
  set (kc := key_off + sum klen es1) in *. set (pc := post_off + sum plen es1) in *.
  assert (u64_at file_layout (dir_off + 32 * i) = Some kc
          ∧ u64_at file_layout (dir_off + 32 * i + 8) = Some (klen e)
          ∧ u64_at file_layout (dir_off + 32 * i + 16) = Some pc
          ∧ u64_at file_layout (dir_off + 32 * i + 24) = Some (len e.2)) as (U1&U2&U3&U4).
  { rewrite E1. unfold dir_entry. rewrite <-!app_assoc.
    split; [apply u64_at_app; unfold in_u64; unfold kc; lia|].
    rewrite (app_assoc p1). split; [apply u64_at_app; rewrite ?len_app, ?len_le8; unfold in_u64; lia|].
    rewrite (app_assoc (p1 ++ _)). split; [apply u64_at_app; rewrite ?len_app, ?len_le8; unfold in_u64, pc; lia|].
    rewrite (app_assoc ((p1 ++ _) ++ _)). apply u64_at_app; rewrite ?len_app, ?len_le8; unfold in_u64; lia. }
  assert (slice_get file_layout kc (kc + klen e) = Some (as_bytes e.1)) as S1
    by (rewrite E2; by apply slice_get_app; [|rewrite L2]).
  assert (slice_get file_layout pc (pc + plen e) = Some (posting e)) as S2
    by (rewrite E3; apply slice_get_app; rewrite ?len_posting; congruence).
  assert (checked in_u64 (kc + klen e) = Some (kc + klen e)
          ∧ checked in_u64 (len e.2 * 8) = Some (plen e)
          ∧ checked in_u64 (pc + plen e) = Some (pc + plen e)) as (C1&C2&C3).
  { split; [|split]; apply checked_Some; unfold in_u64, kc, pc in *; lia. }
  exists kc, pc. cbv zeta. split_and!; try done; lia.
Qed.
Lemma entry_ok i e :
  es !! Z.to_nat i = Some e → 0 <= i →
  key_at ref i = Some e.1 ∧ entry ref i = Some e.
Proof.
  intros Hi Hi0. destruct (entry_fields i e Hi Hi0) as (kc&pc&Hdir&Hd&U1&U2&U3&U4&S1&S2&C1&C2&C3).
  assert (from_utf8 (as_bytes e.1) = Some e.1) as Hu.
  { apply from_utf8_as_bytes. rewrite Forall_lookup in Hutf8. exact (Hutf8 _ _ Hi). }
  unfold key_at, entry. rewrite Hdir. cbn [br_bytes ref].
  rewrite !wrap64_small by (unfold in_u64; lia).
  rewrite U1, U2, U3, U4. cbn [mbind option_bind]. rewrite C1. cbn [mbind option_bind].
  rewrite S1. cbn [mbind option_bind]. rewrite Hu. cbn [mbind option_bind]. rewrite C2.
  cbn [mbind option_bind]. rewrite C3. cbn [mbind option_bind]. rewrite S2. cbn [mbind option_bind].
  split; [done|]. destruct e as [k ids]. do 2 f_equal. cbn [fst snd] in *.
  apply chunks8_ids; [rewrite Forall_lookup in Hids; exact (Hids _ _ Hi)|].
  pose proof (len_posting (k, ids)) as Lp. unfold plen, len in Lp. simpl in Lp. lia.
Qed.

Lemma key_search_ok fuel v lo hi :
  0 <= lo → hi <= len es → hi - lo < 2 ^ Z.of_nat fuel →
  (∀ j e, es !! j = Some e → Z.of_nat j < lo → str_lt e.1 v) →
  (∀ j e, es !! j = Some e → hi <= Z.of_nat j → str_lt v e.1) →
  key_search fuel ref v lo hi = Some (BTreeIndex_lookup index v).
Proof.
  unfold BTreeIndex_lookup. fold es. revert lo hi.
  induction fuel as [|fuel IH]; intros lo hi Hlo Hhi Hf Hbefore Hafter; cbn [key_search];
    destruct (Z.ltb_spec lo hi) as [Hlt|Hge].
  1: { change (2 ^ Z.of_nat 0) with 1 in Hf. lia. }
  1, 3: assert (bm_get v es = None) as ->; [|done];
    apply bm_get_None; intros ids (j&Hj)%list_elem_of_lookup;
    (destruct (decide (Z.of_nat j < lo));
      [by apply (str_lt_irrefl v), (Hbefore j (v, ids))
      |apply (str_lt_irrefl v), (Hafter j (v, ids)); [done|lia]]).
  rewrite Nat2Z.inj_succ, Z.pow_succ_r in Hf by lia. set (mid := lo + (hi - lo) / 2).
  assert (lo <= mid < hi ∧ mid - lo < 2 ^ Z.of_nat fuel ∧ hi - (mid + 1) < 2 ^ Z.of_nat fuel)
    as (Hm&Hm1&Hm2) by (unfold mid; Z.to_euclidean_division_equations; lia).
  destruct (lookup_lt_is_Some_2 es (Z.to_nat mid)) as [[k ids] He]; [unfold len in Hhi; lia|].
  destruct (entry_ok mid (k, ids) He) as [-> ->]; [lia|]. cbn [mbind option_bind fmap option_fmap option_map fst snd].
  case_decide as Hv.
  { subst k. f_equal. assert (bm_get v es = Some ids) as ->; [|done].
    apply bm_elem_get; [done|]. by eapply list_elem_of_lookup_2. }
  destruct (str_ltb v k) eqn:Hvk.
  - apply IH; [lia..|done|]. intros j e Hj Hle.
    destruct (decide (j = Z.to_nat mid)) as [->|]; [by simplify_eq|].
    apply (str_lt_trans _ k); [done|]. apply (bm_sorted_lookup es (Z.to_nat mid) j (k, ids) e); [done..|lia].
  - assert (str_lt k v) as Hkv.
    { destruct (str_lt_total k v) as [?|[?|Hx]]; [done|congruence|]. unfold str_lt in Hx. congruence. }
    apply IH; [lia..| |done]. intros j e Hj Hlt'.
    destruct (decide (j = Z.to_nat mid)) as [->|]; [by simplify_eq|].
    apply (str_lt_trans _ k); [|done]. apply (bm_sorted_lookup es j (Z.to_nat mid) e (k, ids)); [done..|lia].
Qed.

Context `{!SerdeJsonLaws} (Hseq : in_u64 (bt_snapshot_sequence index)).

Lemma lookup_checked_ok v : lookup_checked ref v = Some (BTreeIndex_lookup index v).
Proof.
  destruct layout_bounds as (?&?&?&?&?&?&?&?). unfold lookup_checked. cbn [br_key_count ref].
  apply key_search_ok; [lia|lia| | |].
  - change (2 ^ Z.of_nat 64) with (2 ^ 64). lia.
  - intros; lia.
  - intros j e Hj Hle. apply lookup_lt_Some in Hj. unfold len in Hle. lia.
Qed.
Lemma parse_ok : parse file_layout = Some ref.
Proof.
  destruct layout_bounds as (?&?&?&?&?&?&?&?). destruct (len_file_layout Hfit) as [Hlen _].
  unfold parse. rewrite Hlen. unfold BIN_HEADER_LEN, DIR_ENTRY_LEN.
  destruct (Z.ltb_spec (post_off + sum plen es) 32) as [Hlt|_]; [lia|]. cbn [orb].
  unfold file_layout. set (tail := zeros (dir_off - _) ++ _). rewrite <-!app_assoc.
  rewrite bool_decide_eq_true_2 by by apply (slice_get_app [] BIN_MAGIC).
  cbn [negb]. rewrite (u64_at_app BIN_MAGIC _ _ 8) by (done || lia). cbn [mbind option_bind].
  rewrite (app_assoc BIN_MAGIC).
  rewrite (u64_at_app _ _ _ 16) by (rewrite ?len_app, ?len_le8; unfold in_u64; done || lia).
  cbn [mbind option_bind]. rewrite (app_assoc (BIN_MAGIC ++ _)).
  rewrite (u64_at_app _ _ _ 24) by (rewrite ?len_app, ?len_le8; unfold in_u64; done || lia).
  cbn [mbind option_bind].
  assert (checked in_u64 (32 + len def_json) = Some (32 + len def_json)) as ->
    by (apply checked_Some; unfold in_u64; lia). cbn [mbind option_bind].
  rewrite (app_assoc ((BIN_MAGIC ++ _) ++ _)).
  rewrite (slice_get_app _ def_json) by (rewrite ?len_app, ?len_le8; done).
  cbn [mbind option_bind].
  assert (json_parse def_json ≫= definition_of_value = Some (bt_definition index)) as ->
    by apply definition_round_trip.
  cbn [mbind option_bind].
  assert (checked in_u64 (len es * 32) = Some (len es * 32)) as ->
    by (apply checked_Some; unfold in_u64; lia). cbn [mbind option_bind]. fold dir_off.
  assert (checked in_u64 (dir_off + len es * 32) = Some (dir_off + len es * 32)) as ->
    by (apply checked_Some; unfold in_u64; lia). cbn [mbind option_bind].
  destruct (Z.ltb_spec (post_off + sum plen es) (dir_off + len es * 32)); [lia|].
  unfold ref, file_layout. fold tail. by rewrite <-!app_assoc.
Qed.
End layout.

(** C22: The binary file of an index parses, carries its definition, sequence and key count,
    and its binary search answers every lookup as the in-memory index does. *)
Theorem binary_index_refines `{!SerdeJson, !SerdeJsonLaws} index :
  bm_sorted (bt_entries index) → in_u64 (bt_snapshot_sequence index) →
  Forall (λ e, utf8_valid (as_bytes e.1) = true) (bt_entries index) →
  Forall (λ e, Forall in_u64 e.2) (bt_entries index) → file_fits index →
  ∃ file b, serialize index = Ok file ∧ parse file = Some b
    ∧ br_definition b = bt_definition index
    ∧ br_snapshot_sequence b = bt_snapshot_sequence index
    ∧ br_key_count b = len (bt_entries index)
    ∧ (∀ v, lookup_checked b v = Some (BTreeIndex_lookup index v))
    ∧ ∀ v, Mmap_lookup_checked file v = Some (BTreeIndex_lookup index v).
Proof.
  intros Hs Hseq Hu Hi Hfit. eexists _, _.
  split; [by apply serialize_layout|]. split; [by apply parse_ok|]. split; [done|]. split; [done|].
  split; [done|]. assert (∀ v, Mmap_lookup_checked (file_layout index) v
    = Some (BTreeIndex_lookup index v)) as Hm.
  { intros v. unfold Mmap_lookup_checked. rewrite parse_ok by done. by apply lookup_checked_ok. }
  split; [|done]. intros v. by apply lookup_checked_ok.
Qed.

(** ** The search loop *)

(** The [while] loop itself, without a bound on its iterations. *)
Inductive search_loop (b : BinaryIndexRef) (value : string) : usize → usize → option (list u64) → Prop :=
  | search_empty lo hi : hi <= lo → search_loop b value lo hi (Some [])
  | search_malformed lo hi :
      lo < hi → key_at b (lo + (hi - lo) / 2) = None → search_loop b value lo hi None
  | search_equal lo hi :
      lo < hi → key_at b (lo + (hi - lo) / 2) = Some value →
      search_loop b value lo hi (snd <$> entry b (lo + (hi - lo) / 2))
  | search_less lo hi k r :
      lo < hi → key_at b (lo + (hi - lo) / 2) = Some k → str_lt value k →
      search_loop b value lo (lo + (hi - lo) / 2) r → search_loop b value lo hi r
  | search_greater lo hi k r :
      lo < hi → key_at b (lo + (hi - lo) / 2) = Some k → str_lt k value →
      search_loop b value (lo + (hi - lo) / 2 + 1) hi r → search_loop b value lo hi r.

Lemma key_search_loop fuel b value lo hi :
  hi - lo < 2 ^ Z.of_nat fuel → search_loop b value lo hi (key_search fuel b value lo hi).
Proof.
  revert lo hi. induction fuel as [|fuel IH]; intros lo hi Hf; cbn [key_search];
    destruct (Z.ltb_spec lo hi) as [Hlt|Hge]; [|by constructor| |by constructor].
  { change (2 ^ Z.of_nat 0) with 1 in Hf. lia. }
  rewrite Nat2Z.inj_succ, Z.pow_succ_r in Hf by lia. set (mid := lo + (hi - lo) / 2).
  assert (lo <= mid < hi ∧ mid - lo < 2 ^ Z.of_nat fuel ∧ hi - (mid + 1) < 2 ^ Z.of_nat fuel)
    as (Hm&Hm1&Hm2) by (unfold mid; Z.to_euclidean_division_equations; lia).
  destruct (key_at b mid) as [k|] eqn:Ek; cbn [mbind option_bind]; [|by apply search_malformed].
  case_decide as Hv; [subst k; by apply search_equal|].
  destruct (str_ltb value k) eqn:Hvk.
  - apply (search_less _ _ _ _ k); [done..|]. by apply IH.
  - assert (str_lt k value) as Hkv.
    { destruct (str_lt_total k value) as [?|[?|Hx]]; [done|congruence|]. unfold str_lt in Hx. congruence. }
    apply (search_greater _ _ _ _ k); [done..|]. by apply IH.
Qed.
Lemma search_loop_det b value lo hi r r' :
  search_loop b value lo hi r → search_loop b value lo hi r' → r = r'.
Proof.
  intros Hr. revert r'. induction Hr as [lo hi H|lo hi H E|lo hi H E|lo hi k r H E Hlt Hr IH|lo hi k r H E Hlt Hr IH];
    intros r' Hr'; inversion Hr' as [? ? H2|? ? H2 E2|? ? H2 E2|? ? k2 ? H2 E2 Hlt2|? ? k2 ? H2 E2 Hlt2]; subst;
    try lia; try congruence; try done; rewrite E in E2; simplify_eq; auto;
    exfalso; first [by eapply str_lt_irrefl | by eapply str_lt_irrefl, str_lt_trans].
Qed.

(** C24: On any file that parses, the binary-search loop over its key directory terminates,
    with the answer the bounded search computes. *)
Theorem lookup_checked_terminates `{!SerdeJson} file b value :
  parse file = Some b →
  search_loop b value 0 (br_key_count b) (lookup_checked b value)
  ∧ ∀ r, search_loop b value 0 (br_key_count b) r → r = lookup_checked b value.
Proof.
  intros Hp. assert (br_key_count b < 2 ^ 64) as Hc.
  { unfold parse in Hp. case_match; [done|]. 
    apply bind_Some in Hp as (q&_&Hp). apply bind_Some in Hp as (kc&Hkc&Hp).
    apply bind_Some in Hp as (dl&_&Hp). apply bind_Some in Hp as (de&_&Hp).
    apply bind_Some in Hp as (db&_&Hp). apply bind_Some in Hp as (d&_&Hp).
    apply bind_Some in Hp as (dlen&[Hd ->]%checked_Some&Hp). apply bind_Some in Hp as (dend&_&Hp).
    case_match; [done|]. injection Hp as <-. cbn [br_key_count]. unfold DIR_ENTRY_LEN, in_u64 in Hd. lia. }
  assert (search_loop b value 0 (br_key_count b) (lookup_checked b value)) as Hs.
  { apply key_search_loop. change (2 ^ Z.of_nat 64) with (2 ^ 64). lia. }
  split; [done|]. intros r Hr. by eapply search_loop_det.
Qed.
