(* ===== verification/Stats.v ===== *)
(** * Column statistics and partition values, as the writer computes them

    The part of [writer.rs] that produces what [Prune] relies on: the bounds of a
    column from its data, or merged from the statistics of a Parquet footer, the
    partition values, and the metadata of a row group.  Arrow's [min] and [max]
    kernels and the Parquet footer are parameters. *)

From S2P Require Import Prelude Bytes RowId Text OrdMap Json RowGroupMeta Arrow Schema AggCache Prune BinaryIndex.
From Stdlib Require Import Floats.SpecFloat.
From stdpp Require Import gmap.

#[local] Open Scope list_scope.
#[local] Open Scope Z_scope.

(** ** Bounds of JSON values *)

Definition json_cmp (a b : Value) : option comparison :=
  match a, b with
  | VBool a, VBool b => Some (bool_cmp a b)
  | VNumber a, VNumber b =>
      match num_as_i64 a, num_as_i64 b with
      | Some ai, Some bi => Some (Z.compare ai bi)
      | _, _ =>
          match num_as_u64 a, num_as_u64 b with
          | Some au, Some bu => Some (Z.compare au bu)
          | _, _ => fa ← num_as_f64 a; fb ← num_as_f64 b; SFcompare fa fb
          end
      end
  | VString a, VString b => Some (str_cmp a b)
  | _, _ => None
  end.
Definition min_json (a b : option Value) : option Value :=
  match a, b with
  | Some a, Some b => match json_cmp a b with Some Gt => Some b | _ => Some a end
  | Some a, None => Some a
  | None, b => b
  end.
Definition max_json (a b : option Value) : option Value :=
  match a, b with
  | Some a, Some b => match json_cmp a b with Some Lt => Some b | _ => Some a end
  | Some a, None => Some a
  | None, b => b
  end.

(** ** Bounds of an array *)

(** [arrow::compute::{min, max, min_boolean, min_string, ..}]: the least and the
    greatest value in the natural order, in which a NaN is above all numbers. *)
Class ArrowCompute := {
  arrow_min : Array → option Cell;
  arrow_max : Array → option Cell;
}.

(** [f64::total_cmp], as the order of a key. *)
Definition total_key (f : f64) : Z :=
  let b := f64_bits f in if 2 ^ 63 <=? b then 2 ^ 63 - 1 - b else b.
(** [iter().min_by(|a, b| a.total_cmp(b))]: the first least; [max_by]: the last
    greatest. *)
Definition min_by_total (l : list f64) : option f64 :=
  match l with
  | [] => None
  | x :: l => Some (foldl (λ x y, if total_key y <? total_key x then y else x) x l)
  end.
Definition max_by_total (l : list f64) : option f64 :=
  match l with
  | [] => None
  | x :: l => Some (foldl (λ x y, if total_key y <? total_key x then x else y) x l)
  end.

(** The values of a float array, as [f64]. *)
Definition floats (a : Array) : list f64 := omap (float_at a) (seqZ 0 (len (ar_cells a))).
Definition finite_floats (a : Array) : list f64 := List.filter is_finite (floats a).

Section compute.
Context `{!SerdeJson, !ArrowCompute}.

(** Print and parse; both steps are expected not to fail. *)
Definition canonicalize_json_value (v : Value) : res Value := or_panic (json_parse (json_to_vec v)).
Definition canonical_float (o : option f64) : res (option Value) :=
  match o with
  | None => Ok None
  | Some f => let? v := canonicalize_json_value (value_of_f64 f) in Ok (Some v)
  end.
Definition canonical_bounds (mn mx : option f64) : res (option Value * option Value) :=
  let? mn := canonical_float mn in let? mx := canonical_float mx in Ok (mn, mx).

Definition finite_float_min_max (a : Array) : res (option Value * option Value) :=
  match finite_floats a with
  | [] => Ok (None, None)
  | values => canonical_bounds (min_by_total values) (max_by_total values)
  end.

Definition float_of (o : option Cell) : option f64 :=
  match o with Some (CFloat f) => Some f | _ => None end.
Definition not_finite (o : option f64) : bool :=
  match o with Some f => negb (is_finite f) | None => false end.

Definition has_min_max (t : DataType) : bool :=
  match t with
  | Boolean | Int8 | Int16 | Int32 | Int64 | UInt8 | UInt16 | UInt32 | UInt64 | Float32 | Float64
  | Utf8 | LargeUtf8 | Timestamp Microsecond None => true
  | _ => false
  end.
Definition compute_min_max (a : Array) : res (option Value * option Value) :=
  match ar_type a with
  | Float32 => finite_float_min_max a
  | Float64 =>
      let mn := float_of (arrow_min a) in
      let mx := float_of (arrow_max a) in
      if not_finite mn || not_finite mx then finite_float_min_max a else canonical_bounds mn mx
  | t =>
      if has_min_max t then Ok (cell_value <$> arrow_min a, cell_value <$> arrow_max a)
      else Ok (None, None)
  end.

(** ** Partition values *)

(** One element of [distinct_non_null_values]: [None] for a float that is not
    finite. *)
Definition distinct_value (t : DataType) (c : Cell) (path : string) : res (option Value) :=
  if has_min_max t then
    match t, c with
    | Float32, CFloat f => Ok (if is_finite f then Some (value_of_f64 (f64_of_f32 f)) else None)
    | Float64, CFloat f => Ok (if is_finite f then Some (value_of_f64 f) else None)
    | _, c => Ok (Some (cell_value c))
    end
  else Err (SchemaMismatch "arrow type" "supported for partition values" path).
(** The set is the list of its elements in order of insertion. *)
Definition distinct_non_null_values (a : Array) (path : string) : res (list Value) :=
  res_fold (λ values c,
    match c with
    | None => Ok values
    | Some c =>
        let? v := distinct_value (ar_type a) c path in
        Ok (match v with
            | Some v => if existsb (λ w, scalar_eq w v) values then values else values ++ [v]
            | None => values
            end)
    end) [] (ar_cells a).

Fixpoint partition_values_of (batch : RecordBatch) (partition_by : list string) (path : string)
    (result : gmap string Value) : res (option (gmap string Value)) :=
  match partition_by with
  | [] => Ok (if decide (result = ∅) then None else Some result)
  | col_name :: partition_by =>
      let? a := of_option (SchemaMismatch col_name "found in batch" path) (column_by_name batch col_name) in
      let? distinct := distinct_non_null_values a path in
      match distinct with
      | [v] => partition_values_of batch partition_by path (<[col_name := v]> result)
      | _ => Ok None
      end
  end.
Definition compute_partition_values (batch : RecordBatch) (partition_by : list string) (path : string)
    : res (option (gmap string Value)) := partition_values_of batch partition_by path ∅.
End compute.

(** ** Footers *)

(** [parquet::file::statistics::Statistics] of a column chunk. *)
Inductive StatBounds :=
  | SbBoolean (mn mx : option bool)
  | SbInt32 (mn mx : option Z)
  | SbInt64 (mn mx : option Z)
  | SbFloat (mn mx : option spec_float)
  | SbDouble (mn mx : option f64)
  | SbByteArray (mn mx : option bytes)
  | SbOther.
Record Statistics := mkStatistics { st_bounds : StatBounds; st_null_count : option u64 }.
(** [ColumnChunkMetaData], and the footer: the names of the leaf columns and the
    chunks of each row group, in the same order. *)
Record ColumnChunk := mkChunk {
  ch_statistics : option Statistics;
  ch_dictionary_page_offset : option i64;
  ch_data_page_offset : i64;
  ch_compressed_size : i64;
}.
Record ParquetMetaData := mkFooter {
  pm_leaves : list string;
  pm_row_groups : list (list ColumnChunk);
  pm_num_rows : i64;
}.

(** [v as i8] and the like. *)
Definition as_i8 (v : Z) : Z := (v + 2 ^ 7) mod 2 ^ 8 - 2 ^ 7.
Definition as_i16 (v : Z) : Z := (v + 2 ^ 15) mod 2 ^ 16 - 2 ^ 15.
Definition as_unsigned (bits v : Z) : Z := v mod 2 ^ bits.

Definition both {A B} (f : A → option B) (mn mx : option A) : option B * option B := (mn ≫= f, mx ≫= f).
Definition json_int (f : Z → Z) (v : Z) : option Value := Some (VNumber (int_number (f v))).
Definition json_float (v : f64) : option Value := if is_finite v then Some (value_of_f64 v) else None.

Definition is_supported_footer_stat_type (t : DataType) : bool := has_min_max t.
Definition parquet_stats_to_json (stats : StatBounds) (arrow_type : DataType)
    : option Value * option Value :=
  match arrow_type, stats with
  | Boolean, SbBoolean mn mx => both (λ b, Some (VBool b)) mn mx
  | Int8, SbInt32 mn mx => both (json_int as_i8) mn mx
  | Int16, SbInt32 mn mx => both (json_int as_i16) mn mx
  | Int32, SbInt32 mn mx => both (json_int id) mn mx
  | Int64, SbInt64 mn mx => both (json_int id) mn mx
  | UInt8, SbInt32 mn mx => both (json_int (as_unsigned 8)) mn mx
  | UInt16, SbInt32 mn mx => both (json_int (as_unsigned 16)) mn mx
  | UInt32, SbInt32 mn mx => both (json_int (as_unsigned 32)) mn mx
  | UInt64, SbInt64 mn mx => both (json_int (as_unsigned 64)) mn mx
  | Float32, SbFloat mn mx => both (λ f, if is_finite f then json_float (f64_of_f32 f) else None) mn mx
  | Float64, SbDouble mn mx => both json_float mn mx
  | (Utf8 | LargeUtf8), SbByteArray mn mx => both (λ b, VString <$> from_utf8 b) mn mx
  | Timestamp Microsecond None, SbInt64 mn mx => both (json_int id) mn mx
  | _, _ => (None, None)
  end.

(** The statistics of one leaf over the row groups of the file: [None] where a
    chunk has none. *)
Definition merge_footer_stats (arrow_type : DataType) (acc : ColumnStats) (stats : Statistics)
    : ColumnStats :=
  let b := parquet_stats_to_json (st_bounds stats) arrow_type in
  mkStats (min_json (cs_min acc) b.1) (max_json (cs_max acc) b.2)
    (wrap64 (cs_nulls acc + default 0 (st_null_count stats))).
Definition leaf_index (footer : ParquetMetaData) (name : string) : option nat :=
  fst <$> list_find (λ n, n = name) (pm_leaves footer).

Section footer.
Context `{!Unicode}.

(** [Writer::derive_footer_stats], [encrypted] being [self.is_column_encrypted];
    a chunk out of range panics. *)
Definition footer_column (encrypted : string → bool) (footer : ParquetMetaData) (col : Column)
    : res (option (option ColumnStats)) :=
  if encrypted (co_name col) then Ok (Some None) else
  match icefalldb_type_to_arrow (co_type col) with
  | None => Ok None
  | Some t =>
      if negb (is_supported_footer_stat_type t) then Ok None else
      match leaf_index footer (co_name col) with
      | None => Ok None
      | Some i =>
          let? stats := res_fold (λ acc rg,
            match acc with
            | None => Ok None
            | Some acc =>
                let? chunk := or_panic (rg !! i) in
                Ok (merge_footer_stats t acc <$> ch_statistics chunk)
            end) (Some (mkStats None None 0)) (pm_row_groups footer) in
          Ok (Some <$> stats)
      end
  end.
Definition derive_footer_columns (encrypted : string → bool) (schema : Schema) (footer : ParquetMetaData)
    : res (option (gmap string ColumnStats)) :=
  res_fold (λ columns col,
    match columns with
    | None => Ok None
    | Some columns =>
        let? stats := footer_column encrypted footer col in
        Ok (match stats with
            | None => None
            | Some None => Some columns
            | Some (Some stats) => Some (<[co_name col := stats]> columns)
            end)
    end) (Some ∅) (sc_columns schema).

(** [stats.min == stats.max] of scalars. *)
Definition opt_scalar_eq (a b : option Value) : bool :=
  match a, b with
  | Some a, Some b => scalar_eq a b
  | None, None => true
  | _, _ => false
  end.
Definition derive_partition_values_from_stats (schema : Schema) (columns : gmap string ColumnStats)
    : option (gmap string Value) :=
  partition_by ← sc_partition_by schema;
  if is_empty partition_by then None else
  values ← foldl (λ values col_name,
    values ← values;
    stats ← columns !! col_name;
    if (cs_nulls stats =? 0) && opt_scalar_eq (cs_min stats) (cs_max stats)
    then v ← cs_min stats; Some (<[col_name := v]> values) else None)
    (Some (∅ : gmap string Value)) partition_by;
  if decide (values = ∅) then None else Some values.
Definition derive_footer_stats (encrypted : string → bool) (schema : Schema) (footer : ParquetMetaData)
    : res (option (gmap string ColumnStats * option (gmap string Value))) :=
  let? columns := derive_footer_columns encrypted schema footer in
  Ok ((λ columns, (columns, derive_partition_values_from_stats schema columns)) <$> columns).

Definition compute_column_offsets (footer : ParquetMetaData) (schema : Schema)
    : res (option (gmap string ColumnChunkOffset)) :=
  match pm_row_groups footer with
  | [] => Ok None
  | rg :: _ =>
      res_fold (λ offsets col,
        match offsets, leaf_index footer (co_name col) with
        | Some offsets, Some i =>
            let? c := or_panic (rg !! i) in
            let data := Z.max (ch_data_page_offset c) 0 in
            Ok (Some (<[co_name col := mkOffset
              (wrap64 (match ch_dictionary_page_offset c with Some o => Z.min o data | None => data end))
              (wrap64 (Z.max (ch_compressed_size c) 0))]> offsets))
        | _, _ => Ok None
        end) (Some ∅) (sc_columns schema)
  end.
End footer.

(** ** Row-group metadata *)

(** [ParquetRecordBatchReaderBuilder::try_new(..).metadata()]. *)
Class ParquetFooter := parquet_footer : bytes → option ParquetMetaData.

Section meta.
Context `{!Sha256, !SerdeJson, !ArrowCompute, !ParquetFooter}.

Definition column_stats (batch : RecordBatch) (schema : Schema) (path : string)
    : res (gmap string ColumnStats) :=
  res_fold (λ columns col,
    let? a := of_option (SchemaMismatch (co_name col) "found in batch" path)
                (column_by_name batch (co_name col)) in
    let? b := compute_min_max a in
    Ok (<[co_name col := mkStats b.1 b.2 (null_count a)]> columns)) ∅ (sc_columns schema).
Definition compute_row_group_meta (rg_id : string) (schema_id : u64) (batch : RecordBatch)
    (schema : Schema) (parquet_bytes : bytes) (path : string) (row_ids : list RowIdSegment)
    : res RowGroupMeta :=
  let? columns := column_stats batch schema path in
  let? column_offsets :=
    match parquet_footer parquet_bytes with
    | Some footer => compute_column_offsets footer schema
    | None => Ok None
    end in
  Ok (snd (meta_compute_checksum parquet_bytes
    (mkMeta rg_id schema_id (num_rows batch) columns column_offsets (sc_sort schema) row_ids "" ""))).
End meta.
