(* ===== verification/StatsSound.v ===== *)
(** * The statistics the writer computes are those the planner relies on

    The bounds of a column contain its cells, partition values are those of
    every row, so the metadata of a written row group satisfies what
    [PruneSound] asks of it: pruning over it keeps every matching row group.
    Columns with an infinite float are the exception, shown last. *)

From S2P Require Import Prelude Bytes StableSort RowId Text OrdMap Json RowGroupMeta Arrow Schema AggCache Prune PruneSound BinaryIndex Stats.
From Stdlib Require Import Floats.SpecFloat.
From stdpp Require Import gmap.

#[local] Open Scope list_scope.
#[local] Open Scope Z_scope.

(** ** [total_cmp] on finite numbers *)

(** The magnitude of a finite number as a bit pattern. *)
Definition magnitude (f : f64) : Z :=
  match f with S754_finite _ m e => (e + 1074) * 2 ^ 52 + Zpos m | _ => 0 end.
Definition negative (f : f64) : bool :=
  match f with S754_zero s | S754_infinity s | S754_finite s _ _ => s | S754_nan => false end.

Lemma magnitude_bounds f : f64_wf f → is_finite f = true → 0 <= magnitude f < 2 ^ 63.
Proof. destruct f as [| | |s m e]; cbn [magnitude]; try lia. intros H%f64_wf_finite _. lia. Qed.
Lemma bits_magnitude f :
  f64_wf f → is_finite f = true → f64_bits f = sign_bit (negative f) + magnitude f.
Proof.
  destruct f as [s| | |s m e]; try done; cbn [f64_bits magnitude negative]; [lia|].
  intros H%f64_wf_finite _. destruct (Z.ltb_spec (Zpos m) (2 ^ 52)); lia.
Qed.
Lemma total_key_magnitude f :
  f64_wf f → is_finite f = true →
  total_key f = if negative f then -1 - magnitude f else magnitude f.
Proof.
  intros Hw Hf. unfold total_key. rewrite bits_magnitude by done.
  pose proof (magnitude_bounds f Hw Hf). destruct (negative f); cbn [sign_bit].
  - rewrite (proj2 (Z.leb_le _ _)) by lia. lia.
  - rewrite (proj2 (Z.leb_gt _ _)) by lia. lia.
Qed.
Lemma magnitude_lt s1 m1 e1 s2 m2 e2 :
  f64_wf (S754_finite s1 m1 e1) → f64_wf (S754_finite s2 m2 e2) →
  Zpos m1 * 2 ^ (e1 + 1074) < Zpos m2 * 2 ^ (e2 + 1074) →
  (e1 + 1074) * 2 ^ 52 + Zpos m1 < (e2 + 1074) * 2 ^ 52 + Zpos m2.
Proof.
  intros H1%f64_wf_finite H2%f64_wf_finite Hlt. destruct (Z.lt_trichotomy e1 e2) as [He|[->|He]].
  - lia.
  - apply Z.mul_lt_mono_pos_r in Hlt; [lia|]. apply Z.pow_pos_nonneg; lia.
  - exfalso. assert (Zpos m2 * 2 ^ (e2 + 1074) < Zpos m1 * 2 ^ (e1 + 1074)); [|lia].
    apply scaled_lt; lia.
Qed.
Lemma scaled_pos s m e :
  f64_wf (S754_finite s m e) → 0 < Zpos m * 2 ^ (e + 1074) ∧ 0 < (e + 1074) * 2 ^ 52 + Zpos m.
Proof.
  intros H%f64_wf_finite. split; [|lia]. apply Z.mul_pos_pos; [done|]. apply Z.pow_pos_nonneg; lia.
Qed.
(** Ordered by [total_cmp], ordered as numbers. *)
Lemma total_key_val x y :
  f64_wf x → f64_wf y → is_finite x = true → is_finite y = true →
  total_key x <= total_key y → float_val x <= float_val y.
Proof.
  intros Hx Hy Fx Fy. rewrite !total_key_magnitude by done.
  pose proof (magnitude_bounds x Hx Fx) as Bx. pose proof (magnitude_bounds y Hy Fy) as By.
  intros Hk. apply Z.nlt_ge. intros Hlt. revert Hk Hlt.
  destruct x as [s1| | |s1 m1 e1], y as [s2| | |s2 m2 e2]; try done;
    cbn [negative magnitude float_val] in *; intros Hk Hlt.
  - pose proof (scaled_pos _ _ _ Hy). destruct s1, s2; cbn [cond_Zopp] in Hlt; lia.
  - pose proof (scaled_pos _ _ _ Hx). destruct s1, s2; cbn [cond_Zopp] in Hlt; lia.
  - pose proof (scaled_pos _ _ _ Hx). pose proof (scaled_pos _ _ _ Hy).
    pose proof (magnitude_lt _ _ _ _ _ _ Hx Hy) as M1. pose proof (magnitude_lt _ _ _ _ _ _ Hy Hx) as M2.
    destruct s1, s2; cbn [cond_Zopp] in Hlt; lia.
Qed.

Lemma foldl_min_spec {A} (key : A → Z) x l :
  let m := foldl (λ x y, if key y <? key x then y else x) x l in
  m ∈ x :: l ∧ ∀ y, y ∈ x :: l → key m <= key y.
Proof.
  revert x. induction l as [|z l IH]; intros x; cbn [foldl].
  - split; [set_solver|]. intros y ->%list_elem_of_singleton. lia.
  - destruct (IH (if key z <? key x then z else x)) as [Hin Hle]. cbn zeta in *.
    set (m := foldl _ _ l) in *. split.
    + destruct (key z <? key x); set_solver.
    + intros y Hy. destruct (key z <? key x) eqn:E; zbool.
      * apply elem_of_cons in Hy as [->|Hy]; [|by apply Hle].
        pose proof (Hle z (list_elem_of_here _ _)). lia.
      * apply elem_of_cons in Hy as [->|[->|Hy]%elem_of_cons]; [apply Hle; set_solver| |apply Hle; set_solver].
        pose proof (Hle x (list_elem_of_here _ _)). lia.
Qed.
Lemma min_by_total_spec l m :
  min_by_total l = Some m → m ∈ l ∧ ∀ y, y ∈ l → total_key m <= total_key y.
Proof. destruct l as [|x l]; [done|]. intros [= <-]. apply foldl_min_spec. Qed.
Lemma max_by_total_spec l m :
  max_by_total l = Some m → m ∈ l ∧ ∀ y, y ∈ l → total_key y <= total_key m.
Proof.
  destruct l as [|x l]; [done|]. intros [= <-].
  assert (∀ x, foldl (λ x y, if total_key y <? total_key x then x else y) x l ∈ x :: l
    ∧ ∀ y, y ∈ x :: l → total_key y <= total_key (foldl (λ x y, if total_key y <? total_key x then x else y) x l)) as H;
    [|apply H].
  clear x. induction l as [|z l IH]; intros x; cbn [foldl].
  - split; [set_solver|]. intros y ->%list_elem_of_singleton. lia.
  - destruct (IH (if total_key z <? total_key x then x else z)) as [Hin Hle].
    set (m := foldl _ _ l) in *. split.
    + destruct (total_key z <? total_key x); set_solver.
    + intros y Hy. destruct (total_key z <? total_key x) eqn:E; zbool.
      * apply elem_of_cons in Hy as [->|[->|Hy]%elem_of_cons]; [apply Hle; set_solver| |apply Hle; set_solver].
        pose proof (Hle x (list_elem_of_here _ _)). lia.
      * apply elem_of_cons in Hy as [->|Hy]; [|by apply Hle].
        pose proof (Hle z (list_elem_of_here _ _)). lia.
Qed.

(** ** The kernels *)

(** The natural order of the cells of one column; a NaN is above all. *)
Definition natural_le (c d : Cell) : Prop :=
  match c, d with
  | CFloat x, CFloat y => match SFcompare x y with Some o => o ≠ Gt | None => y = S754_nan end
  | _, _ => cell_cmp c d ≠ Some Gt
  end.
Class ArrowComputeLaws `{!ArrowCompute} := {
  arrow_min_spec a : array_typed a → has_min_max (ar_type a) = true →
    match arrow_min a with
    | Some m => Some m ∈ ar_cells a ∧ ∀ c, Some c ∈ ar_cells a → natural_le m c
    | None => ∀ c, Some c ∉ ar_cells a
    end;
  arrow_max_spec a : array_typed a → has_min_max (ar_type a) = true →
    match arrow_max a with
    | Some m => Some m ∈ ar_cells a ∧ ∀ c, Some c ∈ ar_cells a → natural_le c m
    | None => ∀ c, Some c ∉ ar_cells a
    end;
}.

(** The value a query sees in a cell: a [Float32] is widened. *)
Definition seen (t : DataType) (c : Cell) : Cell :=
  match t, c with Float32, CFloat f => CFloat (f64_of_f32 f) | _, c => c end.
Definition seen_cells (a : Array) : list (option Cell) :=
  (λ o : option Cell, seen (ar_type a) <$> o) <$> ar_cells a.
(** A column that JSON statistics can describe: its values are exact, and its
    floats survive being printed and read back. *)
Definition json_cell `{!SerdeJson} (c : Cell) : Prop :=
  exact_cell c ∧ ∀ f, c = CFloat f → json_float_exact (f64_bits f).
Definition describable `{!SerdeJson} (a : Array) : Prop :=
  array_typed a ∧ ∀ c, Some c ∈ ar_cells a → json_cell (seen (ar_type a) c).

Lemma natural_key c d :
  exact_cell c → exact_cell d → same_kind c d = true → natural_le c d →
  key_le (cell_key c) (cell_key d).
Proof.
  intros Hc Hd Hk Hle. unfold key_le. pose proof (cell_cmp_key c d Hc Hd Hk) as E.
  destruct c, d; try done; cbn [natural_le cell_cmp] in *; rewrite E in Hle; congruence.
Qed.

Lemma in_cells {A} (l : list (option A)) x : Some x ∈ l ↔ ∃ i, l !! i = Some (Some x).
Proof. apply list_elem_of_lookup. Qed.
Lemma elem_of_floats a x :
  is_float_type (ar_type a) = true →
  x ∈ floats a ↔ ∃ c, Some c ∈ ar_cells a ∧ seen (ar_type a) c = CFloat x.
Proof.
  intros Ht. unfold floats. rewrite list_elem_of_omap. setoid_rewrite elem_of_seqZ. unfold float_at. split.
  - intros (i&Hi&E). destruct (ar_cells a !! Z.to_nat i) as [[[]|]|] eqn:El; simplify_eq.
    exists (CFloat f). split; [by eapply list_elem_of_lookup_2|]. by destruct (ar_type a).
  - intros (c&(i&Hi)%in_cells&E). exists (Z.of_nat i). pose proof (lookup_lt_Some _ _ _ Hi).
    split; [unfold len; lia|]. rewrite Nat2Z.id, Hi.
    destruct (ar_type a), c; simplify_eq/=; done.
Qed.
Lemma finite_floats_all a :
  is_float_type (ar_type a) = true → (∀ c, Some c ∈ ar_cells a → exact_cell (seen (ar_type a) c)) →
  ∀ x, x ∈ finite_floats a ↔ x ∈ floats a.
Proof.
  intros Ht Hx x. unfold finite_floats. rewrite list_elem_of_In, filter_In, <- list_elem_of_In.
  split; [by intros []|]. intros Hin. split; [done|]. apply elem_of_floats in Hin as (c&Hc&E); [|done].
  apply Hx in Hc. rewrite E in Hc. apply Hc.
Qed.

Section bounds.
Context `{!SerdeJson, !SerdeJsonLaws, !ArrowCompute, !ArrowComputeLaws}.

Lemma canonical_float_ok f :
  f64_wf f → is_finite f = true → json_float_exact (f64_bits f) →
  canonical_float (Some f) = Ok (Some (cell_value (CFloat f))).
Proof.
  intros Hw Hf Hx. unfold canonical_float, canonicalize_json_value. cbn [cell_value].
  unfold value_of_f64. rewrite Hf. rewrite json_parse_to_vec; [done| |].
  - constructor. cbn [number_wf]. rewrite bits_magnitude by done.
    pose proof (magnitude_bounds f Hw Hf). unfold in_u64. destruct (negative f); cbn [sign_bit]; lia.
  - constructor. intros b [= <-]. done.
Qed.

(** Bounds that are cells of the column, below and above all the others. *)
Definition attained (a : Array) (mn mx : option Value) : Prop :=
  (mn = None ∧ mx = None ∧ ∀ c, Some c ∉ ar_cells a)
  ∨ ∃ lo hi, Some lo ∈ ar_cells a ∧ Some hi ∈ ar_cells a
      ∧ mn = Some (cell_value (seen (ar_type a) lo)) ∧ mx = Some (cell_value (seen (ar_type a) hi))
      ∧ ∀ c, Some c ∈ ar_cells a →
          key_le (cell_key (seen (ar_type a) lo)) (cell_key (seen (ar_type a) c))
          ∧ key_le (cell_key (seen (ar_type a) c)) (cell_key (seen (ar_type a) hi)).

Lemma seen_float a c :
  is_float_type (ar_type a) = true → array_typed a → Some c ∈ ar_cells a →
  ∃ f, seen (ar_type a) c = CFloat f.
Proof.
  unfold array_typed. rewrite Forall_forall. intros Ht Ha Hc. specialize (Ha _ Hc). simpl in Ha.
  destruct (ar_type a); try done; destruct Ha as (f&->&_); cbn [seen]; eauto.
Qed.
(** The bounds of the total order are those of the values. *)
Lemma total_bounds (l : list f64) (x y : f64) :
  (∀ f, f ∈ l → exact_cell (CFloat f)) → x ∈ l → y ∈ l → total_key x <= total_key y →
  key_le (cell_key (CFloat x)) (cell_key (CFloat y)).
Proof.
  intros Hl [Wx Fx]%Hl [Wy Fy]%Hl Hk. unfold key_le. cbn [cell_key key_cmp].
  apply (total_key_val x y) in Hk; [|done..]. by apply Z.compare_le_iff.
Qed.
Lemma finite_float_min_max_ok a :
  is_float_type (ar_type a) = true → describable a →
  ∃ mn mx, finite_float_min_max a = Ok (mn, mx) ∧ attained a mn mx.
Proof.
  intros Ht [Hty Hd].
  assert (∀ f, f ∈ finite_floats a ↔ ∃ c, Some c ∈ ar_cells a ∧ seen (ar_type a) c = CFloat f) as Hin.
  { intros f. rewrite finite_floats_all, elem_of_floats; [done..|]. intros; by apply Hd. }
  assert (∀ f, f ∈ finite_floats a → json_cell (CFloat f)) as Hj.
  { intros f (c&Hc&E)%Hin. rewrite <- E. by apply Hd. }
  unfold finite_float_min_max. destruct (finite_floats a) as [|x l].
  { exists None, None. split; [done|]. left. split; [done|]. split; [done|]. intros c Hc.
    destruct (seen_float a c Ht Hty Hc) as [f Ef].
    assert (f ∈ @nil f64) as Hf by (apply Hin; eauto). by apply elem_of_nil in Hf. }
  destruct (min_by_total_spec (x :: l) _ eq_refl) as [Hlo Hmin].
  destruct (max_by_total_spec (x :: l) _ eq_refl) as [Hhi Hmax].
  set (lo := foldl _ x l) in Hlo, Hmin. set (hi := foldl _ x l) in Hhi, Hmax.
  change (min_by_total (x :: l)) with (Some lo). change (max_by_total (x :: l)) with (Some hi).
  destruct (Hj lo Hlo) as [[Wlo Flo] Xlo]. destruct (Hj hi Hhi) as [[Whi Fhi] Xhi].
  unfold canonical_bounds. rewrite !canonical_float_ok by auto. cbn [res_bind].
  do 2 eexists. split; [done|]. right.
  apply Hin in Hlo as Hl. destruct Hl as (cl&Hcl&El). apply Hin in Hhi as Hh. destruct Hh as (ch&Hch&Eh).
  exists cl, ch. rewrite El, Eh. do 4 (split; [done|]). intros c Hc.
  destruct (seen_float a c Ht Hty Hc) as [f Ef]. rewrite Ef.
  assert (f ∈ x :: l) as Hf by (apply Hin; eauto).
  split; (eapply total_bounds; [intros; by apply Hj|done|done|auto]).
Qed.

Lemma not_finite_seen a c : ar_type a = Float64 → describable a → Some c ∈ ar_cells a →
  ∃ f, c = CFloat f ∧ json_cell (CFloat f).
Proof.
  intros Et [Hty Hd] Hc. destruct (seen_float a c) as [f Ef]; [by rewrite Et|done..|].
  specialize (Hd c Hc). rewrite Ef in Hd. rewrite Et in Ef. cbn [seen] in Ef. by exists f.
Qed.
Lemma same_kind_typed a c d :
  has_min_max (ar_type a) = true → array_typed a → Some c ∈ ar_cells a → Some d ∈ ar_cells a →
  same_kind c d = true.
Proof.
  unfold array_typed. rewrite Forall_forall. intros Ht Ha Hc Hd.
  pose proof (Ha _ Hc) as Tc. pose proof (Ha _ Hd) as Td. simpl in Tc, Td.
  destruct (ar_type a) as [| | | | | | | | | | | | | | | |[] []| | | | | |]; try done; cbn in Tc, Td;
    destruct Tc as (?&Tc), Td as (?&Td); repeat match goal with H : _ ∧ _ |- _ => destruct H end;
    by simplify_eq/=.
Qed.
(** The kernels' bounds. *)
Lemma arrow_bounds a :
  has_min_max (ar_type a) = true → ar_type a ≠ Float32 → describable a →
  (arrow_min a = None ∧ arrow_max a = None ∧ ∀ c, Some c ∉ ar_cells a)
  ∨ ∃ lo hi, arrow_min a = Some lo ∧ arrow_max a = Some hi
      ∧ Some lo ∈ ar_cells a ∧ Some hi ∈ ar_cells a
      ∧ ∀ c, Some c ∈ ar_cells a →
          key_le (cell_key lo) (cell_key c) ∧ key_le (cell_key c) (cell_key hi).
Proof.
  intros Ht Hf [Hty Hd].
  assert (∀ c, seen (ar_type a) c = c) as Hs by (intros c; by destruct (ar_type a)).
  assert (∀ c, Some c ∈ ar_cells a → exact_cell c) as Hx by (intros c Hc; rewrite <- Hs; by apply Hd).
  pose proof (arrow_min_spec a Hty Ht) as Hmin. pose proof (arrow_max_spec a Hty Ht) as Hmax.
  destruct (arrow_min a) as [lo|], (arrow_max a) as [hi|].
  - right. exists lo, hi. destruct Hmin as [Hlo Hmin], Hmax as [Hhi Hmax]. do 4 (split; [done|]).
    intros c Hc. split; (apply natural_key; [auto..|by eapply same_kind_typed|auto]).
  - destruct Hmin as [Hlo _]. by apply Hmax in Hlo.
  - destruct Hmax as [Hhi _]. by apply Hmin in Hhi.
  - by left.
Qed.

Lemma float_cases t : t = Float32 ∨ t = Float64 ∨ (t ≠ Float32 ∧ t ≠ Float64).
Proof. destruct t; auto. Qed.
Lemma compute_min_max_attained a :
  has_min_max (ar_type a) = true → describable a →
  ∃ mn mx, compute_min_max a = Ok (mn, mx) ∧ attained a mn mx.
Proof.
  intros Ht Hd. unfold compute_min_max. destruct (float_cases (ar_type a)) as [E|[E|[Hn Hn']]].
  { rewrite E. apply finite_float_min_max_ok; [by rewrite E|done]. }
  1: assert (ar_type a ≠ Float32) as Hn by by rewrite E.
  all: assert (∀ c, seen (ar_type a) c = c) as Hs by (intros c; by destruct (ar_type a)).
  - rewrite E. destruct (arrow_bounds a Ht Hn Hd) as [(->&->&Hno)|(lo&hi&->&->&Hlo&Hhi&Hle)].
    { do 2 eexists. split; [done|]. left. done. }
    destruct (not_finite_seen a lo E Hd Hlo) as (x&->&[[Wx Fx] Xx]).
    destruct (not_finite_seen a hi E Hd Hhi) as (y&->&[[Wy Fy] Xy]).
    unfold not_finite, float_of, canonical_bounds. rewrite Fx, Fy. cbn [negb orb].
    rewrite !canonical_float_ok by auto. cbn [res_bind]. do 2 eexists. split; [done|]. right.
    exists (CFloat x), (CFloat y). rewrite !Hs. do 4 (split; [done|]). intros c Hc. rewrite !Hs. auto.
  - exists (cell_value <$> arrow_min a), (cell_value <$> arrow_max a). split.
    { destruct (ar_type a) as [| | | | | | | | | | | | | | | |[] []| | | | | |]; done. }
    destruct (arrow_bounds a Ht Hn Hd) as [(->&->&Hno)|(lo&hi&->&->&Hlo&Hhi&Hle)]; [by left|right].
    exists lo, hi. rewrite !Hs. do 4 (split; [done|]). intros c Hc. rewrite !Hs. auto.
Qed.

(** The statistics of a column, as [compute_row_group_meta] records them. *)
Lemma column_stats_ok a mn mx :
  describable a → compute_min_max a = Ok (mn, mx) →
  stats_ok (mkStats mn mx (null_count a)) (seen_cells a).
Proof.
  intros Hd E. split.
  - intros v w Hb c Hc. apply list_elem_of_fmap in Hc as ([c0|]&[= ->]&Hc).
    destruct (has_min_max (ar_type a)) eqn:Ht.
    2: { unfold compute_min_max in E. destruct (ar_type a); try done; rewrite Ht in E; by simplify_eq. }
    destruct (compute_min_max_attained a Ht Hd) as (mn'&mx'&E'&Ha). rewrite E in E'. injection E' as <- <-.
    unfold stats_bounds in Hb. cbn [cs_min cs_max] in Hb.
    destruct Ha as [(->&_)|(lo&hi&Hlo&Hhi&->&->&Hle)]; [done|]. injection Hb as <- <-.
    pose proof Hd as [Hty Hj]. split; [by apply Hj|].
    exists (seen (ar_type a) lo), (seen (ar_type a) hi). do 2 (split; [done|]).
    do 2 (split; [by apply Hj|]).
    assert (∀ d, Some d ∈ ar_cells a → same_kind (seen (ar_type a) d) (seen (ar_type a) c0) = true) as Hk.
    { intros d Hdd. pose proof (same_kind_typed a d c0 Ht Hty Hdd Hc). by destruct (ar_type a), d, c0. }
    split; [by apply Hk|]. split; [by apply Hk|]. by apply Hle.
  - cbn [cs_nulls]. unfold null_count, len, seen_cells. f_equal.
    induction (ar_cells a) as [|[c|] l IH]; [done|..].
    + cbn [fmap list_fmap option_fmap option_map]. by rewrite !filter_cons_False.
    + cbn [fmap list_fmap option_fmap option_map]. rewrite !filter_cons_True by done. simpl. by rewrite IH.
Qed.
End bounds.

(** ** The rows of a batch *)

Definition batch_row (batch : RecordBatch) (i : nat) : Row := λ name,
  a ← column_by_name batch name; o ← seen_cells a !! i; o.
Definition batch_rows (batch : RecordBatch) : list Row :=
  batch_row batch <$> seq 0 (Z.to_nat (num_rows batch)).
(** Columns of one length, that statistics can describe. *)
Definition batch_ok `{!SerdeJson} (batch : RecordBatch) : Prop :=
  ∀ name a, column_by_name batch name = Some a → len (ar_cells a) = num_rows batch ∧ describable a.

Lemma seq_lookup_fmap {A} (l : list A) d :
  (λ i, default d (l !! i)) <$> seq 0 (length l) = l.
Proof.
  apply list_eq. intros i. rewrite list_lookup_fmap. destruct (decide (i < length l)%nat).
  - rewrite lookup_seq_lt by done. cbn. destruct (lookup_lt_is_Some_2 l i) as [x Hx]; [done|]. by rewrite Hx.
  - rewrite lookup_seq_ge by lia. cbn. symmetry. apply lookup_ge_None. lia.
Qed.
Lemma batch_column `{!SerdeJson} batch name a :
  batch_ok batch → column_by_name batch name = Some a →
  (λ r : Row, r name) <$> batch_rows batch = seen_cells a.
Proof.
  intros Hb Ha. destruct (Hb _ _ Ha) as [Hl _]. unfold batch_rows.
  assert (Z.to_nat (num_rows batch) = length (seen_cells a)) as ->.
  { rewrite <- Hl. unfold seen_cells, len. rewrite length_fmap. lia. }
  rewrite <- (seq_lookup_fmap (seen_cells a) None) at 2. rewrite <- list_fmap_compose.
  apply list_fmap_ext. intros i x _. cbn. unfold batch_row. rewrite Ha. cbn [mbind option_bind].
  by destruct (seen_cells a !! i).
Qed.
Lemma batch_rows_len batch : 0 <= num_rows batch → len (batch_rows batch) = num_rows batch.
Proof. intros. unfold batch_rows, len. rewrite length_fmap, length_seq. lia. Qed.
Lemma num_rows_pos batch : 0 <= num_rows batch.
Proof. destruct batch as [|[? a] ?]; simpl; unfold len; lia. Qed.

Section written.
Context `{!Sha256, !SerdeJson, !SerdeJsonLaws, !ArrowCompute, !ArrowComputeLaws, !ParquetFooter}.

Lemma column_stats_lookup batch schema path columns name stats :
  column_stats batch schema path = Ok columns → columns !! name = Some stats →
  ∃ a mn mx, column_by_name batch name = Some a ∧ compute_min_max a = Ok (mn, mx)
             ∧ stats = mkStats mn mx (null_count a).
Proof.
  intros E. revert name stats. set (P := λ m : gmap string ColumnStats, ∀ name stats, m !! name = Some stats →
    ∃ a mn mx, column_by_name batch name = Some a ∧ compute_min_max a = Ok (mn, mx)
             ∧ stats = mkStats mn mx (null_count a)).
  change (P columns). refine (res_fold_inv P _ _ _ _ _ _ E); [|by intros ? ? ?%lookup_empty_Some].
  clear. intros m col m' _ Hm E name stats Hl.
  destruct (column_by_name batch (co_name col)) as [a|] eqn:Ea; [|done]. cbn [of_option res_bind] in E.
  destruct (compute_min_max a) as [[mn mx]| |] eqn:Em; [|done..]. injection E as <-.
  apply lookup_insert_Some in Hl as [[<- <-]|[_ Hl]]; [|by apply Hm]. by exists a, mn, mx.
Qed.
Lemma column_stats_total batch schema path :
  batch_ok batch → Forall (λ c, is_Some (column_by_name batch (co_name c))) (sc_columns schema) →
  ∃ columns, column_stats batch schema path = Ok columns.
Proof.
  intros Hb. unfold column_stats. generalize (∅ : gmap string ColumnStats).
  induction (sc_columns schema) as [|c l IH]; intros m Hl; cbn [res_fold]; [by eauto|].
  apply Forall_cons in Hl as [[a Ha] Hl]. rewrite Ha. cbn [of_option res_bind].
  destruct (Hb _ _ Ha) as [_ Hd].
  assert (∃ b, compute_min_max a = Ok b) as [b ->]; [|cbn [res_bind]; by apply IH].
  destruct (has_min_max (ar_type a)) eqn:Ht.
  - destruct (compute_min_max_attained a Ht Hd) as (?&?&->&_). eauto.
  - unfold compute_min_max. destruct (ar_type a) as [| | | | | | | | | | | | | | | |[] []| | | | | |]; try done; by eauto.
Qed.

(** *** Partition values *)

Lemma distinct_value_ok t c path v :
  distinct_value t c path = Ok v → json_cell (seen t c) →
  v = Some (cell_value (seen t c)) ∧ has_min_max t = true.
Proof.
  intros E [Hx _]. unfold distinct_value in E. destruct (has_min_max t) eqn:Ht; [|done]. split; [|done].
  destruct t; try done; destruct c as [| |f| |]; simplify_eq/=; try done; destruct Hx as [_ Hf];
    cbn [cell_value].
  - destruct f; try done; by rewrite Hf.
  - by rewrite Hf.
Qed.
Lemma scalar_eq_refl t c : json_cell (seen t c) → has_min_max t = true → cell_typed t c →
  scalar_eq (cell_value (seen t c)) (cell_value (seen t c)) = true.
Proof.
  intros [Hx _] Ht Hc.
  assert (same_kind (seen t c) (seen t c) = true) as Hk.
  { destruct t as [| | | | | | | | | | | | | | | |[] []| | | | | |]; try done; cbn in Hc;
      destruct Hc as (?&Hc); repeat match goal with H : _ ∧ _ |- _ => destruct H end; by simplify_eq/=. }
  rewrite scalar_eq_exact by done. rewrite cell_cmp_key by done.
  by rewrite (proj2 (key_cmp_eq _ _) eq_refl).
Qed.
Lemma distinct_non_null_ok a path values :
  describable a → distinct_non_null_values a path = Ok values →
  (∀ v, v ∈ values → has_min_max (ar_type a) = true
     ∧ ∃ c, Some c ∈ ar_cells a ∧ v = cell_value (seen (ar_type a) c))
  ∧ ∀ c, Some c ∈ ar_cells a →
      ∃ v, v ∈ values ∧ scalar_eq v (cell_value (seen (ar_type a) c)) = true.
Proof.
  intros [Hty Hd]. unfold distinct_non_null_values.
  assert (∀ cells acc, (∀ o, o ∈ cells → o ∈ ar_cells a) →
    res_fold (λ values c, match c with
      | None => Ok values
      | Some c => let? v := distinct_value (ar_type a) c path in
          Ok (match v with
              | Some v => if existsb (λ w, scalar_eq w v) values then values else values ++ [v]
              | None => values
              end)
      end) acc cells = Ok values →
    (∀ v, v ∈ values → v ∈ acc ∨ has_min_max (ar_type a) = true
       ∧ ∃ c, Some c ∈ ar_cells a ∧ v = cell_value (seen (ar_type a) c))
    ∧ (∀ v, v ∈ acc → v ∈ values)
    ∧ ∀ c, Some c ∈ cells → ∃ v, v ∈ values ∧ scalar_eq v (cell_value (seen (ar_type a) c)) = true) as Hgen.
  { induction cells as [|[c|] cells IH]; intros acc Hsub E; cbn [res_fold] in E.
    - injection E as <-. split; [by left|]. split; [done|]. intros c Hc. by apply elem_of_nil in Hc.
    - assert (Some c ∈ ar_cells a) as Hc by (apply Hsub, list_elem_of_here).
      destruct (distinct_value _ c path) as [v| |] eqn:Ev; [|done..]. cbn [res_bind] in E.
      destruct (distinct_value_ok _ _ _ _ Ev (Hd c Hc)) as [-> Ht].
      unfold array_typed in Hty. rewrite Forall_forall in Hty. specialize (Hty _ Hc). simpl in Hty.
      set (v := cell_value _) in E.
      apply IH in E as (Hfrom&Hkeep&Hcov); [|intros; by apply Hsub, list_elem_of_further].
      destruct (existsb _ acc) eqn:Ex.
      + split; [done|]. split; [done|]. intros c' [[= ->]|Hc']%elem_of_cons; [|by apply Hcov].
        apply existsb_exists in Ex as (w&Hw%list_elem_of_In&Hs). exists w. auto.
      + split; [|split].
        * intros w [[Hw|Hw%list_elem_of_singleton]%elem_of_app|Hw]%Hfrom; [by left|right|by right].
          split; [done|]. exists c. split; [done|]. by subst w.
        * intros w Hw. apply Hkeep, elem_of_app. by left.
        * intros c' [[= ->]|Hc']%elem_of_cons; [|by apply Hcov]. exists v. split.
          { apply Hkeep, elem_of_app. right. apply list_elem_of_here. }
          apply scalar_eq_refl; auto.
    - apply IH in E as (Hfrom&Hkeep&Hcov); [|intros; by apply Hsub, list_elem_of_further].
      split; [done|]. split; [done|]. intros c [[=]|Hc]%elem_of_cons. by apply Hcov. }
  intros E. destruct (Hgen (ar_cells a) [] ltac:(done) E) as (Hfrom&_&Hcov). split; [|done].
  intros v Hv. destruct (Hfrom v Hv) as [Hn|?]; [by apply elem_of_nil in Hn|done].
Qed.
Lemma partition_values_lookup batch by_ path result values name v :
  partition_values_of batch by_ path result = Ok (Some values) → values !! name = Some v →
  result !! name = Some v
  ∨ ∃ a, column_by_name batch name = Some a ∧ distinct_non_null_values a path = Ok [v].
Proof.
  revert result. induction by_ as [|col by_ IH]; intros result E Hv; cbn [partition_values_of] in E.
  - left. case_decide; [done|]. by injection E as ->.
  - destruct (column_by_name batch col) as [a|] eqn:Ea; [|done]. cbn [of_option res_bind] in E.
    destruct (distinct_non_null_values a path) as [vs| |] eqn:Ed; [|done..]. cbn [res_bind] in E.
    destruct vs as [|w [|]]; [done| |done]. apply IH in E; [|done].
    destruct E as [[[<- <-]|[_ Hl]]%lookup_insert_Some|?]; [right|by left|by right]. by exists a.
Qed.

(** The metadata of a written row group says the truth about its rows. *)
Lemma written_group_ok batch schema rg_id schema_id data path row_ids meta parts rg :
  batch_ok batch →
  compute_row_group_meta rg_id schema_id batch schema data path row_ids = Ok meta →
  compute_partition_values batch (default [] (sc_partition_by schema)) path = Ok parts →
  pr_meta rg = meta → pr_partition_values rg = parts →
  group_ok (default [] (sc_partition_by schema)) rg (batch_rows batch).
Proof.
  intros Hb E Ep Hm Hp. unfold compute_row_group_meta in E.
  destruct (column_stats batch schema path) as [columns| |] eqn:Ec; [|done..]. cbn [res_bind] in E.
  match type of E with context [res_bind ?x _] => destruct x as [offsets| |] eqn:Eo; [|done..] end.
  cbn [res_bind] in E. injection E as E.
  assert (rm_rows meta = num_rows batch) as Hrows by by rewrite <- E.
  assert (rm_columns meta = columns) as Hcols by by rewrite <- E.
  unfold group_ok. rewrite Hm, Hrows, Hcols. split; [|split].
  - symmetry. apply batch_rows_len, num_rows_pos.
  - intros column stats Hs. destruct (column_stats_lookup _ _ _ _ _ _ Ec Hs) as (a&mn&mx&Ha&Em&->).
    rewrite (batch_column batch column a) by done. apply column_stats_ok; [|done]. by apply (Hb column).
  - intros column v _. unfold partition_value. rewrite Hp. destruct parts as [parts|]; [|done].
    cbn [mbind option_bind]. intros Hv.
    destruct (partition_values_lookup _ _ _ _ _ _ _ Ep Hv) as [Hn|(a&Ha&Ed)]; [by rewrite lookup_empty in Hn|].
    destruct (Hb _ _ Ha) as [_ Hd]. destruct (distinct_non_null_ok a path [v] Hd Ed) as [Hfrom Hkeep].
    destruct (Hfrom v (list_elem_of_here _ _)) as (Ht&c&Hc&->). pose proof Hd as [Hty Hj].
    exists (seen (ar_type a) c). split; [by apply Hj|]. split; [done|]. intros r d Hr Hrd.
    assert (Some d ∈ seen_cells a) as Hin.
    { rewrite <- (batch_column batch column a) by done. apply list_elem_of_fmap. by exists r. }
    unfold seen_cells in Hin. apply list_elem_of_fmap in Hin as ([d0|]&[= ->]&Hd0).
    split; [by apply Hj|]. destruct (Hkeep d0 Hd0) as (w&Hw%list_elem_of_singleton&Hs). subst w.
    assert (same_kind (seen (ar_type a) c) (seen (ar_type a) d0) = true) as Hk.
    { pose proof (same_kind_typed a c d0 Ht Hty Hc Hd0). by destruct (ar_type a), c, d0. }
    rewrite scalar_eq_exact in Hs by (done || by apply Hj). unfold is_eq in Hs.
    by destruct (cell_cmp _ _) as [[]|].
Qed.

(** C26: The bounds of a column of exact values are two of its values, below and above all
    the others, absent exactly when there is none or the type has no statistics; the
    computation neither fails nor panics. *)
Theorem column_stats_exact a :
  describable a →
  ∃ mn mx, compute_min_max a = Ok (mn, mx)
    ∧ stats_ok (mkStats mn mx (null_count a)) (seen_cells a)
    ∧ if has_min_max (ar_type a) then attained a mn mx else mn = None ∧ mx = None.
Proof.
  intros Hd.
  assert (∃ mn mx, compute_min_max a = Ok (mn, mx)
    ∧ if has_min_max (ar_type a) then attained a mn mx else mn = None ∧ mx = None) as (mn&mx&E&Ha).
  { destruct (has_min_max (ar_type a)) eqn:Ht; [by apply compute_min_max_attained|].
    exists None, None. split; [|done]. unfold compute_min_max.
    by destruct (ar_type a) as [| | | | | | | | | | | | | | | |[] []| | | | | |]. }
  exists mn, mx. split; [done|]. split; [by apply column_stats_ok|done].
Qed.

End written.

(** ** Infinite floats

    They are left out of the bounds, yet they satisfy comparisons. *)
Definition one : f64 := f64_of_int 1.
Definition infinite_column : Array :=
  mkArray Float64 [Some (CFloat one); Some (CFloat (S754_infinity false))].
Definition infinite_group (stats : ColumnStats) : PlannedRowGroup :=
  mkPlanned "t/a.parquet" "t/a.meta.json"
    (mkMeta "a" 1 2 {[ "c"%string := stats ]} None None [] "" "") None 1 false None 0 0 None.

(** A column with 1.0 and an infinity gets the bounds 1.0 and 1.0, so that a predicate
    satisfied by the infinity prunes its row group. *)
Theorem infinite_float_pruned `{!SerdeJson, !SerdeJsonLaws, !ArrowCompute, !ArrowComputeLaws} :
  json_float_exact (f64_bits one) →
  let p := PGt "c" (LFloat64 (f64_of_int 5)) in
  ∃ mn mx, compute_min_max infinite_column = Ok (mn, mx)
    ∧ row_group_satisfies p (infinite_group (mkStats mn mx 0)) [] = Ok false
    ∧ cell_holds p (CFloat (S754_infinity false)) = true.
Proof.
  intros Hj p. exists (Some (cell_value (CFloat one))), (Some (cell_value (CFloat one))).
  split; [|split; by vm_compute].
  assert (array_typed infinite_column) as Hty.
  { apply Forall_cons_2; [by exists one|]. apply Forall_cons_2; [by exists (S754_infinity false)|done]. }
  pose proof (arrow_max_spec infinite_column Hty eq_refl) as Hmax.
  assert (not_finite (float_of (arrow_max infinite_column)) = true) as Hn.
  { destruct (arrow_max infinite_column) as [m|].
    - destruct Hmax as [[[= ->]|[= ->]%list_elem_of_singleton]%elem_of_cons Hge]; [|done].
      specialize (Hge (CFloat (S754_infinity false)) ltac:(set_solver)). vm_compute in Hge. by destruct Hge.
    - exfalso. apply (Hmax (CFloat one)). set_solver. }
  unfold compute_min_max. cbn [ar_type infinite_column]. rewrite Hn, orb_true_r.
  unfold finite_float_min_max. change (finite_floats infinite_column) with [one].
  unfold canonical_bounds, min_by_total, max_by_total. cbn [foldl].
  by rewrite !canonical_float_ok.
Qed.

(** ** Statistics merged from a footer *)

Lemma json_cmp_exact a b :
  exact_cell a → exact_cell b → same_kind a b = true →
  json_cmp (cell_value a) (cell_value b) = Some (key_cmp (cell_key a) (cell_key b)).
Proof.
  intros Ha Hb Hk. rewrite <- (cell_cmp_key a b) by done.
  destruct a, b; try done; cbn [exact_cell cell_value json_cmp] in *.
  - by rewrite !as_i64_int_number.
  - destruct Ha as [Wa Fa], Hb as [Wb Fb]. unfold value_of_f64. rewrite Fa, Fb.
    cbn [json_cmp num_as_i64 num_as_u64 num_as_f64 mbind option_bind]. by rewrite !f64_from_bits_bits.
Qed.

(** What the statistics of a column chunk say of its cells, all of the kind of [k]. *)
Definition within (k lo hi : Cell) (cells : list (option Cell)) : Prop :=
  (exact_cell lo ∧ same_kind lo k = true) ∧ (exact_cell hi ∧ same_kind hi k = true)
  ∧ ∀ c, Some c ∈ cells → exact_cell c ∧ same_kind c k = true
      ∧ key_le (cell_key lo) (cell_key c) ∧ key_le (cell_key c) (cell_key hi).
Definition bounded (k : Cell) (mn mx : option Value) (cells : list (option Cell)) : Prop :=
  (mn = None ∧ mx = None ∧ ∀ c, Some c ∉ cells)
  ∨ ∃ lo hi, mn = Some (cell_value lo) ∧ mx = Some (cell_value hi) ∧ within k lo hi cells.
Definition nulls_in (cells : list (option Cell)) : Z := len (filter (λ c, c = None) cells).
Definition chunk_ok (t : DataType) (k : Cell) (st : Statistics) (cells : list (option Cell)) : Prop :=
  st_null_count st = Some (nulls_in cells)
  ∧ let b := parquet_stats_to_json (st_bounds st) t in bounded k b.1 b.2 cells.

Lemma key_total a b : key_le a b ∨ key_le b a.
Proof. unfold key_le. rewrite (key_cmp_antisym a b). destruct (key_cmp a b); simpl; auto. Qed.
Lemma key_le_cmp a b : key_cmp a b = Gt → key_le b a.
Proof. unfold key_le. rewrite (key_cmp_antisym a b). by intros ->. Qed.
Lemma min_json_cells k a b :
  exact_cell a → exact_cell b → same_kind a k = true → same_kind b k = true →
  ∃ m, min_json (Some (cell_value a)) (Some (cell_value b)) = Some (cell_value m)
    ∧ (m = a ∨ m = b) ∧ key_le (cell_key m) (cell_key a) ∧ key_le (cell_key m) (cell_key b).
Proof.
  intros Ha Hb Ka Kb. unfold min_json. rewrite json_cmp_exact; [|done..|by destruct a, b, k].
  pose proof (key_cmp_eq (cell_key a) (cell_key a)) as [_ Ra]. pose proof (key_cmp_eq (cell_key b) (cell_key b)) as [_ Rb].
  destruct (key_cmp (cell_key a) (cell_key b)) eqn:E; [exists a|exists a|exists b];
    (split; [done|]); unfold key_le; rewrite ?Ra, ?Rb, ?E by done; try by auto.
  split; [by right|]. split; [|done]. by apply key_le_cmp.
Qed.
Lemma max_json_cells k a b :
  exact_cell a → exact_cell b → same_kind a k = true → same_kind b k = true →
  ∃ m, max_json (Some (cell_value a)) (Some (cell_value b)) = Some (cell_value m)
    ∧ (m = a ∨ m = b) ∧ key_le (cell_key a) (cell_key m) ∧ key_le (cell_key b) (cell_key m).
Proof.
  intros Ha Hb Ka Kb. unfold max_json. rewrite json_cmp_exact; [|done..|by destruct a, b, k].
  pose proof (key_cmp_eq (cell_key a) (cell_key a)) as [_ Ra]. pose proof (key_cmp_eq (cell_key b) (cell_key b)) as [_ Rb].
  destruct (key_cmp (cell_key a) (cell_key b)) eqn:E; [exists a|exists b|exists a];
    (split; [done|]); (split; [by auto|]); unfold key_le; rewrite ?Ra, ?Rb, ?E by done; try by auto.
  - split; [done|]. rewrite (key_cmp_antisym (cell_key a)), E. done.
  - split; [done|]. by apply key_le_cmp.
Qed.

Lemma bounded_merge k mn mx cells mn' mx' cells' :
  bounded k mn mx cells → bounded k mn' mx' cells' →
  bounded k (min_json mn mn') (max_json mx mx') (cells ++ cells').
Proof.
  intros [(->&->&Hno)|(lo&hi&->&->&Hw)] [(->&->&Hno')|(lo'&hi'&->&->&Hw')].
  - left. split; [done|]. split; [done|]. intros c [?|?]%elem_of_app; [by eapply Hno|by eapply Hno'].
  - right. exists lo', hi'. split; [done|]. split; [done|]. destruct Hw' as (?&?&Hc).
    split; [done|]. split; [done|]. intros c [Hin|Hin]%elem_of_app; [by apply Hno in Hin|by apply Hc].
  - right. exists lo, hi. split; [done|]. split; [done|]. destruct Hw as (?&?&Hc).
    split; [done|]. split; [done|]. intros c [Hin|Hin]%elem_of_app; [by apply Hc|by apply Hno' in Hin].
  - right. destruct Hw as ([Xlo Klo]&[Xhi Khi]&Hc), Hw' as ([Xlo' Klo']&[Xhi' Khi']&Hc').
    destruct (min_json_cells k lo lo') as (m&->&Hm&Hm1&Hm2); [done..|].
    destruct (max_json_cells k hi hi') as (n&->&Hn&Hn1&Hn2); [done..|].
    exists m, n. split; [done|]. split; [done|]. split; [by destruct Hm as [->| ->]|].
    split; [by destruct Hn as [->| ->]|]. intros c [Hin|Hin]%elem_of_app.
    + destruct (Hc c Hin) as (?&?&?&?). do 2 (split; [done|]). split; eauto 2 using key_le_trans.
    + destruct (Hc' c Hin) as (?&?&?&?). do 2 (split; [done|]). split; eauto 2 using key_le_trans.
Qed.
Lemma bounded_stats k mn mx cells nulls :
  bounded k mn mx cells → nulls = nulls_in cells → stats_ok (mkStats mn mx nulls) cells.
Proof.
  intros Hb ->. split; [|done]. intros a b Ebd c Hc. unfold stats_bounds in Ebd. cbn [cs_min cs_max] in Ebd.
  destruct Hb as [(->&_)|(lo&hi&->&->&[Xlo Klo]&[Xhi Khi]&Hin)]; [done|]. injection Ebd as <- <-.
  destruct (Hin c Hc) as (Xc&Kc&?&?). split; [done|]. exists lo, hi. do 4 (split; [done|]).
  split; [by destruct lo, c, k|]. split; [by destruct hi, c, k|done].
Qed.
Lemma nulls_in_app a b : nulls_in (a ++ b) = nulls_in a + nulls_in b.
Proof. unfold nulls_in, len. rewrite filter_app, length_app. lia. Qed.
Lemma nulls_in_pos a : 0 <= nulls_in a.
Proof. unfold nulls_in, len. lia. Qed.

Section footers.
Context `{!Unicode} (encrypted : string → bool) (schema : Schema) (footer : ParquetMetaData).
(** The cells of each column, per row group of the file, and a cell of its kind. *)
Context (cells : string → list (list (option Cell))) (kind : string → Cell).
(** A column of a supported type, with truthful statistics on every chunk. *)
Definition described (col : Column) : Prop :=
  ∃ t i, icefalldb_type_to_arrow (co_type col) = Some t ∧ is_supported_footer_stat_type t = true
    ∧ leaf_index footer (co_name col) = Some i
    ∧ Forall2 (λ rg cs, ∃ ch st, rg !! i = Some ch ∧ ch_statistics ch = Some st
                              ∧ chunk_ok t (kind (co_name col)) st cs)
        (pm_row_groups footer) (cells (co_name col))
    ∧ nulls_in (concat (cells (co_name col))) < 2 ^ 64.

Lemma footer_column_ok col :
  described col → encrypted (co_name col) = false →
  ∃ mn mx, footer_column encrypted footer col
           = Ok (Some (Some (mkStats mn mx (nulls_in (concat (cells (co_name col)))))))
    ∧ bounded (kind (co_name col)) mn mx (concat (cells (co_name col))).
Proof.
  intros (t&i&Et&Es&Ei&Hch&Hn) He. unfold footer_column. rewrite He, Et, Es, Ei. cbn [negb].
  set (f := λ (acc : option ColumnStats) (rg : list ColumnChunk), _).
  set (k := kind (co_name col)) in *.
  assert (∀ rgs css done_ mn mx, nulls_in (done_ ++ concat css) < 2 ^ 64 →
    Forall2 (λ rg cs, ∃ ch st, rg !! i = Some ch ∧ ch_statistics ch = Some st ∧ chunk_ok t k st cs) rgs css →
    bounded k mn mx done_ →
    ∃ mn' mx', res_fold f (Some (mkStats mn mx (nulls_in done_))) rgs
               = Ok (Some (mkStats mn' mx' (nulls_in (done_ ++ concat css))))
      ∧ bounded k mn' mx' (done_ ++ concat css)) as Hgen.
  { induction rgs as [|rg rgs IH]; intros css done_ mn mx Hlt Hf Hb.
    - apply Forall2_nil_inv_l in Hf as ->. cbn [concat res_fold]. rewrite app_nil_r. eauto.
    - apply Forall2_cons_inv_l in Hf as (cs&css'&(ch&st&Er&Est&Hnull&Hbd)&Hf&->).
      cbn [concat res_fold] in *. rewrite app_assoc in Hlt |- *. unfold f at 1. rewrite Er. cbn [or_panic res_bind].
      rewrite Est. cbn [fmap option_fmap option_map res_bind]. unfold merge_footer_stats. rewrite Hnull.
      cbn [cs_min cs_max cs_nulls default from_option id]. pose proof (nulls_in_pos (concat css')).
      pose proof (nulls_in_pos done_). pose proof (nulls_in_pos cs). rewrite !nulls_in_app in Hlt.
      rewrite wrap64_small, <- nulls_in_app by (unfold in_u64; lia).
      apply IH; [by rewrite !nulls_in_app|done|]. by apply bounded_merge. }
  destruct (Hgen (pm_row_groups footer) (cells (co_name col)) [] None None Hn Hch) as (mn&mx&E&Hb); [left; split; [done|]; split; [done|]; set_solver|].
  change (nulls_in []) with 0 in E. rewrite E. cbn [res_bind fmap option_fmap option_map]. by exists mn, mx.
Qed.

Lemma footer_columns_ok :
  Forall (λ col, encrypted (co_name col) = false → described col) (sc_columns schema) →
  ∃ columns, derive_footer_columns encrypted schema footer = Ok (Some columns)
    ∧ ∀ name stats, columns !! name = Some stats →
        ∃ mn mx, stats = mkStats mn mx (nulls_in (concat (cells name)))
                 ∧ bounded (kind name) mn mx (concat (cells name)).
Proof.
  set (P := λ columns : gmap string ColumnStats, ∀ name stats, columns !! name = Some stats →
        ∃ mn mx, stats = mkStats mn mx (nulls_in (concat (cells name)))
                 ∧ bounded (kind name) mn mx (concat (cells name))).
  intros Hd. unfold derive_footer_columns.
  assert (P ∅) as Hp by by intros ? ? ?%lookup_empty_Some. revert Hp.
  generalize (∅ : gmap string ColumnStats). induction Hd as [|col l Hcol _ IH]; intros m Hp; cbn [res_fold].
  { exists m. split; [done|]. exact Hp. }
  destruct (encrypted (co_name col)) eqn:He.
  - unfold footer_column at 1. rewrite He. cbn [res_bind]. by apply IH.
  - destruct (footer_column_ok col (Hcol eq_refl) He) as (mn&mx&->&Hb). cbn [res_bind]. apply IH.
    intros name stats [[<- <-]|[_ Hl]]%lookup_insert_Some; [by exists mn, mx|by apply Hp].
Qed.
Lemma stats_partition_values columns parts name v :
  derive_partition_values_from_stats schema columns = Some parts → parts !! name = Some v →
  ∃ stats, columns !! name = Some stats ∧ cs_nulls stats = 0 ∧ cs_min stats = Some v
           ∧ opt_scalar_eq (cs_min stats) (cs_max stats) = true.
Proof.
  unfold derive_partition_values_from_stats. destruct (sc_partition_by schema) as [by_|]; [|done].
  cbn [mbind option_bind]. destruct (is_empty by_); [done|]. set (f := λ values col_name, _).
  assert (∀ m l, foldl f m l = Some parts → parts !! name = Some v →
    (∃ m0, m = Some m0 ∧ m0 !! name = Some v)
    ∨ ∃ stats, columns !! name = Some stats ∧ cs_nulls stats = 0 ∧ cs_min stats = Some v
           ∧ opt_scalar_eq (cs_min stats) (cs_max stats) = true) as Hgen.
  { intros m l. revert m. induction l as [|c l IH]; intros m E Hv; cbn [foldl] in E; [left; by exists parts|].
    destruct (IH _ E Hv) as [(m0&Em&Hm)|?]; [|by right]. unfold f in Em.
    destruct m as [m|]; [|done]. cbn [mbind option_bind] in Em.
    destruct (columns !! c) as [stats|] eqn:Es; [|done]. cbn [mbind option_bind] in Em.
    destruct (_ && _) eqn:Ec; [|done]. apply andb_prop in Ec as [Hz%Z.eqb_eq Heq].
    destruct (cs_min stats) as [w|] eqn:Ew; [|done]. cbn [mbind option_bind] in Em. injection Em as <-.
    apply lookup_insert_Some in Hm as [[<- <-]|[_ Hm]]; [right|left; by exists m].
    exists stats. by rewrite Ew. }
  destruct (foldl f (Some ∅) by_) as [values|] eqn:Ef; [|done]. cbn [mbind option_bind].
  case_decide; [done|]. intros [= ->] Hv. destruct (Hgen _ _ Ef Hv) as [(m0&[= <-]&Hm)|?]; [|done].
  by rewrite lookup_empty in Hm.
Qed.
End footers.

