(* ===== verification/SecondaryIndex.v ===== *)
(** * Secondary indexes on storage

    [index.rs]: the JSON form of an index base, of its deltas and of the learned
    model, the functions that save and load them, the overlay of deltas over a
    binary base, and the resolution of row ids to live addresses. *)

From S2P Require Import Prelude Bytes StableSort Text OrdMap Storage Json Manifest.
From S2P Require Import RowId RowIndex RowGroupMeta RowIndexStore BTreeIndex BinaryIndex.
From Stdlib Require Import Ascii String.

#[local] Open Scope list_scope.
#[local] Open Scope Z_scope.

(** ** Serialized forms *)

Definition i64_value (n : i64) : Value := VNumber (if n <? 0 then NegInt n else PosInt n).
Definition i64_of_value (v : Value) : option i64 :=
  match v with
  | VNumber (PosInt n) => checked in_i64 n
  | VNumber (NegInt n) => Some n
  | _ => None
  end.

Definition index_value (index : BTreeIndex) : Value := VObject
  (stream "definition" (definition_value (bt_definition index)) $
   stream "snapshot_sequence" (bt_snapshot_sequence index) $
   stream "entries" (btree_value (bt_entries index)) []).
Definition index_of_value (v : Value) : option BTreeIndex :=
  m ← as_object v;
  definition ← field "definition" m ≫= definition_of_value;
  snapshot_sequence ← field "snapshot_sequence" m;
  entries ← field "entries" m ≫= btree_of_value;
  Some (mkBTree definition snapshot_sequence entries).

Definition model_value (t : LearnedKeyModel) : Value := VObject
  (stream "key_base" (i64_value (lm_key_base t)) $
   stream "key_stride" (i64_value (lm_key_stride t)) $
   stream "rid_base" (lm_rid_base t) $
   stream "rid_stride" (i64_value (lm_rid_stride t)) $
   stream "count" (lm_count t) []).
Definition model_of_value (v : Value) : option LearnedKeyModel :=
  m ← as_object v;
  key_base ← field "key_base" m ≫= i64_of_value;
  key_stride ← field "key_stride" m ≫= i64_of_value;
  rid_base ← field "rid_base" m;
  rid_stride ← field "rid_stride" m ≫= i64_of_value;
  count ← field "count" m;
  Some (mkModel key_base key_stride rid_base rid_stride count).
Definition learned_value (t : LearnedIndexFile) : Value := VObject
  (stream "definition" (definition_value (lf_definition t)) $
   stream "model" (model_value (lf_model t)) []).
Definition learned_of_value (v : Value) : option LearnedIndexFile :=
  m ← as_object v;
  definition ← field "definition" m ≫= definition_of_value;
  model ← field "model" m ≫= model_of_value;
  Some (mkLearnedFile definition model).

(** A tuple is an array. *)
#[export] Instance Serde_add : Serde (string * u64) := {
  to_value a := VArray [VString a.1; VNumber (PosInt a.2)];
  of_value v :=
    match v with VArray [VString k; VNumber (PosInt r)] => Some (k, r) | _ => None end;
}.
Definition delta_value (d : TombstoneDelta) : Value := VObject
  (stream "tombstoned_row_ids" (td_tombstoned_row_ids d) $
   stream_if (negb (is_empty (td_adds d))) "adds" (td_adds d) []).
Definition delta_of_value (v : Value) : option TombstoneDelta :=
  m ← as_object v;
  tombstoned_row_ids ← field "tombstoned_row_ids" m;
  adds ← field_default [] "adds" m;
  Some (mkTombstone tombstoned_row_ids adds).

(** The obsolete format, with row-group file names in place of row ids. *)
Definition is_string (v : Value) : bool := match v with VString _ => true | _ => false end.
Definition is_legacy_string_index `{!SerdeJson} (data : bytes) : bool :=
  match (v ← json_parse data; m ← as_object v; e ← bm_get "entries" m; as_object e) with
  | Some entries =>
      existsb (λ kv, match kv.2 with VArray a => existsb is_string a | _ => false end) entries
  | None => false
  end.

(** ** Saving and loading *)

Section store.
Context `{!SerdeJson} {St : Type} `{!Storage St}.
(** [storage.local_root().is_some()] *)
Context (local : bool).

(** Write to a temporary, make it durable if asked to, rename. *)
Definition write_renamed (path : string) (durable : bool) (d : bytes) : M St unit :=
  let tmp := path +:+ ".tmp" in
  let! _ := st_write tmp d in
  let! _ := if durable then st_sync_data tmp else m_ret tt in
  st_rename tmp path.
(** [let _ = f().await]: an error is dropped, a panic is not. *)
Definition best_effort {A} (m : M St A) : M St unit :=
  match! m as r in
  match r with Panic => m_lift Panic | _ => m_ret tt end.
(** A read whose absence is not an error. *)
Definition read_present (path : string) : M St (option bytes) :=
  match! st_read path as r in
  match r with
  | Ok b => m_ret (Some b)
  | Err e => if is_not_found e then m_ret None else m_lift (Err e)
  | Panic => m_lift Panic
  end.

Definition sibling_path (index : BTreeIndex) (stem ext : string) : string :=
  id_table (bt_definition index) +:+ "/" +:+ stem +:+ ext.
Definition save_binary_sibling (index : BTreeIndex) (json_rel_path : string) : M St unit :=
  match strip_suffix ".json" json_rel_path with
  | None => m_ret tt
  | Some stem =>
      let! d := m_lift (serialize index) in
      write_renamed (sibling_path index stem ".idx") true d
  end.
Definition save_model_sibling (index : BTreeIndex) (json_rel_path : string) : M St unit :=
  match fit index with
  | None => m_ret tt
  | Some model =>
      match strip_suffix ".json" json_rel_path with
      | None => m_ret tt
      | Some stem =>
          write_renamed (sibling_path index stem ".model") true
            (json_to_vec (learned_value (mkLearnedFile (bt_definition index) model)))
      end
  end.
(** The base and its two derived siblings. *)
Definition save_base (index : BTreeIndex) (rel_path : string) : M St unit :=
  let! _ := write_renamed (id_table (bt_definition index) +:+ "/" +:+ rel_path) true
              (json_to_vec_pretty (index_value index)) in
  let! _ := if local then best_effort (save_binary_sibling index rel_path) else m_ret tt in
  best_effort (save_model_sibling index rel_path).
Definition save (index : BTreeIndex) : M St unit :=
  let! _ := save_base index (BTreeIndex_legacy_filename (id_name (bt_definition index))) in
  let! _ := st_sync (id_table (bt_definition index) +:+ "/" +:+ INDEXES_DIR) in
  m_ret tt.
Definition save_versioned (index : BTreeIndex) : M St string :=
  let d := bt_definition index in
  let rel_path := BTreeIndex_versioned_filename (id_name d) (bt_snapshot_sequence index) in
  let! _ := save_base index rel_path in
  let! _ := st_sync (id_table d +:+ "/" +:+ INDEXES_DIR +:+ "/" +:+ id_name d) in
  m_ret rel_path.

Definition load_learned_model (table json_rel_path : string) : M St (option LearnedIndexFile) :=
  match strip_suffix ".json" json_rel_path with
  | None => m_ret None
  | Some stem =>
      let! b := read_present (table +:+ "/" +:+ stem +:+ ".model") in
      m_ret (b ← b; v ← json_parse b; learned_of_value v)
  end.

(** Syncing a directory that may not exist yet. *)
Definition sync_dir_present (dir : string) : M St unit :=
  match! st_sync dir as r in
  match r with
  | Err e => if is_not_found e then m_ret tt else m_lift (Err e)
  | r => m_lift r
  end.
Definition push_delta (r : IndexRef) (rel : string) : IndexRef :=
  mkIndexRef (ir_base r) (ir_deltas r ++ [rel]).
Definition write_delta (table index_name rel : string) (durable : bool) (delta : TombstoneDelta)
    : M St unit :=
  let dir := table +:+ "/" +:+ INDEXES_DIR +:+ "/" +:+ index_name in
  let! _ := sync_dir_present dir in
  let! _ := write_renamed (table +:+ "/" +:+ rel) durable (json_to_vec_pretty (delta_value delta)) in
  if durable then st_sync dir else m_ret tt.
Definition append_tombstones (table index_name : string) (row_ids : list u64) (seq : u64)
    (current_ref : IndexRef) (sync_durable : bool) : M St IndexRef :=
  let rel_path := TombstoneDelta_versioned_filename index_name seq in
  let! _ := write_delta table index_name rel_path sync_durable (mkTombstone row_ids []) in
  m_ret (push_delta current_ref rel_path).
Definition append_index_delta (table index_name : string) (row_ids : list u64)
    (adds : list (string * u64)) (seq : u64) (current_ref : IndexRef) : M St (IndexRef * string) :=
  let rel_path := TombstoneDelta_versioned_filename index_name seq in
  let! _ := write_delta table index_name rel_path true (mkTombstone row_ids adds) in
  m_ret (push_delta current_ref rel_path, rel_path).

(** One delta file, [None] if it is absent. *)
Definition read_delta (table delta_path : string) : M St (option TombstoneDelta) :=
  let! b := read_present (table +:+ "/" +:+ delta_path) in
  match b with
  | None => m_ret None
  | Some b =>
      let! d := m_lift (of_option (Serialization "TombstoneDelta")
                          (json_parse b ≫= delta_of_value)) in
      m_ret (Some d)
  end.
Definition fold_deltas {A} (f : A → TombstoneDelta → A) (table : string) (acc : A)
    (paths : list string) : M St A :=
  m_fold (λ acc p, let! d := read_delta table p in
                   m_ret (match d with Some d => f acc d | None => acc end)) acc paths.
Definition apply_deltas (table : string) (index_ref : IndexRef) (index : BTreeIndex)
    : M St BTreeIndex := fold_deltas apply_delta table index (ir_deltas index_ref).
Definition load_index_overlay (table : string) (index_ref : IndexRef) : M St IndexDeltaOverlay :=
  fold_deltas overlay_delta table overlay_default (ir_deltas index_ref).

Definition load_index (table name : string) : M St (option BTreeIndex) :=
  let file_name := if ends_with ".json" name then name else name +:+ ".json" in
  let! b := read_present (table +:+ "/" +:+ INDEXES_DIR +:+ "/" +:+ file_name) in
  match b with
  | None => m_ret None
  | Some b =>
      match json_parse b ≫= index_of_value with
      | Some index => m_ret (Some index)
      | None => if is_legacy_string_index b then m_lift (Err (LegacyIndex table file_name))
                else m_lift (Err (Serialization "BTreeIndex"))
      end
  end.
Definition load_index_by_ref (table name : string) (index_ref : IndexRef)
    : M St (option BTreeIndex) :=
  let! index_opt :=
    match ir_base index_ref with
    | Some base_path =>
        let! b := read_present (table +:+ "/" +:+ base_path) in
        match b with
        | None => m_ret None
        | Some b =>
            let! i := m_lift (of_option (Serialization "BTreeIndex")
                                (json_parse b ≫= index_of_value)) in
            m_ret (Some i)
        end
    | None => m_ret None
    end in
  let! index_opt := match index_opt with
                    | None => load_index table name
                    | Some i => m_ret (Some i)
                    end in
  if is_empty (ir_deltas index_ref) then m_ret index_opt else
  match index_opt with
  | Some index => let! i := apply_deltas table index_ref index in m_ret (Some i)
  | None => m_ret None
  end.

Definition list_index_names (table : string) : M St (list string) :=
  match! st_list (table +:+ "/" +:+ INDEXES_DIR) as r in
  match r with
  | Ok entries => m_ret (omap (λ e, file_name e ≫= strip_suffix ".json") entries)
  | Err e => if is_not_found e then m_ret [] else m_lift (Err e)
  | Panic => m_lift Panic
  end.
End store.

(** ** Live addresses *)

Section resolve.
Context {B : Type} `{!RoaringBitmap B}.

(** The closure [get_deletion_vector] carries its own state [S]; its answers are
    cached per fragment. *)
Definition resolve_step {S} (am : AddressMap) (get : S → u64 → option (DeletionVector B) * S)
    (acc : list (u64 * u32) * gmap Z (option (DeletionVector B)) * S) (row_id : u64)
    : list (u64 * u32) * gmap Z (option (DeletionVector B)) * S :=
  let '(result, dv_cache, st) := acc in
  match AddressMap_lookup am row_id with
  | None => acc
  | Some (fragment_id, offset) =>
      let '(dv, dv_cache, st) :=
        match dv_cache !! fragment_id with
        | Some dv => (dv, dv_cache, st)
        | None => let '(dv, st) := get st fragment_id in (dv, <[fragment_id := dv]> dv_cache, st)
        end in
      if match dv with Some d => dv_contains d offset | None => false end
      then (result, dv_cache, st) else (result ++ [(fragment_id, offset)], dv_cache, st)
  end.
Definition resolve_live_addresses {S} (row_ids : list u64) (am : AddressMap)
    (get : S → u64 → option (DeletionVector B) * S) (st : S) : list (u64 * u32) :=
  (foldl (resolve_step am get) ([], ∅, st) row_ids).1.1.

(** [|frag_id| dv_map.remove(&frag_id)]. *)
Definition take_dv (dv_map : gmap Z (DeletionVector B)) (fragment_id : u64)
    : option (DeletionVector B) * gmap Z (DeletionVector B) :=
  (dv_map !! fragment_id, delete fragment_id dv_map).

Context `{!SerdeJson} {St : Type} `{!Storage St}.

Definition load_dv (table : string) (dv_map : gmap Z (DeletionVector B)) (rg : RowGroupEntry)
    : M St (gmap Z (DeletionVector B)) :=
  match rg_deletes rg with
  | None => m_ret dv_map
  | Some del_path =>
      let! b := read_present (table +:+ "/" +:+ del_path) in
      match b with
      | None => m_ret dv_map
      | Some b =>
          let! dv := m_lift (match dv_deserialize (B:=B) b with
                             | Err _ => Err (Other "roaring")
                             | r => r
                             end) in
          m_ret (<[rg_fragment_id rg := dv]> dv_map)
      end
  end.
Definition resolve_live_addresses_storage (table : string) (manifest : Manifest)
    (row_ids : list u64) : M St (list (u64 * u32)) :=
  match mf_rowindex_generation manifest with
  | None => m_ret []
  | Some gen =>
      let! address_map := AddressMap_open table gen in
      let! dv_map := m_fold (load_dv table) ∅ (mf_row_groups manifest) in
      m_ret (resolve_live_addresses row_ids address_map take_dv dv_map)
  end.
End resolve.

(** ** Round trips *)

Lemma definition_distinct d : value_distinct (definition_value d).
Proof. constructor; [by apply (bool_decide_unpack _); vm_compute|repeat constructor]. Qed.
Lemma definition_canonical d : definition_of_value (canonicalize (definition_value d)) = Some d.
Proof. destruct d. reflexivity. Qed.

Definition index_ok (index : BTreeIndex) : Prop :=
  in_u64 (bt_snapshot_sequence index) ∧ btree_wf (bt_entries index).
Section exact.
Context `{!SerdeJson}.
Lemma index_exact index : value_exact (index_value index).
Proof.
  pose proof (definition_exact (bt_definition index)).
  assert (value_exact (btree_value (bt_entries index))) by apply btree_exact.
  unfold index_value. solve_exact.
Qed.
Lemma i64_exact n : value_exact (i64_value n).
Proof. unfold i64_value. constructor. intros b. by destruct (n <? 0). Qed.
Lemma learned_exact f : value_exact (learned_value f).
Proof.
  pose proof (definition_exact (lf_definition f)).
  assert (value_exact (model_value (lf_model f))).
  { unfold model_value. constructor. repeat (apply Forall_cons_2; [try apply i64_exact; by constructor|]). done. }
  unfold learned_value. solve_exact.
Qed.
#[export] Instance SerdeExact_add : SerdeExact (string * u64).
Proof. intros [k r]. by repeat constructor. Qed.
Lemma delta_exact d : value_exact (delta_value d).
Proof. unfold delta_value. solve_exact. Qed.
End exact.
Lemma index_distinct index : index_ok index → value_distinct (index_value index).
Proof.
  intros [Hq He]. constructor; [by apply (bool_decide_unpack _); vm_compute|].
  apply Forall_cons_2; [apply definition_distinct|]. apply Forall_cons_2; [by constructor|].
  apply Forall_cons_2; [|done]. by apply value_wf_distinct, btree_value_wf.
Qed.
Lemma index_canonical index : index_ok index → index_of_value (canonicalize (index_value index)) = Some index.
Proof.
  intros [Hq He]. unfold index_value. set (dv := definition_value _). set (ev := btree_value _).
  change (canonicalize _) with (VObject [("definition", canonicalize dv);
    ("entries", canonicalize ev); ("snapshot_sequence", to_value (bt_snapshot_sequence index))]).
  unfold index_of_value. cbn [as_object mbind option_bind].
  change (field "definition" _) with (Some (canonicalize dv)). cbn [mbind option_bind].
  unfold dv. rewrite definition_canonical. cbn [mbind option_bind].
  change (field "snapshot_sequence" _) with (Some (bt_snapshot_sequence index)).
  cbn [mbind option_bind].
  change (field "entries" _) with (Some (canonicalize ev)). cbn [mbind option_bind].
  unfold ev. rewrite canonicalize_wf by by apply btree_value_wf.
  rewrite btree_round_trip by done. by destruct index.
Qed.

Lemma i64_round_trip n : in_i64 n → value_wf (i64_value n) ∧ i64_of_value (i64_value n) = Some n.
Proof.
  unfold in_i64, i64_value. intros ?. destruct (Z.ltb_spec n 0).
  - split; [constructor; unfold number_wf; lia|done].
  - split; [constructor; unfold number_wf, in_u64; lia|]. apply checked_Some. unfold in_i64. lia.
Qed.
Definition model_ok (m : LearnedKeyModel) : Prop :=
  in_i64 (lm_key_base m) ∧ in_i64 (lm_key_stride m) ∧ in_u64 (lm_rid_base m)
  ∧ in_i64 (lm_rid_stride m) ∧ in_u64 (lm_count m).
Lemma learned_distinct f : model_ok (lf_model f) → value_distinct (learned_value f).
Proof.
  intros (?&?&?&?&?). constructor; [by apply (bool_decide_unpack _); vm_compute|].
  apply Forall_cons_2; [apply definition_distinct|]. apply Forall_cons_2; [|done].
  constructor; [by apply (bool_decide_unpack _); vm_compute|].
  repeat (apply Forall_cons_2; [|]); try done; apply value_wf_distinct;
    first [by apply i64_round_trip | by constructor].
Qed.
Lemma learned_canonical f :
  model_ok (lf_model f) → learned_of_value (canonicalize (learned_value f)) = Some f.
Proof.
  destruct f as [d [kb ks rb rs c]]. intros (Hkb&Hks&?&Hrs&?). unfold learned_value.
  cbn [lf_definition lf_model lm_key_base lm_key_stride lm_rid_base lm_rid_stride lm_count] in *.
  set (dv := definition_value d).
  change (canonicalize _) with (VObject [("definition", canonicalize dv);
    ("model", VObject [("count", to_value c); ("key_base", i64_value kb);
       ("key_stride", i64_value ks); ("rid_base", to_value rb); ("rid_stride", i64_value rs)])]).
  unfold learned_of_value. cbn [as_object mbind option_bind].
  change (field "definition" _) with (Some (canonicalize dv)). cbn [mbind option_bind].
  unfold dv. rewrite definition_canonical. cbn [mbind option_bind].
  change (field "model" _) with (Some (VObject [("count", to_value c); ("key_base", i64_value kb);
       ("key_stride", i64_value ks); ("rid_base", to_value rb); ("rid_stride", i64_value rs)])).
  cbn [mbind option_bind]. unfold model_of_value. cbn [as_object mbind option_bind].
  change (field "key_base" _) with (Some (i64_value kb)). cbn [mbind option_bind].
  rewrite (proj2 (i64_round_trip kb Hkb)). cbn [mbind option_bind].
  change (field "key_stride" _) with (Some (i64_value ks)). cbn [mbind option_bind].
  rewrite (proj2 (i64_round_trip ks Hks)). cbn [mbind option_bind].
  change (field "rid_base" _) with (Some rb). cbn [mbind option_bind].
  change (field "rid_stride" _) with (Some (i64_value rs)). cbn [mbind option_bind].
  rewrite (proj2 (i64_round_trip rs Hrs)). cbn [mbind option_bind].
  change (field "count" _) with (Some c). done.
Qed.

#[export, refine] Instance SerdeLaws_add : SerdeLaws (string * u64) := { serde_wf a := in_u64 a.2 }.
Proof.
  - intros [k r] Hr. cbn [to_value Serde_add]. apply wf_arr.
    apply Forall_cons_2; [constructor|]. by apply Forall_cons_2; [constructor|].
  - by intros [k r] _.
  - intros v [k r] Hv E. destruct v as [| | | |[|[] [|[| |[]| | |] []]]|]; simplify_eq/=.
    inversion Hv as [| | | |? Hl|]; subst. apply Forall_cons in Hl as [_ Hl%Forall_cons].
    destruct Hl as [Hn _]. by inversion Hn.
Defined.
Definition delta_ok (d : TombstoneDelta) : Prop :=
  Forall in_u64 (td_tombstoned_row_ids d) ∧ Forall (λ a, in_u64 a.2) (td_adds d).
Lemma delta_distinct d : delta_ok d → value_distinct (delta_value d).
Proof.
  intros [Ht Ha]. constructor.
  - destruct (is_empty (td_adds d)); by apply (bool_decide_unpack _); vm_compute.
  - apply Forall_cons_2; [by apply value_wf_distinct, (to_value_wf (A:=list u64))|].
    destruct (is_empty (td_adds d)); [done|]. apply Forall_cons_2; [|done].
    by apply value_wf_distinct, (to_value_wf (A:=list (string * u64))).
Qed.
Lemma delta_canonical d : delta_ok d → delta_of_value (canonicalize (delta_value d)) = Some d.
Proof.
  intros [Ht Ha].
  assert (of_value (to_value (td_tombstoned_row_ids d)) = Some (td_tombstoned_row_ids d)) as Et
    by by apply of_to_value.
  assert (of_value (to_value (td_adds d)) = Some (td_adds d)) as Ea by by apply of_to_value.
  assert (canonicalize (to_value (td_tombstoned_row_ids d)) = to_value (td_tombstoned_row_ids d))
    as Ct by by apply canonicalize_wf, (to_value_wf (A:=list u64)).
  assert (canonicalize (to_value (td_adds d)) = to_value (td_adds d))
    as Ca by by apply canonicalize_wf, (to_value_wf (A:=list (string * u64))).
  unfold delta_value. destruct (is_empty (td_adds d)) eqn:E; cbn [negb stream_if];
    unfold delta_of_value.
  - change (canonicalize _)
      with (VObject [("tombstoned_row_ids", canonicalize (to_value (td_tombstoned_row_ids d)))]).
    rewrite Ct. cbn [as_object mbind option_bind].
    change (field "tombstoned_row_ids" _)
      with (of_value (A:=list u64) (to_value (td_tombstoned_row_ids d))).
    rewrite Et. cbn [mbind option_bind]. change (field_default _ _ _) with (Some ([] : list (string * u64))).
    destruct d as [t []]; done.
  - change (canonicalize _)
      with (VObject [("adds", canonicalize (to_value (td_adds d)));
                     ("tombstoned_row_ids", canonicalize (to_value (td_tombstoned_row_ids d)))]).
    rewrite Ct, Ca. cbn [as_object mbind option_bind].
    change (field "tombstoned_row_ids" _)
      with (of_value (A:=list u64) (to_value (td_tombstoned_row_ids d))).
    rewrite Et. cbn [mbind option_bind].
    change (field_default [] "adds" _) with (of_value (A:=list (string * u64)) (to_value (td_adds d))).
    rewrite Ea. by destruct d.
Qed.

(** A fitted model has fields in range. *)
Lemma fit_ok index m :
  Forall (λ e, Forall in_u64 e.2) (bt_entries index) → in_u64 (len (bt_entries index)) →
  fit index = Some m → model_ok m.
Proof.
  intros Hi Hl. unfold fit. intros (pairs&Hp&E)%bind_Some.
  assert (Forall (λ p : i64 * u64, in_i64 p.1 ∧ in_u64 p.2) pairs) as Hps.
  { clear E. apply mapM_Some in Hp. induction Hp as [|[k ids] p es ps Hkv _ IH]; constructor.
    - inversion Hi as [|?? Hx]; subst. unfold model_pair in Hkv. simpl in Hkv, Hx.
      destruct ids as [|r [|]]; try done. apply bind_Some in Hkv as (key&Hk&[= <-]). simpl.
      split; [|by inversion Hx]. by eapply parse_i64_range.
    - inversion Hi; subst. apply IH; [done|]. unfold in_u64, len in *. simpl in Hl. lia. }
  apply mapM_Some, Forall2_length in Hp. destruct (_ <? 2)%nat; [done|].
  pose proof (proj2 (Forall_sort_by_key fst _ pairs) Hps) as Hss. pose proof (length_sort_by_key fst pairs) as Hls.
  destruct (existsb _ _); [done|]. destruct (sort_by_key fst pairs) as [|[k0 r0] [|[k1 r1] ps]]; [done..|].
  apply bind_Some in E as (ks&[Hks ->]%checked_Some&E).
  apply bind_Some in E as (rs&[Hrs ->]%checked_Some&E).
  destruct (k1 - k0 =? 0); [done|]. destruct (forallb _ _); [|done]. injection E as <-.
  inversion Hss as [|?? [? ?]]; subst. unfold model_ok. cbn -[Z.of_nat in_i64 in_u64].
  split_and!; try done. unfold in_u64, len in *. simpl in *. lia.
Qed.

(** ** Paths *)

Definition idx_dir (table name : string) : string :=
  table +:+ "/" +:+ INDEXES_DIR +:+ "/" +:+ name.
Definition base_path (table name : string) (seq : u64) (ext : string) : string :=
  idx_dir table name +:+ "/" +:+ "base__v" +:+ fmt_09 seq +:+ ext.
Definition delta_path (table name : string) (seq : u64) : string :=
  idx_dir table name +:+ "/" +:+ "delta__v" +:+ fmt_09 seq +:+ ".json".

Lemma base_path_eq table name seq ext :
  table +:+ "/" +:+ base_filename name seq ext = base_path table name seq ext.
Proof.
  unfold base_filename, base_path, idx_dir. change "/base__v" with ("/" +:+ "base__v").
  by rewrite !string_app_assoc.
Qed.
Lemma delta_path_eq table name seq :
  table +:+ "/" +:+ TombstoneDelta_versioned_filename name seq = delta_path table name seq.
Proof.
  unfold TombstoneDelta_versioned_filename, delta_path, idx_dir.
  change "/delta__v" with ("/" +:+ "delta__v"). by rewrite !string_app_assoc.
Qed.
Lemma base_path_tmp table name seq ext :
  base_path table name seq ext +:+ ".tmp" = base_path table name seq (ext +:+ ".tmp").
Proof. unfold base_path. by rewrite !string_app_assoc. Qed.
Lemma base_path_inj table name seq ext ext' :
  base_path table name seq ext = base_path table name seq ext' → ext = ext'.
Proof. unfold base_path. by intros H; repeat apply string_app_inj_l in H. Qed.
Lemma seq_piece pre seq ext :
  contains_char "/" pre = false → contains_char "/" ext = false → (2 < String.length pre)%nat →
  file_piece (pre +:+ fmt_09 seq +:+ ext).
Proof.
  intros Hp He Hl. split.
  - destruct pre as [|a [|b [|c pre]]]; simpl in Hl; try lia.
    unfold good_piece, piece_component. by rewrite !decide_False by discriminate.
  - by rewrite !contains_char_app, Hp, He, fmt_09_no_char.
Qed.
Lemma base_path_clean table name seq ext :
  clean (idx_dir table name) → contains_char "/" ext = false → clean (base_path table name seq ext).
Proof. intros. apply clean_join; [done|]. apply file_piece_clean, seq_piece; [done|done|simpl; lia]. Qed.
Lemma delta_path_clean table name seq ext :
  clean (idx_dir table name) → contains_char "/" ext = false →
  clean (idx_dir table name +:+ "/" +:+ "delta__v" +:+ fmt_09 seq +:+ ext).
Proof. intros. apply clean_join; [done|]. apply file_piece_clean, seq_piece; [done|done|simpl; lia]. Qed.

(** ** The file operations *)

Section laws.
Context `{!SerdeJson, !SerdeJsonLaws} {St : Type} `{!Storage St, !StorageLaws St}.
Implicit Types s : St.

Definition renamed (fs : gmap string bytes) (path : string) (b : bytes) : gmap string bytes :=
  <[path := b]> (delete (path +:+ ".tmp") fs).
Lemma tmp_ne (path : string) : path +:+ ".tmp" ≠ path.
Proof. intros E%(f_equal String.length). rewrite string_length_app in E. simpl in E. lia. Qed.
Lemma renamed_ne fs path b p :
  p ≠ path → p ≠ path +:+ ".tmp" → renamed fs path b !! p = fs !! p.
Proof. intros. unfold renamed. by rewrite lookup_insert_ne, lookup_delete_ne by done. Qed.
Lemma renamed_eq fs path b : renamed fs path b !! path = Some b.
Proof. apply lookup_insert_eq. Qed.

Lemma write_renamed_ok path durable b s :
  clean path → clean (path +:+ ".tmp") →
  ∃ s', write_renamed path durable b s = (Ok tt, s') ∧ files s' = renamed (files s) path b.
Proof.
  intros Hp Ht. apply clean_validate in Hp, Ht. unfold write_renamed.
  destruct (st_write_spec _ _ b s Ht) as (s1&E1&F1). rewrite (m_bind_ok _ _ _ _ _ E1).
  assert (∃ s2, (if durable then st_sync_data (path +:+ ".tmp") else m_ret tt) s1 = (Ok tt, s2)
          ∧ files s2 = files s1) as (s2&E2&F2).
  { destruct durable; [apply st_sync_data_spec|by exists s1]. }
  rewrite (m_bind_ok _ _ _ _ _ E2).
  pose proof (st_rename_spec _ _ _ _ s2 Ht Hp) as Hr. rewrite F2, F1, lookup_insert_eq in Hr.
  destruct Hr as (s3&E3&F3). exists s3. split; [done|].
  rewrite F3. unfold renamed. by rewrite delete_insert_eq.
Qed.
Lemma best_effort_ok {A} (m : M St A) s a s' :
  m s = (Ok a, s') → best_effort m s = (Ok tt, s').
Proof. intros E. unfold best_effort. by rewrite (m_try_eq _ _ _ _ _ E). Qed.
Lemma read_present_ok path s : clean path → read_present path s = (Ok (files s !! path), s).
Proof.
  intros Hp. unfold read_present. rewrite (m_try_eq _ _ _ _ _ (st_read_clean _ s Hp)).
  unfold read_result. by destruct (files s !! path).
Qed.
Lemma sync_dir_ok dir s : ∃ s', sync_dir_present (St:=St) dir s = (Ok tt, s') ∧ files s' = files s.
Proof.
  destruct (st_sync_spec dir s) as (s'&E&F). exists s'. split; [|done].
  unfold sync_dir_present. by rewrite (m_try_eq _ _ _ _ _ E).
Qed.

(** Loading only looks at the files it names. *)
Definition same_files (ps : list string) s s' : Prop := Forall (λ p, files s' !! p = files s !! p) ps.

Lemma read_delta_ok table p s :
  clean (table +:+ "/" +:+ p) →
  read_delta table p s
  = (match files s !! (table +:+ "/" +:+ p) with
     | None => Ok None
     | Some b => let? d := of_option (Serialization "TombstoneDelta")
                             (json_parse b ≫= delta_of_value) in Ok (Some d)
     end, s).
Proof.
  intros Hp. unfold read_delta. rewrite (m_bind_ok _ _ _ _ _ (read_present_ok _ s Hp)).
  destruct (files s !! _); [|done]. unfold m_bind, m_lift.
  by destruct (of_option _ _).
Qed.

(** *** A saved base *)

Lemma base_stem name seq :
  strip_suffix ".json" (base_filename name seq ".json") = Some (base_filename name seq "").
Proof.
  replace (base_filename name seq ".json") with (base_filename name seq "" +:+ ".json").
  { apply strip_suffix_app. }
  unfold base_filename. by rewrite !string_app_assoc, string_app_nil_r.
Qed.
Lemma sibling_base table name seq ext :
  table +:+ "/" +:+ base_filename name seq "" +:+ ext = base_path table name seq ext.
Proof.
  rewrite <-base_path_eq. unfold base_filename. by rewrite !string_app_assoc, string_app_nil_r.
Qed.

Section saved.
Context (local : bool) (index : BTreeIndex).
Let table := id_table (bt_definition index).
Let name := id_name (bt_definition index).
Let seq := bt_snapshot_sequence index.
Let path ext := base_path table name seq ext.
Context (Hdir : clean (idx_dir table name)).

Lemma path_clean ext : contains_char "/" ext = false → clean (path ext).
Proof. by apply base_path_clean. Qed.
Lemma path_tmp ext : path ext +:+ ".tmp" = path (ext +:+ ".tmp").
Proof. apply base_path_tmp. Qed.
Lemma renamed_path fs ext ext' b :
  ext' ≠ ext → ext' ≠ ext +:+ ".tmp" → renamed fs (path ext) b !! path ext' = fs !! path ext'.
Proof.
  intros. apply renamed_ne; rewrite ?path_tmp; intros E%base_path_inj; congruence.
Qed.
Lemma write_path_ok ext b s :
  contains_char "/" ext = false →
  ∃ s', write_renamed (path ext) true b s = (Ok tt, s') ∧ files s' = renamed (files s) (path ext) b.
Proof.
  intros He. apply write_renamed_ok; [by apply path_clean|]. rewrite path_tmp.
  apply path_clean. by rewrite contains_char_app, He.
Qed.

(** What the three writes leave in the store. *)
Definition saved_json (fs : gmap string bytes) : gmap string bytes :=
  renamed fs (path ".json") (json_to_vec_pretty (index_value index)).
Definition saved_binary (fs : gmap string bytes) : gmap string bytes :=
  if local then renamed fs (path ".idx") (file_layout index) else fs.
Definition saved_model (fs : gmap string bytes) : gmap string bytes :=
  match fit index with
  | Some m => renamed fs (path ".model")
                (json_to_vec (learned_value (mkLearnedFile (bt_definition index) m)))
  | None => fs
  end.

Lemma save_versioned_ok s :
  (local = true → file_fits index) →
  ∃ s', save_versioned local index s = (Ok (BTreeIndex_versioned_filename name seq), s')
    ∧ files s' = saved_model (saved_binary (saved_json (files s))).
Proof.
  intros Hfit. unfold save_versioned, save_base. fold name seq table.
  unfold BTreeIndex_versioned_filename. rewrite base_path_eq. fold (path ".json").
  destruct (write_path_ok ".json" (json_to_vec_pretty (index_value index)) s eq_refl)
    as (s1&E1&F1).
  assert (∃ s2, (if local then best_effort (save_binary_sibling index (base_filename name seq ".json"))
                 else m_ret tt) s1 = (Ok tt, s2) ∧ files s2 = saved_binary (files s1)) as (s2&E2&F2).
  { unfold saved_binary. destruct local; [|by exists s1].
    destruct (write_path_ok ".idx" (file_layout index) s1 eq_refl) as (s2&E2&F2).
    exists s2. split; [|done]. eapply best_effort_ok. unfold save_binary_sibling.
    rewrite base_stem. unfold sibling_path. rewrite sibling_base.
    rewrite (m_bind_ok _ _ s1 (file_layout index) s1); [exact E2|].
    unfold m_lift. by rewrite serialize_layout by auto. }
  assert (∃ s3, best_effort (save_model_sibling index (base_filename name seq ".json")) s2
                = (Ok tt, s3) ∧ files s3 = saved_model (files s2)) as (s3&E3&F3).
  { unfold saved_model, save_model_sibling. destruct (fit index) as [m|]; [|by exists s2].
    rewrite base_stem. unfold sibling_path. rewrite sibling_base.
    destruct (write_path_ok ".model" (json_to_vec (learned_value (mkLearnedFile (bt_definition index) m)))
                s2 eq_refl) as (s3&E3&F3).
    exists s3. split; [|done]. eapply best_effort_ok. exact E3. }
  destruct (st_sync_spec (table +:+ "/" +:+ INDEXES_DIR +:+ "/" +:+ name) s3) as (s4&E4&F4).
  exists s4. split; [|by rewrite F4, F3, F2, F1].
  erewrite m_bind_ok; [by rewrite (m_bind_ok _ _ _ _ _ E4)|].
  rewrite (m_bind_ok _ _ _ _ _ E1), (m_bind_ok _ _ _ _ _ E2). exact E3.
Qed.

Lemma saved_json_get fs :
  saved_model (saved_binary (saved_json fs)) !! path ".json"
  = Some (json_to_vec_pretty (index_value index)).
Proof.
  unfold saved_model, saved_binary.
  destruct (fit index), local; rewrite ?renamed_path by done; apply renamed_eq.
Qed.
Lemma saved_binary_get fs :
  local = true →
  saved_model (saved_binary (saved_json fs)) !! path ".idx" = Some (file_layout index).
Proof.
  intros Hl. unfold saved_model, saved_binary. rewrite Hl.
  destruct (fit index); rewrite ?renamed_path by done; apply renamed_eq.
Qed.
Lemma saved_model_get fs :
  fs !! path ".model" = None →
  saved_model (saved_binary (saved_json fs)) !! path ".model"
  = (λ m, json_to_vec (learned_value (mkLearnedFile (bt_definition index) m))) <$> fit index.
Proof.
  intros Hn. unfold saved_model, saved_binary, saved_json. destruct (fit index) as [m|].
  - apply renamed_eq.
  - by destruct local; rewrite ?renamed_path.
Qed.
Lemma saved_other fs p :
  (∀ ext, p ≠ path ext) → saved_model (saved_binary (saved_json fs)) !! p = fs !! p.
Proof.
  intros Hp. unfold saved_model, saved_binary, saved_json.
  destruct (fit index), local; rewrite ?renamed_ne; try done; rewrite path_tmp; done.
Qed.
End saved.

(** *** Loading *)

Lemma load_base table name p i b s :
  clean (table +:+ "/" +:+ p) → files s !! (table +:+ "/" +:+ p) = Some b →
  json_parse b ≫= index_of_value = Some i →
  load_index_by_ref table name (mkIndexRef (Some p) []) s = (Ok (Some i), s).
Proof.
  intros Hp Hb Hi. unfold load_index_by_ref. cbn [ir_base ir_deltas is_empty].
  rewrite (m_bind_ok _ _ s (Some i) s).
  { by rewrite (m_bind_ok _ _ s (Some i) s). }
  rewrite (m_bind_ok _ _ _ _ _ (read_present_ok _ s Hp)), Hb.
  unfold m_bind, m_lift. by rewrite Hi.
Qed.
Lemma load_model table name seq s :
  clean (base_path table name seq ".model") →
  load_learned_model table (base_filename name seq ".json") s
  = (Ok (b ← files s !! base_path table name seq ".model"; v ← json_parse b; learned_of_value v), s).
Proof.
  intros Hp. unfold load_learned_model. rewrite base_stem, sibling_base.
  by rewrite (m_bind_ok _ _ _ _ _ (read_present_ok _ s Hp)).
Qed.
Lemma json_index_round_trip index :
  index_ok index → json_parse (json_to_vec_pretty (index_value index)) ≫= index_of_value = Some index.
Proof.
  intros Hok. rewrite json_parse_stream_pretty by (apply index_exact || by apply index_distinct).
  by apply index_canonical.
Qed.
Lemma json_learned_round_trip f :
  model_ok (lf_model f) → json_parse (json_to_vec (learned_value f)) ≫= learned_of_value = Some f.
Proof.
  intros Hok. rewrite json_parse_stream by (apply learned_exact || by apply learned_distinct). by apply learned_canonical.
Qed.
End laws.


(** ** Deltas on storage *)

Lemma index_of_value_sorted v i :
  value_wf v → index_of_value v = Some i → bm_sorted (bt_entries i).
Proof.
  intros Hv E. unfold index_of_value in E. apply bind_Some in E as (m&Hm&E).
  apply bind_Some in E as (d&_&E). apply bind_Some in E as (q&_&E).
  apply bind_Some in E as (es&(ev&Hf&Hes)%bind_Some&E). injection E as <-. cbn [bt_entries].
  unfold as_object in Hm. destruct v; simplify_eq/=. unfold field in Hf.
  apply bind_Some in Hf as (x&Hx%bm_get_Some_elem&[= ->]).
  inversion Hv as [| | | | |? _ Hvs]; subst. rewrite Forall_forall in Hvs.
  by apply (btree_of_value_wf ev es (Hvs _ Hx)).
Qed.

Section deltas.
Context `{!SerdeJson, !SerdeJsonLaws} {St : Type} `{!Storage St, !StorageLaws St}.
Implicit Types s : St.

(** What loading reads, as functions of the files. *)
Definition delta_at (fs : gmap string bytes) (table p : string) : res (option TombstoneDelta) :=
  match fs !! (table +:+ "/" +:+ p) with
  | None => Ok None
  | Some b => let? d := of_option (Serialization "TombstoneDelta")
                          (json_parse b ≫= delta_of_value) in Ok (Some d)
  end.
Fixpoint deltas_at (fs : gmap string bytes) (table : string) (ps : list string)
    : res (list TombstoneDelta) :=
  match ps with
  | [] => Ok []
  | p :: ps =>
      let? d := delta_at fs table p in
      let? ds := deltas_at fs table ps in
      Ok (match d with Some d => d :: ds | None => ds end)
  end.
Definition legacy_path (table name : string) : string :=
  table +:+ "/" +:+ INDEXES_DIR +:+ "/" +:+ (if ends_with ".json" name then name else name +:+ ".json").
Definition index_at (fs : gmap string bytes) (p : string) : option (option BTreeIndex) :=
  b ← fs !! p; Some (json_parse b ≫= index_of_value).
Definition base_at (fs : gmap string bytes) (table name : string) (base : option string)
    : res (option BTreeIndex) :=
  match base ≫= λ p, index_at fs (table +:+ "/" +:+ p) with
  | Some o => let? i := of_option (Serialization "BTreeIndex") o in Ok (Some i)
  | None =>
      match index_at fs (legacy_path table name) with
      | Some (Some i) => Ok (Some i)
      | Some None =>
          if is_legacy_string_index (default [] (fs !! legacy_path table name))
          then Err (LegacyIndex table (if ends_with ".json" name then name else name +:+ ".json"))
          else Err (Serialization "BTreeIndex")
      | None => Ok None
      end
  end.

(** The paths a reference names, and the legacy path it falls back to. *)
Definition ref_paths (table name : string) (r : IndexRef) : list string :=
  legacy_path table name :: ((λ p, table +:+ "/" +:+ p) <$> option_list (ir_base r) ++ ir_deltas r).

Lemma fold_deltas_ok {A} (f : A → TombstoneDelta → A) table acc ps s :
  Forall (λ p, clean (table +:+ "/" +:+ p)) ps →
  fold_deltas f table acc ps s
  = ((let? ds := deltas_at (files s) table ps in Ok (foldl f acc ds)), s).
Proof.
  unfold fold_deltas. intros Hc. revert acc.
  induction Hc as [|p ps Hp Hc IH]; intros acc; [done|]. cbn [m_fold deltas_at].
  unfold m_bind at 1 2. rewrite read_delta_ok by done. unfold delta_at.
  destruct (files s !! _) as [b|]; cbn [res_bind].
  - destruct (json_parse b ≫= delta_of_value) as [d|]; cbn [res_bind of_option]; [|done].
    cbn [m_ret]. rewrite IH. by destruct (deltas_at _ _ _).
  - cbn [m_ret]. rewrite IH. by destruct (deltas_at _ _ _).
Qed.

Lemma load_index_ok table name s :
  clean (legacy_path table name) →
  load_index table name s = (base_at (files s) table name None, s).
Proof.
  intros Hc. unfold load_index, base_at, index_at. cbn [mbind option_bind].
  unfold legacy_path in *. cbv zeta. rewrite (m_bind_ok _ _ _ _ _ (read_present_ok _ s Hc)).
  destruct (files s !! _) as [b|]; cbn [mbind option_bind default]; [|done].
  destruct (json_parse b ≫= index_of_value); [done|]. unfold id. by destruct (is_legacy_string_index b).
Qed.
Lemma load_index_by_ref_ok table name r s :
  Forall clean (ref_paths table name r) →
  load_index_by_ref table name r s
  = ((let? b := base_at (files s) table name (ir_base r) in
      match b with
      | None => Ok None
      | Some i => let? ds := deltas_at (files s) table (ir_deltas r) in
                  Ok (Some (foldl apply_delta i ds))
      end), s).
Proof.
  unfold ref_paths. intros [Hleg Hps]%Forall_cons. rewrite fmap_app, Forall_app in Hps.
  destruct Hps as [Hb Hd]. rewrite Forall_fmap in Hd.
  assert (∀ i, (if is_empty (ir_deltas r) then m_ret (Some i)
                else let! i' := apply_deltas table r i in m_ret (Some i')) s
               = ((let? ds := deltas_at (files s) table (ir_deltas r) in
                   Ok (Some (foldl apply_delta i ds))), s)) as Hdeltas.
  { intros i. destruct (is_empty _) eqn:E; [by destruct (ir_deltas r)|].
    unfold m_bind, apply_deltas. rewrite fold_deltas_ok by exact Hd. by destruct (deltas_at _ _ _). }
  assert (∀ o, (if is_empty (ir_deltas r) then m_ret o
                else match o with
                     | Some i => let! i' := apply_deltas table r i in m_ret (Some i')
                     | None => m_ret None
                     end) s
               = (match o with
                  | None => Ok None
                  | Some i => let? ds := deltas_at (files s) table (ir_deltas r) in
                              Ok (Some (foldl apply_delta i ds))
                  end, s)) as Htail.
  { intros [i|]; [exact (Hdeltas i)|by case_match]. }
  unfold load_index_by_ref, base_at. destruct (ir_base r) as [p|]; cbn [mbind option_bind].
  - cbn [option_list fmap list_fmap] in Hb. apply Forall_cons in Hb as [Hp _].
    unfold index_at at 1. unfold m_bind at 1 2. rewrite read_present_ok by done. cbn beta iota.
    destruct (files s !! (table +:+ "/" +:+ p)) as [b|]; cbn [mbind option_bind].
    + unfold m_bind at 1, m_lift. destruct (json_parse b ≫= index_of_value) as [i|]; [|done].
      cbn [of_option res_bind m_ret]. unfold m_bind at 1. cbn [m_ret]. apply Htail.
    + cbn [m_ret]. unfold m_bind at 1. rewrite load_index_ok by done. unfold base_at. cbn [mbind option_bind].
      destruct (index_at _ _) as [[i|]|]; cbn [res_bind]; [apply Htail| |apply Htail]. by destruct (is_legacy_string_index _).
  - cbn [m_ret]. unfold m_bind at 1. cbn [m_ret]. unfold m_bind at 1. rewrite load_index_ok by done. unfold base_at. cbn [mbind option_bind].
    destruct (index_at _ _) as [[i|]|]; cbn [res_bind]; [apply Htail| |apply Htail]. by destruct (is_legacy_string_index _).
Qed.

Lemma base_at_sorted fs table name base i :
  base_at fs table name base = Ok (Some i) → bm_sorted (bt_entries i).
Proof.
  assert (∀ p i, index_at fs p = Some (Some i) → bm_sorted (bt_entries i)) as Hix.
  { clear i. intros p i. unfold index_at. intros (b&_&[= E])%bind_Some.
    apply bind_Some in E as (v&Hv%json_parse_wf&Hi). by eapply index_of_value_sorted. }
  unfold base_at. intros E.
  assert (∀ o, match o with
               | Some (Some i) => Ok (Some i)
               | Some None =>
                   if is_legacy_string_index (default [] (fs !! legacy_path table name))
                   then Err (LegacyIndex table (if ends_with ".json" name then name else name +:+ ".json"))
                   else Err (Serialization "BTreeIndex")
               | None => Ok None end = Ok (Some i) → o = Some (Some i)) as Ho.
  { intros [[?|]|] Hx; [by simplify_eq|by destruct (is_legacy_string_index _)|done]. }
  destruct base as [p|]; cbn [mbind option_bind] in E; [|by eapply Hix, Ho].
  destruct (index_at fs (table +:+ "/" +:+ p)) as [o|] eqn:Ep; [|by eapply Hix, Ho].
  destruct o as [i'|]; [|done]. cbn in E. simplify_eq. by eapply Hix.
Qed.

(** Files a load does not name do not matter to it. *)
Lemma deltas_at_frame fs fs' table ps :
  Forall (λ p, fs' !! (table +:+ "/" +:+ p) = fs !! (table +:+ "/" +:+ p)) ps →
  deltas_at fs' table ps = deltas_at fs table ps.
Proof.
  induction 1 as [|p ps Hp _ IH]; [done|]. simpl. unfold delta_at. by rewrite Hp, IH.
Qed.
Lemma ref_frame fs fs' table name r :
  Forall (λ p, fs' !! p = fs !! p) (ref_paths table name r) →
  base_at fs' table name (ir_base r) = base_at fs table name (ir_base r)
  ∧ deltas_at fs' table (ir_deltas r) = deltas_at fs table (ir_deltas r).
Proof.
  unfold ref_paths. intros [Hleg Hps]%Forall_cons. rewrite fmap_app, Forall_app in Hps.
  destruct Hps as [Hb Hd]. rewrite Forall_fmap in Hd. split; [|by apply deltas_at_frame].
  unfold base_at, index_at. rewrite Hleg. destruct (ir_base r) as [p|]; [|done].
  apply Forall_cons in Hb as [Hp _]. cbn [mbind option_bind]. by rewrite Hp.
Qed.
Lemma deltas_at_no_panic fs table ps : deltas_at fs table ps ≠ Panic.
Proof.
  induction ps as [|p ps IH]; [done|]. simpl. unfold delta_at.
  destruct (fs !! _) as [b|]; cbn [res_bind]; [destruct (_ ≫= _); cbn [of_option res_bind]|];
    by destruct (deltas_at fs table ps).
Qed.
Lemma deltas_at_snoc fs table ps p d :
  delta_at fs table p = Ok (Some d) →
  deltas_at fs table (ps ++ [p]) = (let? ds := deltas_at fs table ps in Ok (ds ++ [d])).
Proof.
  intros Hp. induction ps as [|q ps IH]; simpl; [by rewrite Hp|].
  rewrite IH. destruct (delta_at fs table q) as [[]| |]; [..|done|done]; cbn;
    by destruct (deltas_at fs table ps).
Qed.

Lemma write_delta_ok table name seq durable d s :
  clean (idx_dir table name) →
  ∃ s', write_delta table name (TombstoneDelta_versioned_filename name seq) durable d s = (Ok tt, s')
    ∧ files s' = renamed (files s) (delta_path table name seq) (json_to_vec_pretty (delta_value d)).
Proof.
  intros Hd. unfold write_delta. rewrite delta_path_eq.
  destruct (sync_dir_ok (table +:+ "/" +:+ INDEXES_DIR +:+ "/" +:+ name) s) as (s1&E1&F1).
  rewrite (m_bind_ok _ _ _ _ _ E1).
  destruct (write_renamed_ok (delta_path table name seq) durable (json_to_vec_pretty (delta_value d)) s1)
    as (s2&E2&F2).
  - by apply delta_path_clean.
  - unfold delta_path. rewrite <-!string_app_assoc. by apply delta_path_clean.
  - rewrite (m_bind_ok _ _ _ _ _ E2). rewrite F1 in F2. destruct durable; [|by exists s2].
    destruct (st_sync_spec (table +:+ "/" +:+ INDEXES_DIR +:+ "/" +:+ name) s2) as (s3&E3&F3).
    exists s3. by rewrite E3, F3.
Qed.
End deltas.

(** Appending a delta extends what the reference loads to by exactly that delta, in the
    full index and in the overlay, and a reader of the old reference sees no change. *)
Theorem append_delta_loads `{!SerdeJson, !SerdeJsonLaws} {St} `{!Storage St, !StorageLaws St}
    table name r row_ids adds seq i o (s : St) :
  let path := delta_path table name seq in
  let delta := mkTombstone row_ids adds in
  clean (idx_dir table name) → delta_ok delta → Forall clean (ref_paths table name r) →
  path ∉ ref_paths table name r → path +:+ ".tmp" ∉ ref_paths table name r →
  load_index_by_ref table name r s = (Ok (Some i), s) →
  load_index_overlay table r s = (Ok o, s) →
  ∃ r' rel s', append_index_delta table name row_ids adds seq r s = (Ok (r', rel), s')
    ∧ load_index_by_ref table name r' s' = (Ok (Some (apply_delta i delta)), s')
    ∧ load_index_overlay table r' s' = (Ok (overlay_delta o delta), s')
    ∧ load_index_by_ref table name r s' = (Ok (Some i), s').
Proof.
  intros path delta Hdir Hok Hc Hp Ht Hl Ho.
  destruct (write_delta_ok table name seq true delta s Hdir) as (s'&E&F).
  set (rel := TombstoneDelta_versioned_filename name seq) in *.
  exists (push_delta r rel), rel, s'. split.
  { unfold append_index_delta. by rewrite (m_bind_ok _ _ _ _ _ E). }
  assert (Forall (λ p, files s' !! p = files s !! p) (ref_paths table name r)) as Hsame.
  { apply Forall_forall. intros p Hin. rewrite F. apply renamed_ne; intros ->; [exact (Hp Hin)|exact (Ht Hin)]. }
  destruct (ref_frame _ _ _ _ _ Hsame) as [Hb Hd].
  assert (delta_at (files s') table rel = Ok (Some delta)) as Hat.
  { unfold delta_at. unfold rel. rewrite delta_path_eq. fold path. rewrite F, renamed_eq.
    rewrite json_parse_stream_pretty by (apply delta_exact || by apply delta_distinct).
    cbn [mbind option_bind]. by rewrite delta_canonical. }
  assert (Forall clean (ref_paths table name (push_delta r rel))) as Hc'.
  { unfold ref_paths, push_delta in *. cbn [ir_base ir_deltas]. rewrite app_assoc, fmap_app, app_comm_cons.
    apply Forall_app. split; [done|]. apply Forall_singleton. unfold rel. rewrite delta_path_eq.
    by apply delta_path_clean. }
  assert (Forall (λ p, clean (table +:+ "/" +:+ p)) (ir_deltas (push_delta r rel))) as Hcd'.
  { unfold ref_paths in Hc'. apply Forall_cons in Hc' as [_ Hx]. rewrite fmap_app, Forall_app in Hx.
    destruct Hx as [_ Hx]. by rewrite Forall_fmap in Hx. }
  assert (Forall (λ p, clean (table +:+ "/" +:+ p)) (ir_deltas r)) as Hcd.
  { unfold push_delta in Hcd'. cbn [ir_deltas] in Hcd'. by apply Forall_app in Hcd' as [? _]. }
  rewrite (load_index_by_ref_ok _ _ _ _ Hc) in Hl.
  rewrite (load_index_by_ref_ok _ _ _ _ Hc), (load_index_by_ref_ok _ _ _ _ Hc').
  unfold load_index_overlay in *. rewrite fold_deltas_ok in Ho by done. rewrite fold_deltas_ok by done.
  cbn [push_delta ir_base ir_deltas]. rewrite (deltas_at_snoc _ _ _ _ _ Hat), Hb, Hd.
  destruct (base_at _ _ _ _) as [[b|]| |]; cbn [res_bind] in *; try done.
  destruct (deltas_at _ _ _) as [ds| |]; cbn [res_bind] in *; [|done..].
  injection Hl as <-. injection Ho as <-. by rewrite !foldl_snoc.
Qed.

(** C21: Merging the overlay of a reference's deltas into the base postings gives the
    postings of the fully loaded index, and the overlay fails to load exactly when the index
    does, with the same error. *)
Theorem load_overlay_refines `{!SerdeJson, !SerdeJsonLaws} {St} `{!Storage St, !StorageLaws St}
    table name r base (s : St) :
  Forall clean (ref_paths table name r) →
  load_index_by_ref table name (mkIndexRef (ir_base r) []) s = (Ok (Some base), s) →
  match load_index_overlay table r s with
  | (Ok o, s') => s' = s ∧ ∃ i, load_index_by_ref table name r s = (Ok (Some i), s)
                  ∧ ∀ v, overlay_merge o v (BTreeIndex_lookup base v) = BTreeIndex_lookup i v
  | (Err e, s') => s' = s ∧ load_index_by_ref table name r s = (Err e, s)
  | (Panic, _) => False
  end.
Proof.
  intros Hc. rewrite (load_index_by_ref_ok _ _ _ _ Hc).
  pose proof Hc as [Hleg Hx]%Forall_cons. rewrite fmap_app, Forall_app in Hx.
  destruct Hx as [Hb Hx]. rewrite Forall_fmap in Hx.
  rewrite load_index_by_ref_ok.
  2: { unfold ref_paths. cbn [ir_base ir_deltas]. rewrite app_nil_r. by constructor. }
  cbn [ir_base ir_deltas deltas_at].
  destruct (base_at _ _ _ _) as [[b|]| |] eqn:Eb; cbn [res_bind foldl]; try done.
  intros [= ->]. apply base_at_sorted in Eb. unfold load_index_overlay.
  rewrite fold_deltas_ok by exact Hx. pose proof (deltas_at_no_panic (files s) table (ir_deltas r)) as Hn.
  destruct (deltas_at _ _ _) as [ds|e|]; cbn [res_bind]; [|done|done].
  split; [done|]. eexists. split; [done|]. intros v. by apply overlay_refines_replay.
Qed.

(** ** Resolving row ids *)

Section resolving.
Context {B : Type} `{!RoaringBitmap B}.

(** The address of a row, if it has one and is not deleted there. *)
Definition live_address (am : AddressMap) (dvs : u64 → option (DeletionVector B)) (row_id : u64)
    : option (u64 * u32) :=
  a ← AddressMap_lookup am row_id; if deleted (dvs a.1) a.2 then None else Some a.

(** The closure consumes the vectors it hands out; the cache makes that invisible. *)
Lemma resolve_take row_ids am dv_map :
  resolve_live_addresses (B:=B) row_ids am take_dv dv_map
  = omap (live_address am (λ f, dv_map !! f)) row_ids.
Proof.
  unfold resolve_live_addresses.
  assert (∀ result (cache : gmap Z (option (DeletionVector B))) st,
    (∀ f, match cache !! f with Some dv => dv = dv_map !! f | None => st !! f = dv_map !! f end) →
    (foldl (resolve_step am take_dv) (result, cache, st) row_ids).1.1
    = result ++ omap (live_address am (λ f, dv_map !! f)) row_ids) as H.
  { induction row_ids as [|id ids IH]; intros result cache st Hc; cbn [foldl].
    { by rewrite app_nil_r. }
    change (omap ?g (id :: ids)) with (match g id with Some y => y :: omap g ids | None => omap g ids end).
    unfold live_address at 1, resolve_step at 2.
    destruct (AddressMap_lookup am id) as [[f o]|]; cbn [mbind option_bind fst snd]; [|by apply IH].
    unfold take_dv at 2. destruct (cache !! f) as [dv|] eqn:E.
    - pose proof (Hc f) as Hf. rewrite E in Hf. subst dv. fold (deleted (dv_map !! f) o).
      destruct (deleted _ _); rewrite IH by done; [done|]. by rewrite <-app_assoc.
    - pose proof (Hc f) as Hf. rewrite E in Hf. rewrite Hf.
      assert (∀ f', match <[f:=dv_map !! f]> cache !! f' with
                    | Some dv => dv = dv_map !! f'
                    | None => delete f st !! f' = dv_map !! f' end) as Hc'.
      { intros f'. destruct (decide (f = f')) as [<-|]; [by rewrite lookup_insert_eq|].
        rewrite lookup_insert_ne, lookup_delete_ne by done. apply Hc. }
      fold (deleted (dv_map !! f) o).
      destruct (deleted _ _); rewrite IH by done; [done|]. by rewrite <-app_assoc. }
  by apply (H []).
Qed.

Context `{!SerdeJson} {St : Type} `{!Storage St, !StorageLaws St}.
Implicit Types s : St.

(** The vectors of a table, by fragment. *)
Definition put_dv (m : gmap Z (DeletionVector B))
    (em : RowGroupEntry * (RowGroupMeta * option (DeletionVector B))) : gmap Z (DeletionVector B) :=
  match em.2.2 with Some dv => <[rg_fragment_id em.1 := dv]> m | None => m end.
Definition table_dvs (es : list RowGroupEntry) (mds : list (RowGroupMeta * option (DeletionVector B)))
    : gmap Z (DeletionVector B) :=
  foldl put_dv ∅ (zip es mds).

Lemma load_dvs_ok table es mds acc s :
  Forall (λ e, clean (table +:+ "/" +:+ rg_meta e)
               ∧ ∀ d, rg_deletes e = Some d → clean (table +:+ "/" +:+ d)) es →
  Forall2 (frag_loaded (B:=B) (files s) table) es mds →
  m_fold (load_dv (B:=B) table) acc es s
  = (Ok (foldl put_dv
           acc (zip es mds)), s).
Proof.
  intros Hc Hl. revert acc. induction Hl as [|e md es mds [_ He] Hl IH]; intros acc; [done|].
  inversion Hc as [|?? [_ Hd] Hc']; subst. cbn [m_fold zip zip_with foldl]. unfold put_dv at 2. cbn [fst snd].
  unfold load_dv at 1. destruct (rg_deletes e) as [d|].
  - destruct He as (b&dv&Hb&Hdes&->). erewrite m_bind_ok; [by apply IH|].
    rewrite (m_bind_ok _ _ _ _ _ (read_present_ok _ s (Hd d eq_refl))), Hb.
    unfold m_bind, m_lift. by rewrite Hdes.
  - rewrite He. erewrite m_bind_ok; [by apply IH|done].
Qed.
Lemma table_dvs_lookup es mds i e md :
  NoDup (rg_fragment_id <$> es) → Datatypes.length es = Datatypes.length mds →
  es !! i = Some e → mds !! i = Some md → table_dvs es mds !! rg_fragment_id e = md.2.
Proof.
  intros Hn Hlen He Hm. unfold table_dvs.
  assert (∀ acc : gmap Z (DeletionVector B), (∀ e, e ∈ es → acc !! rg_fragment_id e = None) →
    foldl put_dv acc (zip es mds) !! rg_fragment_id e = md.2) as Hacc; [|by apply Hacc].
  assert (∀ es (mds : list (RowGroupMeta * option (DeletionVector B))) f (acc : gmap Z (DeletionVector B)), f ∉ (rg_fragment_id <$> es) →
    foldl put_dv acc (zip es mds) !! f = acc !! f) as Hother.
  { clear. induction es as [|e es IH]; intros [|md mds] f acc Hf; try done.
    rewrite fmap_cons, not_elem_of_cons in Hf. destruct Hf as [? Hf]. cbn [zip zip_with foldl].
    rewrite IH by done. unfold put_dv. cbn [fst snd]. destruct (md.2); [by rewrite lookup_insert_ne|done]. }
  revert mds i Hlen He Hm. induction es as [|e' es IH]; intros [|md' mds] [|i] Hlen He Hm acc Ha;
    simplify_eq/=.
  - inversion Hn; subst. rewrite Hother by done. unfold put_dv. cbn [fst snd]. destruct (md.2); [by rewrite lookup_insert_eq|].
    apply Ha. set_solver.
  - inversion Hn as [|?? Hnin Hn']; subst. eapply IH; [done..|]. intros x Hx.
    assert (rg_fragment_id x ≠ rg_fragment_id e').
    { intros Heq. apply Hnin. rewrite <-Heq. by apply list_elem_of_fmap_2. }
    unfold put_dv. cbn [fst snd]. destruct (md'.2); [rewrite lookup_insert_ne by congruence|]; apply Ha; set_solver.
Qed.
End resolving.

(** Resolving row ids against a table never returns a deleted offset, and when the row
    index verifies it returns the address of every live row id, in order. *)
Theorem resolve_storage_live {B : Type} `{!RoaringBitmap B, !SerdeJson} {St : Type}
    `{!Storage St, !StorageLaws St} table m gen am mds ids (s : St) :
  paths_clean table m → Forall2 (frag_loaded (B:=B) (files s) table) (mf_row_groups m) mds →
  NoDup (rg_fragment_id <$> mf_row_groups m) →
  rows_fit (mf_row_groups m) mds → NoDup (lr_row <$> table_rows (mf_row_groups m) mds) →
  mf_rowindex_generation m = Some gen → AddressMap_open table gen s = (Ok am, s) →
  ∃ live, resolve_live_addresses_storage (B:=B) table m ids s = (Ok live, s)
    ∧ (∀ i e md o, mf_row_groups m !! i = Some e → mds !! i = Some md →
         (rg_fragment_id e, o) ∈ live → deleted md.2 o = false)
    ∧ (verify (B:=B) table m s = (Ok tt, s) →
       ∀ rows, Forall (λ r, r ∈ table_rows (mf_row_groups m) mds) rows → lr_row <$> rows = ids →
         live = (λ r, (lr_frag r, lr_off r)) <$> rows).
Proof.
  intros Hp Hl Hfrag Hfit Hn Hg Ham.
  exists (omap (live_address am (λ f, table_dvs (mf_row_groups m) mds !! f)) ids).
  pose proof (Forall2_length _ _ _ Hl) as Hlen. split; [|split].
  - unfold resolve_live_addresses_storage. rewrite Hg, (m_bind_ok _ _ _ _ _ Ham).
    rewrite (m_bind_ok _ _ _ _ _ (load_dvs_ok table _ mds ∅ s Hp Hl)).
    unfold m_ret. by rewrite resolve_take.
  - intros i e md o He Hm (id&_&E)%list_elem_of_omap.
    unfold live_address in E. apply bind_Some in E as ([f o']&_&E). cbn [fst snd] in E.
    destruct (deleted _ o') eqn:Hdel; [done|]. injection E as -> ->.
    by rewrite (table_dvs_lookup _ _ _ _ _ Hfrag Hlen He Hm) in Hdel.
  - intros Hv rows Hrows <-. pose proof (verify_ok table m gen am mds s Hp Hl Hfit Hn Hg Ham) as Hiff.
    pose proof (proj1 Hiff Hv) as Hrow. clear Hiff Hv. induction Hrows as [|[[row f] o] rows Hr _ IH]; [done|].
    rewrite !fmap_cons. cbn [omap list_omap]. rewrite IH.
    unfold live_address, lr_row. cbn [fst snd]. rewrite (Hrow _ _ _ Hr). cbn [mbind option_bind fst snd].
    apply elem_of_table_rows in Hr as (i&e&md&He&Hm&->&_&_&Hdel); [|done].
    by rewrite (table_dvs_lookup _ _ _ _ _ Hfrag Hlen He Hm), Hdel.
Qed.
