(* ===== verification/DatabaseCatalog.v ===== *)
(** * The database catalog

    [database_catalog.rs], with [validate_table] of [writer.rs]: the tables and
    the index definitions of a database, kept in one JSON file.  [create_table],
    which also creates the table's files, is not modelled. *)

From S2P Require Import Prelude Bytes Text OrdMap Storage Json Manifest.
From Stdlib Require Import Ascii String.

#[local] Open Scope list_scope.
#[local] Open Scope Z_scope.

Definition CATALOG_PATH : string := "_catalog.json".
Definition CATALOG_LOCK_PATH : string := "_catalog.lock".

Record TableEntry := mkTableEntry { te_created_at : string }.
Record IndexEntry := mkIndexEntry {
  ie_table : string;
  ie_column : string;
  ie_index_type : string;
  ie_unique : bool;
}.
Record DatabaseCatalogData := mkCatalog {
  dc_tables : bmap TableEntry;
  dc_indexes : bmap IndexEntry;
}.
Definition DatabaseCatalogData_default : DatabaseCatalogData := mkCatalog [] [].

#[export] Instance Serde_TableEntry : Serde TableEntry := {
  to_value t := VObject (put "created_at" (te_created_at t) []);
  of_value v :=
    m ← as_object v;
    created_at ← field "created_at" m;
    Some (mkTableEntry created_at);
}.
Definition index_entry_value (e : IndexEntry) : Value := VObject
  (stream "table" (ie_table e) $ stream "column" (ie_column e) $
   stream "index_type" (ie_index_type e) $ stream "unique" (ie_unique e) []).
(** The same entry in key order. *)
#[export] Instance Serde_IndexEntry : Serde IndexEntry := {
  to_value e := canonicalize (index_entry_value e);
  of_value v :=
    m ← as_object v;
    table ← field "table" m;
    column ← field "column" m;
    index_type ← field "index_type" m;
    unique ← field_default false "unique" m;
    Some (mkIndexEntry table column index_type unique);
}.
Definition catalog_value (c : DatabaseCatalogData) : Value := VObject
  (stream "tables" (btree_value (dc_tables c)) $
   stream "indexes" (VObject (prod_map id index_entry_value <$> dc_indexes c)) []).
Definition catalog_of_value (v : Value) : option DatabaseCatalogData :=
  m ← as_object v;
  tables ← field "tables" m ≫= btree_of_value;
  indexes ← field "indexes" m ≫= btree_of_value;
  Some (mkCatalog tables indexes).

(** ** Table names *)

Definition RESERVED_TABLE_NAMES : list string :=
  ["_write"; "_write.lock"; "_manifest"; "_manifest.json"; "_schema"; "_schema.json";
   "_manifests"; "_schemas"; "_staging"; "views"].
Definition validate_table (table : string) : res unit :=
  if bool_decide (table = "") || starts_with "/" table
     || existsb (λ c, bool_decide (c = "..") || bool_decide (c = ".")) (split_on "/" table)
     || existsb (λ c, bool_decide (c = "")) (split_on "/" table)
  then Err (InvalidPath table) else
  if bool_decide (table ∈ RESERVED_TABLE_NAMES) || starts_with "_manifests/" table
     || starts_with "_schemas/" table || starts_with "_staging/" table
  then Err (InvalidPath table) else Ok tt.
Definition validate_table_name (name : string) : res unit :=
  let? _ := validate_table name in
  if starts_with "_" name
  then Err (InvalidPath "table names may not start with '_'") else Ok tt.

(** ** Operations *)

Section catalog.
Context `{!SerdeJson} {St : Type} `{!Storage St}.

Definition load : M St DatabaseCatalogData :=
  match! st_read CATALOG_PATH as r in
  match r with
  | Ok d => m_lift (of_option (Serialization "catalog") (json_parse d ≫= catalog_of_value))
  | Err e => if is_not_found e then m_ret DatabaseCatalogData_default else m_lift (Err e)
  | Panic => m_lift Panic
  end.
Definition lock : M St string := st_lock_exclusive CATALOG_LOCK_PATH.
Definition save (catalog : DatabaseCatalogData) : M St unit :=
  let tmp := CATALOG_PATH +:+ ".tmp" in
  let! _ := st_write tmp (json_to_vec_pretty (catalog_value catalog)) in
  let! _ := st_sync_data tmp in
  let! _ := st_rename tmp CATALOG_PATH in
  let! _ := st_sync_root in
  m_ret tt.

(** [now] is the rendered [Utc::now()]. *)
Definition register_existing_table (now name : string) : M St unit :=
  let! _ := m_lift (validate_table_name name) in
  let! catalog := load in
  if bm_contains name (dc_tables catalog) then m_ret tt else
  save (mkCatalog (bm_insert name (mkTableEntry now) (dc_tables catalog)) (dc_indexes catalog)).
Definition drop_table (name : string) : M St unit :=
  let! _ := m_lift (validate_table_name name) in
  let! catalog := load in
  if negb (bm_contains name (dc_tables catalog)) then m_lift (Err (TableNotFound name)) else
  save (mkCatalog (bm_remove name (dc_tables catalog)) (dc_indexes catalog)).
Definition list_tables : M St (list string) :=
  let! catalog := load in m_ret (fst <$> dc_tables catalog).
Definition table_exists (name : string) : M St bool :=
  let! catalog := load in m_ret (bm_contains name (dc_tables catalog)).

Definition create_index_definition_with_options (name table column index_type : string)
    (unique : bool) : M St unit :=
  let! catalog := load in
  if bm_contains name (dc_indexes catalog) then m_lift (Err (TableAlreadyExists name)) else
  save (mkCatalog (dc_tables catalog)
          (bm_insert name (mkIndexEntry table column index_type unique) (dc_indexes catalog))).
Definition create_index_definition (name table column index_type : string) : M St unit :=
  create_index_definition_with_options name table column index_type false.
Definition drop_index_definition (name : string) : M St unit :=
  let! catalog := load in
  if negb (bm_contains name (dc_indexes catalog)) then m_lift (Err (TableNotFound name)) else
  save (mkCatalog (dc_tables catalog) (bm_remove name (dc_indexes catalog))).
Definition list_index_definitions : M St (list (string * IndexEntry)) :=
  let! catalog := load in m_ret (dc_indexes catalog).
End catalog.

(** ** Valid table names are clean paths *)

Lemma validate_table_clean table : validate_table table = Ok tt → clean table.
Proof.
  unfold validate_table. destruct (_ || _ || _ || _)%bool eqn:E; [done|]. intros _.
  apply orb_false_iff in E as [E Hempty]. apply orb_false_iff in E as [_ Hdots].
  unfold clean. apply Forall_forall. intros p Hp.
  assert (∀ f, existsb f (split_on "/" table) = false → f p = false) as Hex.
  { intros f Hf. destruct (f p) eqn:Efp; [|done]. exfalso.
    apply not_true_iff_false in Hf. apply Hf, existsb_exists. exists p.
    split; [by apply list_elem_of_In|done]. }
  apply Hex in Hempty, Hdots. apply orb_false_iff in Hdots as [??]. zbool.
  unfold good_piece, piece_component. by rewrite !decide_False.
Qed.

(** ** The file holds the catalog *)

#[export, refine] Instance SerdeLaws_TableEntry : SerdeLaws TableEntry := { serde_wf _ := True }.
Proof. - intros t _. by repeat constructor. - by intros []. - done. Defined.
#[export, refine] Instance SerdeLaws_IndexEntry : SerdeLaws IndexEntry := { serde_wf _ := True }.
Proof.
  - intros e _. apply canonicalize_distinct. constructor; [|by repeat constructor].
    by apply (bool_decide_unpack _); vm_compute.
  - intros [] _. reflexivity.
  - done.
Defined.

Definition catalog_wf (c : DatabaseCatalogData) : Prop :=
  bm_sorted (dc_tables c) ∧ bm_sorted (dc_indexes c).
Lemma trivial_btree {A} `{!Serde A, !SerdeLaws A} (m : bmap A) :
  (∀ a, serde_wf a) → bm_sorted m → btree_wf m.
Proof. intros Ha Hm. split; [done|]. by apply Forall_true. Qed.
Lemma canonicalize_indexes (m : bmap IndexEntry) :
  bm_sorted m → canonicalize (VObject (prod_map id index_entry_value <$> m)) = btree_value m.
Proof.
  intros Hm. cbn [canonicalize].
  assert (map (λ kv, (kv.1, canonicalize kv.2)) (prod_map id index_entry_value <$> m)
          = prod_map id to_value <$> m) as ->.
  { clear Hm. induction m as [|[k e] m IH]; [done|]. cbn. f_equal. exact IH. }
  unfold btree_value. f_equal. set (l := prod_map id to_value <$> m).
  assert (bm_sorted l) as Hl by by apply (bm_fmap_sorted to_value).
  rewrite <-(bm_collect_id l Hl) at 2. apply bm_collect_permut; [|apply sort_items_perm].
  rewrite sort_items_perm. by apply bm_sorted_NoDup.
Qed.

Section file.
Context `{!SerdeJson, !SerdeJsonLaws} {St : Type} `{!Storage St, !StorageLaws St}.
Implicit Types s : St.

#[export] Instance SerdeExact_TableEntry : SerdeExact TableEntry.
Proof. intros t. cbn [to_value Serde_TableEntry]. solve_exact. Qed.
Lemma catalog_exact c : value_exact (catalog_value c).
Proof.
  assert (value_exact (btree_value (dc_tables c))) by by apply btree_exact.
  assert (value_exact (VObject (prod_map id index_entry_value <$> dc_indexes c))).
  { constructor. apply Forall_fmap, Forall_true. intros [k e]. cbn. unfold index_entry_value. solve_exact. }
  unfold catalog_value. solve_exact.
Qed.
Lemma catalog_round_trip c :
  catalog_wf c → json_parse (json_to_vec_pretty (catalog_value c)) ≫= catalog_of_value = Some c.
Proof.
  intros [Ht Hi]. rewrite json_parse_stream_pretty; [| |apply catalog_exact].
  2: { constructor; [by apply (bool_decide_unpack _); vm_compute|].
       apply Forall_cons_2.
       { apply value_wf_distinct, btree_value_wf, trivial_btree; done. }
       apply Forall_cons_2; [|done]. constructor.
       - rewrite <-list_fmap_compose. by apply bm_sorted_NoDup.
       - apply Forall_fmap, Forall_true. intros [k e]. cbn.
         constructor; [by apply (bool_decide_unpack _); vm_compute|by repeat constructor]. }
  unfold catalog_value. set (tv := btree_value (dc_tables c)). set (iv := VObject (prod_map id index_entry_value <$> _)).
  cbn [mbind option_bind].
  change (canonicalize _) with (VObject [("indexes", canonicalize iv); ("tables", canonicalize tv)]).
  unfold iv. rewrite canonicalize_indexes by done. unfold tv.
  assert (btree_wf (dc_tables c)) as Hwt by by apply trivial_btree.
  assert (btree_wf (dc_indexes c)) as Hwi by by apply trivial_btree.
  rewrite canonicalize_wf by by apply btree_value_wf.
  unfold catalog_of_value. cbn [as_object mbind option_bind].
  change (field "tables" _) with (Some (btree_value (dc_tables c))). cbn [mbind option_bind].
  rewrite btree_round_trip by done. cbn [mbind option_bind].
  change (field "indexes" _) with (Some (btree_value (dc_indexes c))). cbn [mbind option_bind].
  rewrite btree_round_trip by done. by destruct c.
Qed.

Definition catalog_at (fs : gmap string bytes) : res DatabaseCatalogData :=
  match fs !! CATALOG_PATH with
  | None => Ok DatabaseCatalogData_default
  | Some d => of_option (Serialization "catalog") (json_parse d ≫= catalog_of_value)
  end.
Lemma catalog_path_clean : clean CATALOG_PATH.
Proof. by apply clean_bool. Qed.
Lemma load_ok s : load s = (catalog_at (files s), s).
Proof.
  unfold load, catalog_at. rewrite (m_try_eq _ _ _ _ _ (st_read_clean _ s catalog_path_clean)).
  unfold read_result. by destruct (files s !! CATALOG_PATH).
Qed.
Lemma save_ok c s :
  catalog_wf c →
  ∃ s', save c s = (Ok tt, s') ∧ catalog_at (files s') = Ok c
    ∧ ∀ p, p ≠ CATALOG_PATH → p ≠ "_catalog.json.tmp" → files s' !! p = files s !! p.
Proof.
  intros Hc. unfold save.
  assert (validate_path "_catalog.json.tmp" = Ok "_catalog.json.tmp") as Ht
    by (apply clean_validate; by apply clean_bool).
  pose proof (clean_validate _ catalog_path_clean) as Hp.
  change (CATALOG_PATH +:+ ".tmp") with "_catalog.json.tmp".
  destruct (st_write_spec _ _ (json_to_vec_pretty (catalog_value c)) s Ht) as (s1&E1&F1).
  rewrite (m_bind_ok _ _ _ _ _ E1).
  destruct (st_sync_data_spec "_catalog.json.tmp" s1) as (s2&E2&F2).
  rewrite (m_bind_ok _ _ _ _ _ E2).
  pose proof (st_rename_spec _ _ _ _ s2 Ht Hp) as Hr. rewrite F2, F1, lookup_insert_eq in Hr.
  destruct Hr as (s3&E3&F3). rewrite (m_bind_ok _ _ _ _ _ E3).
  destruct (st_sync_root_spec s3) as (s4&E4&F4). rewrite (m_bind_ok _ _ _ _ _ E4).
  exists s4. split; [done|]. rewrite F4, F3. split.
  - unfold catalog_at. rewrite lookup_insert_eq. by rewrite catalog_round_trip.
  - intros p ??. by rewrite lookup_insert_ne, lookup_delete_ne, lookup_insert_ne by done.
Qed.
Lemma catalog_at_wf fs c : catalog_at fs = Ok c → catalog_wf c.
Proof.
  unfold catalog_at. destruct (fs !! CATALOG_PATH) as [d|].
  2: { intros [= <-]. split; constructor. }
  destruct (json_parse d) as [v|] eqn:Ev; [|done]. apply json_parse_wf in Ev. cbn [mbind option_bind].
  destruct (catalog_of_value v) as [c'|] eqn:E; [|done]. cbn [of_option]. intros [= <-].
  unfold catalog_of_value in E. apply bind_Some in E as (m&Hm&E).
  assert (∀ k x, field (A:=Value) k m = Some x → value_wf x) as Hf.
  { intros k x (y&Hy%bm_get_Some_elem&[= ->])%bind_Some. destruct v; simplify_eq/=.
    inversion Ev as [| | | | |? _ Hvs]; subst. rewrite Forall_forall in Hvs. by apply (Hvs _ Hy). }
  apply bind_Some in E as (ts&(tv&Htv&Hts)%bind_Some&E).
  apply bind_Some in E as (ixs&(iv&Hiv&His)%bind_Some&E). injection E as <-.
  split; cbn [dc_tables dc_indexes].
  - by apply (btree_of_value_wf tv ts (Hf _ _ Htv)).
  - by apply (btree_of_value_wf iv ixs (Hf _ _ Hiv)).
Qed.
End file.

(** ** Specification: two finite maps *)

Record CatalogSpec := mkSpec {
  sp_tables : gmap string TableEntry;
  sp_indexes : gmap string IndexEntry;
}.
Inductive catalog_op :=
  | Register (now name : string)
  | DropTable (name : string)
  | CreateIndex (name : string) (e : IndexEntry)
  | DropIndex (name : string).
Definition spec_step (op : catalog_op) (c : CatalogSpec) : res CatalogSpec :=
  match op with
  | Register now name =>
      let? _ := validate_table_name name in
      Ok (mkSpec (if sp_tables c !! name then sp_tables c
                  else <[name := mkTableEntry now]> (sp_tables c)) (sp_indexes c))
  | DropTable name =>
      let? _ := validate_table_name name in
      match sp_tables c !! name with
      | Some _ => Ok (mkSpec (delete name (sp_tables c)) (sp_indexes c))
      | None => Err (TableNotFound name)
      end
  | CreateIndex name e =>
      match sp_indexes c !! name with
      | Some _ => Err (TableAlreadyExists name)
      | None => Ok (mkSpec (sp_tables c) (<[name := e]> (sp_indexes c)))
      end
  | DropIndex name =>
      match sp_indexes c !! name with
      | Some _ => Ok (mkSpec (sp_tables c) (delete name (sp_indexes c)))
      | None => Err (TableNotFound name)
      end
  end.
Definition catalog_run `{!SerdeJson} {St} `{!Storage St} (op : catalog_op) : M St unit :=
  match op with
  | Register now name => register_existing_table now name
  | DropTable name => drop_table name
  | CreateIndex name e =>
      create_index_definition_with_options name (ie_table e) (ie_column e) (ie_index_type e) (ie_unique e)
  | DropIndex name => drop_index_definition name
  end.

Definition abstract (c : DatabaseCatalogData) : CatalogSpec :=
  mkSpec (list_to_map (dc_tables c)) (list_to_map (dc_indexes c)).

Lemma list_to_map_get {V} (m : bmap V) k : (list_to_map m : gmap string V) !! k = bm_get k m.
Proof.
  induction m as [|[k' v] m IH]; [apply lookup_empty|]. cbn [list_to_map foldr bm_get].
  destruct (decide (k = k')) as [->|]; [by rewrite lookup_insert_eq|].
  by rewrite lookup_insert_ne.
Qed.
Lemma list_to_map_bm_insert {V} (m : bmap V) k v :
  (list_to_map (bm_insert k v m) : gmap string V) = <[k := v]> (list_to_map m).
Proof.
  apply map_eq. intros k'. rewrite list_to_map_get, bm_get_insert.
  destruct (decide (k' = k)) as [->|]; [by rewrite lookup_insert_eq|].
  by rewrite lookup_insert_ne, list_to_map_get.
Qed.
Lemma list_to_map_bm_remove {V} (m : bmap V) k :
  bm_sorted m → (list_to_map (bm_remove k m) : gmap string V) = delete k (list_to_map m).
Proof.
  intros Hm. apply map_eq. intros k'. rewrite list_to_map_get, bm_get_remove by done.
  destruct (decide (k' = k)) as [->|]; [by rewrite lookup_delete_eq|].
  by rewrite lookup_delete_ne, list_to_map_get.
Qed.
Lemma bm_contains_get {V} (m : bmap V) k :
  bm_contains k m = match (list_to_map m : gmap string V) !! k with Some _ => true | None => false end.
Proof.
  unfold bm_contains. rewrite list_to_map_get. by destruct (bm_get k m).
Qed.

Section refinement.
Context `{!SerdeJson, !SerdeJsonLaws} {St : Type} `{!Storage St, !StorageLaws St}.
Implicit Types s : St.

(** The store [s'], reached from [s], holds the catalog [a] and lists its tables. *)
Definition publishes (a : CatalogSpec) s s' : Prop :=
  (∃ c', catalog_at (files s') = Ok c' ∧ abstract c' = a
     ∧ list_tables s' = (Ok (fst <$> dc_tables c'), s')
     ∧ ∀ name, name ∈ fst <$> dc_tables c' ↔ is_Some (sp_tables a !! name))
  ∧ ∀ p, p ≠ CATALOG_PATH → p ≠ "_catalog.json.tmp" → files s' !! p = files s !! p.

Lemma publishes_catalog c s s' :
  catalog_at (files s') = Ok c →
  (∀ p, p ≠ CATALOG_PATH → p ≠ "_catalog.json.tmp" → files s' !! p = files s !! p) →
  publishes (abstract c) s s'.
Proof.
  intros Hc Hf. split; [|done]. exists c. split; [done|]. split; [done|]. split.
  - unfold list_tables. rewrite (m_bind_ok _ _ s' c s'); [done|]. by rewrite load_ok, Hc.
  - intros name. cbn [abstract sp_tables]. rewrite list_to_map_get, list_elem_of_fmap. split.
    + intros ([k v]&->&Hin). exists v. apply bm_elem_get; [|done]. by apply (catalog_at_wf _ _ Hc).
    + intros [v Hv%bm_get_Some_elem]. by exists (name, v).
Qed.
(** An operation that only answers, and one that saves. *)
Lemma publishes_same c s (e : res unit) :
  catalog_at (files s) = Ok c → ∃ s', m_lift e s = (e, s') ∧ publishes (abstract c) s s'.
Proof. intros Hc. exists s. split; [done|]. by apply publishes_catalog. Qed.
Lemma publishes_save c1 a s :
  catalog_wf c1 → abstract c1 = a → ∃ s', save c1 s = (Ok tt, s') ∧ publishes a s s'.
Proof.
  intros Hw <-. destruct (save_ok c1 s Hw) as (s'&E&C&F). exists s'. split; [done|].
  by apply publishes_catalog.
Qed.
End refinement.

(** C25: Catalog operations act on two finite maps, tables and indexes, as specified,
    publish the result in one file, list the tables they hold, and change no other file; a
    refused operation changes nothing. *)
Theorem catalog_refines `{!SerdeJson, !SerdeJsonLaws} {St} `{!Storage St, !StorageLaws St}
    op c (s : St) :
  catalog_at (files s) = Ok c →
  ∃ s', catalog_run op s = ((let? _ := spec_step op (abstract c) in Ok tt), s')
    ∧ publishes (match spec_step op (abstract c) with Ok a => a | _ => abstract c end) s s'.
Proof.
  intros Hc. pose proof (catalog_at_wf _ _ Hc) as [Ht Hi].
  assert (load s = (Ok c, s)) as Hl by by rewrite load_ok, Hc.
  pose proof (λ e, publishes_same c s e Hc) as Hsame.
  destruct op as [now name|name|name e|name]; cbn [catalog_run spec_step].
  - unfold register_existing_table, m_bind at 1, m_lift at 1.
    destruct (validate_table_name name); cbn [res_bind]; [|apply (Hsame (Err _))|apply (Hsame Panic)].
    rewrite (m_bind_ok _ _ _ _ _ Hl), bm_contains_get. cbn [abstract sp_tables sp_indexes].
    destruct (list_to_map (dc_tables c) !! name); [exact (Hsame (Ok tt))|].
    apply publishes_save; [split; [by apply bm_insert_sorted|done]|].
    unfold abstract. cbn [dc_tables dc_indexes]. by rewrite list_to_map_bm_insert.
  - unfold drop_table, m_bind at 1, m_lift at 1.
    destruct (validate_table_name name); cbn [res_bind]; [|apply (Hsame (Err _))|apply (Hsame Panic)].
    rewrite (m_bind_ok _ _ _ _ _ Hl), bm_contains_get. cbn [abstract sp_tables sp_indexes].
    destruct (list_to_map (dc_tables c) !! name); cbn [negb]; [|apply (Hsame (Err _))].
    apply publishes_save; [split; [by apply filter_sorted|done]|].
    unfold abstract. cbn [dc_tables dc_indexes]. by rewrite list_to_map_bm_remove.
  - unfold create_index_definition_with_options.
    rewrite (m_bind_ok _ _ _ _ _ Hl), bm_contains_get. cbn [abstract sp_tables sp_indexes].
    destruct (list_to_map (dc_indexes c) !! name); [apply (Hsame (Err _))|].
    apply publishes_save; [split; [done|by apply bm_insert_sorted]|].
    unfold abstract. cbn [dc_tables dc_indexes]. rewrite list_to_map_bm_insert. by destruct e.
  - unfold drop_index_definition.
    rewrite (m_bind_ok _ _ _ _ _ Hl), bm_contains_get. cbn [abstract sp_tables sp_indexes].
    destruct (list_to_map (dc_indexes c) !! name); cbn [negb]; [|apply (Hsame (Err _))].
    apply publishes_save; [split; [done|by apply filter_sorted]|].
    unfold abstract. cbn [dc_tables dc_indexes]. by rewrite list_to_map_bm_remove.
Qed.
