(* ===== verification/IndexMaintainer.v ===== *)
(** * Maintaining the secondary indexes of a commit

    [index.rs]: [collect_index_adds_for_fragments], [build_btree_index] and
    [IndexMaintainer].  Parquet and Arrow are a parameter: the batches of one
    column of a data file. *)

From S2P Require Import Prelude Bytes StableSort Text OrdMap Storage Json Manifest.
From S2P Require Import RowId RowIndex RowGroupMeta RowIndexStore BTreeIndex BinaryIndex.
From S2P Require Import SecondaryIndex DatabaseCatalog.

#[local] Open Scope list_scope.
#[local] Open Scope Z_scope.

(** A value of an Arrow array; [None] is a null. *)
Inductive Scalar :=
  | SInt64 (n : i64)
  | SUtf8 (s : string)
  | SOther (data_type : string).
(** [ParquetRecordBatchReaderBuilder] projected to one column: its batches, or an
    error if the file does not decode or has no such column. *)
Class Parquet := parquet_column : bytes → string → res (list (list (option Scalar))).

Definition scalar_to_key (v : Scalar) : res string :=
  match v with
  | SInt64 n => Ok (fmt_i64 n)
  | SUtf8 s => Ok s
  | SOther t => Err (TypeNotSupported t)
  end.

Section maintain.
Context `{!Parquet, !SerdeJson} {B : Type} `{!RoaringBitmap B} {St : Type} `{!Storage St}.
Context (local : bool).

(** ** Collecting entries *)

(** One row of a batch; [ids] is [row_id_vec]. *)
Definition cell_add (dv : DeletionVector B) (ids : list u64) (physical_offset : u32)
    (adds : list (string * u64)) (cell : Z * option Scalar) : res (list (string * u64)) :=
  let offset := wrap32 (physical_offset + cell.1) in
  if dv_contains dv offset then Ok adds else
  match cell.2 with
  | None => Ok adds
  | Some v =>
      let? row_id := of_option (Other "physical offset out of range for row_id_vec")
                       (ids !! Z.to_nat offset) in
      let? key := scalar_to_key v in
      Ok (adds ++ [(key, row_id)])
  end.
Definition batch_adds (dv : DeletionVector B) (ids : list u64) (acc : list (string * u64) * u32)
    (batch : list (option Scalar)) : res (list (string * u64) * u32) :=
  let '(adds, physical_offset) := acc in
  let? adds := res_fold (cell_add dv ids physical_offset) adds (indexed batch) in
  Ok (adds, wrap32 (physical_offset + len batch)).

Definition fragment_dv (table : string) (rg : RowGroupEntry) : M St (DeletionVector B) :=
  match rg_deletes rg with
  | Some del_path =>
      let! b := read_present (table +:+ "/" +:+ del_path) in
      match b with
      | Some b => m_lift (match dv_deserialize (B:=B) b with Err _ => Err (Other "roaring") | r => r end)
      | None => m_ret dv_default
      end
  | None => m_ret dv_default
  end.
Definition fragment_adds (definition : IndexDefinition) (adds : list (string * u64))
    (rg : RowGroupEntry) : M St (list (string * u64)) :=
  let! dv := fragment_dv (id_table definition) rg in
  let! meta_bytes := st_read (id_table definition +:+ "/" +:+ rg_meta rg) in
  let! meta := m_lift (of_option (Serialization "RowGroupMeta")
                         (from_slice (A:=RowGroupMeta) meta_bytes)) in
  if is_empty (rm_row_ids meta) then m_ret adds else
  let ids := concat (segment_ids <$> rm_row_ids meta) in
  let! d := st_read (id_table definition +:+ "/" +:+ rg_data rg) in
  m_lift (let? batches := parquet_column d (id_column definition) in
          let? acc := res_fold (batch_adds dv ids) (adds, 0) batches in
          Ok acc.1).
Definition collect_index_adds (definition : IndexDefinition) (fragments : list RowGroupEntry)
    : M St (list (string * u64)) := m_fold (fragment_adds definition) [] fragments.
Definition build_btree_index (definition : IndexDefinition) (manifest : Manifest)
    : M St BTreeIndex :=
  let! adds := collect_index_adds definition (mf_row_groups manifest) in
  m_lift (build_btree_index_from_adds definition (mf_sequence manifest) adds).

(** ** [IndexMaintainer] *)

Definition maintained (table : string) (entry : IndexEntry) : bool :=
  bool_decide (ie_table entry = table) && bool_decide (ie_index_type entry = "btree").
Definition entry_definition (name : string) (entry : IndexEntry) : IndexDefinition :=
  mkIndexDef name (ie_table entry) (ie_column entry) (ie_unique entry).
Definition with_generation (name : string) (r : IndexRef) (m : Manifest) : Manifest :=
  mkManifest (mf_format_version m) (mf_sequence m) (mf_schema_id m) (mf_row_groups m)
    (mf_row_counts m) (mf_partition_values m) (mf_next_row_id m) (mf_next_fragment_id m)
    (mf_rowindex_generation m) (<[name := r]> (mf_index_generations m)) (mf_checkpoint m)
    (mf_parent_hash m) (mf_committed_at m) (mf_checksum m).

(** A full build, written as the new base. *)
Definition rebuild_index (name : string) (entry : IndexEntry) (acc : Manifest * list string)
    : M St (Manifest * list string) :=
  let '(manifest, written_paths) := acc in
  let! index := build_btree_index (entry_definition name entry) manifest in
  let! rel_path := save_versioned local index in
  m_ret (with_generation name (mkIndexRef (Some rel_path) []) manifest, written_paths ++ [rel_path]).
Definition maintain (table : string) (manifest : Manifest) : M St (Manifest * list string) :=
  let! d := DatabaseCatalog.load in
  m_fold (λ acc ne, if maintained table ne.2 then rebuild_index ne.1 ne.2 acc else m_ret acc)
    (manifest, []) (dc_indexes d).

(** The uniqueness check of an incremental change: it fails closed without a base. *)
Definition check_unique_change (table : string) (definition : IndexDefinition) (r : IndexRef)
    (adds : list (string * u64)) (row_ids : list u64) : M St unit :=
  if id_unique definition && negb (is_empty adds) then
    let! existing := load_index_by_ref table (id_name definition) r in
    match existing with
    | Some existing => m_lift (check_unique_adds definition existing adds row_ids)
    | None => m_lift (Err (Other ("unique index '" +:+ id_name definition +:+ "' has no base")))
    end
  else m_ret tt.
Definition extend_index (table : string) (definition : IndexDefinition) (r : IndexRef)
    (row_ids : list u64) (adds : list (string * u64)) (seq : u64) (acc : Manifest * list string)
    : M St (Manifest * list string) :=
  let '(manifest, written_paths) := acc in
  let! _ := check_unique_change table definition r adds row_ids in
  let! new := append_index_delta table (id_name definition) row_ids adds seq r in
  m_ret (with_generation (id_name definition) new.1 manifest, written_paths ++ [new.2]).

(** The new values of an updated column; an array shorter than [row_ids] is a
    panic of Arrow. *)
Fixpoint update_adds (column : list (option Scalar)) (row_ids : list u64)
    : res (list (string * u64)) :=
  match row_ids, column with
  | [], _ => Ok []
  | _ :: _, [] => Panic
  | row_id :: row_ids, c :: column =>
      let? adds := update_adds column row_ids in
      Ok (match c with
          | Some v => match scalar_to_key v with Ok key => (key, row_id) :: adds | _ => adds end
          | None => adds
          end)
  end.
(** [updated_rows] is a record batch: its columns by name. *)
Definition update_step (table : string) (set_columns : list string)
    (updated_rows : list (string * list (option Scalar))) (row_ids : list u64) (seq : u64)
    (acc : Manifest * list string) (ne : string * IndexEntry) : M St (Manifest * list string) :=
  let '(name, entry) := ne in
  if negb (maintained table entry) then m_ret acc else
  if negb (bool_decide (ie_column entry ∈ set_columns)) then m_ret acc else
  match bm_get (ie_column entry) updated_rows with
  | None => m_ret acc
  | Some column =>
      let! adds := m_lift (update_adds column row_ids) in
      let current_ref := default IndexRef_default (mf_index_generations acc.1 !! name) in
      extend_index table (entry_definition name entry) current_ref row_ids adds seq acc
  end.
Definition maintain_on_update (table : string) (manifest : Manifest) (set_columns : list string)
    (updated_rows : list (string * list (option Scalar))) (row_ids : list u64) (seq : u64)
    : M St (Manifest * list string) :=
  if is_empty set_columns then m_ret (manifest, []) else
  let! d := DatabaseCatalog.load in
  m_fold (update_step table set_columns updated_rows row_ids seq) (manifest, []) (dc_indexes d).

(** The generation to extend: the recorded one, or a legacy base on disk. *)
Definition generation_to_extend (table name : string) (current : gmap string IndexRef)
    : M St (option IndexRef) :=
  match current !! name with
  | Some r => m_ret (Some r)
  | None =>
      let legacy_rel := BTreeIndex_legacy_filename name in
      match! st_size (table +:+ "/" +:+ legacy_rel) as r in
      match r with
      | Ok _ => m_ret (Some (mkIndexRef (Some legacy_rel) []))
      | Err _ => m_ret None
      | Panic => m_lift Panic
      end
  end.
Definition insert_step (table : string) (current : gmap string IndexRef)
    (new_fragments : list RowGroupEntry) (seq : u64) (acc : Manifest * list string)
    (ne : string * IndexEntry) : M St (Manifest * list string) :=
  let '(name, entry) := ne in
  if negb (maintained table entry) then m_ret acc else
  let definition := entry_definition name entry in
  let! current_ref := generation_to_extend table name current in
  match current_ref with
  | Some (mkIndexRef (Some _) _ as r) =>
      let! adds := collect_index_adds definition new_fragments in
      extend_index table definition r [] adds seq acc
  | _ => rebuild_index name entry acc
  end.
Definition maintain_on_insert (table : string) (manifest : Manifest)
    (current : gmap string IndexRef) (new_fragments : list RowGroupEntry) (seq : u64)
    : M St (Manifest * list string) :=
  let! d := DatabaseCatalog.load in
  m_fold (insert_step table current new_fragments seq) (manifest, []) (dc_indexes d).
End maintain.

(** ** What is collected *)

Section collect.
Context `{!Parquet, !SerdeJson} {B : Type} `{!RoaringBitmap B}.

Definition indexable (c : option Scalar) : Prop :=
  match c with Some (SOther _) => False | _ => True end.
Definition key_of (v : Scalar) : option string :=
  match scalar_to_key v with Ok k => Some k | _ => None end.
(** The entry of the row at offset [o], if it is live and not null. *)
Definition cell_entry (dv : DeletionVector B) (ids : list u64) (o : Z) (c : option Scalar)
    : option (string * u64) :=
  if dv_contains dv o then None else
  v ← c; row_id ← ids !! Z.to_nat o; key ← key_of v; Some (key, row_id).
Fixpoint live_cells (dv : DeletionVector B) (ids : list u64) (o : Z) (cells : list (option Scalar))
    : list (string * u64) :=
  match cells with
  | [] => []
  | c :: cells => option_list (cell_entry dv ids o c) ++ live_cells dv ids (o + 1) cells
  end.

Lemma live_cells_app dv ids o cs cs' :
  live_cells dv ids o (cs ++ cs') = live_cells dv ids o cs ++ live_cells dv ids (o + len cs) cs'.
Proof.
  revert o. induction cs as [|c cs IH]; intros o; simpl.
  - by rewrite Z.add_0_r.
  - rewrite IH, app_assoc. do 2 f_equal. unfold len. simpl. lia.
Qed.
Lemma elem_of_live_cells dv ids o cells a :
  a ∈ live_cells dv ids o cells ↔
  ∃ i c, cells !! i = Some c ∧ cell_entry dv ids (o + Z.of_nat i) c = Some a.
Proof.
  revert o. induction cells as [|c cells IH]; intros o; cbn [live_cells].
  { split; [by intros ?%elem_of_nil|by intros (i&c&?&_)]. }
  rewrite elem_of_app, IH. split.
  - intros [Ha|(i&c'&Hc&He)].
    + exists 0%nat, c. split; [done|]. rewrite Z.add_0_r.
      destruct (cell_entry dv ids o c); cbn in Ha; [|by apply elem_of_nil in Ha].
      by apply list_elem_of_singleton in Ha as ->.
    + exists (S i), c'. split; [done|]. rewrite <-He. f_equal. lia.
  - intros ([|i]&c'&Hc&He); simplify_eq/=.
    + left. rewrite Z.add_0_r in He. rewrite He. by apply list_elem_of_singleton.
    + right. exists i, c'. split; [done|]. rewrite <-He. f_equal. lia.
Qed.

Lemma cell_add_ok dv ids off i c adds :
  0 <= off → 0 <= i → off + i < len ids → len ids < 2 ^ 32 → indexable c →
  cell_add dv ids off adds (i, c) = Ok (adds ++ option_list (cell_entry dv ids (off + i) c)).
Proof.
  intros ? ? Hl ? Hc. unfold cell_add, cell_entry. cbn [fst snd].
  rewrite wrap32_small by (unfold in_u32; lia).
  destruct (dv_contains dv (off + i)); [by rewrite app_nil_r|].
  destruct c as [v|]; cbn [mbind option_bind]; [|by rewrite app_nil_r].
  destruct (lookup_lt_is_Some_2 ids (Z.to_nat (off + i))) as [row Hrow]; [unfold len in Hl; lia|].
  rewrite Hrow. unfold key_of. by destruct v.
Qed.
Lemma batch_cells_ok dv ids off i cells adds :
  0 <= off → 0 <= i → off + i + len cells <= len ids → len ids < 2 ^ 32 → Forall indexable cells →
  res_fold (cell_add dv ids off) adds (indexed_from i cells)
  = Ok (adds ++ live_cells dv ids (off + i) cells).
Proof.
  intros Ho Hi Hl Hids Hc. revert i Hi Hl adds.
  induction Hc as [|c cells Hc _ IH]; intros i Hi Hl adds; cbn [indexed_from res_fold live_cells].
  { by rewrite app_nil_r. }
  unfold len in *. simpl in Hl. rewrite cell_add_ok by (done || (unfold len; lia)). cbn [res_bind].
  rewrite IH by lia. rewrite <-app_assoc. do 3 f_equal. f_equal. lia.
Qed.
Lemma batches_ok dv ids off batches adds :
  0 <= off → off + len (concat batches) <= len ids → len ids < 2 ^ 32 →
  Forall indexable (concat batches) →
  res_fold (batch_adds dv ids) (adds, off) batches
  = Ok (adds ++ live_cells dv ids off (concat batches), off + len (concat batches)).
Proof.
  intros Ho Hl Hids Hc. revert off Ho Hl adds.
  induction batches as [|b bs IH]; intros off Ho Hl adds; cbn [res_fold concat].
  { rewrite app_nil_r. do 2 f_equal. unfold len. simpl. lia. }
  cbn [concat] in Hl, Hc. rewrite len_app in Hl. apply Forall_app in Hc as [Hb Hbs].
  pose proof (len_nonneg b). pose proof (len_nonneg (concat bs)).
  assert (batch_adds dv ids (adds, off) b
          = Ok (adds ++ live_cells dv ids off b, off + len b)) as ->.
  { unfold batch_adds, indexed. rewrite batch_cells_ok by (done || lia). cbn [res_bind].
    rewrite wrap32_small by (unfold in_u32; lia). by rewrite Z.add_0_r. }
  cbn [res_bind].
  rewrite IH by (done || lia).
  rewrite live_cells_app, len_app, <-app_assoc. do 2 f_equal. lia.
Qed.

(** A fragment with its metadata, deletion vector and column. *)
Definition column_loaded (fs : gmap string bytes) (d : IndexDefinition) (e : RowGroupEntry)
    (md : RowGroupMeta * DeletionVector B * list (option Scalar)) : Prop :=
  fs !! (id_table d +:+ "/" +:+ rg_meta e) ≫= from_slice = Some md.1.1
  ∧ match rg_deletes e ≫= λ p, fs !! (id_table d +:+ "/" +:+ p) with
    | Some b => dv_deserialize b = Ok md.1.2
    | None => md.1.2 = dv_default
    end
  ∧ (if is_empty (rm_row_ids md.1.1) then md.2 = []
     else ∃ b batches, fs !! (id_table d +:+ "/" +:+ rg_data e) = Some b
       ∧ parquet_column b (id_column d) = Ok batches ∧ md.2 = concat batches)
  ∧ len md.2 <= len (frag_ids md.1.1) ∧ len (frag_ids md.1.1) < 2 ^ 32 ∧ Forall indexable md.2.
Definition column_paths (d : IndexDefinition) (e : RowGroupEntry) : list string :=
  (λ p, id_table d +:+ "/" +:+ p) <$> rg_meta e :: rg_data e :: option_list (rg_deletes e).
(** The entries of the live, non-null rows of the fragments. *)
Definition live_entries (mds : list (RowGroupMeta * DeletionVector B * list (option Scalar)))
    : list (string * u64) :=
  concat ((λ md, live_cells md.1.2 (frag_ids md.1.1) 0 md.2) <$> mds).

Context `{!SerdeJsonLaws} {St : Type} `{!Storage St, !StorageLaws St}.
Implicit Types s : St.

Lemma fragment_adds_ok d adds e md s :
  Forall clean (column_paths d e) → column_loaded (files s) d e md →
  fragment_adds (B:=B) d adds e s = (Ok (adds ++ live_cells md.1.2 (frag_ids md.1.1) 0 md.2), s).
Proof.
  intros Hc (Hmeta&Hdv&Hcells&Hl&Hids&Hix). unfold fragment_adds, column_paths in *.
  apply Forall_cons in Hc as [Hcm [Hcd Hcdv]%Forall_cons].
  rewrite (m_bind_ok _ _ s md.1.2 s).
  2: { unfold fragment_dv. destruct (rg_deletes e) as [p|]; cbn [mbind option_bind] in Hdv; [|by rewrite Hdv].
    apply Forall_cons in Hcdv as [Hcp _]. rewrite (m_bind_ok _ _ _ _ _ (read_present_ok _ s Hcp)).
    destruct (files s !! (id_table d +:+ "/" +:+ p)); [unfold m_lift; by rewrite Hdv|by rewrite Hdv]. }
  apply bind_Some in Hmeta as (mb&Hmb&Hmeta).
  rewrite (m_bind_ok _ _ s mb s) by (rewrite st_read_clean by done; unfold read_result; by rewrite Hmb).
  rewrite (m_bind_ok _ _ s md.1.1 s) by (unfold m_lift; by rewrite Hmeta).
  destruct (is_empty (rm_row_ids md.1.1)).
  { rewrite Hcells. by rewrite app_nil_r. }
  destruct Hcells as (b&batches&Hb&Hp&Hcells).
  rewrite (m_bind_ok _ _ s b s) by (rewrite st_read_clean by done; unfold read_result; by rewrite Hb).
  unfold m_lift. rewrite Hp. cbn [res_bind]. fold (frag_ids md.1.1). rewrite Hcells in *.
  by rewrite batches_ok by (done || lia).
Qed.
Lemma collect_adds_ok d es mds s :
  Forall (λ e, Forall clean (column_paths d e)) es → Forall2 (column_loaded (files s) d) es mds →
  collect_index_adds (B:=B) d es s = (Ok (live_entries mds), s).
Proof.
  intros Hc Hl. unfold collect_index_adds, live_entries.
  enough (∀ adds, m_fold (fragment_adds (B:=B) d) adds es s
    = (Ok (adds ++ concat ((λ md, live_cells md.1.2 (frag_ids md.1.1) 0 md.2) <$> mds)), s)) as H'
    by apply (H' []).
  induction Hl as [|e md es mds He Hl IH]; intros adds; cbn [m_fold].
  { by rewrite app_nil_r. }
  inversion Hc as [|?? Hp Hc']; subst.
  rewrite (m_bind_ok _ _ _ _ _ (fragment_adds_ok d adds e md s Hp He)), IH by done.
  rewrite fmap_cons. cbn [concat]. by rewrite app_assoc.
Qed.
Lemma column_loaded_frame fs fs' d es mds :
  Forall (λ e, Forall (λ p, fs' !! p = fs !! p) (column_paths d e)) es →
  Forall2 (column_loaded fs d) es mds → Forall2 (column_loaded fs' d) es mds.
Proof.
  intros Hf Hl. induction Hl as [|e md es mds He Hl IH]; [done|].
  inversion Hf as [|?? [Hm [Hd Hdv]%Forall_cons]%Forall_cons Hf']; subst.
  constructor; [|by apply IH]. unfold column_loaded in *. rewrite Hm, Hd.
  destruct (rg_deletes e) as [p|]; [|exact He]. apply Forall_cons in Hdv as [Hp _].
  cbn [mbind option_bind] in *. by rewrite Hp.
Qed.

Lemma elem_of_live_entries mds k r :
  (k, r) ∈ live_entries mds ↔
  ∃ md i v, md ∈ mds ∧ md.2 !! i = Some (Some v) ∧ scalar_to_key v = Ok k
    ∧ frag_ids md.1.1 !! i = Some r ∧ dv_contains md.1.2 (Z.of_nat i) = false.
Proof.
  unfold live_entries. rewrite list_elem_of_In, in_concat. split.
  - intros (l&(md&<-&Hmd%list_elem_of_In)%in_map_iff&Ha%list_elem_of_In).
    apply elem_of_live_cells in Ha as (i&c&Hc&He). unfold cell_entry in He.
    destruct (dv_contains _ _) eqn:Hd; [done|]. rewrite Z.add_0_l, Nat2Z.id in *.
    apply bind_Some in He as (v&->&He). apply bind_Some in He as (row&Hrow&He).
    apply bind_Some in He as (key&Hkey&[= -> ->]). exists md, i, v. unfold key_of in Hkey.
    repeat split; try done. destruct (scalar_to_key v); by simplify_eq.
  - intros (md&i&v&Hmd&Hc&Hk&Hr&Hd). exists (live_cells md.1.2 (frag_ids md.1.1) 0 md.2).
    split; [apply in_map_iff; exists md; split; [done|by apply list_elem_of_In]|].
    apply list_elem_of_In, elem_of_live_cells. exists i, (Some v). split; [done|].
    unfold cell_entry, key_of. rewrite Z.add_0_l, Nat2Z.id, Hd, Hr. cbn. by rewrite Hk.
Qed.
End collect.

(** The index holds exactly these entries. *)
Definition index_rows (index : BTreeIndex) (rows : list (string * u64)) : Prop :=
  bm_sorted (bt_entries index) ∧ ∀ v r, r ∈ BTreeIndex_lookup index v ↔ (v, r) ∈ rows.

(** A full build holds exactly the live, non-null, row-id keyed entries of the table's
    fragments; a unique build fails exactly when a key has two rows. *)
Theorem build_btree_index_correct `{!Parquet, !SerdeJson} {B : Type} `{!RoaringBitmap B}
    {St : Type} `{!Storage St, !StorageLaws St} d m mds (s : St) :
  Forall (λ e, Forall clean (column_paths d e)) (mf_row_groups m) →
  Forall2 (column_loaded (B:=B) (files s) d) (mf_row_groups m) mds →
  let rows := live_entries mds in
  let one_row_per_key := ∀ v r r', (v, r) ∈ rows → (v, r') ∈ rows → r = r' in
  ((id_unique d = true → one_row_per_key) →
   ∃ i, build_btree_index (B:=B) d m s = (Ok i, s) ∧ bt_definition i = d
     ∧ bt_snapshot_sequence i = mf_sequence m ∧ index_rows i rows)
  ∧ (id_unique d = true → ¬ one_row_per_key →
     ∃ k, build_btree_index (B:=B) d m s = (Err (unique_violation d k), s)).
Proof.
  intros Hc Hl rows one.
  destruct (build_from_adds_spec d (mf_sequence m) rows) as [Hok Hiff].
  assert (build_btree_index (B:=B) d m s
    = (build_btree_index_from_adds d (mf_sequence m) rows, s)) as ->.
  { unfold build_btree_index. by rewrite (m_bind_ok _ _ _ _ _ (collect_adds_ok d _ mds s Hc Hl)). }
  split.
  - intros Hu. apply Hiff in Hu as [i Hi]. exists i. rewrite Hi.
    destruct (Hok i Hi) as (?&?&?&_&?). done.
  - intros Hu Hn. destruct (build_btree_index_from_adds _ _ _) as [i|e|] eqn:E.
    + destruct Hn. exact (proj1 Hiff (ex_intro _ i eq_refl) Hu).
    + unfold build_btree_index_from_adds in E. case_match; [|done]. simplify_eq. eauto.
    + unfold build_btree_index_from_adds in E. by case_match.
Qed.

(** What a delta does to the rows. *)
Lemma index_rows_delta index rows ids adds :
  index_rows index rows →
  index_rows (apply_delta index (mkTombstone ids adds)) (filter (λ a, a.2 ∉ ids) rows ++ adds).
Proof.
  intros [Hs Hr]. split; [by apply apply_delta_sorted|]. intros v r.
  rewrite lookup_apply_delta by done. cbn [td_tombstoned_row_ids td_adds]. unfold drop_ids.
  rewrite !elem_of_app, !list_elem_of_filter, elem_of_adds_of, Hr. done.
Qed.
Lemma unique_delta d index ids adds :
  bm_sorted (bt_entries index) → id_unique d = true → index_unique index →
  check_unique_adds d index adds ids = Ok tt → index_unique (apply_delta index (mkTombstone ids adds)).
Proof. intros Hs Hd Hu Hc. by apply (check_unique_adds_correct d index adds ids). Qed.

(** ** Incremental maintenance *)

Lemma delta_path_inj table name name' seq :
  delta_path table name seq = delta_path table name' seq → name = name'.
Proof.
  unfold delta_path, idx_dir. rewrite !string_app_assoc. intros E.
  apply (f_equal (strip_suffix ".json")) in E. rewrite !strip_suffix_app in E. injection E as E.
  apply (f_equal (strip_suffix (fmt_09 seq))) in E. rewrite !strip_suffix_app in E. injection E as E.
  apply (f_equal (strip_suffix "delta__v")) in E. rewrite !strip_suffix_app in E. injection E as E.
  apply (f_equal (strip_suffix "/")) in E. rewrite !strip_suffix_app in E. injection E as E.
  by apply string_app_inj_l in E.
Qed.
Lemma delta_path_not_tmp table name name' seq :
  delta_path table name seq ≠ delta_path table name' seq +:+ ".tmp".
Proof.
  intros E. apply (f_equal (strip_suffix ".json")) in E. unfold delta_path in E.
  rewrite !string_app_assoc, strip_suffix_app, <-(string_app_assoc _ ".json" ".tmp") in E.
  change (".json" +:+ ".tmp") with ".json.tmp" in E. by rewrite strip_json_tmp in E.
Qed.

(** The delta files of a sequence end alike, whatever the index. *)
Definition delta_suffix (seq : u64) : string := "/" +:+ "delta__v" +:+ fmt_09 seq +:+ ".json".
Lemma delta_path_suffix table name seq :
  strip_suffix (delta_suffix seq) (delta_path table name seq) = Some (idx_dir table name).
Proof. apply strip_suffix_app. Qed.
Lemma delta_path_tmp_suffix table name seq :
  strip_suffix (delta_suffix seq +:+ ".tmp") (delta_path table name seq +:+ ".tmp")
  = Some (idx_dir table name).
Proof.
  unfold delta_path. fold (delta_suffix seq). rewrite <-string_app_assoc. apply strip_suffix_app.
Qed.

(** What is known of an index before a commit: its generation, the index it
    loads to, and the entries the commit adds to it. *)
Record Plan := mkPlan { pl_ref : IndexRef; pl_index : BTreeIndex; pl_adds : list (string * u64) }.

Section incremental.
Context `{!SerdeJson, !SerdeJsonLaws} {St : Type} `{!Storage St, !StorageLaws St}.
Context (table : string) (seq : u64) (row_ids : list u64) (plan : string → Plan) (s : St).

(** The files a commit of this sequence may write. *)
Definition touched (p : string) : Prop :=
  ∃ name, p = delta_path table name seq ∨ p = delta_path table name seq +:+ ".tmp".
Definition untouched (s' : St) : Prop := ∀ p, ¬ touched p → files s' !! p = files s !! p.

Lemma not_touched p :
  strip_suffix (delta_suffix seq) p = None → strip_suffix (delta_suffix seq +:+ ".tmp") p = None →
  ¬ touched p.
Proof.
  intros H1' H2' (name&[->| ->]); [by rewrite delta_path_suffix in H1'|].
  by rewrite delta_path_tmp_suffix in H2'.
Qed.

Let delta (name : string) : TombstoneDelta := mkTombstone row_ids (pl_adds (plan name)).
Let rel (name : string) : string := TombstoneDelta_versioned_filename name seq.
Definition ready (name : string) : Prop :=
  clean (idx_dir table name) ∧ Forall (λ p, clean p ∧ ¬ touched p) (ref_paths table name (pl_ref (plan name)))
  ∧ delta_ok (delta name)
  ∧ load_index_by_ref table name (pl_ref (plan name)) s = (Ok (Some (pl_index (plan name))), s).

Lemma ready_load name s' :
  ready name → untouched s' →
  load_index_by_ref table name (pl_ref (plan name)) s' = (Ok (Some (pl_index (plan name))), s').
Proof.
  intros (_&Hp&_&Hl) Hu. apply Forall_and in Hp as [Hc Ht].
  rewrite load_index_by_ref_ok in Hl |- * by done.
  assert (Forall (λ p, files s' !! p = files s !! p) (ref_paths table name (pl_ref (plan name)))) as Hf.
  { eapply Forall_impl; [exact Ht|]. exact Hu. }
  destruct (ref_frame _ _ _ _ _ Hf) as [-> ->]. injection Hl as Hl. by rewrite Hl.
Qed.
(** The extended generation, in any store that holds its new delta. *)
Lemma ready_extended name s' :
  ready name → untouched s' →
  files s' !! delta_path table name seq = Some (json_to_vec_pretty (delta_value (delta name))) →
  load_index_by_ref table name (push_delta (pl_ref (plan name)) (rel name)) s'
  = (Ok (Some (apply_delta (pl_index (plan name)) (delta name))), s').
Proof.
  intros Hr Hu Hd. pose proof (ready_load name s' Hr Hu) as Hl. destruct Hr as (Hdir&Hp&Hok&_).
  apply Forall_and in Hp as [Hc _]. rewrite load_index_by_ref_ok in Hl by done.
  rewrite load_index_by_ref_ok.
  2: { unfold ref_paths, push_delta in *. cbn [ir_base ir_deltas]. rewrite app_assoc, fmap_app, app_comm_cons.
    apply Forall_app. split; [done|]. apply Forall_singleton. unfold rel. rewrite delta_path_eq.
    by apply delta_path_clean. }
  cbn [push_delta ir_base ir_deltas]. rewrite (deltas_at_snoc _ _ _ _ (delta name)).
  2: { unfold delta_at, rel. rewrite delta_path_eq, Hd, json_parse_stream_pretty
      by (apply delta_exact || by apply delta_distinct).
    cbn [mbind option_bind]. by rewrite delta_canonical. }
  destruct (base_at _ _ _ _) as [[b|]| |]; cbn [res_bind] in *; try done.
  destruct (deltas_at _ _ _) as [ds| |]; cbn [res_bind] in *; [|done..].
  injection Hl as <-. by rewrite !foldl_snoc.
Qed.

Definition check_plan (name : string) (e : IndexEntry) : res unit :=
  check_unique_adds (entry_definition name e) (pl_index (plan name)) (pl_adds (plan name)) row_ids.
Lemma check_change_ok name e s' :
  ready name → untouched s' →
  check_unique_change table (entry_definition name e) (pl_ref (plan name)) (pl_adds (plan name)) row_ids s'
  = (check_plan name e, s').
Proof.
  intros Hr Hu. unfold check_unique_change, check_plan. cbn [entry_definition id_unique id_name].
  destruct (ie_unique e) eqn:Hun; cbn [andb].
  2: { unfold check_unique_adds. cbn [entry_definition id_unique]. by rewrite Hun. }
  destruct (pl_adds (plan name)) as [|a l] eqn:Ha; cbn [is_empty negb].
  { unfold check_unique_adds. cbn [entry_definition id_unique]. by rewrite Hun. }
  rewrite (m_bind_ok _ _ _ _ _ (ready_load name s' Hr Hu)). done.
Qed.

Definition extended (name : string) (acc : Manifest * list string) : Manifest * list string :=
  (with_generation name (push_delta (pl_ref (plan name)) (rel name)) acc.1, acc.2 ++ [rel name]).
Lemma extend_ok name e acc s1 :
  ready name → untouched s1 →
  match check_plan name e with
  | Ok _ => ∃ s2, extend_index table (entry_definition name e) (pl_ref (plan name)) row_ids
                    (pl_adds (plan name)) seq acc s1 = (Ok (extended name acc), s2)
      ∧ files s2 = renamed (files s1) (delta_path table name seq)
                     (json_to_vec_pretty (delta_value (delta name)))
  | r => extend_index table (entry_definition name e) (pl_ref (plan name)) row_ids
           (pl_adds (plan name)) seq acc s1 = ((let? _ := r in Ok acc), s1)
  end.
Proof.
  intros Hr Hu. destruct acc as [m w]. unfold extend_index.
  pose proof (check_change_ok name e s1 Hr Hu) as Hc.
  destruct (write_delta_ok table name seq true (delta name) s1) as (s2&E&F); [by destruct Hr|].
  destruct (check_plan name e) as [[]| |].
  - exists s2. split; [|done]. rewrite (m_bind_ok _ _ _ _ _ Hc).
    rewrite (m_bind_ok _ _ s1 (push_delta (pl_ref (plan name)) (rel name), rel name) s2); [done|].
    unfold append_index_delta. cbn [entry_definition id_name]. by rewrite (m_bind_ok _ _ _ _ _ E).
  - unfold m_bind. by rewrite Hc.
  - unfold m_bind. by rewrite Hc.
Qed.
Lemma renamed_untouched s1 s2 name b :
  untouched s1 → files s2 = renamed (files s1) (delta_path table name seq) b → untouched s2.
Proof.
  intros Hu F p Hp. rewrite F, renamed_ne; [by apply Hu|..]; intros ->; apply Hp; exists name; auto.
Qed.

(** *** The loop over the catalog *)

Context (step : Manifest * list string → string * IndexEntry → M St (Manifest * list string)).
Context (selected : string → IndexEntry → bool) (gens : gmap string IndexRef).
(** An iteration extends a selected index and skips the others. *)
Definition steps (l : list (string * IndexEntry)) : Prop := ∀ acc s1 ne,
  ne ∈ l → untouched s1 → mf_index_generations acc.1 !! ne.1 = gens !! ne.1 →
  step acc ne s1
  = (if selected ne.1 ne.2
     then extend_index table (entry_definition ne.1 ne.2) (pl_ref (plan ne.1)) row_ids
            (pl_adds (plan ne.1)) seq acc s1
     else (Ok acc, s1)).
Definition next_acc (acc : Manifest * list string) (ne : string * IndexEntry)
    : Manifest * list string := if selected ne.1 ne.2 then extended ne.1 acc else acc.

Lemma next_acc_ne acc ne name :
  name ≠ ne.1 → mf_index_generations (next_acc acc ne).1 !! name = mf_index_generations acc.1 !! name.
Proof.
  intros. unfold next_acc. destruct (selected _ _); [|done]. cbn. by rewrite lookup_insert_ne.
Qed.
Lemma fold_next_ne l acc name :
  name ∉ l.*1 →
  mf_index_generations (foldl next_acc acc l).1 !! name = mf_index_generations acc.1 !! name.
Proof.
  revert acc. induction l as [|ne l IH]; intros acc Hn; [done|]. cbn [foldl].
  rewrite fmap_cons, not_elem_of_cons in Hn. destruct Hn as [Hne Hn].
  rewrite IH by done. by apply next_acc_ne.
Qed.
Lemma fold_next_eq l acc ne :
  NoDup l.*1 → ne ∈ l → selected ne.1 ne.2 = true →
  mf_index_generations (foldl next_acc acc l).1 !! ne.1 = Some (push_delta (pl_ref (plan ne.1)) (rel ne.1)).
Proof.
  intros Hn Hin Hsel. revert acc. induction l as [|x l IH]; intros acc; [by apply elem_of_nil in Hin|].
  rewrite fmap_cons, NoDup_cons in Hn. destruct Hn as [Hx Hn]. cbn [foldl].
  apply elem_of_cons in Hin as [->|Hin]; [|by apply IH].
  rewrite fold_next_ne by done. unfold next_acc. rewrite Hsel. cbn. by rewrite lookup_insert_eq.
Qed.

Lemma fold_next_unselected l acc ne :
  NoDup l.*1 → ne ∈ l → selected ne.1 ne.2 = false →
  mf_index_generations (foldl next_acc acc l).1 !! ne.1 = mf_index_generations acc.1 !! ne.1.
Proof.
  intros Hn Hin Hsel. revert acc. induction l as [|x l IH]; intros acc; [by apply elem_of_nil in Hin|].
  rewrite fmap_cons, NoDup_cons in Hn. destruct Hn as [Hx Hn]. cbn [foldl].
  apply elem_of_cons in Hin as [->|Hin].
  - rewrite fold_next_ne by done. unfold next_acc. by rewrite Hsel.
  - rewrite IH by done. apply next_acc_ne. intros E. apply Hx. rewrite <-E. by apply list_elem_of_fmap_2.
Qed.

Definition checked_entry (ne : string * IndexEntry) : Prop :=
  selected ne.1 ne.2 = true → check_plan ne.1 ne.2 = Ok tt.
Lemma loop_ok l acc s1 :
  NoDup l.*1 → Forall (λ ne, selected ne.1 ne.2 = true → ready ne.1) l → steps l → untouched s1 →
  (∀ name, name ∈ l.*1 → mf_index_generations acc.1 !! name = gens !! name) →
  Forall checked_entry l →
  ∃ s', m_fold step acc l s1 = (Ok (foldl next_acc acc l), s') ∧ untouched s'
    ∧ (∀ ne, ne ∈ l → selected ne.1 ne.2 = true →
         files s' !! delta_path table ne.1 seq = Some (json_to_vec_pretty (delta_value (delta ne.1))))
    ∧ (∀ name, name ∉ l.*1 → files s' !! delta_path table name seq = files s1 !! delta_path table name seq).
Proof.
  intros Hn Hr Hst Hu Hg Hch. revert acc s1 Hu Hg.
  induction l as [|ne l IH]; intros acc s1 Hu Hg; cbn [m_fold foldl].
  { exists s1. split; [done|]. split; [done|]. split; [|done]. by intros ne ?%elem_of_nil. }
  rewrite fmap_cons, NoDup_cons in Hn. destruct Hn as [Hne Hn].
  inversion Hr as [|?? Hrne Hrl]; subst. inversion Hch as [|?? Hc Hcl]; subst.
  assert (steps l) as Hstl by (intros a s2 x Hx; apply Hst; by right).
  pose proof (Hst acc s1 ne ltac:(by left) Hu ltac:(apply Hg; set_solver)) as Hs1.
  assert (∃ s2, step acc ne s1 = (Ok (next_acc acc ne), s2) ∧ untouched s2
    ∧ (selected ne.1 ne.2 = true → files s2 !! delta_path table ne.1 seq
                                   = Some (json_to_vec_pretty (delta_value (delta ne.1))))
    ∧ ∀ name, name ≠ ne.1 → files s2 !! delta_path table name seq = files s1 !! delta_path table name seq)
    as (s2&E2&U2&D2&O2).
  { unfold next_acc. destruct (selected ne.1 ne.2) eqn:Hsel; [|by exists s1].
    pose proof (extend_ok ne.1 ne.2 acc s1 (Hrne eq_refl) Hu) as Hx. rewrite (Hc Hsel) in Hx.
    destruct Hx as (s2&E&F). exists s2. rewrite Hs1. split; [done|].
    split; [by eapply renamed_untouched|]. rewrite F. split; [intros _; apply renamed_eq|].
    intros name Hname. apply renamed_ne; [by intros ->%delta_path_inj|apply delta_path_not_tmp]. }
  destruct (IH Hn Hrl Hstl Hcl (next_acc acc ne) s2 U2) as (s'&E&U&D&O).
  { intros name Hin. rewrite next_acc_ne by (by intros ->). apply Hg. set_solver. }
  exists s'. rewrite (m_bind_ok _ _ _ _ _ E2). split; [done|]. split; [done|]. split.
  - intros x [->|Hx]%elem_of_cons Hsel; [|by apply D]. rewrite O by done. by apply D2.
  - intros name Hname. rewrite fmap_cons, not_elem_of_cons in Hname. destruct Hname as [Hname1 Hname2].
    rewrite O by done. by apply O2.
Qed.

(** The first index whose check fails ends the loop with its error. *)
Lemma loop_err l acc s1 :
  NoDup l.*1 → Forall (λ ne, selected ne.1 ne.2 = true → ready ne.1) l → steps l → untouched s1 →
  (∀ name, name ∈ l.*1 → mf_index_generations acc.1 !! name = gens !! name) →
  ¬ Forall checked_entry l →
  ∃ ne k s', ne ∈ l ∧ selected ne.1 ne.2 = true ∧ untouched s'
    ∧ m_fold step acc l s1 = (Err (unique_violation (entry_definition ne.1 ne.2) k), s').
Proof.
  intros Hn Hr Hst Hu Hg Hch. revert acc s1 Hu Hg.
  induction l as [|ne l IH]; intros acc s1 Hu Hg; cbn [m_fold]; [by destruct Hch|].
  rewrite fmap_cons, NoDup_cons in Hn. destruct Hn as [Hne Hn].
  inversion Hr as [|?? Hrne Hrl]; subst.
  assert (steps l) as Hstl by (intros a s2 x Hx; apply Hst; by right).
  pose proof (Hst acc s1 ne ltac:(by left) Hu ltac:(apply Hg; set_solver)) as Hs1.
  assert (∀ s2, step acc ne s1 = (Ok (next_acc acc ne), s2) → untouched s2 → checked_entry ne →
    ∃ ne' k s', ne' ∈ ne :: l ∧ selected ne'.1 ne'.2 = true ∧ untouched s'
    ∧ (let! acc' := step acc ne in m_fold step acc' l) s1
      = (Err (unique_violation (entry_definition ne'.1 ne'.2) k), s')) as Hgo.
  { intros s2 E2 U2 Hcne. destruct (IH Hn Hrl Hstl) with (acc := next_acc acc ne) (s1 := s2)
      as (ne'&k&s'&Hin&Hsel&Hu'&E); [|done| |].
    - intros Hcl. apply Hch. by constructor.
    - intros name Hin. rewrite next_acc_ne by (by intros ->). apply Hg. set_solver.
    - exists ne', k, s'. split; [by right|]. split; [done|]. split; [done|].
      by rewrite (m_bind_ok _ _ _ _ _ E2). }
  unfold next_acc in Hgo. destruct (selected ne.1 ne.2) eqn:Hsel.
  2: { apply (Hgo s1); [done..|]. unfold checked_entry. congruence. }
  pose proof (extend_ok ne.1 ne.2 acc s1 (Hrne eq_refl) Hu) as Hx. rewrite <-Hs1 in Hx.
  pose proof (check_unique_fails (entry_definition ne.1 ne.2) (pl_index (plan ne.1))
                (pl_adds (plan ne.1)) row_ids) as Hf. fold (check_plan ne.1 ne.2) in Hf.
  destruct (check_plan ne.1 ne.2) as [[]|e|] eqn:Ec; [| |done].
  - destruct Hx as (s2&E&F). apply (Hgo s2); [done|by eapply renamed_untouched|exact (λ _, Ec)].
  - destruct Hf as [k ->]. exists ne, k, s1. split; [by left|]. split; [done|]. split; [done|].
    unfold m_bind. by rewrite Hx.
Qed.
End incremental.

(** What maintaining an index achieves: its new generation loads to the rows it
    had, less the rows named, plus the new entries; a unique index stays unique;
    the old generation still loads to the old index. *)
Definition index_maintained `{!SerdeJson} {St} `{!Storage St} (table : string) (row_ids : list u64)
    (plan : Plan) (name : string) (unique : bool) (m' : Manifest) (s' : St) : Prop :=
  ∃ r' i', mf_index_generations m' !! name = Some r'
    ∧ load_index_by_ref table name r' s' = (Ok (Some i'), s')
    ∧ load_index_by_ref table name (pl_ref plan) s' = (Ok (Some (pl_index plan)), s')
    ∧ (∀ rows, index_rows (pl_index plan) rows →
         index_rows i' (filter (λ a, a.2 ∉ row_ids) rows ++ pl_adds plan))
    ∧ (unique = true → index_unique (pl_index plan) → index_unique i').

Section results.
Context `{!SerdeJson, !SerdeJsonLaws} {St : Type} `{!Storage St, !StorageLaws St}.
Implicit Types s : St.

Lemma load_by_ref_sorted table name r i s s' :
  Forall clean (ref_paths table name r) → load_index_by_ref table name r s = (Ok (Some i), s') →
  bm_sorted (bt_entries i).
Proof.
  intros Hc. rewrite load_index_by_ref_ok by done. destruct (base_at _ _ _ _) as [[b|]| |] eqn:Eb; try done.
  cbn [res_bind]. destruct (deltas_at _ _ _) as [ds| |]; try done. cbn [res_bind]. intros [= <- <-].
  apply base_at_sorted in Eb. revert b Eb. induction ds as [|d ds IH]; intros b Hb; [done|].
  by apply IH, apply_delta_sorted.
Qed.
Lemma check_plan_ok table seq row_ids plan s name e :
  ready table seq row_ids plan s name →
  check_plan row_ids plan name e = Ok tt ↔
  (ie_unique e = true → adds_ok (pl_index (plan name)) (list_to_set row_ids) (pl_adds (plan name))).
Proof.
  intros (_&[Hc _]%Forall_and&_&Hl). apply load_by_ref_sorted in Hl; [|done]. unfold check_plan.
  destruct (ie_unique e) eqn:Hu.
  - destruct (check_unique_adds_correct (entry_definition name e) (pl_index (plan name))
                (pl_adds (plan name)) row_ids) as [-> _]; [done..|]. naive_solver.
  - unfold check_unique_adds. cbn [entry_definition id_unique]. rewrite Hu. naive_solver.
Qed.
Lemma maintained_result table seq row_ids plan s name e m' s' :
  ready table seq row_ids plan s name → check_plan row_ids plan name e = Ok tt →
  mf_index_generations m' !! name
  = Some (push_delta (pl_ref (plan name)) (TombstoneDelta_versioned_filename name seq)) →
  untouched table seq s s' →
  files s' !! delta_path table name seq
  = Some (json_to_vec_pretty (delta_value (mkTombstone row_ids (pl_adds (plan name))))) →
  index_maintained table row_ids (plan name) name (ie_unique e) m' s'.
Proof.
  intros Hr Hch Hg Hu Hd. do 2 eexists. split; [exact Hg|].
  split; [by eapply ready_extended|]. split; [by eapply ready_load|].
  assert (bm_sorted (bt_entries (pl_index (plan name)))) as Hs.
  { destruct Hr as (_&[Hc _]%Forall_and&_&Hl). by eapply load_by_ref_sorted. }
  split; [intros rows; apply index_rows_delta|].
  intros Hun Hiu. by apply (unique_delta (entry_definition name e)).
Qed.
End results.

(** C18: After an insert every maintained index of the table loads, through its new
    generation, to the rows it had plus exactly the live non-null entries of the new
    fragments; unique indexes stay unique, old generations still load to the old index, and
    the insert is refused with a uniqueness violation exactly when a unique index would get
    two rows for a key. *)
Theorem maintain_on_insert_correct `{!Parquet, !SerdeJson, !SerdeJsonLaws} {B : Type}
    `{!RoaringBitmap B} {St : Type} `{!Storage St, !StorageLaws St} (local : bool)
    table m current fragments seq c plan (s : St) :
  catalog_at (files s) = Ok c →
  (∀ name e, (name, e) ∈ dc_indexes c → maintained table e = true →
     ready table seq [] plan s name ∧ current !! name = Some (pl_ref (plan name))
     ∧ ir_base (pl_ref (plan name)) ≠ None
     ∧ Forall (λ f, Forall (λ p, clean p ∧ ¬ touched table seq p)
                      (column_paths (entry_definition name e) f)) fragments
     ∧ ∃ mds, Forall2 (column_loaded (B:=B) (files s) (entry_definition name e)) fragments mds
              ∧ pl_adds (plan name) = live_entries mds) →
  let checked name e := ie_unique e = true →
    adds_ok (pl_index (plan name)) (list_to_set []) (pl_adds (plan name)) in
  ((∀ name e, (name, e) ∈ dc_indexes c → maintained table e = true → checked name e) →
   ∃ m' written s', maintain_on_insert (B:=B) local table m current fragments seq s = (Ok (m', written), s')
     ∧ ∀ name e, (name, e) ∈ dc_indexes c → maintained table e = true →
         index_maintained table [] (plan name) name (ie_unique e) m' s')
  ∧ ((∃ name e, (name, e) ∈ dc_indexes c ∧ maintained table e = true ∧ ¬ checked name e) →
     ∃ name e k s', (name, e) ∈ dc_indexes c
       ∧ maintain_on_insert (B:=B) local table m current fragments seq s
         = (Err (unique_violation (entry_definition name e) k), s')).
Proof.
  intros Hc Hplan checked. pose proof (catalog_at_wf _ _ Hc) as [_ Hs].
  unfold maintain_on_insert. rewrite (m_bind_ok _ _ s c s) by by rewrite load_ok, Hc.
  set (selected := λ (_ : string) e, maintained table e).
  assert (Forall (λ ne : string * IndexEntry, selected ne.1 ne.2 = true → ready table seq [] plan s ne.1)
            (dc_indexes c)) as Hr.
  { apply Forall_forall. intros [name e] Hin Hsel. by destruct (Hplan name e Hin Hsel). }
  assert (steps table seq [] plan s (insert_step (B:=B) local table current fragments seq) selected
            (mf_index_generations m) (dc_indexes c)) as Hst.
  { intros acc s1 [name e] Hin Hu _. unfold insert_step, selected. cbn [fst snd].
    destruct (maintained table e) eqn:Hsel; [|done]. cbn [negb].
    destruct (Hplan name e Hin Hsel) as (_&Hcur&Hb&Hf&mds&Hl&Ha).
    unfold generation_to_extend. rewrite Hcur.
    destruct (plan name) as [[[base|] ds] i adds] eqn:Ep; [|done].
    cbn [pl_ref pl_adds pl_index] in *. unfold m_bind at 1. cbn [m_ret].
    rewrite (m_bind_ok _ _ s1 adds s1); [done|]. rewrite Ha. apply collect_adds_ok.
    - eapply Forall_impl; [exact Hf|]. intros f Hfp. eapply Forall_impl; [exact Hfp|]. by intros p [].
    - eapply column_loaded_frame; [|exact Hl]. eapply Forall_impl; [exact Hf|]. intros f Hfp.
      eapply Forall_impl; [exact Hfp|]. intros p [_ Hp]. by apply Hu. }
  assert (NoDup (dc_indexes c).*1) as Hn by by apply bm_sorted_NoDup.
  split.
  - intros Hch. destruct (loop_ok table seq [] plan s _ _ _ (dc_indexes c) (m, []) s Hn Hr Hst)
      as (s'&E&U&D&_); [done|done| |].
    { apply Forall_forall. intros [name e] Hin Hsel.
      refine (proj2 (check_plan_ok table seq _ plan s name e _) (Hch name e Hin Hsel)).
        by apply (Hplan name e). }
    destruct (foldl _ _ _) as [m' written] eqn:Em. exists m', written, s'. split; [done|].
    intros name e Hin Hsel. apply (maintained_result _ seq _ _ s); [by apply (Hplan name e)| | |done|].
      { refine (proj2 (check_plan_ok table seq _ plan s name e _) (Hch name e Hin Hsel)).
        by apply (Hplan name e). }
    + change m' with ((m', written).1). rewrite <-Em. by apply (fold_next_eq _ _ _ _ _ (name, e)).
    + by apply (D (name, e)).
  - intros (name&e&Hin&Hsel&Hbad).
    destruct (loop_err table seq [] plan s _ _ _ (dc_indexes c) (m, []) s Hn Hr Hst)
      as ([name' e']&k&s'&Hin'&_&_&E); [done|done| |by exists name', e', k, s'].
    rewrite Forall_forall. intros Hall. apply Hbad.
    refine (proj1 (check_plan_ok table seq _ plan s name e _) (Hall (name, e) Hin Hsel)).
    by apply (Hplan name e).
Qed.

(** The indexes an update reaches: on a column it sets, present in the new rows. *)
Definition updated_index (table : string) (set_columns : list string)
    (updated_rows : list (string * list (option Scalar))) (e : IndexEntry) : bool :=
  maintained table e && bool_decide (ie_column e ∈ set_columns)
  && bool_decide (is_Some (bm_get (ie_column e) updated_rows)).

