(* ===== verification/Commit.v ===== *)
(** * The commit protocol of the table writer

    [writer.rs]: the recovery of staging leftovers, the writer's view of the
    current snapshot, the publication of a manifest with its checkpoint, and
    [commit_deletes].  Random transaction ids, the clock and the process-wide
    cache of sidecars are arguments. *)

From S2P Require Import Prelude Bytes StableSort Text OrdMap RowId Storage Json Arrow Schema Manifest.
From S2P Require Import RowGroupMeta CommitDelta MutationWal Gc BTreeIndex SecondaryIndex DatabaseCatalog.
From Stdlib Require Import Ascii String.

#[local] Open Scope list_scope.
#[local] Open Scope Z_scope.

(** ** Text *)

(** [s.rsplit(pat).next()]: what follows the last occurrence of [pat], all of [s]
    if there is none. *)
Fixpoint after_last (pat s : string) : option string :=
  match s with
  | EmptyString => strip_prefix pat s
  | String _ s' =>
      match after_last pat s' with
      | Some r => Some r
      | None => strip_prefix pat s
      end
  end.
Definition rsplit_next (pat s : string) : string := default s (after_last pat s).

Definition hex_char (d : Z) : ascii :=
  ascii_of_N (Z.to_N (if d <? 10 then 48 + d else 87 + d)).
(** [format!("{:016x}", n)]: the 16 hexadecimal digits of a [u64]. *)
Fixpoint fmt_hex (digits : nat) (n : Z) (acc : string) : string :=
  match digits with
  | O => acc
  | S digits => fmt_hex digits (n / 16) (String (hex_char (n mod 16)) acc)
  end.
Definition fmt_016x (n : u64) : string := fmt_hex 16 n "".

(** [hex::encode]. *)
Class HexEncode := hex_encode : bytes → string.
Class HexLaws `{!Hex, !HexEncode} := hex_decode_encode b : hex_decode (hex_encode b) = Some b.

(** ** The writer *)

(** [Writer]; the storage is the state of the monad, the lock's timeout is the
    storage's. *)
Record Writer := mkWriter {
  w_table : string;
  w_schema : Schema;
  w_wal_mode : bool;
  w_wal_checkpoint_threshold : usize;
}.
(** What a commit draws from the outside: the random part of its transaction id
    and the clock each time it is read. *)
Record CommitEnv := mkEnv {
  ce_uuid : string;
  ce_started_at : string;
  ce_checkpoint_at : string;
  ce_committed_at : string;
}.

(** [serde_json::json!({"txn_id", "started_at", "schema_id", "files"})]. *)
Definition intent_value (txn_id started_at : string) (schema_id : u64) (files : list string) : Value :=
  VObject (put "txn_id" txn_id $ put "started_at" started_at $ put "schema_id" schema_id $
           put "files" files []).

Section protocol.
Context `{!Sha256, !SerdeJson, !HashOrder, !Hex, !Rkyv} {St : Type} `{!Storage St}.

(** ** Staging leftovers *)

Definition ensure_dir (path : string) : M St unit :=
  match! st_list path as r in
  match r with
  | Ok _ => m_ret tt
  | Err e =>
      if is_not_found e then
        let tmp := path +:+ "/.keep" in
        let! _ := st_write tmp [] in
        best_effort (st_delete tmp)
      else m_lift (Err e)
  | Panic => m_lift Panic
  end.

(** A deletion of what may be gone already. *)
Definition delete_present (path : string) : M St unit :=
  match! st_delete path as r in
  match r with
  | Ok _ => m_ret tt
  | Err e => if is_not_found e then m_ret tt else m_lift (Err e)
  | Panic => m_lift Panic
  end.
(** The files an intent lists, unless the current manifest refers to them. *)
Definition discard_intended (table : string) (referenced_files : gset string) (intent : Value)
    : M St unit :=
  match get_key "files" intent with
  | Some (VArray files) =>
      m_fold (λ _ file,
        match file with
        | VString filename =>
            if bool_decide (filename ∈ referenced_files) then m_ret tt
            else delete_present (table +:+ "/" +:+ filename)
        | _ => m_ret tt
        end) tt files
  | _ => m_ret tt
  end.
Definition clean_intent (table : string) (referenced_files : gset string) (entry : string)
    : M St unit :=
  if negb (ends_with ".json" entry) then m_ret tt else
  let! intent_data := read_present entry in
  match intent_data with
  | None => m_ret tt
  | Some d =>
      let! _ := match json_parse d with
                | Some intent => discard_intended table referenced_files intent
                | None => m_ret tt
                end in
      delete_present entry
  end.
Definition clean_parts (dir : string) : M St unit :=
  let! entries := list_or_empty dir in
  m_fold (λ _ entry, if ends_with ".part" entry then delete_present entry else m_ret tt) tt entries.
(** Whether an entry of [_manifests/] goes. *)
Definition orphan_manifest (latest_seq : u64) (entry : string) : bool :=
  let filename := filename_of entry in
  if ends_with ".json.tmp" filename then true else
  match strip_suffix ".json" filename ≫= parse_u64 with
  | Some seq => latest_seq <? seq
  | None => false
  end.
Definition clean_manifests (table : string) (latest_seq : u64) : M St unit :=
  let! manifests := list_or_empty (table +:+ "/_manifests") in
  m_fold (λ _ entry,
    if orphan_manifest latest_seq entry then delete_present entry else m_ret tt) tt manifests.
Definition cleanup_staging (table : string) (latest_seq : u64) (referenced_files : gset string)
    : M St unit :=
  let! entries := list_or_empty (table +:+ "/_staging/intents") in
  let! _ := m_fold (λ _ entry, clean_intent table referenced_files entry) tt entries in
  let! _ := clean_parts (table +:+ "/_staging/incoming") in
  let! _ := clean_parts (table +:+ "/_staging/compact") in
  clean_manifests table latest_seq.

(** ** The current snapshot *)

Definition parse_manifest (b : bytes) : res Manifest :=
  of_option (Serialization "manifest") (from_slice (A:=Manifest) b).
Definition read_manifest_validated (manifest_path : string) : M St Manifest :=
  let! manifest_data := st_read manifest_path in
  let! manifest := m_lift (parse_manifest manifest_data) in
  if verify_checksum manifest then m_ret manifest
  else m_lift (Err (ChecksumMismatch manifest_path)).
Definition verify_manifest_checksum (manifest_tmp_path : string) : M St bool :=
  let! read_data := st_read manifest_tmp_path in
  let! read_manifest := m_lift (parse_manifest read_data) in
  m_ret (verify_checksum read_manifest).

(** [write_pointer], which the commit paths also contain inline. *)
Definition swap_pointer (table : string) (seq : u64) : M St unit :=
  let pointer_path := pointer_path table in
  let pointer_tmp_path := pointer_path +:+ ".tmp" in
  let! _ := st_write pointer_tmp_path (pointer_bytes seq) in
  let! _ := st_sync_data pointer_tmp_path in
  let! _ := st_rename pointer_tmp_path pointer_path in
  st_sync (table +:+ "/").

(** The empty table. *)
Definition Manifest_empty : Manifest :=
  mkManifest 1 0 0 [] None None 0 0 None ∅ None None None "".

(** The sequences of [_manifests/], highest first. *)
Definition manifest_sequences (entries : list string) : list u64 :=
  sort_descending (omap (λ entry, strip_suffix ".json" (filename_of entry) ≫= parse_u64) entries).
Fixpoint highest_valid (table : string) (sequences : list u64) : M St (option (u64 * Manifest)) :=
  match sequences with
  | [] => m_ret None
  | seq :: sequences =>
      match! read_manifest_validated (table +:+ "/" +:+ Manifest_filename seq) as r in
      match r with
      | Ok manifest => m_ret (Some (seq, manifest))
      | Err _ => highest_valid table sequences
      | Panic => m_lift Panic
      end
  end.
(** The pointer is missing, malformed or says 0. *)
Definition recover_pointer (table : string) (pointer_malformed latest_zero : bool)
    : M St (u64 * Manifest) :=
  let! entries := list_or_empty (table +:+ "/_manifests") in
  let sequences := manifest_sequences entries in
  let! highest := highest_valid table sequences in
  let failed :=
    if latest_zero && negb (is_empty sequences) || pointer_malformed
    then m_lift (Err (InvalidManifestPointer (pointer_path table)))
    else m_ret (0, Manifest_empty) in
  match highest with
  | Some (seq, manifest) =>
      if 0 <? seq then let! _ := swap_pointer table seq in m_ret (seq, manifest) else failed
  | None => failed
  end.
Definition load_pointed (table : string) (seq : u64) : M St (u64 * Manifest) :=
  let manifest_path := table +:+ "/" +:+ Manifest_filename seq in
  match! read_manifest_validated manifest_path as r in
  match r with
  | Ok manifest => m_ret (seq, manifest)
  | Err e => if is_not_found e then m_lift (Err (ManifestNotFound manifest_path))
             else m_lift (Err e)
  | Panic => m_lift Panic
  end.
Definition load_checkpoint_manifest (table : string) : M St (u64 * Manifest) :=
  let! present := st_exists (pointer_path table) in
  if negb present then recover_pointer table false false else
  match! st_read (pointer_path table) as r in
  match r with
  | Ok data =>
      match json_parse data with
      | Some p =>
          match get_key "latest" p ≫= as_u64 with
          | Some seq =>
              if seq =? 0 then recover_pointer table false true else load_pointed table seq
          | None => recover_pointer table true false
          end
      | None => recover_pointer table true false
      end
  | Err e => if is_not_found e then recover_pointer table false false else m_lift (Err e)
  | Panic => m_lift Panic
  end.
(** With the mutation log replayed. *)
Definition load_current_manifest (table : string) : M St (u64 * Manifest) :=
  let! current := load_checkpoint_manifest table in
  let (seq, manifest) := (current : u64 * Manifest) in
  if seq =? 0 then m_ret (seq, manifest) else
  let! live := live_manifest table manifest in
  m_ret (mf_sequence live, live).

(** ** The snapshot checkpoint *)

Definition entry_unchanged (current entry : RowGroupEntry) : bool :=
  bool_decide (rg_data current = rg_data entry) && bool_decide (rg_meta current = rg_meta entry)
  && bool_decide (rg_deletes current = rg_deletes entry)
  && (rg_deleted_count current =? rg_deleted_count entry)
  && bool_decide (rg_agg current = rg_agg entry).
Definition summary_of (entry : RowGroupEntry) (meta : RowGroupMeta) : FragmentSummary :=
  mkSummary (rm_row_group meta) (rg_data entry) (rg_meta entry) (rg_agg entry) (rg_deletes entry)
    (rg_fragment_id entry) (rm_rows meta) (rg_deleted_count entry) (rm_columns meta)
    (rm_column_offsets meta) (rm_row_ids meta) (rm_sort meta) (rm_checksum meta)
    (rm_meta_checksum meta).
(** The summaries of the previous checkpoint, if it can be read. *)
Definition previous_summaries (table : string) (current_manifest : Manifest)
    : M St (gmap Z FragmentSummary) :=
  match mf_checkpoint current_manifest with
  | None => m_ret ∅
  | Some prev_path =>
      match! st_read (table +:+ "/" +:+ prev_path) as r in
      match r with
      | Ok b => m_ret (match from_slice (A:=SnapshotCheckpoint) b with
                       | Some prev => foldl (λ m t, <[fs_fragment_id t := t]> m) ∅ (sc_fragments prev)
                       | None => ∅
                       end)
      | Err _ => m_ret ∅
      | Panic => m_lift Panic
      end
  end.
Definition parse_meta (b : bytes) : res RowGroupMeta :=
  of_option (Serialization "RowGroupMeta") (from_slice (A:=RowGroupMeta) b).

(** [MetaCache::global().get(path)], when the checkpoint is built. *)
Context (cached_meta : string → option RowGroupMeta).

Definition fragment_meta (meta_path : string) : M St RowGroupMeta :=
  match cached_meta meta_path with
  | Some meta => m_ret meta
  | None => let! b := st_read meta_path in m_lift (parse_meta b)
  end.
Definition reusable (prev : gmap Z FragmentSummary) (current : gmap Z RowGroupEntry)
    (entry : RowGroupEntry) : option FragmentSummary :=
  current_entry ← current !! rg_fragment_id entry;
  if entry_unchanged current_entry entry then
    summary ← prev !! rg_fragment_id entry;
    if negb (is_empty_string (fs_checksum summary)) && negb (is_empty_string (fs_meta_checksum summary))
    then Some summary else None
  else None.
Definition fragment_summary (table : string) (prev : gmap Z FragmentSummary)
    (current : gmap Z RowGroupEntry) (entry : RowGroupEntry) : M St FragmentSummary :=
  match reusable prev current entry with
  | Some summary => m_ret summary
  | None =>
      let! meta := fragment_meta (table +:+ "/" +:+ rg_meta entry) in
      m_ret (summary_of entry meta)
  end.
Definition build_snapshot_checkpoint (table : string) (current_manifest new_manifest : Manifest)
    : M St SnapshotCheckpoint :=
  let! prev := previous_summaries table current_manifest in
  let current := by_id (mf_row_groups current_manifest) in
  let! fragments := m_fold (λ fragments entry,
    let! t := fragment_summary table prev current entry in m_ret (fragments ++ [t]))
    [] (mf_row_groups new_manifest) in
  let checkpoint := mkCheckpoint (mf_sequence new_manifest) (mf_schema_id new_manifest) fragments "" in
  m_ret (mkCheckpoint (sc_sequence checkpoint) (sc_schema_id checkpoint) fragments
           (checkpoint_compute_checksum checkpoint)).

Definition write_intent (intent_path txn_id started_at : string) (schema_id : u64)
    (files : list string) : M St unit :=
  let! _ := st_write intent_path (json_to_vec (intent_value txn_id started_at schema_id files)) in
  st_sync_data intent_path.

(** [m.await.is_ok() && k]: an error is an answer. *)
Definition and_ok {A} (m : M St A) (k : M St bool) : M St bool :=
  match! m as r in
  match r with Ok _ => k | Err _ => m_ret false | Panic => m_lift Panic end.
(** The derived archive next to the checkpoint, best effort. *)
Definition write_archive (table : string) (checkpoint : SnapshotCheckpoint) (seq : u64)
    : M St (list string) :=
  let arch_rel := archive_filename seq in
  let arch_path := table +:+ "/" +:+ arch_rel in
  let arch_tmp := arch_path +:+ ".tmp" in
  let arch_bytes := to_archive_bytes checkpoint in
  let! written :=
    (if is_empty arch_bytes then m_ret false else
     and_ok (st_write arch_tmp arch_bytes)
       (and_ok (st_sync_data arch_tmp)
         (and_ok (st_rename arch_tmp arch_path) (m_ret true)))) in
  if written then m_ret [arch_rel]
  else let! _ := best_effort (st_delete arch_tmp) in m_ret [].
Definition checkpoint_part_path (table : string) (seq : u64) : string :=
  table +:+ "/_staging/incoming/_checkpoint_" +:+ fmt_09 seq +:+ ".json.part".
(** The path of the checkpoint and the final files that were put in place. *)
Definition write_checkpoint (local : bool) (table : string) (checkpoint : SnapshotCheckpoint)
    (seq : u64) (intent_path : string) (intent_files : list string) (txn_id now : string)
    (schema_id : u64) : M St (string * list string) :=
  let rel_path := SnapshotCheckpoint_filename seq in
  let final_path := table +:+ "/" +:+ rel_path in
  let part_path := checkpoint_part_path table seq in
  let! _ := ensure_dir (table +:+ "/_checkpoints") in
  let! _ := st_write part_path (to_vec checkpoint) in
  let! _ := st_sync_data part_path in
  let! _ := write_intent intent_path txn_id now schema_id (intent_files ++ [rel_path]) in
  let! _ := st_rename part_path final_path in
  let! arch := if local then write_archive table checkpoint seq else m_ret [] in
  m_ret (rel_path, rel_path :: arch).

(** ** Publishing a manifest *)

Definition with_checkpoint (path : string) (m : Manifest) : Manifest :=
  mkManifest (mf_format_version m) (mf_sequence m) (mf_schema_id m) (mf_row_groups m)
    (mf_row_counts m) (mf_partition_values m) (mf_next_row_id m) (mf_next_fragment_id m)
    (mf_rowindex_generation m) (mf_index_generations m) (Some path) (mf_parent_hash m)
    (mf_committed_at m) (mf_checksum m).
(** Written to a temporary, read back, written once more if it does not verify. *)
Definition write_manifest_tmp (tmp : string) (d : bytes) : M St bool :=
  let! _ := st_write tmp d in
  let! _ := st_sync_data tmp in
  verify_manifest_checksum tmp.
Definition publish_manifest (table : string) (seq : u64) (m : Manifest) (on_mismatch : M St unit)
    : M St unit :=
  let manifest_path := table +:+ "/" +:+ Manifest_filename seq in
  let manifest_tmp_path := manifest_path +:+ ".tmp" in
  let! first := write_manifest_tmp manifest_tmp_path (to_vec m) in
  let! second := if first then m_ret true else write_manifest_tmp manifest_tmp_path (to_vec m) in
  let! _ := if second then m_ret tt
            else let! _ := on_mismatch in m_lift (Err (ChecksumMismatch manifest_tmp_path)) in
  let! _ := st_rename manifest_tmp_path manifest_path in
  st_sync (table +:+ "/_manifests").
End protocol.

(** ** Deletes *)

Section deletes.
Context `{!Sha256, !SerdeJson, !HashOrder, !Hex, !HexEncode, !Rkyv} {B : Type} `{!RoaringBitmap B}
  {St : Type} `{!Storage St}.

(** The nonempty offsets given for a fragment. *)
Definition offsets_for (by_fragment : gmap Z (list u32)) (fragment_id : u64) : option (list u32) :=
  o ← by_fragment !! fragment_id; if is_empty o then None else Some o.
Definition del_path (fragment_id ver : u64) : string :=
  "_deletions/rg_" +:+ fmt_016x fragment_id +:+ "__v" +:+ fmt_u64 ver +:+ ".del".
Definition next_version (entry : RowGroupEntry) : res u64 :=
  match rg_deletes entry with
  | Some cur =>
      of_option (Other ("commit_deletes: cannot parse version from existing .del path " +:+ cur))
        (s ← strip_suffix ".del" (rsplit_next "__v" cur);
         v ← parse_u64 s; Some (wrap64 (v + 1)))
  | None => Ok 1
  end.
Definition existing_dv (table : string) (entry : RowGroupEntry) : M St (DeletionVector B) :=
  match rg_deletes entry with
  | Some del_path =>
      let! b := st_read (table +:+ "/" +:+ del_path) in
      m_lift (match dv_deserialize (B:=B) b with Err _ => Err (Other "roaring") | r => r end)
  | None => m_ret dv_default
  end.
Definition with_deletes (path : string) (count : u64) (e : RowGroupEntry) : RowGroupEntry :=
  mkEntry (rg_data e) (rg_meta e) (rg_fragment_id e) (Some path) count (rg_agg e).

(** One fragment: its new deletion vector, written; the entries so far, the new
    paths and the bytes to inline in the log. *)
Definition delete_fragment (table : string) (wal_mode : bool) (by_fragment : gmap Z (list u32))
    (acc : list RowGroupEntry * list string * list StagedArtifact) (entry : RowGroupEntry)
    : M St (list RowGroupEntry * list string * list StagedArtifact) :=
  let '(row_groups, new_del_paths, wal_artifacts) := acc in
  match offsets_for by_fragment (rg_fragment_id entry) with
  | None => m_ret (row_groups ++ [entry], new_del_paths, wal_artifacts)
  | Some offsets =>
      let! dv := existing_dv table entry in
      let dv := union_offsets dv offsets in
      let! new_ver := m_lift (next_version entry) in
      let rel_del_path := del_path (rg_fragment_id entry) new_ver in
      let abs_del_path := table +:+ "/" +:+ rel_del_path in
      let del_bytes := dv_serialize dv in
      let! _ := st_write abs_del_path del_bytes in
      let! _ := if wal_mode then m_ret tt else st_sync_data abs_del_path in
      m_ret (row_groups ++ [with_deletes rel_del_path (cardinality dv) entry],
             new_del_paths ++ [rel_del_path],
             if wal_mode then wal_artifacts ++ [mkArtifact rel_del_path (hex_encode del_bytes)]
             else wal_artifacts)
  end.

(** The row ids the offsets name, and the fragments that cannot say. *)
Definition deleted_ids (table : string) (by_fragment : gmap Z (list u32))
    (acc : list u64 * list u64) (rg : RowGroupEntry) : M St (list u64 * list u64) :=
  let '(ids, without) := acc in
  match offsets_for by_fragment (rg_fragment_id rg) with
  | None => m_ret acc
  | Some offsets =>
      let! meta_bytes := st_read (table +:+ "/" +:+ rg_meta rg) in
      let! meta := m_lift (parse_meta meta_bytes) in
      if is_empty (rm_row_ids meta) then m_ret (ids, without ++ [rg_fragment_id rg]) else
      let row_id_vec := List.concat (segment_ids <$> rm_row_ids meta) in
      m_ret (ids ++ omap (λ offset, row_id_vec !! Z.to_nat offset) offsets, without)
  end.

Definition tombstoned (table : string) (entry : IndexEntry) : bool :=
  bool_decide (ie_table entry = table) && ie_unique entry
  && bool_decide (ie_index_type entry = "btree").
Definition has_unique_index (table : string) (generations : gmap string IndexRef)
    (indexes : bmap IndexEntry) : bool :=
  existsb (λ ne, tombstoned table ne.2 && bool_decide (is_Some (generations !! ne.1))) indexes.
(** A tombstone delta for one unique index that was built. *)
Definition tombstone_index (table : string) (wal_mode : bool) (row_ids : list u64) (seq : u64)
    (acc : gmap string IndexRef * list string * list StagedArtifact) (ne : string * IndexEntry)
    : M St (gmap string IndexRef * list string * list StagedArtifact) :=
  let '(generations, new_paths, wal_artifacts) := acc in
  let '(idx_name, entry) := ne in
  if negb (tombstoned table entry) then m_ret acc else
  match generations !! idx_name with
  | None => m_ret acc
  | Some current_ref =>
      let! new_ref := append_tombstones table idx_name row_ids seq current_ref (negb wal_mode) in
      match last (ir_deltas new_ref) with
      | Some new_delta =>
          let! arts :=
            (if wal_mode then
               let! b := st_read (table +:+ "/" +:+ new_delta) in
               m_ret (wal_artifacts ++ [mkArtifact new_delta (hex_encode b)])
             else m_ret wal_artifacts) in
          m_ret (<[idx_name := new_ref]> generations, new_paths ++ [new_delta], arts)
      | None => m_ret (<[idx_name := new_ref]> generations, new_paths, wal_artifacts)
      end
  end.

(** What the staging part of a delete leaves in memory. *)
Record StagedDeletes := mkStaged {
  sd_row_groups : list RowGroupEntry;
  sd_del_paths : list string;
  sd_generations : gmap string IndexRef;
  sd_tombstone_paths : list string;
  sd_artifacts : list StagedArtifact;
}.
Definition stage_deletes (table : string) (wal_mode : bool) (by_fragment : gmap Z (list u32))
    (current_manifest : Manifest) (next_seq : u64) : M St StagedDeletes :=
  let! staged := m_fold (delete_fragment table wal_mode by_fragment) ([], [], [])
                   (mf_row_groups current_manifest) in
  let '(row_groups, new_del_paths, wal_artifacts) := staged in
  let! _ := if wal_mode then m_ret tt else st_sync (table +:+ "/_deletions") in
  let generations := mf_index_generations current_manifest in
  let! deleted := m_fold (deleted_ids table by_fragment) ([], []) (mf_row_groups current_manifest) in
  let '(all_deleted_row_ids, without_row_ids) := deleted in
  let! catalog := DatabaseCatalog.load in
  if has_unique_index table generations (dc_indexes catalog) && negb (is_empty without_row_ids)
  then m_lift (Err (Other "commit_deletes: fragment(s) have no row_ids"))
  else
  let! tombstones :=
    (if is_empty all_deleted_row_ids then m_ret (generations, [], wal_artifacts)
     else m_fold (tombstone_index table wal_mode all_deleted_row_ids next_seq)
            (generations, [], wal_artifacts) (dc_indexes catalog)) in
  let '(generations, new_tombstone_paths, wal_artifacts) := tombstones in
  m_ret (mkStaged row_groups new_del_paths generations new_tombstone_paths wal_artifacts).

Definition deleted_manifest (current_manifest : Manifest) (next_seq : u64) (d : StagedDeletes)
    : Manifest :=
  mkManifest 1 next_seq (mf_schema_id current_manifest) (sd_row_groups d)
    (mf_row_counts current_manifest) (mf_partition_values current_manifest)
    (mf_next_row_id current_manifest) (mf_next_fragment_id current_manifest)
    (mf_rowindex_generation current_manifest) (sd_generations d) None None None "".

(** The deferred commit: one log record. *)
Definition fragment_deletes (by_fragment : gmap Z (list u32)) (row_groups : list RowGroupEntry)
    : list FragmentDelete :=
  omap (λ e, (λ p, mkFragmentDelete (rg_fragment_id e) p (rg_deleted_count e)) <$> rg_deletes e)
    (filter (λ e, is_Some (offsets_for by_fragment (rg_fragment_id e))) row_groups).
Definition delete_record (by_fragment : gmap Z (list u32)) (current_manifest : Manifest)
    (latest_seq : u64) (d : StagedDeletes) : MutationRecord :=
  sealed (mkRecord (wrap64 (latest_seq + 1)) latest_seq
    (fragment_deletes by_fragment (sd_row_groups d)) []
    (hash_order (map_to_list (sd_generations d))) None 0 (mf_next_row_id current_manifest)
    (sd_artifacts d) "").
Definition defer_deletes (w : Writer) (env : CommitEnv) (by_fragment : gmap Z (list u32))
    (current_manifest : Manifest) (latest_seq : u64) (d : StagedDeletes) : M St unit :=
  let table := w_table w in
  let! _ := MutationWal.append table (delete_record by_fragment current_manifest latest_seq d) in
  let! records := read_records table in
  if w_wal_checkpoint_threshold w <=? len records then
    let! _ := checkpoint_locked table (ce_committed_at env) in m_ret tt
  else m_ret tt.

Context (local : bool) (cached_meta : string → option RowGroupMeta).

Definition intent_path (table txn_id : string) : string :=
  table +:+ "/_staging/intents/" +:+ txn_id +:+ ".json".
(** The immediate commit: intent, checkpoint, manifest, pointer. *)
Definition publish_deletes (w : Writer) (env : CommitEnv) (current_manifest : Manifest)
    (next_seq : u64) (d : StagedDeletes) : M St Manifest :=
  let table := w_table w in
  let schema_id := Schema.sc_schema_id (w_schema w) in
  let txn_id := "txn_" +:+ ce_uuid env in
  let intent_path := intent_path table txn_id in
  let intent_files := sd_del_paths d ++ sd_tombstone_paths d in
  let! _ := write_intent intent_path txn_id (ce_started_at env) schema_id intent_files in
  let! _ := st_sync (table +:+ "/_staging/intents") in
  let new_manifest := deleted_manifest current_manifest next_seq d in
  let! checkpoint := build_snapshot_checkpoint cached_meta table current_manifest new_manifest in
  let! written := write_checkpoint local table checkpoint next_seq intent_path intent_files txn_id
                    (ce_checkpoint_at env) schema_id in
  let new_manifest := with_checkpoint written.1 new_manifest in
  let! new_manifest := finalize_manifest table (ce_committed_at env) new_manifest next_seq in
  let! _ := publish_manifest table next_seq new_manifest (best_effort (st_delete intent_path)) in
  let! _ := swap_pointer table next_seq in
  let! _ := best_effort (st_delete intent_path) in
  m_ret new_manifest.

Definition commit_deletes_locked (w : Writer) (env : CommitEnv) (by_fragment : gmap Z (list u32))
    : M St (CommitDelta unit) :=
  let table := w_table w in
  let! current := load_current_manifest table in
  let (latest_seq, current_manifest) := (current : u64 * Manifest) in
  let! _ := cleanup_staging table latest_seq (manifest_referenced_files current_manifest) in
  let next_seq := wrap64 (latest_seq + 1) in
  let! taken := st_exists (table +:+ "/" +:+ Manifest_filename next_seq) in
  if taken then m_lift (Err (SequenceCollision next_seq)) else
  let! _ := ensure_dir (table +:+ "/_deletions") in
  let! d := stage_deletes table (w_wal_mode w) by_fragment current_manifest next_seq in
  let! new_manifest :=
    (if w_wal_mode w then
       let! _ := defer_deletes w env by_fragment current_manifest latest_seq d in
       m_ret (deleted_manifest current_manifest next_seq d)
     else publish_deletes w env current_manifest next_seq d) in
  m_ret (CommitDelta_new current_manifest new_manifest Delete).
(** The lock is released when the guard is dropped. *)
Definition commit_deletes (w : Writer) (env : CommitEnv) (by_fragment : gmap Z (list u32))
    : M St (CommitDelta unit) :=
  let! lock := st_lock_exclusive (w_table w +:+ "/_write.lock") in
  λ s, let (r, s') := commit_deletes_locked w env by_fragment s in (r, st_unlock lock s').
End deletes.
