(* ===== verification/Disk.v ===== *)
(** * A storage that fails and loses power

    The laws of [StorageLaws] describe a storage on which nothing goes wrong.
    Here every operation may fail, before or after it took effect, and what a
    path holds after a loss of power is what it may hold: a file is sure to
    survive only once its content has been flushed ([sync_data]) and its
    directory synced.  Two statements about a routine are enough for the commit
    protocol: which paths it touches, whatever happens, and what is on disk
    when it returns [Ok]. *)

From S2P Require Import Prelude Bytes StableSort Text OrdMap Storage.
From Stdlib Require Import Ascii String.

#[local] Open Scope list_scope.
#[local] Open Scope Z_scope.

(** [disk_files]: what a reader sees.  [disk_after s p o]: after a loss of power
    [p] may hold [o].  [disk_flushed]: the content of the file is on the medium,
    its directory entry may not be.  [reliable]: from here on operations fail
    only as documented. *)
Class DiskState (St : Type) := {
  disk_files : St → gmap string bytes;
  disk_after : St → string → option bytes → Prop;
  disk_flushed : St → string → Prop;
  reliable : St → Prop;
}.

Section calm.
Context {St : Type} `{!DiskState St}.
Implicit Types s : St.

(** [p] is left alone; syncing other things may make it more durable. *)
Definition calm s s' (p : string) : Prop :=
  disk_files s' !! p = disk_files s !! p
  ∧ (disk_flushed s p → disk_flushed s' p)
  ∧ ∀ o, disk_after s' p o → disk_after s p o ∨ o = disk_files s !! p.
Lemma calm_refl s p : calm s s p.
Proof. repeat split; auto. Qed.
Lemma calm_trans s1 s2 s3 p : calm s1 s2 p → calm s2 s3 p → calm s1 s3 p.
Proof.
  intros (Ef&Hf&Ha) (Ef'&Hf'&Ha'). split; [congruence|]. split; [auto|].
  intros o [Ho| ->]%Ha'; [by apply Ha|by right].
Qed.

(** The file [p] holds [b], now and after a loss of power. *)
Definition settled s (p : string) (b : bytes) : Prop :=
  disk_files s !! p = Some b ∧ disk_flushed s p ∧ ∀ o, disk_after s p o → o = Some b.
(** The file [p] holds [b], and so does the medium; its name may be lost. *)
Definition staged s (p : string) (b : bytes) : Prop :=
  disk_files s !! p = Some b ∧ disk_flushed s p.
Lemma calm_settled s s' p b : calm s s' p → settled s p b → settled s' p b.
Proof.
  intros (Ef&Hf&Ha) (E&Hs&Hb). split; [congruence|]. split; [auto|].
  intros o [Ho| ->]%Ha; [auto|done].
Qed.
Lemma calm_staged s s' p b : calm s s' p → staged s p b → staged s' p b.
Proof. intros (Ef&Hf&_) [E Hs]. split; [congruence|auto]. Qed.
Lemma calm_file s s' p o : calm s s' p → disk_files s !! p = o → disk_files s' !! p = o.
Proof. intros (Ef&_) E. congruence. Qed.

(** [m] touches only the paths [T], whatever it returns. *)
Definition touches {A} (T : string → Prop) (m : M St A) : Prop :=
  ∀ s r s', m s = (r, s') → ∀ p, ¬ T p → calm s s' p.
(** What holds when [m] returns [Ok]. *)
Definition yields {A} (P : St → Prop) (m : M St A) (Q : A → St → Prop) : Prop :=
  ∀ s a s', P s → m s = (Ok a, s') → Q a s'.
End calm.

(** A path as the operations see it. *)
Definition at_path (raw p : string) : Prop := validate_path raw = Ok p.
Definition nowhere (p : string) : Prop := False.

(** What holds of every outcome, and of success.  Lock files are not part of
    [disk_files]. *)
Class DiskLaws (St : Type) `{!Storage St, !DiskState St} := {
  touches_read p : touches nowhere (st_read p);
  touches_exists p : touches nowhere (st_exists p);
  touches_list p : touches nowhere (st_list p);
  touches_sync p : touches nowhere (st_sync p);
  touches_sync_data p : touches nowhere (st_sync_data p);
  touches_write p d : touches (at_path p) (st_write p d);
  touches_append p d : touches (at_path p) (st_append p d);
  touches_delete p : touches (at_path p) (st_delete p);
  touches_rename p p' : touches (λ q, at_path p q ∨ at_path p' q) (st_rename p p');
  touches_lock p : touches nowhere (st_lock_exclusive p);
  calm_unlock l s p : calm s (st_unlock l s) p;

  disk_read p q s r s' : at_path p q → st_read p s = (r, s') →
    match r with
    | Ok b => disk_files s !! q = Some b
    | Err e => is_not_found e = true → disk_files s !! q = None
    | Panic => True
    end;
  disk_exists p q s b s' : at_path p q → st_exists p s = (Ok b, s') →
    b = bool_decide (is_Some (disk_files s !! q));
  disk_list p q s r s' : at_path p q → st_list p s = (r, s') →
    match r with
    | Ok l => l = list_children (disk_files s) (q +:+ "/")
    | Err e => is_not_found e = true → list_children (disk_files s) (q +:+ "/") = []
    | Panic => True
    end;
  disk_write p q d s s' : at_path p q → st_write p d s = (Ok tt, s') →
    disk_files s' !! q = Some d;
  disk_append p q d s s' : at_path p q → st_append p d s = (Ok tt, s') →
    disk_files s' !! q = Some (default [] (disk_files s !! q) ++ d);
  disk_delete p q s r s' : at_path p q → st_delete p s = (r, s') →
    match r with
    | Ok _ => disk_files s' !! q = None
    | Err e => is_not_found e = true → disk_files s' !! q = None
    | Panic => True
    end;
  (** A rename happens or does not. *)
  disk_rename p q p' q' s r s' : at_path p q → at_path p' q' → q ≠ q' →
    st_rename p p' s = (r, s') →
    (disk_files s' !! q' = disk_files s !! q' ∨ disk_files s' !! q' = disk_files s !! q)
    ∧ (disk_flushed s q → ∀ o, disk_after s' q' o →
        disk_after s q' o ∨ o = disk_files s !! q' ∨ o = disk_files s !! q)
    ∧ (r = Ok tt → is_Some (disk_files s !! q) ∧ disk_files s' !! q' = disk_files s !! q
        ∧ disk_files s' !! q = None ∧ (disk_flushed s q → disk_flushed s' q'));
  disk_sync_data p q s s' : at_path p q → st_sync_data p s = (Ok tt, s') → disk_flushed s' q;
  (** Syncing a directory makes the names of its files durable. *)
  disk_sync p q f s s' : at_path p q → file_piece f → st_sync p s = (Ok tt, s') →
    disk_flushed s (q +:+ "/" +:+ f) →
    ∀ o, disk_after s' (q +:+ "/" +:+ f) o → o = disk_files s !! (q +:+ "/" +:+ f);
}.

(** A storage on which nothing goes wrong any more. *)
Class ReliableDisk (St : Type) `{!Storage St, !DiskState St} := {
  rel_read p q s : at_path p q → reliable s →
    ∃ s', st_read p s = (read_result (disk_files s) q, s') ∧ reliable s';
  rel_exists p q s : at_path p q → reliable s →
    ∃ s', st_exists p s = (Ok (bool_decide (is_Some (disk_files s !! q))), s') ∧ reliable s';
  rel_list p q s : at_path p q → reliable s →
    ∃ s', st_list p s = ((if decide (list_children (disk_files s) (q +:+ "/") = [])
                          then Err (NotFound p)
                          else Ok (list_children (disk_files s) (q +:+ "/"))), s') ∧ reliable s';
  rel_write p q d s : at_path p q → reliable s →
    ∃ s', st_write p d s = (Ok tt, s') ∧ reliable s';
  rel_append p q d s : at_path p q → reliable s →
    ∃ s', st_append p d s = (Ok tt, s') ∧ reliable s';
  rel_delete p q s : at_path p q → reliable s →
    ∃ s', st_delete p s = ((if disk_files s !! q then Ok tt else Err (NotFound q)), s')
          ∧ reliable s';
  rel_rename p q p' q' s : at_path p q → at_path p' q' → reliable s →
    is_Some (disk_files s !! q) → ∃ s', st_rename p p' s = (Ok tt, s') ∧ reliable s';
  rel_sync p q s : at_path p q → reliable s → ∃ s', st_sync p s = (Ok tt, s') ∧ reliable s';
  rel_sync_data p q s : at_path p q → reliable s → ∃ s', st_sync_data p s = (Ok tt, s') ∧ reliable s';
  rel_lock p q s : at_path p q → reliable s →
    ∃ r s', st_lock_exclusive p s = (r, s') ∧ reliable s' ∧ (r = Ok q ∨ r = Err (LockTimeout q));
  rel_unlock l s : reliable s → reliable (st_unlock l s);
}.

(** ** What a routine touches *)

Section touches.
Context {St : Type} `{!DiskState St}.
Implicit Types s : St.
Implicit Types T : string → Prop.

Lemma touches_mono {A} T T' (m : M St A) : (∀ p, T p → T' p) → touches T m → touches T' m.
Proof. intros HT Hm s r s' E p Hp. apply (Hm s r s' E). auto. Qed.
Lemma touches_pure {A} T (r : res A) : touches T (m_lift (St:=St) r).
Proof. intros s r' s' [= _ <-] p _. apply calm_refl. Qed.
Lemma touches_ret {A} T (a : A) : touches T (m_ret (St:=St) a).
Proof. apply (touches_pure T (Ok a)). Qed.
Lemma touches_nothing {A} T (m : M St A) : touches nowhere m → touches T m.
Proof. by apply touches_mono. Qed.
Lemma touches_bind {A B} T (m : M St A) (f : A → M St B) :
  touches T m → (∀ a, touches T (f a)) → touches T (m_bind m f).
Proof.
  intros Hm Hf s r s' E p Hp. unfold m_bind in E. destruct (m s) as [[a|e|] s1] eqn:Em.
  - eapply calm_trans; [by eapply Hm|by eapply Hf].
  - injection E as _ <-. by eapply Hm.
  - injection E as _ <-. by eapply Hm.
Qed.
Lemma touches_bind_lift {A B} T (r : res A) (f : A → M St B) :
  (∀ a, r = Ok a → touches T (f a)) → touches T (m_bind (m_lift r) f).
Proof.
  intros Hf s r' s' E. unfold m_bind, m_lift in E. destruct r as [a|e|].
  - by apply (Hf a eq_refl s r' s').
  - injection E as _ <-. intros p _. apply calm_refl.
  - injection E as _ <-. intros p _. apply calm_refl.
Qed.
Lemma touches_try {A B} T (m : M St A) (f : res A → M St B) :
  touches T m → (∀ r, touches T (f r)) → touches T (m_try m f).
Proof.
  intros Hm Hf s r s' E p Hp. unfold m_try in E. destruct (m s) as [r1 s1] eqn:Em.
  eapply calm_trans; [by eapply Hm|by eapply Hf].
Qed.
Lemma touches_fold {A B} T (f : A → B → M St A) acc (xs : list B) :
  (∀ a x, x ∈ xs → touches T (f a x)) → touches T (m_fold f acc xs).
Proof.
  revert acc. induction xs as [|x xs IH]; intros acc Hf; cbn [m_fold]; [apply touches_ret|].
  apply touches_bind; [apply Hf; set_solver|]. intros a. apply IH. intros. apply Hf. set_solver.
Qed.
(** ... whose accumulator satisfies an invariant. *)
Lemma touches_fold_inv {A B} T (P : A → Prop) (f : A → B → M St A) acc (xs : list B) :
  (∀ a x, x ∈ xs → P a → touches T (f a x)) →
  (∀ a x s a' s', x ∈ xs → P a → f a x s = (Ok a', s') → P a') → P acc →
  touches T (m_fold f acc xs).
Proof.
  revert acc. induction xs as [|x xs IH]; intros acc Hf HP Ha; cbn [m_fold]; [apply touches_ret|].
  intros s r s' E p Hp. unfold m_bind in E. destruct (f acc x s) as [[a|e|] s1] eqn:Ef.
  - assert (calm s s1 p) as Hc by (eapply (Hf acc x); [set_solver|done..]).
    eapply calm_trans; [exact Hc|].
    assert (touches T (m_fold f a xs)) as Ht by (apply IH; [set_solver..|eapply HP; [|done..]; set_solver]).
    by eapply Ht.
  - injection E as _ <-. eapply (Hf acc x); [set_solver|done..].
  - injection E as _ <-. eapply (Hf acc x); [set_solver|done..].
Qed.
Lemma touches_unlock `{!Storage St, !DiskLaws St} {A} T (m : M St A) (l : string) :
  touches T m → touches T (λ s, let (r, s') := m s in (r, st_unlock l s')).
Proof.
  intros Hm s r s' E p Hp. destruct (m s) as [r1 s1] eqn:Em. injection E as _ <-.
  eapply calm_trans; [by eapply Hm|apply calm_unlock].
Qed.

(** ** What a routine yields *)

(** A step either ends the chain, having touched only [T], or leads on. *)
Lemma step_touches {A B} T (m : M St A) (f : A → M St B) s0 s r s' (Q : Prop) :
  touches T m → (∀ q, ¬ T q → calm s0 s q) → m_bind m f s = (r, s') →
  ((∀ q, ¬ T q → calm s0 s' q) → (∀ b, r ≠ Ok b) → Q) →
  (∀ a s1, m s = (Ok a, s1) → (∀ q, ¬ T q → calm s0 s1 q) → f a s1 = (r, s') → Q) → Q.
Proof.
  intros Hm Hc E Hstop Hgo. unfold m_bind in E. destruct (m s) as [[a|e|] s1] eqn:Em.
  - apply (Hgo a s1); [done| |done]. intros q Hq. eapply calm_trans; [by apply Hc|by eapply Hm].
  - injection E as <- <-. apply Hstop; [|done]. intros q Hq. eapply calm_trans; [by apply Hc|by eapply Hm].
  - injection E as <- <-. apply Hstop; [|done]. intros q Hq. eapply calm_trans; [by apply Hc|by eapply Hm].
Qed.
Lemma lift_inv {A} (r : res A) s a s' : m_lift r s = (Ok a, s') → r = Ok a ∧ s' = s.
Proof. unfold m_lift. by intros [= -> ->]. Qed.
Lemma of_option_inv {A} e (o : option A) s a s' :
  m_lift (of_option e o) s = (Ok a, s') → o = Some a ∧ s' = s.
Proof. unfold m_lift, of_option. destruct o; intros [= -> ->] || done. done. Qed.
(** An invariant of a loop that succeeds, over the elements done and to do. *)
Lemma fold_inv {A B} (P : list B → A → St → Prop) (f : A → B → M St A) acc xs s a s' :
  (∀ done x todo acc s acc' s', xs = done ++ x :: todo → P done acc s → f acc x s = (Ok acc', s') →
     P (done ++ [x]) acc' s') →
  P [] acc s → m_fold f acc xs s = (Ok a, s') → P xs a s'.
Proof.
  intros Hf H0 E.
  enough (∀ todo done acc s, xs = done ++ todo → P done acc s → m_fold f acc todo s = (Ok a, s') →
    P xs a s') as Hgen by (by eapply (Hgen xs [])).
  clear H0 E acc s. induction todo as [|x todo IH]; intros dn acc s Hxs HP E; cbn [m_fold] in E.
  - injection E as <- <-. by rewrite Hxs, app_nil_r.
  - apply bind_inv in E as (acc1&s1&E1&E). eapply (IH (dn ++ [x])); [| |done].
    + by rewrite Hxs, <-app_assoc.
    + by eapply Hf.
Qed.
End touches.

Create HintDb touches.
(** Closes [touches T m] down to the paths of writes, deletes and renames. *)
Ltac touch_step :=
  match goal with
  | |- touches _ (m_ret _) => apply touches_ret
  | |- touches _ (m_lift _) => apply touches_pure
  | |- touches _ (m_bind (m_lift _) _) => apply touches_bind_lift; intros ? ?
  | |- touches _ (m_bind _ _) => apply touches_bind; [|intros ?]
  | |- touches _ (m_try _ _) => apply touches_try; [|intros ?]
  | |- touches _ (m_fold _ _ _) => apply touches_fold; intros ? ? ?
  | |- touches _ (st_read _) => apply touches_nothing, touches_read
  | |- touches _ (st_exists _) => apply touches_nothing, touches_exists
  | |- touches _ (st_list _) => apply touches_nothing, touches_list
  | |- touches _ (st_sync _) => apply touches_nothing, touches_sync
  | |- touches _ (st_lock_exclusive _) => apply touches_nothing, touches_lock
  | |- touches _ (st_sync_data _) => apply touches_nothing, touches_sync_data
  | |- touches _ (match ?x with _ => _ end) => destruct x eqn:?
  | |- touches _ (λ s, let (r, s') := _ in (r, st_unlock _ s')) => apply touches_unlock
  end.
Ltac touch := repeat first [assumption | touch_step | solve [eauto 4 with touches nocore]].
