(* ===== verification/CommitSafe.v ===== *)
(** * The commit protocol is atomic

    What a commit touches and leaves behind on a storage that may fail anywhere
    and lose power afterwards. *)

From S2P Require Import Prelude Bytes StableSort Text OrdMap RowId Storage Json Arrow Schema Manifest.
From S2P Require Import RowGroupMeta CommitDelta MutationWal Gc BTreeIndex SecondaryIndex DatabaseCatalog.
From S2P Require Import Commit Disk.
From Stdlib Require Import Ascii String.

#[local] Open Scope list_scope.
#[local] Open Scope Z_scope.

(** ** Paths *)

Lemma at_clean p q : clean p → at_path p q ↔ q = p.
Proof. intros Hc. unfold at_path. rewrite clean_validate by done. naive_solver. Qed.

(** [format!("{}/", dir)]. *)
Lemma at_dir p : clean p → at_path (p +:+ "/") p.
Proof.
  intros Hc. pose proof (clean_validate p Hc) as Hv. unfold at_path, validate_path in *.
  assert (p ≠ "") as Hne by (intros ->; by inversion Hc).
  rewrite decide_False in Hv by done. rewrite decide_False by (by destruct p).
  assert (split_on "/" (p +:+ "/") = split_on "/" p ++ [""]) as Es
    by (change (p +:+ "/") with (p +:+ String "/" ""); by rewrite split_on_app).
  assert (is_absolute (p +:+ "/") = false) as Ha.
  { unfold is_absolute, starts_with. apply bool_decide_eq_false. intros [r Hr].
    apply strip_prefix_Some in Hr. destruct p as [|c p]; [done|]. injection Hr as -> _.
    inversion Hc as [|?? Hg]. done. }
  rewrite Ha. rewrite clean_not_absolute in Hv by done.
  assert (components (p +:+ "/") = components p) as ->.
  { unfold components. rewrite Ha, clean_not_absolute, Es by done.
    rewrite omap_app. cbn [omap list_omap]. rewrite app_nil_r.
    destruct (split_on "/" p) as [|x l] eqn:E; [by destruct (split_on_not_nil "/" p)|]. done. }
  destruct (clean_components p (components p) "") as [q| |] eqn:E; [|done..].
  assert (∀ cs raw raw' acc q, clean_components raw cs acc = Ok q → clean_components raw' cs acc = Ok q) as Hraw.
  { clear. induction cs as [|[] cs IH]; intros raw raw' acc q; cbn; eauto; done. }
  rewrite (Hraw _ _ (p +:+ "/") _ _ E). cbn [res_bind] in *. by destruct (decide (q = "")).
Qed.
#[export] Instance at_path_dec p q : Decision (at_path p q).
Proof. unfold at_path. apply _. Defined.
(** A step of a chain of operations succeeds or ends the chain. *)
Lemma bind_cases {St A B} (m : M St A) (f : A → M St B) s r s' :
  m_bind m f s = (r, s') →
  (∃ a s1, m s = (Ok a, s1) ∧ f a s1 = (r, s'))
  ∨ (∃ r1, m s = (r1, s') ∧ (∀ a, r1 ≠ Ok a) ∧ ∀ b, r ≠ Ok b).
Proof.
  unfold m_bind. destruct (m s) as [[a|e|] s1]; intros E; [by left; eauto| |];
    right; eexists; simplify_eq; by split_and!.
Qed.

Section prune.
Context `{!Sha256, !SerdeJson} {St : Type} `{!Storage St, !DiskState St, !DiskLaws St}.
Implicit Types s : St.

(** ** Recovery of staging leftovers *)

Context (fs0 : gmap string bytes).

(** On a tree of files within [fs0], [m] touches only [T], and a success only
    removes files. *)
Definition prunes {A} (T : string → Prop) (m : M St A) : Prop :=
  ∀ s r s', disk_files s ⊆ fs0 → m s = (r, s') →
    (∀ p, ¬ T p → calm s s' p) ∧ ∀ a, r = Ok a → disk_files s' ⊆ disk_files s.

Lemma calm_all_files s s' : (∀ p, calm s s' p) → disk_files s' = disk_files s.
Proof. intros Hc. apply map_eq. intros p. apply (Hc p). Qed.
Lemma touches_nowhere_calm {A} (m : M St A) s r s' p :
  touches nowhere m → m s = (r, s') → calm s s' p.
Proof. intros Hm E. by eapply Hm; [|intros []]. Qed.
Lemma prunes_nothing {A} T (m : M St A) : touches nowhere m → prunes T m.
Proof.
  intros Hm s r s' _ E. assert (∀ p, calm s s' p) as Hc by (intros p; by eapply touches_nowhere_calm).
  split; [auto|]. intros a _. by rewrite (calm_all_files s s' Hc).
Qed.
Lemma prunes_mono {A} (T T' : string → Prop) (m : M St A) :
  (∀ p, T p → T' p) → prunes T m → prunes T' m.
Proof. intros HT Hm s r s' Hs E. destruct (Hm s r s' Hs E) as [Hc Hf]. split; [|done]. eauto. Qed.
Lemma prunes_bind {A B} T (m : M St A) (f : A → M St B) :
  prunes T m → (∀ a, prunes T (f a)) → prunes T (m_bind m f).
Proof.
  intros Hm Hf s r s' Hs [(a&s1&E1&E2)|(r1&E1&Hr1&Hr)]%bind_cases.
  - destruct (Hm _ _ _ Hs E1) as [Hc1 Hs1]. specialize (Hs1 a eq_refl).
    destruct (Hf a _ _ _ (transitivity Hs1 Hs) E2) as [Hc2 Hs2]. split.
    + intros p Hp. eapply calm_trans; [by apply Hc1|by apply Hc2].
    + intros b Hb. etrans; [by eapply Hs2|done].
  - destruct (Hm _ _ _ Hs E1) as [Hc1 _]. split; [done|]. intros b Hb. by destruct (Hr b).
Qed.
Lemma prunes_fold {A B} T (f : A → B → M St A) acc (xs : list B) :
  (∀ a x, x ∈ xs → prunes T (f a x)) → prunes T (m_fold f acc xs).
Proof.
  revert acc. induction xs as [|x xs IH]; intros acc Hf; cbn [m_fold].
  { apply prunes_nothing, touches_ret. }
  apply prunes_bind; [apply Hf; set_solver|]. intros a. apply IH. intros. apply Hf. set_solver.
Qed.
(** What a read finds was there from the start. *)
Lemma prunes_read {A} T p q (f : option bytes → M St A) :
  at_path p q → prunes T (f None) → (∀ b, fs0 !! q = Some b → prunes T (f (Some b))) →
  prunes T (m_bind (read_present p) f).
Proof.
  intros Hq Hn Hf s r s' Hs E. unfold read_present in E.
  apply bind_cases in E as [(o&s1&E1&E2)|(r1&E1&Hr1&Hr)].
  - apply try_inv in E1 as (r0&s0&El&E1). pose proof (disk_read _ _ _ _ _ Hq El) as Hl.
    assert (∀ p, calm s s0 p) as Hc by (intros; by eapply touches_nowhere_calm; [apply touches_read|]).
    pose proof (calm_all_files _ _ Hc) as Efs.
    assert (prunes T (f o) ∧ s1 = s0) as [Ho ->].
    { destruct r0 as [b|e|]; [|destruct (is_not_found e)|]; try done; injection E1 as <- <-; split; try done.
      apply Hf. by eapply lookup_weaken. }
    destruct (Ho s0 r s') as [Hc2 Hf2]; [by rewrite Efs|done|]. split.
    + intros p' Hp. eapply calm_trans; [by apply Hc|by apply Hc2].
    + intros a Ha. rewrite <-Efs. by eapply Hf2.
  - apply try_inv in E1 as (r0&s0&El&E1).
    assert (s' = s0) as -> by by (destruct r0 as [|e|]; [|destruct (is_not_found e)|]; injection E1).
    split; [|intros a ->; by destruct (Hr a)].
    intros p' _. by eapply touches_nowhere_calm; [apply touches_read|].
Qed.
(** A loop over the entries of a directory sees entries that were there. *)
Lemma list_or_empty_found dir s r s' :
  clean dir → disk_files s ⊆ fs0 → list_or_empty dir s = (r, s') →
  (∀ p, calm s s' p) ∧ ∀ l, r = Ok l → l = list_children (disk_files s) (dir +:+ "/").
Proof.
  intros Hd Hs E. apply try_inv in E as (r0&s0&El&E).
  pose proof (disk_list _ _ _ _ _ (clean_validate _ Hd) El) as Hl.
  assert (∀ p, calm s s0 p) as Hc by (intros; by eapply touches_nowhere_calm; [apply touches_list|]).
  destruct r0 as [l0|e|]; [| |by injection E as <- <-].
  - injection E as <- <-. split; [done|]. by intros l [= <-].
  - destruct (is_not_found e) eqn:En; injection E as <- <-; (split; [done|]); [|done].
    intros l [= <-]. by rewrite Hl.
Qed.
Lemma prunes_entries {A} T dir (f : list string → M St A) :
  clean dir →
  (∀ l, (∀ e, e ∈ l → e ∈ list_children fs0 (dir +:+ "/")) → prunes T (f l)) →
  prunes T (m_bind (list_or_empty dir) f).
Proof.
  intros Hd Hf s r s' Hs [(l&s1&E1&E2)|(r1&E1&Hr1&Hr)]%bind_cases.
  - destruct (list_or_empty_found _ _ _ _ Hd Hs E1) as [Hc Hl].
    pose proof (calm_all_files _ _ Hc) as Efs. destruct (Hf l) with s1 r s' as [Hc2 Hf2].
    + intros e He. rewrite (Hl l eq_refl) in He. by eapply list_children_mono.
    + by rewrite Efs.
    + done.
    + split; [|by rewrite <-Efs]. intros p Hp. eapply calm_trans; [by apply Hc|by apply Hc2].
  - destruct (list_or_empty_found _ _ _ _ Hd Hs E1) as [Hc _]. split; [done|].
    intros a ->. by destruct (Hr a).
Qed.

Lemma delete_present_prunes p : prunes (at_path p) (delete_present p).
Proof.
  intros s r s' _ E. assert (∀ q, ¬ at_path p q → calm s s' q) as Hc.
  { assert (touches (at_path p) (delete_present p)) as Ht.
    { unfold delete_present. touch. apply touches_delete. }
    eauto. }
  split; [done|]. intros a ->. unfold delete_present in E. apply try_inv in E as (r0&s0&E0&E).
  assert (s0 = s') as ->.
  { destruct r0 as [|e|]; [|destruct (is_not_found e)|]; by injection E. }
  apply map_subseteq_spec. intros q b Hq. destruct (decide (at_path p q)) as [Hp|Hp].
  - pose proof (disk_delete _ _ _ _ _ Hp E0) as Hd.
    destruct r0 as [|e|]; [congruence|destruct (is_not_found e); [|done]|done].
    rewrite Hd in Hq by done. done.
  - by rewrite <-(proj1 (Hc q Hp)).
Qed.

(** ** What the recovery of staging leftovers deletes *)

Definition intents_dir (table : string) : string := table +:+ "/_staging/intents".
(** A leftover intent lists [p], which the current snapshot does not use. *)
Definition claimed (table : string) (referenced : gset string) (p : string) : Prop :=
  ∃ e d intent files f,
    e ∈ list_children fs0 (intents_dir table +:+ "/") ∧ fs0 !! e = Some d
    ∧ json_parse d = Some intent ∧ get_key "files" intent = Some (VArray files)
    ∧ VString f ∈ files ∧ f ∉ referenced ∧ at_path (table +:+ "/" +:+ f) p.
Definition swept (table : string) (latest_seq : u64) (referenced : gset string) (p : string) : Prop :=
  claimed table referenced p
  ∨ p ∈ list_children fs0 (intents_dir table +:+ "/")
  ∨ (∃ d, d ∈ ["_staging/incoming"; "_staging/compact"]
          ∧ p ∈ list_children fs0 ((table +:+ "/" +:+ d) +:+ "/") ∧ ends_with ".part" p = true)
  ∨ (p ∈ list_children fs0 ((table +:+ "/_manifests") +:+ "/") ∧ orphan_manifest latest_seq p = true).

Context (Htidy : tidy fs0).
Lemma listed_at n e p : e ∈ list_children fs0 n → at_path e p → p = e.
Proof. intros He. apply at_clean. by eapply child_clean. Qed.

Lemma discard_intended_prunes table referenced intent T :
  (∀ files f p, get_key "files" intent = Some (VArray files) → VString f ∈ files → f ∉ referenced →
     at_path (table +:+ "/" +:+ f) p → T p) →
  prunes T (discard_intended table referenced intent).
Proof.
  intros HT. unfold discard_intended.
  assert (prunes T (m_ret (St:=St) tt)) as Hret by apply prunes_nothing, touches_ret.
  destruct (get_key _ intent) as [[| | | |files|]|] eqn:Ef; [done..| |done|done].
  apply prunes_fold. intros _ file Hin. destruct file as [| | |f| |]; try done.
  case_bool_decide; [done|]. eapply prunes_mono; [|apply delete_present_prunes]. eauto.
Qed.
Lemma clean_intent_prunes table latest_seq referenced e :
  e ∈ list_children fs0 (intents_dir table +:+ "/") →
  prunes (swept table latest_seq referenced) (clean_intent table referenced e).
Proof.
  intros He. unfold clean_intent. case_match; [apply prunes_nothing, touches_ret|].
  assert (clean e) as Hc by by eapply child_clean.
  apply (prunes_read _ e e); [by apply clean_validate|apply prunes_nothing, touches_ret|].
  intros d Hd. apply prunes_bind.
  - destruct (json_parse d) as [intent|] eqn:Ep; [|apply prunes_nothing, touches_ret].
    apply discard_intended_prunes. intros files f p Hf Hin Hr Hp. left. by exists e, d, intent, files, f.
  - intros _. eapply prunes_mono; [|apply delete_present_prunes].
    intros p Hp. right; left. by rewrite (listed_at _ _ _ He Hp).
Qed.
Lemma delete_listed_prunes T n e (b : bool) :
  e ∈ list_children fs0 n → (b = true → T e) →
  prunes T (if b then delete_present e else m_ret (St:=St) tt).
Proof.
  intros He HT. destruct b; [|apply prunes_nothing, touches_ret].
  eapply prunes_mono; [|apply delete_present_prunes]. intros p Hp.
  rewrite (listed_at _ _ _ He Hp). auto.
Qed.

(** Recovery deletes leftover intents, what they claim, staged parts and
    manifests beyond the current one, and nothing else. *)
Lemma cleanup_staging_prunes table latest_seq referenced :
  clean table →
  prunes (swept table latest_seq referenced) (cleanup_staging table latest_seq referenced).
Proof.
  intros Ht. unfold cleanup_staging, clean_parts, clean_manifests.
  assert (∀ d, clean d → clean (table +:+ "/" +:+ d)) as Hd by (intros; by apply clean_join).
  apply (prunes_entries _ (table +:+ "/" +:+ "_staging/intents")); [apply Hd; by apply clean_bool|].
  intros l Hl. apply prunes_bind.
  { apply prunes_fold. intros _ e He. apply clean_intent_prunes. by apply Hl. }
  assert (∀ dir, dir ∈ ["_staging/incoming"; "_staging/compact"] →
    prunes (swept table latest_seq referenced) (clean_parts (table +:+ "/" +:+ dir))) as Hparts.
  { intros dir Hdir. apply prunes_entries.
    - apply Hd. repeat (apply elem_of_cons in Hdir as [->|Hdir]; [by apply clean_bool|]).
      by apply elem_of_nil in Hdir.
    - intros l' Hl'. apply prunes_fold. intros _ e He. eapply delete_listed_prunes; [by apply Hl'|].
      intros Hp. right; right; left. exists dir. split; [done|]. split; [by apply Hl'|done]. }
  intros _. apply prunes_bind; [apply (Hparts "_staging/incoming"); set_solver|].
  intros _. apply prunes_bind; [apply (Hparts "_staging/compact"); set_solver|].
  intros _. apply (prunes_entries _ (table +:+ "/" +:+ "_manifests")); [apply Hd; by apply clean_bool|].
  intros l' Hl'. apply prunes_fold. intros _ e He. eapply delete_listed_prunes; [by apply Hl'|].
  intros Ho. right; right; right. split; [by apply Hl'|done].
Qed.
End prune.

(** ** The snapshot a commit starts from *)

Section current.
Context `{!Sha256, !SerdeJson, !SerdeJsonLaws, !HashOrder, !Hex, !Rkyv}
  {St : Type} `{!Storage St, !DiskState St, !DiskLaws St}.
Implicit Types s : St.

(** The pointer says [n], manifest [n] is [m] and verifies, no mutation is
    pending in the log. *)
Record pointed (fs : gmap string bytes) (table : string) (n : u64) (m : Manifest) : Prop := {
  pt_table : clean table;
  pt_seq : 0 < n ∧ n + 1 < 2 ^ 64;
  pt_pointer : fs !! pointer_path table = Some (pointer_bytes n);
  pt_manifest : fs !! manifest_path table n ≫= from_slice = Some m;
  pt_checksum : verify_checksum m = true;
  pt_sequence : mf_sequence m = n;
  pt_log : fs !! wal_path table = None;
}.

Lemma pointer_parses n :
  in_u64 n → ∃ p, json_parse (pointer_bytes n) = Some p ∧ get_key "latest" p ≫= as_u64 = Some n.
Proof.
  intros Hn. exists (VObject [("latest", VNumber (PosInt n))]). unfold pointer_bytes.
  rewrite json_parse_to_vec; [by split| |by repeat constructor].
  apply obj_wf_value; split; repeat constructor; apply Hn.
Qed.

(** An operation that leaves the files alone, on success with this value. *)
Definition fetches {A} (m : M St A) s (a : A) : Prop :=
  ∀ r s', m s = (r, s') → (∀ p, calm s s' p) ∧ ∀ a', r = Ok a' → a' = a.
Lemma fetches_bind {A B} (m : M St A) (f : A → M St B) s a b :
  fetches m s a → (∀ s1, (∀ p, calm s s1 p) → fetches (f a) s1 b) → fetches (m_bind m f) s b.
Proof.
  intros Hm Hf r s' [(a1&s1&E1&E2)|(r1&E1&Hr1&Hr)]%bind_cases.
  - destruct (Hm _ _ E1) as [Hc Ha]. rewrite (Ha a1 eq_refl) in E2.
    destruct (Hf s1 Hc _ _ E2) as [Hc2 Hb]. split; [|done]. intros p. by eapply calm_trans.
  - destruct (Hm _ _ E1) as [Hc _]. split; [done|]. intros a' ->. by destruct (Hr a').
Qed.
Lemma fetches_lift {A} (r : res A) s a : (∀ a', r = Ok a' → a' = a) → fetches (m_lift r) s a.
Proof. intros Hr r' s' [= <- <-]. split; [intros p; apply calm_refl|done]. Qed.
Lemma fetches_ret {A} (a : A) s : fetches (m_ret a) s a.
Proof. apply (fetches_lift (Ok a)). by intros a' [= ->]. Qed.
Lemma fetches_read p q s b : at_path p q → disk_files s !! q = Some b → fetches (st_read p) s b.
Proof.
  intros Hp Hb r s' E. split; [intros p'; by eapply touches_nowhere_calm; [apply touches_read|]|].
  intros a' ->. pose proof (disk_read _ _ _ _ _ Hp E) as Hd. simpl in Hd. congruence.
Qed.

Lemma fetches_try {A B} (m : M St A) (f : res A → M St B) s b :
  touches nowhere m →
  (∀ r s1, m s = (r, s1) → (∀ p, calm s s1 p) → fetches (f r) s1 b) → fetches (m_try m f) s b.
Proof.
  intros Hm Hf r s' (r0&s0&E0&E)%try_inv.
  assert (∀ p, calm s s0 p) as Hc by (intros p; by eapply touches_nowhere_calm).
  destruct (Hf _ _ E0 Hc _ _ E) as [Hc' Hb]. split; [|done]. intros p. by eapply calm_trans.
Qed.
Lemma fetches_err {A} (e : error) s (a : A) : fetches (m_lift (Err e)) s a.
Proof. by apply fetches_lift. Qed.
Lemma fetches_panic {A} s (a : A) : fetches (m_lift Panic) s a.
Proof. by apply fetches_lift. Qed.

(** A validated manifest that is known to be there. *)
Lemma validated_fetches table n m s :
  clean table → disk_files s !! manifest_path table n ≫= from_slice = Some m →
  verify_checksum m = true → fetches (read_manifest_validated (manifest_path table n)) s m.
Proof.
  intros Ht Hm Hc. destruct (disk_files s !! manifest_path table n) as [b|] eqn:Eb; [|done].
  cbn in Hm. unfold read_manifest_validated. eapply fetches_bind.
  - by apply (fetches_read _ (manifest_path table n)); [apply clean_validate, manifest_path_clean|].
  - intros s1 _. apply (fetches_bind _ _ _ m); [|intros s2 _; rewrite Hc; apply fetches_ret].
    apply fetches_lift. intros a' Ha. unfold parse_manifest in Ha. rewrite Hm in Ha. by injection Ha.
Qed.
Lemma load_pointed_fetches table n m s :
  clean table → disk_files s !! manifest_path table n ≫= from_slice = Some m →
  verify_checksum m = true → fetches (load_pointed table n) s (n, m).
Proof.
  intros Ht Hm Hc r s' (r1&s1&E1&E)%try_inv.
  destruct (validated_fetches table n m s Ht Hm Hc _ _ E1) as [Hc1 Hv].
  destruct r1 as [m1|e|]; [|destruct (is_not_found e)|]; injection E as <- <-; (split; [done|]); try done.
  intros x [= <-]. by rewrite (Hv m1 eq_refl).
Qed.
Lemma load_checkpoint_fetches table n m s :
  pointed (disk_files s) table n m → fetches (load_checkpoint_manifest table) s (n, m).
Proof.
  intros [Ht [Hn0 Hn1] Hp Hm Hc Hs Hl]. unfold load_checkpoint_manifest.
  assert (at_path (pointer_path table) (pointer_path table)) as Hpp
    by by apply clean_validate, pointer_path_clean.
  apply (fetches_bind _ _ _ true).
  { intros r s' E. split; [intros p; by eapply touches_nowhere_calm; [apply touches_exists|]|].
    intros b ->. rewrite (disk_exists _ _ _ _ _ Hpp E), Hp. by apply bool_decide_eq_true. }
  intros s1 Hc1. cbn [negb]. apply fetches_try; [apply touches_read|]. intros r s2 Er Hc2.
  assert (disk_files s1 !! pointer_path table = Some (pointer_bytes n)) as Hp1 by by eapply calm_file.
  pose proof (disk_read _ _ _ _ _ Hpp Er) as Hd. destruct r as [d|e|]; [| |apply fetches_panic].
  - assert (d = pointer_bytes n) as -> by congruence.
    destruct (pointer_parses n) as (p&->&->); [unfold in_u64; lia|].
    destruct (Z.eqb_spec n 0); [lia|]. apply load_pointed_fetches; [done| |done].
    rewrite (proj1 (Hc2 _)), (proj1 (Hc1 _)). done.
  - destruct (is_not_found e); [|apply fetches_err]. rewrite Hd in Hp1 by done. done.
Qed.
Lemma load_current_fetches table n m s :
  pointed (disk_files s) table n m → fetches (load_current_manifest table) s (n, m).
Proof.
  intros Hpt. unfold load_current_manifest. eapply fetches_bind; [by apply load_checkpoint_fetches|].
  destruct Hpt as [Ht [Hn0 Hn1] Hp Hm Hc Hs Hl].
  intros s1 Hc1. destruct (Z.eqb_spec n 0); [lia|].
  apply (fetches_bind _ _ _ m); [|intros s2 _; rewrite Hs; apply fetches_ret].
  unfold live_manifest. apply (fetches_bind _ _ _ []); [|intros; apply fetches_ret].
  apply fetches_try; [apply touches_read|]. intros r s2 Er Hc2.
  pose proof (disk_read _ _ _ _ _ (clean_validate _ (wal_path_clean table Ht)) Er) as Hd.
  assert (disk_files s1 !! wal_path table = None) as Hl1 by by eapply calm_file.
  destruct r as [b|e|]; [congruence| |apply fetches_panic].
  destruct (is_not_found e); [apply fetches_ret|apply fetches_err].
Qed.
End current.

(** ** The files of one commit *)

(** What a delete on top of [m] writes while it stages its changes, and while it
    publishes them, before it swaps the pointer. *)
Inductive staging (table : string) (m : Manifest) (next_seq : u64) : string → Prop :=
  | sc_deletions_keep : staging table m next_seq ((table +:+ "/_deletions") +:+ "/.keep")
  | sc_deletion e v : e ∈ mf_row_groups m → next_version e = Ok v →
      staging table m next_seq (table +:+ "/" +:+ del_path (rg_fragment_id e) v)
  | sc_tombstone name : is_Some (mf_index_generations m !! name) →
      staging table m next_seq (table +:+ "/" +:+ TombstoneDelta_versioned_filename name next_seq)
  | sc_tombstone_tmp name : is_Some (mf_index_generations m !! name) →
      staging table m next_seq
        ((table +:+ "/" +:+ TombstoneDelta_versioned_filename name next_seq) +:+ ".tmp").
Inductive publishing (table : string) (next_seq : u64) (txn_id : string) : string → Prop :=
  | sc_intent : publishing table next_seq txn_id (intent_path table txn_id)
  | sc_checkpoints_keep : publishing table next_seq txn_id ((table +:+ "/_checkpoints") +:+ "/.keep")
  | sc_part : publishing table next_seq txn_id (checkpoint_part_path table next_seq)
  | sc_checkpoint : publishing table next_seq txn_id (table +:+ "/" +:+ SnapshotCheckpoint_filename next_seq)
  | sc_archive : publishing table next_seq txn_id (table +:+ "/" +:+ archive_filename next_seq)
  | sc_archive_tmp : publishing table next_seq txn_id ((table +:+ "/" +:+ archive_filename next_seq) +:+ ".tmp")
  | sc_manifest : publishing table next_seq txn_id (manifest_path table next_seq)
  | sc_manifest_tmp : publishing table next_seq txn_id (manifest_path table next_seq +:+ ".tmp")
  | sc_pointer_tmp : publishing table next_seq txn_id (pointer_path table +:+ ".tmp").

Section scratch.
Context `{!Sha256, !SerdeJson, !HashOrder, !Hex, !HexEncode, !Rkyv} {B : Type} `{!RoaringBitmap B}
  {St : Type} `{!Storage St, !DiskState St, !DiskLaws St}.
Context (table : string) (m : Manifest) (next_seq : u64) (txn_id : string).
Implicit Types s : St.

(** The paths that raw paths denote. *)
Definition at_any (own : string → Prop) (p : string) : Prop := ∃ raw, own raw ∧ at_path raw p.
Lemma own_write (own : string → Prop) p d : own p → touches (at_any own) (st_write (St:=St) p d).
Proof. intros Hp. eapply touches_mono; [|apply touches_write]. intros q ?. by exists p. Qed.
Lemma own_delete (own : string → Prop) p : own p → touches (at_any own) (st_delete (St:=St) p).
Proof. intros Hp. eapply touches_mono; [|apply touches_delete]. intros q ?. by exists p. Qed.
Lemma own_rename (own : string → Prop) p p' :
  own p → own p' → touches (at_any own) (st_rename (St:=St) p p').
Proof.
  intros Hp Hp'. eapply touches_mono; [|apply touches_rename].
  intros q [?|?]; [by exists p|by exists p'].
Qed.
Hint Resolve own_write own_delete own_rename : touches.
Hint Constructors staging publishing : touches.
Notation staging_paths := (at_any (staging table m next_seq)).
Notation publishing_paths := (at_any (publishing table next_seq txn_id)).

Lemma touches_best_effort {A} T (x : M St A) : touches T x → touches T (best_effort x).
Proof. intros. unfold best_effort. by touch. Qed.
Lemma touches_list_or_empty T dir : touches T (list_or_empty (St:=St) dir).
Proof. unfold list_or_empty. touch. Qed.
Lemma touches_read_present T p : touches T (read_present (St:=St) p).
Proof. unfold read_present. touch. Qed.
Lemma touches_sync_dir_present T p : touches T (sync_dir_present (St:=St) p).
Proof. unfold sync_dir_present. touch. Qed.
Lemma ensure_dir_touches own p : own (p +:+ "/.keep") → touches (at_any own) (ensure_dir (St:=St) p).
Proof.
  intros Hp. unfold ensure_dir. touch. apply touches_best_effort. by apply own_delete.
Qed.
Hint Resolve touches_best_effort touches_list_or_empty touches_read_present touches_sync_dir_present
  ensure_dir_touches : touches.

Lemma append_tombstones_touches name ids r durable :
  is_Some (mf_index_generations m !! name) →
  touches staging_paths (append_tombstones (St:=St) table name ids next_seq r durable).
Proof. intros Hn. unfold append_tombstones, write_delta, write_renamed. touch. Qed.
Lemma tombstone_index_touches wal ids gens paths arts ne :
  (is_Some (gens !! ne.1) → is_Some (mf_index_generations m !! ne.1)) →
  touches staging_paths (tombstone_index (St:=St) table wal ids next_seq (gens, paths, arts) ne).
Proof.
  intros Hn. unfold tombstone_index. destruct ne as [name entry]. cbn in Hn.
  touch. apply append_tombstones_touches. eauto.
Qed.
Lemma existing_dv_touches T e : touches T (existing_dv (B:=B) (St:=St) table e).
Proof. unfold existing_dv. touch. Qed.
Lemma delete_fragment_touches wal by_fragment acc e :
  e ∈ mf_row_groups m →
  touches staging_paths (delete_fragment (B:=B) (St:=St) table wal by_fragment acc e).
Proof.
  intros He. unfold delete_fragment. destruct acc as [[rgs paths] arts]. touch.
  apply existing_dv_touches.
Qed.

Lemma write_intent_touches started schema_id l :
  touches publishing_paths (write_intent (St:=St) (intent_path table txn_id) txn_id started schema_id l).
Proof. unfold write_intent. touch. Qed.
Lemma build_checkpoint_touches T cached m' :
  touches T (build_snapshot_checkpoint (St:=St) cached table m m').
Proof.
  unfold build_snapshot_checkpoint, previous_summaries, fragment_summary, fragment_meta. touch.
Qed.
Lemma touches_and_ok {A} T (x : M St A) k : touches T x → touches T k → touches T (and_ok x k).
Proof. intros. unfold and_ok. by touch. Qed.
Lemma write_archive_touches c : touches publishing_paths (write_archive (St:=St) table c next_seq).
Proof. unfold write_archive. touch; repeat apply touches_and_ok; touch. Qed.
Lemma write_checkpoint_touches local c l started schema_id :
  touches publishing_paths (write_checkpoint (St:=St) local table c next_seq (intent_path table txn_id) l txn_id
                       started schema_id).
Proof.
  unfold write_checkpoint. touch; first [apply write_intent_touches | apply write_archive_touches].
Qed.
Lemma finalize_touches T now m' seq : touches T (finalize_manifest (St:=St) table now m' seq).
Proof. unfold finalize_manifest, parent_manifest_checksum. touch. Qed.
Lemma publish_manifest_touches m' on_mismatch :
  touches publishing_paths on_mismatch → touches publishing_paths (publish_manifest (St:=St) table next_seq m' on_mismatch).
Proof.
  intros Hg. unfold publish_manifest, write_manifest_tmp, verify_manifest_checksum.
  fold (manifest_path table next_seq). touch.
Qed.
End scratch.
