(* ===== verification/FaultyDisk.v ===== *)
(** * A disk that fails and loses power, concretely

    A storage for [DiskLaws]: the files a reader sees, what the medium may hold
    instead, the files whose content has not been flushed, the locks taken, and
    what will go wrong, one entry per operation.  Once the list of faults is
    used up the disk is reliable. *)

From S2P Require Import Prelude Bytes StableSort Text OrdMap Storage Disk CommitSafe.
From Stdlib Require Import Ascii String.

#[local] Open Scope list_scope.
#[local] Open Scope Z_scope.

(** What happens to an operation: nothing wrong, an error and no effect, an error
    after the effect, an error after a part of the data was written. *)
Inductive Fault := Fine | Refused | Unacknowledged | Torn (k : nat).

(** [fd_stale p]: what [p] may hold instead because its directory has not been
    synced; [fd_dirty]: the files whose content has not been flushed, which may
    hold anything; [fd_torn]: the paths where such a file was and may be again. *)
Record FaultyDisk := mkDisk {
  fd_files : gmap string bytes;
  fd_stale : gmap string (list (option bytes));
  fd_torn : gset string;
  fd_dirty : gset string;
  fd_locks : gset string;
  fd_faults : list Fault;
}.

Definition stale_at (d : FaultyDisk) (p : string) : list (option bytes) := default [] (fd_stale d !! p).
#[export] Instance FaultyDisk_state : DiskState FaultyDisk := {
  disk_files := fd_files;
  disk_after d p o := o = fd_files d !! p ∨ o ∈ stale_at d p ∨ p ∈ fd_torn d ∨ p ∈ fd_dirty d;
  disk_flushed d p := p ∉ fd_dirty d;
  reliable d := fd_faults d = [];
}.

(** [p] now holds [o]; what it held is stale. *)
Definition put_file (p : string) (o : option bytes) (dirty : bool) (d : FaultyDisk) : FaultyDisk :=
  mkDisk (match o with Some b => <[p := b]> (fd_files d) | None => delete p (fd_files d) end)
    (<[p := fd_files d !! p :: stale_at d p]> (fd_stale d))
    (if bool_decide (p ∈ fd_dirty d) then {[p]} ∪ fd_torn d else fd_torn d)
    (if dirty then {[p]} ∪ fd_dirty d else fd_dirty d ∖ {[p]})
    (fd_locks d) (fd_faults d).
Definition next_fault (d : FaultyDisk) : Fault * FaultyDisk :=
  (hd Fine (fd_faults d),
   mkDisk (fd_files d) (fd_stale d) (fd_torn d) (fd_dirty d) (fd_locks d) (tail (fd_faults d))).
Definition io_error : error := Io "I/O error".

(** An operation that only looks. *)
Definition fd_look {A} (path : string) (f : string → FaultyDisk → res A) : M FaultyDisk A :=
  let! q := m_lift (validate_path path) in
  λ d, let (fault, d) := next_fault d in
       match fault with Fine => (f q d, d) | _ => (Err io_error, d) end.
(** An operation that changes something, all of it or up to a fault. *)
Definition fd_change {A} (f : option nat → FaultyDisk → res A * FaultyDisk) : M FaultyDisk A :=
  λ d, let (fault, d) := next_fault d in
       match fault with
       | Fine => f None d
       | Refused => (Err io_error, d)
       | Unacknowledged => (Err io_error, (f None d).2)
       | Torn k => (Err io_error, (f (Some k) d).2)
       end.
Definition cut (k : option nat) (b : bytes) : bytes :=
  match k with Some k => firstn k b | None => b end.

Definition fd_write (path : string) (b : bytes) : M FaultyDisk unit :=
  let! q := m_lift (validate_path path) in
  fd_change (λ k d, (Ok tt, put_file q (Some (cut k b)) true d)).
Definition fd_append (path : string) (b : bytes) : M FaultyDisk unit :=
  let! q := m_lift (validate_path path) in
  fd_change (λ k d, (Ok tt, put_file q (Some (default [] (fd_files d !! q) ++ cut k b)) true d)).
Definition fd_delete (path : string) : M FaultyDisk unit :=
  let! q := m_lift (validate_path path) in
  fd_change (λ _ d, match fd_files d !! q with
                    | Some _ => (Ok tt, put_file q None false d)
                    | None => (Err (NotFound q), d)
                    end).
Definition fd_rename (from to : string) : M FaultyDisk unit :=
  let! q := m_lift (validate_path from) in
  let! q' := m_lift (validate_path to) in
  fd_change (λ _ d, match fd_files d !! q with
                    | Some b => (Ok tt, put_file q' (Some b) (bool_decide (q ∈ fd_dirty d))
                                          (put_file q None false d))
                    | None => (Err (NotFound q), d)
                    end).
Definition fd_list (path : string) : M FaultyDisk (list string) :=
  fd_look path (λ q d,
    if decide (list_children (fd_files d) (q +:+ "/") = []) then Err (NotFound path)
    else Ok (list_children (fd_files d) (q +:+ "/"))).
(** The content of the file, or nothing for a directory, reaches the medium. *)
Definition flush (q : string) (d : FaultyDisk) : FaultyDisk :=
  mkDisk (fd_files d) (fd_stale d) (fd_torn d) (fd_dirty d ∖ {[q]}) (fd_locks d) (fd_faults d).
Definition fd_sync_data (path : string) : M FaultyDisk unit :=
  let! q := m_lift (validate_path path) in fd_change (λ _ d, (Ok tt, flush q d)).
(** The names in the directory [q] reach the medium. *)
Definition sync_names (q : string) (d : FaultyDisk) : FaultyDisk :=
  mkDisk (fd_files d)
    (filter (λ kv, child_of (q +:+ "/") kv.1 ≠ Some kv.1) (fd_stale d))
    (filter (λ p, child_of (q +:+ "/") p ≠ Some p) (fd_torn d))
    (fd_dirty d) (fd_locks d) (fd_faults d).
Definition fd_sync (path : string) : M FaultyDisk unit :=
  let! q := m_lift (validate_path path) in fd_change (λ _ d, (Ok tt, sync_names q d)).
Definition fd_lock (path : string) : M FaultyDisk string :=
  let! q := m_lift (validate_path path) in
  fd_change (λ _ d,
    if decide (q ∈ fd_locks d) then (Err (LockTimeout q), d)
    else (Ok q, mkDisk (fd_files d) (fd_stale d) (fd_torn d) (fd_dirty d) ({[q]} ∪ fd_locks d)
                  (fd_faults d))).
Definition fd_unlock (q : string) (d : FaultyDisk) : FaultyDisk :=
  mkDisk (fd_files d) (fd_stale d) (fd_torn d) (fd_dirty d) (fd_locks d ∖ {[q]}) (fd_faults d).

#[export] Instance FaultyDisk_Storage : Storage FaultyDisk := {
  st_read p := fd_look p (λ q d, read_result (fd_files d) q);
  st_size p := fd_look p (λ q d, let? b := read_result (fd_files d) q in Ok (len b));
  st_read_range p offset length :=
    fd_look p (λ q d, let? b := read_result (fd_files d) q in slice b offset (offset + length));
  st_write := fd_write; st_append := fd_append; st_delete := fd_delete; st_rename := fd_rename;
  st_list := fd_list;
  st_exists p := fd_look p (λ q d, Ok (bool_decide (is_Some (fd_files d !! q))));
  st_sync := fd_sync; st_sync_data := fd_sync_data; st_sync_root := m_ret tt;
  st_lock_exclusive := fd_lock; st_unlock := fd_unlock;
}.

(** ** The laws *)

Lemma same_calm (d d' : FaultyDisk) p :
  fd_files d' !! p = fd_files d !! p → stale_at d' p = stale_at d p →
  (p ∈ fd_torn d' → p ∈ fd_torn d) → (p ∈ fd_dirty d' → p ∈ fd_dirty d) → calm d d' p.
Proof.
  intros Ef Es Et Ed. split; [done|]. split; [naive_solver|]. intros o. cbn. rewrite Ef, Es. tauto.
Qed.
Lemma put_file_calm p o b d q : q ≠ p → calm d (put_file p o b d) q.
Proof.
  intros Hq. apply same_calm; cbn.
  - destruct o; [by rewrite lookup_insert_ne|by rewrite lookup_delete_ne].
  - unfold stale_at. cbn. by rewrite lookup_insert_ne.
  - case_match; [|done]. rewrite elem_of_union, elem_of_singleton. tauto.
  - destruct b; rewrite ?elem_of_union, ?elem_of_difference, elem_of_singleton; tauto.
Qed.
Lemma fd_look_touches {A} p (f : string → FaultyDisk → res A) : touches nowhere (fd_look p f).
Proof.
  apply touches_bind; [apply touches_pure|]. intros q d r d' E x _. unfold next_fault in E.
  destruct (hd Fine (fd_faults d)); injection E as _ <-; by apply same_calm.
Qed.
(** What a changing operation does, whatever goes wrong with it. *)
Lemma fd_change_cases {A} (f : option nat → FaultyDisk → res A * FaultyDisk) d r d' :
  fd_change f d = (r, d') →
  let d1 := (next_fault d).2 in
  (r = Err io_error ∧ (d' = d1 ∨ ∃ k, d' = (f k d1).2)) ∨ f None d1 = (r, d').
Proof.
  unfold fd_change, next_fault. destruct (hd Fine (fd_faults d)); cbn [snd]; intros E; [by right|..];
    injection E as <- <-; left; (split; [done|]); eauto.
Qed.
Lemma next_fault_calm d q : calm d (next_fault d).2 q.
Proof. by apply same_calm. Qed.
Lemma fd_change_touches {A} (T : string → Prop) p (f : string → option nat → FaultyDisk → res A * FaultyDisk) :
  (∀ q k d x, at_path p q → ¬ T x → calm d (f q k d).2 x) →
  touches T (let! q := m_lift (validate_path p) in fd_change (f q)).
Proof.
  intros Hf. apply touches_bind_lift. intros q Hq d r d' E x Hx.
  apply fd_change_cases in E as [[_ [->|[k ->]]]|E]; [apply next_fault_calm|..];
    (eapply calm_trans; [apply next_fault_calm|]); [by apply Hf|].
  rewrite <-(f_equal snd E : (f q None (next_fault d).2).2 = d'). by apply Hf.
Qed.
Lemma rename_calm q q' d x :
  x ≠ q → x ≠ q' →
  calm d (match fd_files d !! q with
          | Some b => (Ok tt, put_file q' (Some b) (bool_decide (q ∈ fd_dirty d)) (put_file q None false d))
          | None => (Err (NotFound q), d)
          end).2 x.
Proof.
  intros Hq Hq'. destruct (fd_files d !! q); cbn [snd]; [|apply calm_refl].
  eapply calm_trans; by apply put_file_calm.
Qed.
Lemma fd_look_inv {A} p q (f : string → FaultyDisk → res A) d r d' :
  at_path p q → fd_look p f d = (r, d') → (r = Err io_error ∨ r = f q (next_fault d).2).
Proof.
  unfold fd_look, m_bind, m_lift. intros ->. unfold next_fault.
  destruct (hd Fine (fd_faults d)); intros [= <- _]; auto.
Qed.
Lemma sync_names_calm q d x : calm d (sync_names q d) x.
Proof.
  split; [done|]. split; [done|]. intros o. cbn. intros [?|[Hs|[Ht|Hd]]]; [auto|left; right..].
  - left. unfold stale_at in *. cbn in Hs. destruct (filter _ _ !! x) eqn:E; [|by apply elem_of_nil in Hs].
    apply map_lookup_filter_Some in E as [-> _]. done.
  - right; left. by apply elem_of_filter in Ht as [_ ?].
  - by right; right.
Qed.
(** An operation that succeeded met no fault. *)
Lemma fd_change_Ok {A} p q (f : string → option nat → FaultyDisk → res A * FaultyDisk) d a d' :
  at_path p q → (let! q := m_lift (validate_path p) in fd_change (f q)) d = (Ok a, d') →
  f q None (next_fault d).2 = (Ok a, d').
Proof. unfold m_bind, m_lift. intros ->. by intros [[? _]|E]%fd_change_cases. Qed.
Lemma put_file_at p o b d : fd_files (put_file p o b d) !! p = o.
Proof. destruct o; cbn; [by rewrite lookup_insert_eq|by rewrite lookup_delete_eq]. Qed.
Lemma put_file_ne p o b d q : q ≠ p → fd_files (put_file p o b d) !! q = fd_files d !! q.
Proof. intros Hq. apply (put_file_calm p o b d q Hq). Qed.
Lemma put_file_dirty p o b d : p ∈ fd_dirty (put_file p o b d) ↔ b = true.
Proof. destruct b; cbn; [set_solver|]. split; [set_solver|done]. Qed.
Lemma put_file_stale p o b d : stale_at (put_file p o b d) p = fd_files d !! p :: stale_at d p.
Proof. unfold stale_at at 1. cbn. by rewrite lookup_insert_eq. Qed.

(** What a rename does when the file is there. *)
Lemma renamed_files q q' b d (d' := put_file q' (Some b) (bool_decide (q ∈ fd_dirty d)) (put_file q None false d)) :
  q ≠ q' → fd_files d !! q = Some b →
  fd_files d' !! q' = fd_files d !! q ∧ fd_files d' !! q = None
  ∧ (q ∉ fd_dirty d → q' ∉ fd_dirty d'
     ∧ ∀ o, disk_after d' q' o → disk_after d q' o ∨ o = fd_files d !! q' ∨ o = fd_files d !! q).
Proof.
  intros Hne Hb. subst d'. rewrite put_file_at, (put_file_ne q') by done. rewrite put_file_at. split; [done|].
  split; [done|]. intros Hd. rewrite bool_decide_eq_false_2 by done. rewrite put_file_dirty. split; [done|].
  intros o. unfold disk_after. cbn [FaultyDisk_state]. rewrite put_file_at, put_file_stale, put_file_ne by done.
  assert (stale_at (put_file q None false d) q' = stale_at d q') as ->
    by (unfold stale_at; cbn; by rewrite lookup_insert_ne).
  rewrite elem_of_cons. rewrite put_file_dirty.
  intros [->|[[->|Hs]|[Ht|?]]]; [by right; right|by right; left|by left; right; left| |done].
  left. right; right. cbn in Ht. rewrite (bool_decide_eq_false_2 (q ∈ fd_dirty d)) in Ht by done.
  case_bool_decide; set_solver.
Qed.
Lemma fd_rename_spec p q p' q' d r d' :
  at_path p q → at_path p' q' → q ≠ q' → fd_rename p p' d = (r, d') →
  (disk_files d' !! q' = disk_files d !! q' ∨ disk_files d' !! q' = disk_files d !! q)
  ∧ (disk_flushed d q → ∀ o, disk_after d' q' o →
      disk_after d q' o ∨ o = disk_files d !! q' ∨ o = disk_files d !! q)
  ∧ (r = Ok tt → is_Some (disk_files d !! q) ∧ disk_files d' !! q' = disk_files d !! q
      ∧ disk_files d' !! q = None ∧ (disk_flushed d q → disk_flushed d' q')).
Proof.
  intros Hp Hp' Hne E. unfold fd_rename, m_bind, m_lift in E. rewrite Hp, Hp' in E.
  assert (∀ d1, d1 = (next_fault d).2 → ∀ r1 d2,
    match fd_files d1 !! q with
    | Some b => (Ok tt, put_file q' (Some b) (bool_decide (q ∈ fd_dirty d1)) (put_file q None false d1))
    | None => (Err (NotFound q), d1)
    end = (r1, d2) →
    (disk_files d2 !! q' = disk_files d !! q' ∨ disk_files d2 !! q' = disk_files d !! q)
    ∧ (disk_flushed d q → ∀ o, disk_after d2 q' o →
        disk_after d q' o ∨ o = disk_files d !! q' ∨ o = disk_files d !! q)
    ∧ (r1 = Ok tt → is_Some (disk_files d !! q) ∧ disk_files d2 !! q' = disk_files d !! q
        ∧ disk_files d2 !! q = None ∧ (disk_flushed d q → disk_flushed d2 q'))) as Hmain.
  { intros d1 -> r1 d2 E1. change (fd_files (next_fault d).2) with (fd_files d) in E1.
    destruct (fd_files d !! q) as [b|] eqn:Eb; injection E1 as <- <-.
    - destruct (renamed_files q q' b (next_fault d).2 Hne Eb) as (Hf&Hn&Hd). cbn [disk_files disk_flushed FaultyDisk_state].
      split; [by right|]. split; [intros Hfl; apply Hd, Hfl|]. intros _. split; [by rewrite Eb|].
      split; [done|]. split; [done|]. intros Hfl. by apply Hd.
    - split; [by left|]. split; [by auto|done]. }
  apply fd_change_cases in E as [[-> [->|[k ->]]]|E].
  - split; [by left|]. split; [by auto|done].
  - destruct (Hmain _ eq_refl _ _ (surjective_pairing _)) as (Hf&Ha&_). by split.
  - by eapply Hmain.
Qed.

#[export] Instance FaultyDisk_laws : DiskLaws FaultyDisk.
Proof.
  constructor.
  - intros p. apply fd_look_touches.
  - intros p. apply fd_look_touches.
  - intros p. apply fd_look_touches.
  - intros p. apply fd_change_touches. intros q k d x _ _. apply sync_names_calm.
  - intros p. apply fd_change_touches. intros q k d x _ _. apply same_calm; cbn; [done..|set_solver].
  - intros p b. apply fd_change_touches. intros q k d x Hq Hx. apply put_file_calm. by intros ->.
  - intros p b. apply fd_change_touches. intros q k d x Hq Hx. apply put_file_calm. by intros ->.
  - intros p. apply fd_change_touches. intros q k d x Hq Hx.
    destruct (fd_files d !! q); [apply put_file_calm; by intros ->|apply calm_refl].
  - intros p p'. apply touches_bind_lift. intros q Hq. apply fd_change_touches. intros q' k d x Hq' Hx.
    apply rename_calm; intros ->; apply Hx; auto.
  - intros p. apply fd_change_touches. intros q k d x _ _. case_decide; by apply same_calm.
  - intros l d p. by apply same_calm.
  - intros p q d r d' Hp [-> | ->]%(fd_look_inv p q _ d r d' Hp); [done|]. unfold read_result. cbn.
    destruct (fd_files d !! q) eqn:E; cbn; congruence.
  - intros p q d b d' Hp [Hr|Hr]%(fd_look_inv _ q _ _ _ _ Hp); [done|by injection Hr].
  - intros p q d r d' Hp [-> | ->]%(fd_look_inv p q _ d r d' Hp); [done|]. cbn. by case_decide.
  - intros p q b d d' Hp E. apply (fd_change_Ok _ _ _ _ _ _ Hp) in E. injection E as <-. apply put_file_at.
  - intros p q b d d' Hp E. apply (fd_change_Ok _ _ _ _ _ _ Hp) in E. injection E as <-. apply put_file_at.
  - intros p q d r d' Hp E. cbn [st_delete FaultyDisk_Storage] in E. unfold fd_delete, m_bind, m_lift in E.
    rewrite Hp in E. apply fd_change_cases in E as [[-> _]|E]; [done|]. cbn in E.
    destruct (fd_files d !! q) eqn:Eq; injection E as <- <-; [|done]. apply put_file_at.
  - intros p q p' q' d r d'. apply fd_rename_spec.
  - intros p q d d' Hp E. apply (fd_change_Ok _ _ _ _ _ _ Hp) in E. injection E as <-. cbn. set_solver.
  - intros p q f d d' Hp Hf E Hfl o. apply (fd_change_Ok _ _ _ _ _ _ Hp) in E. injection E as <-.
    cbn in Hfl |- *. assert (child_of (q +:+ "/") (q +:+ "/" +:+ f) = Some (q +:+ "/" +:+ f)) as Hc
      by (rewrite string_app_assoc; by apply child_of_file, Hf).
    intros [->|[Hs|[Ht|Hd]]]; [done|exfalso..|done].
    + unfold stale_at in Hs. cbn in Hs. rewrite map_lookup_filter_None_2 in Hs by (right; naive_solver).
      by apply elem_of_nil in Hs.
    + by apply elem_of_filter in Ht as [? _].
Qed.

(** Without faults left nothing fails but for a missing target. *)
Lemma fd_change_fine {A} p q (f : string → option nat → FaultyDisk → res A * FaultyDisk) d :
  at_path p q → fd_faults d = [] →
  (let! q := m_lift (validate_path p) in fd_change (f q)) d = f q None d.
Proof.
  intros Hp Hd. unfold m_bind, m_lift. rewrite Hp. unfold fd_change, next_fault. rewrite Hd. cbn.
  destruct d; cbn in *; by subst.
Qed.
Lemma fd_look_fine {A} p q (f : string → FaultyDisk → res A) d :
  at_path p q → fd_faults d = [] → fd_look p f d = (f q d, d).
Proof.
  intros Hp Hd. unfold fd_look, m_bind, m_lift. rewrite Hp. unfold next_fault. rewrite Hd. cbn.
  destruct d; cbn in *; by subst.
Qed.
Ltac no_fault Hp Hd :=
  cbn [st_write st_append st_delete st_sync st_sync_data st_lock_exclusive FaultyDisk_Storage];
  unfold fd_write, fd_append, fd_delete, fd_sync, fd_sync_data, fd_lock;
  rewrite (fd_change_fine _ _ _ _ Hp Hd).
#[export] Instance FaultyDisk_reliable : ReliableDisk FaultyDisk.
Proof.
  constructor.
  - intros p q d Hp Hd. eexists. split; [by apply (fd_look_fine p q)|done].
  - intros p q d Hp Hd. eexists. split; [by apply (fd_look_fine p q)|done].
  - intros p q d Hp Hd. eexists. split; [by apply (fd_look_fine p q)|done].
  - intros p q b d Hp Hd. no_fault Hp Hd. by eexists.
  - intros p q b d Hp Hd. no_fault Hp Hd. by eexists.
  - intros p q d Hp Hd. no_fault Hp Hd. cbn. destruct (fd_files d !! q); by eexists.
  - intros p q p' q' d Hp Hp' Hd [b Hb]. cbn [disk_files FaultyDisk_state] in Hb.
    cbn [st_rename FaultyDisk_Storage]. unfold fd_rename. unfold m_bind at 1, m_lift at 1. rewrite Hp.
    rewrite (fd_change_fine p' q' _ d Hp' Hd), Hb. by eexists.
  - intros p q d Hp Hd. no_fault Hp Hd. by eexists.
  - intros p q d Hp Hd. no_fault Hp Hd. by eexists.
  - intros p q d Hp Hd. no_fault Hp Hd. case_decide; eexists _, _; (split; [done|]); auto.
  - done.
Qed.
