(* ===== verification/Total.v ===== *)
(** * Routines on a disk that works

    On a [ReliableDisk] every operation succeeds unless its target is missing.
    [total P m Q]: from a state that satisfies [P], [m] returns [Ok], with a
    result and in a state that satisfy [Q].  What is known of the files is a map
    [fs] that the disk agrees with on the paths [K]. *)

From S2P Require Import Prelude Bytes StableSort Text OrdMap Storage Gc SecondaryIndex Commit Disk CommitSafe.
From Stdlib Require Import Ascii String.

#[local] Open Scope list_scope.
#[local] Open Scope Z_scope.

Section total.
Context {St : Type} `{!Storage St, !DiskState St, !DiskLaws St, !ReliableDisk St}.
Implicit Types s : St.
Implicit Types K : string → Prop.
Implicit Types fs : gmap string bytes.

Definition total {A} (P : St → Prop) (m : M St A) (Q : A → St → Prop) : Prop :=
  ∀ s, reliable s → P s → ∃ a s', m s = (Ok a, s') ∧ reliable s' ∧ Q a s'.
(** The disk holds what [fs] says at the paths [K]. *)
Definition kept fs K s : Prop := ∀ p, K p → disk_files s !! p = fs !! p.

Lemma kept_calm fs K s s' : (∀ p, K p → calm s s' p) → kept fs K s → kept fs K s'.
Proof. intros Hc Hk p Hp. rewrite (proj1 (Hc p Hp)). by apply Hk. Qed.
Lemma kept_mono fs fs' K K' s :
  (∀ p, K' p → K p ∧ fs !! p = fs' !! p) → kept fs K s → kept fs' K' s.
Proof. intros HK Hs p Hp. destruct (HK p Hp) as [Hp' <-]. by apply Hs. Qed.

Lemma total_conseq {A} (P P' : St → Prop) (m : M St A) (Q Q' : A → St → Prop) :
  (∀ s, P' s → P s) → (∀ a s, Q a s → Q' a s) → total P m Q → total P' m Q'.
Proof. intros HP HQ Hm s Hr Hs. destruct (Hm s Hr) as (a&s'&?&?&?); naive_solver. Qed.
Lemma total_bind {A B} P (m : M St A) Q (f : A → M St B) R :
  total P m Q → (∀ a, total (Q a) (f a) R) → total P (m_bind m f) R.
Proof.
  intros Hm Hf s Hr Hs. destruct (Hm s Hr Hs) as (a&s1&E&Hr1&Ha).
  destruct (Hf a s1 Hr1 Ha) as (b&s2&E2&Hr2&Hb). exists b, s2. split; [|done]. unfold m_bind. by rewrite E.
Qed.
Lemma total_lift {A} (P : St → Prop) (r : res A) (Q : A → St → Prop) a :
  r = Ok a → (∀ s, P s → Q a s) → total P (m_lift r) Q.
Proof. intros -> HQ s Hr Hs. exists a, s. split; [done|]. auto. Qed.
Lemma total_ret {A} (P : St → Prop) (a : A) (Q : A → St → Prop) :
  (∀ s, P s → Q a s) → total P (m_ret a) Q.
Proof. by apply (total_lift _ (Ok a)). Qed.
(** A precondition that holds of the result of a step. *)
Lemma total_pre {A} (P : St → Prop) (R : Prop) (m : M St A) Q :
  (R → total P m Q) → total (λ s, R ∧ P s) m Q.
Proof. intros Hm s Hr [HR Hs]. by apply Hm. Qed.
Lemma total_try {A B} P (m : M St A) Q (f : res A → M St B) R :
  total P m Q → (∀ a, total (Q a) (f (Ok a)) R) → total P (m_try m f) R.
Proof.
  intros Hm Hf s Hr Hs. destruct (Hm s Hr Hs) as (a&s1&E&Hr1&Ha). unfold m_try. rewrite E. by apply (Hf a).
Qed.
(** A loop with an invariant of its accumulator. *)
Lemma total_fold {A B} (P : A → St → Prop) (f : A → B → M St A) xs :
  (∀ a x, x ∈ xs → total (P a) (f a x) P) → ∀ a, total (P a) (m_fold f a xs) P.
Proof.
  induction xs as [|x xs IH]; intros Hf a; cbn [m_fold]; [by apply total_ret|].
  eapply total_bind; [apply Hf; left|]. apply IH. intros. apply Hf. by right.
Qed.
Lemma total_fold_inv {A B} (I : A → St → Prop) (P : St → Prop) (f : A → B → M St A) xs a0 :
  (∀ s, P s → I a0 s) → (∀ a x, x ∈ xs → total (I a) (f a x) I) → total P (m_fold f a0 xs) I.
Proof. intros H0 Hf s Hr Hs. apply total_fold; [done|done|auto]. Qed.
(** The same for the parts of the state a routine touches. *)
Lemma total_touches {A} T fs K (m : M St A) (Q : A → Prop) :
  touches T m → (∀ p, K p → ¬ T p) → total (kept fs K) m (λ a _, Q a) →
  total (kept fs K) m (λ a s, Q a ∧ kept fs K s).
Proof.
  intros Ht HK Hm s Hr Hs. destruct (Hm s Hr Hs) as (a&s'&E&Hr'&Ha). exists a, s'.
  split; [done|]. split; [done|]. split; [done|]. eapply kept_calm; [|done]. intros p Hp. by eapply Ht; [|auto].
Qed.

(** ** The operations *)

Lemma total_read p b fs K :
  clean p → K p → fs !! p = Some b → total (kept fs K) (st_read p) (λ b' s, b' = b ∧ kept fs K s).
Proof.
  intros Hc HK Hb. eapply total_touches; [apply touches_read|by intros ???|]. intros s Hr Hs.
  destruct (rel_read p p s (clean_validate _ Hc) Hr) as (s'&E&Hr').
  unfold read_result in E. rewrite (Hs p HK), Hb in E. by exists b, s'.
Qed.
Lemma total_read_known {B} p fs K (f : res bytes → M St B) R :
  clean p → K p → total (kept fs K) (f (read_result fs p)) R → total (kept fs K) (m_try (st_read p) f) R.
Proof.
  intros Hc HK Hf s Hr Hs. destruct (rel_read p p s (clean_validate _ Hc) Hr) as (s'&E&Hr').
  unfold m_try. rewrite E. unfold read_result in *. rewrite (Hs p HK). apply Hf; [done|].
  eapply kept_calm; [|done]. intros q _. by eapply touches_nowhere_calm; [apply touches_read|].
Qed.
Lemma total_exists p fs K :
  clean p → K p →
  total (kept fs K) (st_exists p) (λ b s, b = bool_decide (is_Some (fs !! p)) ∧ kept fs K s).
Proof.
  intros Hc HK. eapply total_touches; [apply touches_exists|by intros ???|]. intros s Hr Hs.
  destruct (rel_exists p p s (clean_validate _ Hc) Hr) as (s'&E&Hr'). rewrite (Hs p HK) in E. by eexists _, s'.
Qed.
(** Whatever the outcome of a read, a listing or a deletion. *)
Lemma total_read_any {B} p fs K (f : res bytes → M St B) R :
  clean p → (∀ r, r ≠ Panic → (∀ e, r = Err e → is_not_found e = true) → total (kept fs K) (f r) R) →
  total (kept fs K) (m_try (st_read p) f) R.
Proof.
  intros Hc Hf s Hr Hs. destruct (rel_read p p s (clean_validate _ Hc) Hr) as (s'&E&Hr').
  unfold m_try. rewrite E. apply Hf; [| |done|].
  - unfold read_result. by destruct (disk_files s !! p).
  - intros e. unfold read_result. destruct (disk_files s !! p); [done|]. by intros [= <-].
  - eapply kept_calm; [|done]. intros q _. by eapply touches_nowhere_calm; [apply touches_read|].
Qed.
Lemma total_list_any {B} p q fs K (f : res (list string) → M St B) R :
  at_path p q → (∀ r, r ≠ Panic → (∀ e, r = Err e → is_not_found e = true) → total (kept fs K) (f r) R) →
  total (kept fs K) (m_try (st_list p) f) R.
Proof.
  intros Hp Hf s Hr Hs. destruct (rel_list p q s Hp Hr) as (s'&E&Hr').
  unfold m_try. rewrite E. apply Hf; [| |done|].
  - by case_decide.
  - intros e. case_decide; [by intros [= <-]|done].
  - eapply kept_calm; [|done]. intros x _. by eapply touches_nowhere_calm; [apply touches_list|].
Qed.
Lemma total_delete_any {B} p fs K (f : res unit → M St B) R :
  clean p → ¬ K p → (∀ r, r ≠ Panic → (∀ e, r = Err e → is_not_found e = true) → total (kept fs K) (f r) R) →
  total (kept fs K) (m_try (st_delete p) f) R.
Proof.
  intros Hc HK Hf s Hr Hs. destruct (rel_delete p p s (clean_validate _ Hc) Hr) as (s'&E&Hr').
  unfold m_try. rewrite E. apply Hf; [| |done|].
  - by destruct (disk_files s !! p).
  - intros e. destruct (disk_files s !! p); [done|]. by intros [= <-].
  - eapply kept_calm; [|done]. intros x Hx. eapply touches_delete; [exact E|]. intros Ha%at_clean; [|done].
    by subst.
Qed.
Lemma total_write p d fs K :
  clean p → total (kept fs K) (st_write p d) (λ _ s, kept (<[p := d]> fs) (λ q, K q ∨ q = p) s).
Proof.
  intros Hc s Hr Hs. destruct (rel_write p p d s (clean_validate _ Hc) Hr) as (s'&E&Hr').
  exists tt, s'. split; [done|]. split; [done|]. intros q Hq. destruct (decide (q = p)) as [->|Hne].
  - rewrite lookup_insert_eq. eapply disk_write; [by apply clean_validate|done].
  - rewrite lookup_insert_ne by done. destruct Hq as [Hq|?]; [|done].
    rewrite (proj1 (touches_write p d s _ s' E q (λ Ha, Hne (proj1 (at_clean p q Hc) Ha)))). by apply Hs.
Qed.
Lemma total_sync p q fs K : at_path p q → total (kept fs K) (st_sync p) (λ _ s, kept fs K s).
Proof.
  intros Hp s Hr Hs. destruct (rel_sync p q s Hp Hr) as (s'&E&Hr'). exists tt, s'. split; [done|]. split; [done|].
  eapply kept_calm; [|done]. intros x _. by eapply touches_nowhere_calm; [apply touches_sync|].
Qed.
Lemma total_sync_data p fs K : clean p → total (kept fs K) (st_sync_data p) (λ _ s, kept fs K s).
Proof.
  intros Hc s Hr Hs. destruct (rel_sync_data p p s (clean_validate _ Hc) Hr) as (s'&E&Hr'). exists tt, s'. split; [done|]. split; [done|].
  eapply kept_calm; [|done]. intros q _. by eapply touches_nowhere_calm; [apply touches_sync_data|].
Qed.
(** What a path is renamed to is known; the old path no longer is. *)
Lemma total_rename p p' d fs K :
  clean p → clean p' → p ≠ p' → K p → fs !! p = Some d →
  total (kept fs K) (st_rename p p') (λ _ s, kept (<[p' := d]> fs) (λ q, (K q ∨ q = p') ∧ q ≠ p) s).
Proof.
  intros Hc Hc' Hne HK Hd s Hr Hs.
  destruct (rel_rename p p p' p' s (clean_validate _ Hc) (clean_validate _ Hc') Hr) as (s'&E&Hr').
  { by rewrite (Hs p HK), Hd. }
  exists tt, s'. split; [done|]. split; [done|]. intros q [Hq Hqp]. destruct (decide (q = p')) as [->|Hne'].
  - rewrite lookup_insert_eq, <-Hd, <-(Hs p HK).
    destruct (disk_rename _ _ _ _ _ _ _ (clean_validate _ Hc) (clean_validate _ Hc') Hne E) as (_&_&Hok).
    by destruct (Hok eq_refl) as (_&?&_).
  - rewrite lookup_insert_ne by done. destruct Hq as [Hq|?]; [|done].
    rewrite (proj1 (touches_rename p p' s _ s' E q
      (λ Ha, match Ha with or_introl Ha => Hqp (proj1 (at_clean p q Hc) Ha)
                         | or_intror Ha => Hne' (proj1 (at_clean p' q Hc') Ha) end))).
    by apply Hs.
Qed.

(** ** Composite operations *)

Lemma kept_add fs K p d s : ¬ K p → kept (<[p := d]> fs) (λ q, K q ∨ q = p) s → kept fs K s.
Proof.
  intros HK. apply kept_mono. intros q Hq. split; [by left|]. rewrite lookup_insert_ne; [done|]. by intros ->.
Qed.
Lemma total_scratch p d fs K : clean p → ¬ K p → total (kept fs K) (st_write p d) (λ _, kept fs K).
Proof. intros Hc HK. eapply total_conseq; [| |apply (total_write p d fs K Hc)]; [done|intros a s; by apply kept_add]. Qed.
Lemma total_best_delete p fs K :
  clean p → ¬ K p → total (kept fs K) (best_effort (st_delete p)) (λ _, kept fs K).
Proof.
  intros Hc HK. unfold best_effort. apply total_delete_any; [done..|]. intros r Hp _.
  destruct r; [by apply total_ret..|done].
Qed.
Lemma total_ensure_dir dir fs K :
  clean dir → ¬ K (dir +:+ "/.keep") → total (kept fs K) (ensure_dir dir) (λ _, kept fs K).
Proof.
  intros Hc HK. assert (clean (dir +:+ "/.keep")) as Hk by (apply (clean_join dir ".keep"); [done|by apply clean_bool]).
  unfold ensure_dir. apply (total_list_any _ dir); [by apply clean_validate|]. intros r Hp Hn.
  destruct r as [l|e|]; [by apply total_ret| |done]. rewrite (Hn e eq_refl).
  eapply total_bind; [by apply total_scratch|]. intros ?. by apply total_best_delete.
Qed.
(** Written to one path, renamed to another. *)
Lemma kept_renamed fs K tmp p d s :
  ¬ K tmp → ¬ K p →
  kept (<[p := d]> (<[tmp := d]> fs)) (λ q, ((K q ∨ q = tmp) ∨ q = p) ∧ q ≠ tmp) s → kept fs K s.
Proof.
  intros HKt HKp. apply kept_mono. intros q Hq. assert (q ≠ tmp ∧ q ≠ p) as [??] by (split; by intros ->).
  split; [tauto|]. by rewrite !lookup_insert_ne.
Qed.
Lemma total_pre_mono {A} (P P' : St → Prop) (m : M St A) Q :
  (∀ s, P' s → P s) → total P m Q → total P' m Q.
Proof. intros HP Hm s Hr Hs. apply Hm; auto. Qed.
Lemma total_write_rename tmp p d fs K (sync : M St unit) :
  clean tmp → clean p → tmp ≠ p → ¬ K tmp → ¬ K p →
  (∀ fs' K', total (kept fs' K') sync (λ _, kept fs' K')) →
  total (kept fs K) (let! _ := st_write tmp d in let! _ := sync in st_rename tmp p) (λ _, kept fs K).
Proof.
  intros Hct Hcp Hne HKt HKp Hsync. eapply total_bind; [by apply total_write|]. intros ?.
  eapply total_bind; [apply Hsync|]. intros ?.
  eapply total_conseq; [| |apply (total_rename tmp p d (<[tmp := d]> fs) (λ q, K q ∨ q = tmp)); [done..|by right|by rewrite lookup_insert_eq]]; [done|].
  intros ? s. by apply kept_renamed.
Qed.
Lemma total_write_rename_then {A} tmp p d fs K (sync : M St unit) (k : M St A) R :
  clean tmp → clean p → tmp ≠ p → ¬ K tmp → ¬ K p →
  (∀ fs' K', total (kept fs' K') sync (λ _, kept fs' K')) → total (kept fs K) k R →
  total (kept fs K) (let! _ := st_write tmp d in let! _ := sync in let! _ := st_rename tmp p in k) R.
Proof.
  intros Hct Hcp Hne HKt HKp Hsync Hk s Hr Hs.
  destruct (total_bind _ _ _ (λ _, k) R (total_write_rename tmp p d fs K sync Hct Hcp Hne HKt HKp Hsync)
    (λ _, Hk) s Hr Hs) as (a&s'&E&?). exists a, s'. split; [|done]. rewrite <-E. unfold m_bind.
  destruct (st_write tmp d s) as [[| |] ?]; [|done..]. by destruct (sync _) as [[| |] ?].
Qed.
Lemma total_and_ok {A} P (m : M St A) Q k R :
  total P m Q → (∀ a, total (Q a) k R) → total P (and_ok m k) R.
Proof.
  intros Hm Hk s Hr Hs. destruct (Hm s Hr Hs) as (a&s1&E&Hr1&Ha). unfold and_ok, m_try. rewrite E.
  by apply (Hk a).
Qed.
Lemma total_write_renamed p durable d fs K :
  clean p → clean (p +:+ ".tmp") → ¬ K p → ¬ K (p +:+ ".tmp") →
  total (kept fs K) (write_renamed p durable d) (λ _, kept fs K).
Proof.
  intros ????. apply total_write_rename; try done; [apply tmp_ne|].
  intros. destruct durable; [by apply total_sync_data|by apply total_ret].
Qed.
Lemma total_sync_dir_present p fs K : clean p → total (kept fs K) (sync_dir_present p) (λ _, kept fs K).
Proof.
  intros Hc. unfold sync_dir_present. intros s Hr Hs. destruct (total_sync p p fs K (clean_validate _ Hc) s Hr Hs) as ([]&s'&E&?&?).
  exists tt, s'. split; [|done]. unfold m_try. by rewrite E.
Qed.
End total.
