(* ===== verification/CommitDurable.v ===== *)
(** * What a delete puts on disk

    The paths a delete writes are apart from those of the snapshot it starts
    from, and when its parts succeed, what they wrote is durable. *)

From S2P Require Import Prelude Bytes StableSort Text OrdMap RowId Storage Json Arrow Schema Manifest.
From S2P Require Import RowGroupMeta CommitDelta MutationWal Gc BTreeIndex SecondaryIndex DatabaseCatalog.
From S2P Require Import Commit Disk CommitSafe.
From Stdlib Require Import Ascii String.

#[local] Open Scope list_scope.
#[local] Open Scope Z_scope.

(** ** Hexadecimal numbers *)

Lemma hex_char_inj a b : 0 <= a < 16 → 0 <= b < 16 → hex_char a = hex_char b → a = b.
Proof.
  intros Ha Hb E. unfold hex_char in E. apply (f_equal N_of_ascii) in E.
  destruct (Z.ltb_spec a 10), (Z.ltb_spec b 10); rewrite !N_ascii_embedding in E by lia; lia.
Qed.
Lemma hex_char_ne c d :
  0 <= d < 16 → (N_of_ascii c < 48)%N ∨ (102 < N_of_ascii c)%N ∨ N_of_ascii c = 95%N → hex_char d ≠ c.
Proof.
  intros Hd Hc <-. unfold hex_char in Hc.
  destruct (Z.ltb_spec d 10); rewrite N_ascii_embedding in Hc by lia; lia.
Qed.
Lemma fmt_hex_inj k n m a b :
  0 <= n < 16 ^ Z.of_nat k → 0 <= m < 16 ^ Z.of_nat k →
  fmt_hex k n a = fmt_hex k m b → n = m ∧ a = b.
Proof.
  revert n m a b. induction k as [|k IH]; intros n m a b Hn Hm; cbn [fmt_hex].
  { simpl in *. intros ->. split; [lia|done]. }
  rewrite Nat2Z.inj_succ, Z.pow_succ_r in Hn, Hm by lia.
  pose proof (Z.mod_pos_bound n 16 ltac:(lia)). pose proof (Z.mod_pos_bound m 16 ltac:(lia)).
  intros [Hd Hs]%IH; [|split; [apply Z.div_pos; lia|apply Z.div_lt_upper_bound; lia]..].
  injection Hs as Hc ->. apply hex_char_inj in Hc; [|done..]. split; [|done].
  rewrite (Z.div_mod n 16), (Z.div_mod m 16) by lia. lia.
Qed.
Lemma fmt_016x_inj n m a b :
  in_u64 n → in_u64 m → fmt_016x n +:+ a = fmt_016x m +:+ b → n = m ∧ a = b.
Proof.
  intros Hn Hm E. assert (∀ k n a b, fmt_hex k n a +:+ b = fmt_hex k n (a +:+ b)) as Happ.
  { clear. induction k as [|k IH]; intros n a b; [done|]. cbn [fmt_hex]. by rewrite IH. }
  unfold fmt_016x in E. rewrite !Happ in E. apply fmt_hex_inj in E; [done|exact Hn|exact Hm].
Qed.
Lemma fmt_016x_no_char c n :
  (N_of_ascii c < 48)%N ∨ (102 < N_of_ascii c)%N ∨ N_of_ascii c = 95%N →
  contains_char c (fmt_016x n) = false.
Proof.
  intros Hc. assert (∀ k n a, contains_char c a = false → contains_char c (fmt_hex k n a) = false) as H.
  { clear n. induction k as [|k IH]; intros n a Ha; [done|]. cbn [fmt_hex]. apply IH.
    cbn [contains_char]. rewrite Ha, orb_false_r. apply bool_decide_eq_false.
    apply hex_char_ne; [|done]. apply Z.mod_pos_bound. lia. }
  by apply H.
Qed.

(** ** Deletion-vector paths *)

Definition del_file (id v : u64) : string :=
  ("rg_" +:+ fmt_016x id +:+ "__v" +:+ fmt_u64 v) +:+ ".del".
Lemma del_path_eq id v : del_path id v = "_deletions" +:+ "/" +:+ del_file id v.
Proof. unfold del_path, del_file. by rewrite <-!string_app_assoc. Qed.
Lemma del_file_piece id v : file_piece (del_file id v).
Proof.
  apply (file_piece_suffix _ "." "del").
  - by rewrite !contains_char_app, fmt_016x_no_char, (fmt_u64_no_char "/") by (done || vm_compute; auto).
  - done.
  - right. rewrite string_length_app. simpl. lia.
Qed.
Lemma del_path_clean id v : clean (del_path id v).
Proof.
  rewrite del_path_eq. apply clean_join; [by apply clean_bool|]. apply file_piece_clean, del_file_piece.
Qed.
Lemma del_path_inj id id' v v' : in_u64 id → in_u64 id' → del_path id v = del_path id' v' → id = id'.
Proof. unfold del_path. intros ?? E%string_app_inj_l. by apply fmt_016x_inj in E as [-> _]. Qed.

Lemma after_last_none s : contains_char "_" s = false → after_last "__v" s = None.
Proof.
  induction s as [|c s IH]; [done|]. cbn [contains_char after_last]. intros [Hc Hs]%orb_false_iff.
  rewrite IH by done. zbool. cbn [strip_prefix]. by rewrite decide_False by congruence.
Qed.
Lemma after_last_app a s : contains_char "_" s = false → after_last "__v" (a +:+ "__v" +:+ s) = Some s.
Proof.
  intros Hs. induction a as [|c a IH].
  - cbn [String.append after_last]. by rewrite after_last_none.
  - change (String c a +:+ "__v" +:+ s) with (String c (a +:+ "__v" +:+ s)).
    cbn [after_last]. by rewrite IH.
Qed.
(** The version of a fragment's deletion file reads back. *)
Lemma next_version_del_path e fid v :
  rg_deletes e = Some (del_path fid v) → in_u64 v → next_version e = Ok (wrap64 (v + 1)).
Proof.
  intros E Hv. unfold next_version. rewrite E. unfold rsplit_next.
  assert (del_path fid v = ("_deletions/rg_" +:+ fmt_016x fid) +:+ "__v" +:+ (fmt_u64 v +:+ ".del")) as ->
    by (unfold del_path; by rewrite <-!string_app_assoc).
  rewrite after_last_app by by rewrite contains_char_app, (fmt_u64_no_char "_").
  cbn [from_option]. unfold id at 1. rewrite strip_suffix_app. cbn [mbind option_bind]. by rewrite parse_u64_fmt.
Qed.

(** ** The paths of a delete *)

Lemma string_app_inj_tail a b x y : String.length x = String.length y → a +:+ x = b +:+ y → a = b ∧ x = y.
Proof.
  revert b. induction a as [|c a IH]; intros [|d b] Hl E; cbn [String.append] in *.
  - done.
  - exfalso. rewrite E in Hl. simpl in Hl. rewrite string_length_app in Hl. lia.
  - exfalso. rewrite <-E in Hl. simpl in Hl. rewrite string_length_app in Hl. lia.
  - injection E as -> E. by destruct (IH b Hl E) as [-> ->].
Qed.
Lemma json_ne_tmp a b : a +:+ ".json" ≠ b +:+ ".tmp".
Proof.
  change ".json" with ("." +:+ "json"). rewrite string_app_assoc.
  by intros [_ E]%string_app_inj_tail.
Qed.
Lemma manifest_path_inj table n k :
  in_u64 n → in_u64 k → manifest_path table n = manifest_path table k → n = k.
Proof.
  unfold manifest_path, Manifest_filename. intros Hn Hk E.
  do 3 apply string_app_inj_l in E. apply string_app_inj_tail in E as [E _]; [|done].
  by apply fmt_09_inj.
Qed.
Lemma manifest_path_ne_tmp table n k : manifest_path table n ≠ manifest_path table k +:+ ".tmp".
Proof. unfold manifest_path, Manifest_filename. rewrite !string_app_assoc. apply json_ne_tmp. Qed.

(** A file below the directory [d] of the table. *)
Definition below (table d p : string) : Prop := ∃ r, p = table +:+ "/" +:+ d +:+ "/" +:+ r.
Lemma below_table table d p : below table d p → ∃ r, p = table +:+ "/" +:+ r.
Proof. intros [r ->]. eauto. Qed.
Lemma json_part_clean table pre seq ext :
  clean table → clean pre → contains_char "/" ext = false → ∀ d, contains_char "/" d = false →
  (2 < String.length d)%nat → clean (table +:+ "/" +:+ pre +:+ "/" +:+ d +:+ fmt_09 seq +:+ ext).
Proof.
  intros. apply clean_join; [done|]. apply clean_join; [done|]. by apply file_piece_clean, seq_piece.
Qed.

Section paths.
Context `{!Sha256, !SerdeJson}.
Context (table : string) (m : Manifest) (next_seq : u64) (txn_id : string).
Context (Ht : clean table) (Htxn : clean (intent_path table txn_id)).
Context (Hnames : ∀ name, is_Some (mf_index_generations m !! name) → clean (idx_dir table name)).

Lemma manifest_tmp_clean : clean (manifest_path table next_seq +:+ ".tmp").
Proof.
  assert (manifest_path table next_seq +:+ ".tmp"
          = (table +:+ "/_manifests") +:+ "/" +:+ ((fmt_09 next_seq +:+ ".json") +:+ ".tmp")) as ->
    by by rewrite manifest_path_eq, <-!string_app_assoc.
  apply clean_join; [by apply manifests_dir_clean|]. apply file_piece_clean.
  apply (file_piece_suffix _ "." "tmp"); [by rewrite contains_char_app, fmt_09_no_char|done|right].
  rewrite !string_length_app. simpl. lia.
Qed.
Lemma checkpoint_file_clean ext :
  contains_char "/" ext = false → (3 < String.length ext)%nat →
  clean (table +:+ "/" +:+ "_checkpoints" +:+ "/" +:+ fmt_09 next_seq +:+ ext).
Proof.
  intros He Hl. apply clean_join; [done|]. apply clean_join; [by apply clean_bool|].
  apply file_piece_clean. destruct ext as [|c ext]; [simpl in Hl; lia|].
  apply file_piece_suffix; [by apply fmt_09_no_char|done|right].
  rewrite string_length_app. simpl in *. lia.
Qed.
Lemma staging_clean raw : staging table m next_seq raw → clean raw.
Proof.
  intros [|e v He Hv|name Hn|name Hn].
  - change (clean ((table +:+ "/_deletions") +:+ "/" +:+ ".keep")).
    apply clean_join; [apply (clean_join table "_deletions"); [done|]|]; by apply clean_bool.
  - apply clean_join; [done|apply del_path_clean].
  - rewrite delta_path_eq. apply (delta_path_clean table name next_seq ".json"); [auto|done].
  - rewrite delta_path_eq. unfold delta_path. rewrite <-!string_app_assoc.
    apply (delta_path_clean table name next_seq ".json.tmp"); [auto|done].
Qed.
Lemma publishing_clean raw : publishing table next_seq txn_id raw → clean raw.
Proof.
  intros []; [done| | | | | | | |].
  - change (clean ((table +:+ "/_checkpoints") +:+ "/" +:+ ".keep")).
    apply clean_join; [apply (clean_join table "_checkpoints"); [done|]|]; by apply clean_bool.
  - apply (json_part_clean table "_staging/incoming" next_seq ".json.part"); [done|by apply clean_bool|done..|].
    simpl. lia.
  - apply (checkpoint_file_clean ".json"); [done|simpl; lia].
  - apply (checkpoint_file_clean ".rkyv"); [done|simpl; lia].
  - unfold archive_filename. rewrite <-!string_app_assoc.
    apply (checkpoint_file_clean ".rkyv.tmp"); [done|simpl; lia].
  - by apply manifest_path_clean.
  - apply manifest_tmp_clean.
  - by apply tmp_path_clean.
Qed.
Lemma at_own (own : string → Prop) p :
  (∀ raw, own raw → clean raw) → at_any own p ↔ own p.
Proof.
  intros Hc. split.
  - intros (raw&Hraw&Hp). apply at_clean in Hp as ->; auto.
  - intros Hp. exists p. split; [done|]. apply clean_validate. auto.
Qed.

Lemma staging_below raw :
  staging table m next_seq raw → below table "_deletions" raw ∨ below table "_indexes" raw.
Proof.
  intros [|e v He Hv|name Hn|name Hn].
  - left. exists ".keep". by rewrite <-string_app_assoc.
  - left. exists (del_file (rg_fragment_id e) v). by rewrite del_path_eq.
  - right. unfold TombstoneDelta_versioned_filename. by eexists.
  - right. unfold TombstoneDelta_versioned_filename. rewrite <-!string_app_assoc. by eexists.
Qed.
Lemma publishing_below raw :
  publishing table next_seq txn_id raw →
  below table "_staging" raw ∨ below table "_checkpoints" raw
  ∨ raw = manifest_path table next_seq ∨ raw = manifest_path table next_seq +:+ ".tmp"
  ∨ raw = pointer_path table +:+ ".tmp".
Proof.
  intros []; try by eauto 6.
  - left. unfold intent_path. by eexists ("intents/" +:+ _).
  - right; left. exists ".keep". by rewrite <-string_app_assoc.
  - left. unfold checkpoint_part_path. by eexists ("incoming/_checkpoint_" +:+ _).
  - right; left. unfold SnapshotCheckpoint_filename. by eexists.
  - right; left. unfold archive_filename. by eexists.
  - right; left. unfold archive_filename. rewrite <-!string_app_assoc. by eexists.
Qed.

Lemma below_apart d d' p :
  below table d p → below table d' p → ∃ r r', d +:+ "/" +:+ r = d' +:+ "/" +:+ r'.
Proof. intros [r ->] [r' E]. exists r, r'. by do 2 apply string_app_inj_l in E. Qed.
Lemma below_not_pointer d p : below table d p → contains_char "/" d = false →
  d ≠ "_manifest.json" → p ≠ pointer_path table.
Proof.
  intros [r ->] Hs Hd E. unfold pointer_path in E. apply string_app_inj_l in E.
  change "/_manifest.json" with ("/" +:+ "_manifest.json") in E. apply string_app_inj_l in E.
  assert (contains_char "/" "_manifest.json" = true) as Hx; [|done]. rewrite <-E.
  rewrite contains_char_app. apply orb_true_iff. by right.
Qed.
Lemma manifest_below seq : below table "_manifests" (manifest_path table seq).
Proof. unfold manifest_path, Manifest_filename. by eexists. Qed.
Lemma manifest_tmp_below seq : below table "_manifests" (manifest_path table seq +:+ ".tmp").
Proof. unfold manifest_path, Manifest_filename. rewrite <-!string_app_assoc. by eexists. Qed.
Lemma pointer_tmp_not_below d p : below table d p → contains_char "/" d = false →
  p ≠ pointer_path table +:+ ".tmp".
Proof.
  intros [r ->] Hs E. unfold pointer_path in E. rewrite <-string_app_assoc in E.
  apply string_app_inj_l in E.
  change ("/_manifest.json" +:+ ".tmp") with ("/" +:+ "_manifest.json.tmp") in E.
  apply string_app_inj_l in E.
  assert (contains_char "/" "_manifest.json.tmp" = true) as Hx; [|done]. rewrite <-E.
  rewrite contains_char_app. apply orb_true_iff. by right.
Qed.

(** What is staged is apart from what is published, and both from the snapshot's
    own files. *)
Lemma staging_apart raw :
  staging table m next_seq raw →
  ¬ publishing table next_seq txn_id raw ∧ raw ≠ pointer_path table ∧ (∀ k, raw ≠ manifest_path table k).
Proof.
  intros Hs. apply staging_below in Hs. split_and!.
  - intros Hp. apply publishing_below in Hp as [Hp|[Hp|[->|[->| ->]]]];
      destruct Hs as [Hs|Hs];
      first [ destruct (below_apart _ _ _ Hs Hp) as (?&?&?); discriminate
            | destruct (below_apart _ _ _ Hs (manifest_below next_seq)) as (?&?&?); discriminate
            | destruct (below_apart _ _ _ Hs (manifest_tmp_below next_seq)) as (?&?&?); discriminate
            | by apply pointer_tmp_not_below in Hs ].
  - destruct Hs as [Hs|Hs]; by eapply below_not_pointer.
  - intros k ->. destruct Hs as [Hs|Hs];
      destruct (below_apart _ _ _ Hs (manifest_below k)) as (?&?&?); discriminate.
Qed.
Lemma publishing_apart raw :
  publishing table next_seq txn_id raw →
  raw ≠ pointer_path table
  ∧ ∀ k, in_u64 next_seq → in_u64 k → k ≠ next_seq → raw ≠ manifest_path table k.
Proof.
  intros Hp. apply publishing_below in Hp as [Hp|[Hp|[->|[->| ->]]]].
  1,2: split; [by eapply below_not_pointer|]; intros k _ _ _ ->;
      destruct (below_apart _ _ _ Hp (manifest_below k)) as (?&?&?); discriminate.
  - split; [intros E; by apply (pointer_ne_manifest table next_seq)|].
    intros k Hn Hk Hne E. by apply manifest_path_inj in E.
  - split; [eapply below_not_pointer; [apply manifest_tmp_below|done..]|].
    intros k _ _ _ E. by apply (manifest_path_ne_tmp table k next_seq).
  - split; [apply tmp_ne_pointer|]. intros k _ _ _. apply tmp_ne_manifest.
Qed.
End paths.

(** ** What success leaves on disk *)

Section durable.
Context `{!Sha256, !SerdeJson, !HashOrder, !Hex, !HexEncode, !Rkyv} {B : Type} `{!RoaringBitmap B}
  {St : Type} `{!Storage St, !DiskState St, !DiskLaws St}.
Implicit Types s : St.

Lemma calm_read p s r s' q : st_read p s = (r, s') → calm s s' q.
Proof. intros E. by eapply touches_nowhere_calm; [apply touches_read|]. Qed.
Lemma calm_sync p s r s' q : st_sync p s = (r, s') → calm s s' q.
Proof. intros E. by eapply touches_nowhere_calm; [apply touches_sync|]. Qed.
Lemma calm_sync_data p s r s' q : st_sync_data p s = (r, s') → calm s s' q.
Proof. intros E. by eapply touches_nowhere_calm; [apply touches_sync_data|]. Qed.
Lemma calm_write p d s r s' q : clean p → q ≠ p → st_write p d s = (r, s') → calm s s' q.
Proof. intros Hp Hq E. eapply touches_write; [done|]. intros Ha%at_clean; done. Qed.
Lemma calm_delete p s r s' q : clean p → q ≠ p → st_delete p s = (r, s') → calm s s' q.
Proof. intros Hp Hq E. eapply touches_delete; [done|]. intros Ha%at_clean; done. Qed.
Lemma calm_rename p p' s r s' q :
  clean p → clean p' → q ≠ p → q ≠ p' → st_rename p p' s = (r, s') → calm s s' q.
Proof.
  intros Hp Hp' ?? E. eapply touches_rename; [done|]. by intros [Ha%at_clean|Ha%at_clean].
Qed.

(** Flushed files of a directory survive once it is synced. *)
Lemma sync_settles p q f b s s' u :
  at_path p q → file_piece f → st_sync p s = (Ok u, s') → staged s (q +:+ "/" +:+ f) b →
  settled s' (q +:+ "/" +:+ f) b.
Proof.
  intros Hp Hf E [Hb Hs]. destruct u. destruct (calm_sync _ _ _ _ (q +:+ "/" +:+ f) E) as (Ef&Hfl&_).
  split; [congruence|]. split; [auto|]. intros o Ho.
  rewrite (disk_sync _ _ _ _ _ Hp Hf E Hs o Ho). done.
Qed.
Lemma write_sync_staged p d s u s' :
  clean p → (let! _ := st_write p d in st_sync_data p) s = (Ok u, s') →
  staged s' p d ∧ ∀ q, q ≠ p → calm s s' q.
Proof.
  intros Hp (u1&s1&Ew&Es)%bind_inv. destruct u, u1. pose proof (clean_validate _ Hp) as Hv. split.
  - split; [|by eapply disk_sync_data].
    destruct (calm_sync_data _ _ _ _ p Es) as (->&_). by eapply disk_write.
  - intros q Hq. eapply calm_trans; [by eapply calm_write|by eapply calm_sync_data].
Qed.
(** A flushed temporary is moved into place. *)
Lemma rename_staged p p' d s u s' :
  clean p → clean p' → p ≠ p' → st_rename p p' s = (Ok u, s') → staged s p d → staged s' p' d.
Proof.
  intros Hp Hp' Hne E [Hd Hf]. destruct u.
  destruct (disk_rename _ _ _ _ _ _ _ (clean_validate _ Hp) (clean_validate _ Hp') Hne E)
    as (_&_&Hok). destruct (Hok eq_refl) as (_&E'&_&Hf'). split; [congruence|auto].
Qed.

Section one_delete.
Context (table : string) (m : Manifest) (next_seq : u64) (by_fragment : gmap Z (list u32)).
Context (Ht : clean table).

(** The deletion vector of a fragment, as the files [fs] have it. *)
Definition current_dv (fs : gmap string bytes) (e : RowGroupEntry) : option (DeletionVector B) :=
  match rg_deletes e with
  | None => Some dv_default
  | Some p => b ← fs !! (table +:+ "/" +:+ p);
              match dv_deserialize (B:=B) b with Ok d => Some d | _ => None end
  end.
(** What a delete makes of an entry: the union of the old and the new offsets,
    counted once each, under the next version's path. *)
Definition entry_deleted (fs : gmap string bytes) (e e' : RowGroupEntry) : Prop :=
  match offsets_for by_fragment (rg_fragment_id e) with
  | None => e' = e
  | Some offsets =>
      ∃ dv v, current_dv fs e = Some dv ∧ next_version e = Ok v
        ∧ e' = with_deletes (del_path (rg_fragment_id e) v) (cardinality (union_offsets dv offsets)) e
  end.
(** The deletion file of an entry is written, as [P] says. *)
Definition del_written (P : string → bytes → Prop) (fs : gmap string bytes) (e : RowGroupEntry) : Prop :=
  ∀ offsets dv v, offsets_for by_fragment (rg_fragment_id e) = Some offsets →
    current_dv fs e = Some dv → next_version e = Ok v →
    P (table +:+ "/" +:+ del_path (rg_fragment_id e) v) (dv_serialize (union_offsets dv offsets)).

Lemma existing_dv_yields e s dv s' :
  (∀ p, rg_deletes e = Some p → clean p) → existing_dv table e s = (Ok dv, s') →
  current_dv (disk_files s) e = Some dv ∧ ∀ q, calm s s' q.
Proof.
  intros Hp E. unfold existing_dv in E. unfold current_dv.
  destruct (rg_deletes e) as [p|]; [|injection E as <- <-; split; [done|intros; apply calm_refl]].
  apply bind_inv in E as (b&s1&Er&E).
  assert (at_path (table +:+ "/" +:+ p) (table +:+ "/" +:+ p)) as Ha
    by (apply clean_validate, clean_join; auto).
  assert (disk_files s !! (table +:+ "/" +:+ p) = Some b) as -> by exact (disk_read _ _ _ _ _ Ha Er).
  cbn [mbind option_bind].
  apply lift_inv in E as [Ed ->]. destruct (dv_deserialize b); simplify_eq.
  split; [done|]. intros q. by eapply calm_read.
Qed.

Lemma delete_fragment_yields rgs paths arts e s acc s' :
  (∀ p, rg_deletes e = Some p → clean p) →
  delete_fragment table false by_fragment (rgs, paths, arts) e s = (Ok acc, s') →
  ∃ e' new, acc = (rgs ++ [e'], paths ++ new, arts)
    ∧ entry_deleted (disk_files s) e e'
    ∧ (∀ f, f ∈ new → ∃ v, next_version e = Ok v ∧ f = del_path (rg_fragment_id e) v)
    ∧ del_written (staged s') (disk_files s) e
    ∧ ∀ q, (∀ v, next_version e = Ok v → q ≠ table +:+ "/" +:+ del_path (rg_fragment_id e) v) →
        calm s s' q.
Proof.
  intros Hp E. unfold delete_fragment in E. unfold entry_deleted, del_written.
  destruct (offsets_for by_fragment (rg_fragment_id e)) as [offsets|] eqn:Eo.
  2: { injection E as <- <-. exists e, []. rewrite app_nil_r. split; [done|]. split; [done|].
       split; [intros f ?%elem_of_nil; done|]. split; [done|]. intros. apply calm_refl. }
  apply bind_inv in E as (dv&s1&Ed&E). apply existing_dv_yields in Ed as [Hdv Hc1]; [|done].
  apply bind_inv in E as (v&s2&Ev&E). apply lift_inv in Ev as [Hv ->].
  set (path := table +:+ "/" +:+ del_path (rg_fragment_id e) v) in *.
  assert (clean path) as Hpath by by apply clean_join, del_path_clean.
  apply bind_inv in E as (u&s3&Ew&E). apply bind_inv in E as (u'&s4&Es&E). injection E as <- <-.
  destruct (write_sync_staged path (dv_serialize (union_offsets dv offsets)) s1 u' s4 Hpath) as [Hst Hc2].
  { unfold m_bind. by rewrite Ew. }
  eexists _, [_]. split; [done|]. split; [by exists dv, v|]. split; [|split].
  - intros f ->%list_elem_of_singleton. eauto.
  - intros offsets' dv' v' [= <-] Hdv' Hv'. rewrite Hdv in Hdv'. rewrite Hv in Hv'. by simplify_eq.
  - intros q Hq. eapply calm_trans; [apply Hc1|]. apply Hc2. by apply Hq.
Qed.

Context (Hids : NoDup (rg_fragment_id <$> mf_row_groups m)).
Context (Hwf : Forall (λ e, in_u64 (rg_fragment_id e)) (mf_row_groups m)).
Context (Hold : ∀ e p, e ∈ mf_row_groups m → rg_deletes e = Some p →
                  clean p ∧ ¬ staging table m next_seq (table +:+ "/" +:+ p)).

(** The loop over the fragments: the entries as they should be, their deletion
    files flushed. *)
Lemma delete_fragments_yields s acc s' :
  m_fold (delete_fragment table false by_fragment) ([], [], []) (mf_row_groups m) s = (Ok acc, s') →
  acc.2 = [] ∧ Forall2 (entry_deleted (disk_files s)) (mf_row_groups m) acc.1.1
  ∧ (∀ f, f ∈ acc.1.2 → ∃ e v, e ∈ mf_row_groups m ∧ next_version e = Ok v
                            ∧ f = del_path (rg_fragment_id e) v)
  ∧ Forall (del_written (staged s') (disk_files s)) (mf_row_groups m)
  ∧ ∀ q, ¬ staging table m next_seq q → calm s s' q.
Proof.
  apply (fold_inv (λ done acc s',
    acc.2 = [] ∧ Forall2 (entry_deleted (disk_files s)) done acc.1.1
    ∧ (∀ f, f ∈ acc.1.2 → ∃ e v, e ∈ mf_row_groups m ∧ next_version e = Ok v
                              ∧ f = del_path (rg_fragment_id e) v)
    ∧ Forall (del_written (staged s') (disk_files s)) done
    ∧ ∀ q, ¬ staging table m next_seq q → calm s s' q)).
  2: { split; [done|]. split; [constructor|]. split; [intros f ?%elem_of_nil; done|].
       split; [constructor|]. intros. apply calm_refl. }
  intros dn e todo [[rgs paths] arts] s1 acc1 s2 Hm (Harts&Hrgs&Hpaths&Hdone&Hc) E.
  cbn in Harts, Hrgs, Hpaths. subst arts.
  assert (e ∈ mf_row_groups m) as He by (rewrite Hm; apply elem_of_app; right; apply list_elem_of_here).
  apply delete_fragment_yields in E as (e'&new&->&Hdel&Hnew&Hw&Hc2); [|intros p Hp; by eapply Hold].
  assert (current_dv (disk_files s1) e = current_dv (disk_files s) e) as Ecur.
  { unfold current_dv. destruct (rg_deletes e) as [p|] eqn:Ep; [|done].
    destruct (Hold e p He Ep) as [_ Hns]. by rewrite (proj1 (Hc _ Hns)). }
  cbn. split; [done|]. split_and!.
  - apply Forall2_app; [done|]. constructor; [|done]. unfold entry_deleted in Hdel |- *. by rewrite <-Ecur.
  - intros f [Hf|Hf]%elem_of_app; [auto|]. apply Hnew in Hf as (v&?&->). eauto.
  - apply Forall_app. split.
    + apply Forall_forall. intros e1 He1 offsets dv v Ho Hdv Hv.
      rewrite Forall_forall in Hdone. eapply calm_staged; [|by eapply Hdone]. apply Hc2.
      intros v' _ E. do 2 apply string_app_inj_l in E. apply del_path_inj in E.
      * rewrite Hm, fmap_app in Hids. apply NoDup_app in Hids as (_&Hdisj&_).
        apply (Hdisj (rg_fragment_id e1)); [by apply list_elem_of_fmap_2|]. rewrite E. apply list_elem_of_here.
      * rewrite Forall_forall in Hwf. apply Hwf. rewrite Hm. apply elem_of_app. by left.
      * rewrite Forall_forall in Hwf. by apply Hwf.
    + constructor; [|done]. intros offsets dv v Ho Hdv Hv. apply (Hw offsets dv v); [done| |done].
      by rewrite Ecur.
  - intros q Hq. eapply calm_trans; [by apply Hc|]. apply Hc2. intros v Hv ->.
    by apply Hq, sc_deletion.
Qed.

(** *** Tombstones of unique indexes *)

Context (Hnames : ∀ name, is_Some (mf_index_generations m !! name) → clean (idx_dir table name)).
Notation delta_file name := (TombstoneDelta_versioned_filename name next_seq).

Definition delta_bytes (ids : list u64) : bytes := json_to_vec_pretty (delta_value (mkTombstone ids [])).
(** The generations after a tombstone delta for every unique index that was built. *)
Definition tombstone_refs (generations : gmap string IndexRef) (indexes : bmap IndexEntry)
    : gmap string IndexRef :=
  foldl (λ g ne, if tombstoned table ne.2 then
                   match g !! ne.1 with
                   | Some r => <[ne.1 := push_delta r (delta_file ne.1)]> g
                   | None => g
                   end
                 else g) generations indexes.

Lemma write_renamed_yields path d s u s' :
  clean path → clean (path +:+ ".tmp") → write_renamed path true d s = (Ok u, s') →
  staged s' path d ∧ ∀ q, q ≠ path → q ≠ path +:+ ".tmp" → calm s s' q.
Proof.
  intros Hp Htmp (u1&s1&Ew&E)%bind_inv. apply bind_inv in E as (u2&s2&Es&Er).
  destruct (write_sync_staged (path +:+ ".tmp") d s u2 s2 Htmp) as [Hst Hc].
  { unfold m_bind. by rewrite Ew. }
  split.
  - eapply rename_staged; [exact Htmp|exact Hp|apply tmp_ne|exact Er|exact Hst].
  - intros q ??. eapply calm_trans; [by apply Hc|]. by eapply (calm_rename (path +:+ ".tmp") path).
Qed.
Lemma append_tombstones_yields name ids r s r' s' :
  clean (idx_dir table name) →
  append_tombstones table name ids next_seq r true s = (Ok r', s') →
  r' = push_delta r (delta_file name) ∧ settled s' (table +:+ "/" +:+ delta_file name) (delta_bytes ids)
  ∧ ∀ q, q ≠ table +:+ "/" +:+ delta_file name → q ≠ (table +:+ "/" +:+ delta_file name) +:+ ".tmp" →
      calm s s' q.
Proof.
  intros Hd E. unfold append_tombstones, write_delta in E.
  apply bind_inv in E as (u&s1&E&Er). injection Er as <- <-.
  apply bind_inv in E as (u1&s2&Es&E). apply bind_inv in E as (u2&s3&Ew&Esy).
  assert (∀ q, calm s s2 q) as Hc0.
  { intros q. eapply touches_nowhere_calm; [apply touches_sync_dir_present|exact Es]. }
  rewrite delta_path_eq in Ew |- *.
  apply write_renamed_yields in Ew as [Hst Hc].
  2: { by apply (delta_path_clean table name next_seq ".json"). }
  2: { unfold delta_path. rewrite <-!string_app_assoc.
       by apply (delta_path_clean table name next_seq ".json.tmp"). }
  split; [done|]. split.
  - apply (sync_settles (idx_dir table name) (idx_dir table name) ("delta__v" +:+ fmt_09 next_seq +:+ ".json") _ s3 _ u).
    + by apply clean_validate.
    + apply seq_piece; [done..|simpl; lia].
    + exact Esy.
    + exact Hst.
  - intros q ??. eapply calm_trans; [apply Hc0|]. eapply calm_trans; [by apply Hc|by eapply calm_sync].
Qed.

Lemma tombstone_refs_dom g indexes name :
  is_Some (tombstone_refs g indexes !! name) ↔ is_Some (g !! name).
Proof.
  unfold tombstone_refs. revert g. induction indexes as [|[k e] l IH]; intros g; cbn [foldl]; [done|].
  rewrite IH. cbn. destruct (tombstoned table e); [|done]. destruct (g !! k) eqn:E; [|done].
  destruct (decide (k = name)) as [->|]; [|by rewrite lookup_insert_ne].
  rewrite lookup_insert_eq, E. split; eauto.
Qed.

Definition tombstone_path (q : string) : Prop :=
  ∃ name, is_Some (mf_index_generations m !! name)
    ∧ (q = table +:+ "/" +:+ delta_file name ∨ q = (table +:+ "/" +:+ delta_file name) +:+ ".tmp").
Lemma tombstone_path_staging q : tombstone_path q → staging table m next_seq q.
Proof. intros (name&Hn&[-> | ->]); by constructor. Qed.
Lemma tombstone_path_below q : tombstone_path q → below table "_indexes" q.
Proof.
  intros (name&_&[-> | ->]); unfold TombstoneDelta_versioned_filename; rewrite <-?string_app_assoc;
    by eexists.
Qed.
(** The loop over the catalog: the deltas are durable. *)
Definition tombstones_done (ids : list u64) s0 (dn : bmap IndexEntry)
    (acc : gmap string IndexRef * list string * list StagedArtifact) s : Prop :=
  acc.1.1 = tombstone_refs (mf_index_generations m) dn ∧ acc.2 = []
  ∧ (∀ f, f ∈ acc.1.2 → ∃ name, is_Some (mf_index_generations m !! name) ∧ f = delta_file name)
  ∧ (∀ name e, (name, e) ∈ dn → tombstoned table e = true → is_Some (mf_index_generations m !! name) →
       settled s (table +:+ "/" +:+ delta_file name) (delta_bytes ids))
  ∧ ∀ q, ¬ tombstone_path q → calm s0 s q.
Lemma tombstones_yields ids indexes s acc s' :
  m_fold (tombstone_index table false ids next_seq) (mf_index_generations m, [], []) indexes s
  = (Ok acc, s') → tombstones_done ids s indexes acc s'.
Proof.
  apply (fold_inv (λ dn acc s', tombstones_done ids s dn acc s')).
  2: { split; [done|]. split; [done|]. split; [intros f ?%elem_of_nil; done|].
       split; [intros ? ? ?%elem_of_nil; done|]. intros. apply calm_refl. }
  intros dn [name e] todo [[g paths] arts] s1 acc1 s2 _ (Hg&Harts&Hpaths&Hset&Hc) E.
  cbn in Hg, Harts, Hpaths. subst g arts. unfold tombstone_index in E.
  assert (tombstone_refs (mf_index_generations m) (dn ++ [(name, e)])
    = if tombstoned table e then
        match tombstone_refs (mf_index_generations m) dn !! name with
        | Some r => <[name := push_delta r (delta_file name)]> (tombstone_refs (mf_index_generations m) dn)
        | None => tombstone_refs (mf_index_generations m) dn
        end
      else tombstone_refs (mf_index_generations m) dn) as Eg.
  { unfold tombstone_refs. by rewrite foldl_app. }
  assert (∀ l' d', tombstoned table e = false ∨ tombstone_refs (mf_index_generations m) dn !! name = None →
    (Ok (tombstone_refs (mf_index_generations m) dn, paths, []), s1) = (Ok l', d') →
    tombstones_done ids s (dn ++ [(name, e)]) l' d') as Hskip.
  { intros l' d' Hno [= <- <-]. split; [rewrite Eg; destruct Hno as [-> | ->]; [done|by destruct (tombstoned _ _)]|].
    split; [done|]. split; [done|]. split; [|done].
    intros name' e' [Hin|[= -> ->]%list_elem_of_singleton]%elem_of_app Ht' Hn'; [by eapply Hset|].
    destruct Hno as [Hno|Hno]; [congruence|]. apply (tombstone_refs_dom _ dn) in Hn' as [r Hr]. by rewrite Hno in Hr. }
  destruct (tombstoned table e) eqn:Et; cbn [negb] in E; [|by apply Hskip; [left|]].
  destruct (tombstone_refs (mf_index_generations m) dn !! name) as [r|] eqn:Er; [|by apply Hskip; [right|]].
  apply bind_inv in E as (r'&s3&Ea&E).
  assert (is_Some (mf_index_generations m !! name)) as Hn by (apply (tombstone_refs_dom _ dn); eauto).
  apply append_tombstones_yields in Ea as (->&Hnew&Hc2); [|by apply Hnames].
  cbn [push_delta ir_deltas] in E. rewrite last_snoc in E.
  unfold m_bind, m_ret in E. injection E as <- <-.
  split; [by rewrite Eg|]. split; [done|]. split; [|split].
  - intros f [Hf| ->%list_elem_of_singleton]%elem_of_app; eauto.
  - intros name' e' Hin Ht' Hn'. destruct (decide (delta_file name' = delta_file name)) as [->|Hne]; [done|].
    apply elem_of_app in Hin as [Hin|[= -> ->]%list_elem_of_singleton]; [|done].
    eapply calm_settled; [apply Hc2|by eapply Hset].
    + intros E. by do 2 apply string_app_inj_l in E.
    + unfold TombstoneDelta_versioned_filename. rewrite !string_app_assoc. apply json_ne_tmp.
  - intros q Hq. eapply calm_trans; [by apply Hc|]. apply Hc2; intros ->; apply Hq; exists name; auto.
Qed.

(** *** Row ids and the catalog *)

(** The row ids the offsets name, by the sidecars. *)
Definition ids_of (fs : gmap string bytes) (e : RowGroupEntry) : list u64 :=
  match offsets_for by_fragment (rg_fragment_id e),
        fs !! (table +:+ "/" +:+ rg_meta e) ≫= from_slice (A:=RowGroupMeta) with
  | Some offsets, Some meta =>
      omap (λ o, List.concat (segment_ids <$> rm_row_ids meta) !! Z.to_nat o) offsets
  | _, _ => []
  end.
Definition deleted_row_ids (fs : gmap string bytes) : list u64 := mf_row_groups m ≫= ids_of fs.
Definition catalog_of (fs : gmap string bytes) : option DatabaseCatalogData :=
  match fs !! CATALOG_PATH with
  | Some d => json_parse d ≫= catalog_of_value
  | None => Some DatabaseCatalogData_default
  end.
Context (Hmeta : ∀ e, e ∈ mf_row_groups m →
                   clean (rg_meta e) ∧ ¬ staging table m next_seq (table +:+ "/" +:+ rg_meta e)).

Lemma deleted_ids_touches T acc e : touches T (deleted_ids (St:=St) table by_fragment acc e).
Proof. unfold deleted_ids. destruct acc. touch. Qed.
Lemma deleted_ids_yields ids without e s acc s' :
  clean (rg_meta e) → deleted_ids table by_fragment (ids, without) e s = (Ok acc, s') →
  acc.1 = ids ++ ids_of (disk_files s) e.
Proof.
  intros Hc E. unfold deleted_ids in E. unfold ids_of.
  destruct (offsets_for by_fragment (rg_fragment_id e)) as [offsets|].
  2: { injection E as <- _. cbn. by rewrite app_nil_r. }
  apply bind_inv in E as (b&s1&Er&E). apply bind_inv in E as (meta&s2&Em&E).
  assert (disk_files s !! (table +:+ "/" +:+ rg_meta e) = Some b) as ->.
  { refine (disk_read _ _ _ _ _ _ Er). by apply clean_validate, clean_join. }
  apply lift_inv in Em as [Em ->]. unfold parse_meta in Em. cbn [mbind option_bind].
  destruct (from_slice b) as [meta'|]; simplify_eq/=.
  destruct (rm_row_ids meta) as [|x l] eqn:El; cbn [is_empty] in E; injection E as <- _; cbn [fst].
  - clear. induction offsets as [|o l' IH]; cbn; [by rewrite app_nil_r|exact IH].
  - done.
Qed.
Lemma deleted_ids_fold s acc s' :
  m_fold (deleted_ids table by_fragment) ([], []) (mf_row_groups m) s = (Ok acc, s') →
  acc.1 = deleted_row_ids (disk_files s) ∧ ∀ q, calm s s' q.
Proof.
  intros E. split; [|intros q; eapply touches_nowhere_calm; [|exact E];
                     apply touches_fold; intros; apply deleted_ids_touches].
  enough (acc.1 = mf_row_groups m ≫= ids_of (disk_files s) ∧ disk_files s' = disk_files s) by naive_solver.
  revert E. apply (fold_inv (λ dn acc s', acc.1 = dn ≫= ids_of (disk_files s) ∧ disk_files s' = disk_files s)); [|done].
  intros dn e todo [ids without] s1 acc1 s2 Hm [Ha Hf] E. cbn in Ha. subst ids.
  assert (e ∈ mf_row_groups m) as He by (rewrite Hm; apply elem_of_app; right; apply list_elem_of_here).
  split.
  - apply deleted_ids_yields in E; [|by apply Hmeta]. rewrite E, Hf, bind_app. cbn. by rewrite app_nil_r.
  - rewrite <-Hf. apply calm_all_files. intros q.
    eapply touches_nowhere_calm; [apply deleted_ids_touches|exact E].
Qed.
Lemma catalog_yields s c s' :
  DatabaseCatalog.load s = (Ok c, s') → catalog_of (disk_files s) = Some c ∧ ∀ q, calm s s' q.
Proof.
  unfold DatabaseCatalog.load, catalog_of. intros (r&s1&Er&E)%try_inv.
  assert (at_path CATALOG_PATH CATALOG_PATH) as Ha by done.
  pose proof (disk_read _ _ _ _ _ Ha Er) as Hr. destruct r as [b|e|]; [|destruct (is_not_found e)|done].
  - rewrite Hr. apply of_option_inv in E as [-> ->]. split; [done|]. intros q. by eapply calm_read.
  - rewrite Hr by done. injection E as <- <-. split; [done|]. intros q. by eapply calm_read.
  - done.
Qed.

(** *** Staging as a whole *)

Lemma tombstones_touches wal ids arts indexes :
  touches (at_any (staging table m next_seq))
    (m_fold (tombstone_index (St:=St) table wal ids next_seq) (mf_index_generations m, [], arts) indexes).
Proof.
  apply (touches_fold_inv _ (λ acc, ∀ name, is_Some (acc.1.1 !! name) →
    is_Some (mf_index_generations m !! name))); [| |done].
  - intros [[g ?] ?] ne _ Hg. apply tombstone_index_touches, Hg.
  - intros [[g paths] arts'] [name entry] s acc s' _ Hg E. cbn in Hg. unfold tombstone_index in E.
    destruct (negb _); [by injection E as <- _|].
    destruct (g !! name) as [r|] eqn:Er; [|by injection E as <- _].
    apply bind_inv in E as (r'&s1&_&E).
    assert (∀ name' (x : IndexRef), is_Some (<[name:=x]> g !! name') →
      is_Some (mf_index_generations m !! name')) as Hg'.
    { intros name' x. destruct (decide (name = name')) as [<-|]; [intros _; eauto|].
      rewrite lookup_insert_ne by done. apply Hg. }
    destruct (last _); [|injection E as <- _; intros ?; apply Hg'].
    apply bind_inv in E as (a&s2&_&E). injection E as <- _. intros ?. apply Hg'.
Qed.

Lemma stage_deletes_touches wal :
  touches (at_any (staging table m next_seq)) (stage_deletes (B:=B) (St:=St) table wal by_fragment m next_seq).
Proof.
  unfold stage_deletes, DatabaseCatalog.load.
  apply touches_bind; [apply touches_fold; intros; by apply delete_fragment_touches|].
  intros [[rgs paths] arts]. apply touches_bind; [touch|]. intros _.
  apply touches_bind; [apply touches_fold; intros; apply deleted_ids_touches|]. intros [ids without].
  apply touches_bind; [touch|]. intros catalog. destruct (_ && _)%bool; [touch|].
  apply touches_bind; [|intros [[? ?] ?]; touch]. destruct (is_empty ids); [touch|].
  apply tombstones_touches.
Qed.

(** What a successful staging computed and left on disk, from the files [fs]. *)
Record staged_ok (fs : gmap string bytes) (d : StagedDeletes) (s' : St) : Prop := {
  so_entries : Forall2 (entry_deleted fs) (mf_row_groups m) (sd_row_groups d);
  so_generations : ∃ catalog, catalog_of fs = Some catalog
    ∧ sd_generations d
      = (if is_empty (deleted_row_ids fs) then mf_index_generations m
         else tombstone_refs (mf_index_generations m) (dc_indexes catalog))
    ∧ (deleted_row_ids fs ≠ [] → ∀ name e, (name, e) ∈ dc_indexes catalog → tombstoned table e = true →
         is_Some (mf_index_generations m !! name) →
         settled s' (table +:+ "/" +:+ delta_file name) (delta_bytes (deleted_row_ids fs)));
  so_deletions : Forall (del_written (settled s') fs) (mf_row_groups m);
  so_artifacts : sd_artifacts d = [];
  so_intended : ∀ f, f ∈ sd_del_paths d ++ sd_tombstone_paths d → staging table m next_seq (table +:+ "/" +:+ f);
}.

Lemma sync_deletions s1 s2 u fs :
  st_sync (table +:+ "/_deletions") s1 = (Ok u, s2) →
  Forall (del_written (staged s1) fs) (mf_row_groups m) →
  Forall (del_written (settled s2) fs) (mf_row_groups m).
Proof.
  intros E Hd. eapply Forall_impl; [exact Hd|]. intros e He offsets dv v Ho Hdv Hv.
  specialize (He offsets dv v Ho Hdv Hv). rewrite del_path_eq in He |- *.
  assert (∀ f, table +:+ "/" +:+ "_deletions" +:+ "/" +:+ f = (table +:+ "/_deletions") +:+ "/" +:+ f) as Ep
    by (intros f; by rewrite <-string_app_assoc).
  rewrite Ep in He |- *. eapply sync_settles; [|apply del_file_piece|exact E|exact He].
  apply clean_validate, (clean_join table "_deletions"); [done|by apply clean_bool].
Qed.

Lemma stage_deletes_yields s d s' :
  ¬ staging table m next_seq CATALOG_PATH →
  stage_deletes table false by_fragment m next_seq s = (Ok d, s') → staged_ok (disk_files s) d s'.
Proof.
  intros Hcat E. unfold stage_deletes in E.
  apply bind_inv in E as ([[rgs paths] arts]&s1&E1&E).
  apply delete_fragments_yields in E1 as (Harts&Hrgs&Hpaths&Hdel&Hc1).
  cbn [fst snd] in Harts, Hrgs, Hpaths. subst arts.
  apply bind_inv in E as (u&s2&E2&E). pose proof (λ q, calm_sync _ _ _ _ q E2) as Hc2.
  pose proof (sync_deletions _ _ _ _ E2 Hdel) as Hset.
  assert (∀ q, ¬ staging table m next_seq q → disk_files s2 !! q = disk_files s !! q) as Hf2.
  { intros q Hq. rewrite (proj1 (Hc2 q)). apply (Hc1 q Hq). }
  apply bind_inv in E as ([ids without]&s3&E3&E). apply deleted_ids_fold in E3 as [Hids3 Hc3].
  cbn [fst] in Hids3. apply bind_inv in E as (catalog&s4&E4&E). apply catalog_yields in E4 as [Hcatalog Hc4].
  assert (ids = deleted_row_ids (disk_files s)) as ->.
  { rewrite Hids3. apply bind_ext_in. intros e He. unfold ids_of. by rewrite Hf2 by by apply Hmeta. }
  assert (catalog_of (disk_files s) = Some catalog) as Hcatalog'.
  { unfold catalog_of in *. by rewrite (proj1 (Hc3 _)), Hf2 in Hcatalog. }
  destruct (_ && _)%bool; [done|]. apply bind_inv in E as ([[gens tpaths] arts]&s5&E5&E).
  injection E as <- <-.
  assert (∀ p b, settled s2 p b → settled s4 p b) as Hkeep
    by (intros p b ?; eapply calm_settled; [apply Hc4|]; by eapply calm_settled; [apply Hc3|]).
  destruct (is_empty (deleted_row_ids (disk_files s))) eqn:Ei.
  - injection E5 as <- <- <- <-.
    constructor; cbn [sd_row_groups sd_generations sd_del_paths sd_tombstone_paths sd_artifacts].
    + done.
    + exists catalog. rewrite Ei. split; [done|]. split; [done|]. by destruct (deleted_row_ids _).
    + eapply Forall_impl; [exact Hset|]. intros e He ??? ???. by eapply Hkeep, He.
    + done.
    + rewrite app_nil_r. intros f (e&v&?&?&->)%Hpaths. by constructor.
  - apply tombstones_yields in E5 as (Hg&Ha&Hp&Ht'&Hc5).
    cbn [fst snd] in Hg, Ha, Hp. subst.
    constructor; cbn [sd_row_groups sd_generations sd_del_paths sd_tombstone_paths sd_artifacts].
    + done.
    + exists catalog. rewrite Ei. split; [done|]. by split; [|intros _].
    + eapply Forall_impl; [exact Hset|]. intros e He offsets dv v ? ? ?.
      eapply calm_settled; [|by eapply Hkeep, He]. apply Hc5.
      intros (r&Er)%tombstone_path_below. by do 2 apply string_app_inj_l in Er.
    + done.
    + intros f [(e&v&?&?&->)%Hpaths|(name&?&->)%Hp]%elem_of_app; by constructor.
Qed.
End one_delete.
End durable.
