(* ===== verification/CommitAtomic.v ===== *)
(** * A delete happens or does not

    Wherever [commit_deletes] stops, and whatever a loss of power leaves of the
    files that were not yet durable, the table is at the old snapshot or at the
    new one, and the new one is complete. *)

From S2P Require Import Prelude Bytes StableSort Text OrdMap RowId Storage Json Arrow Schema Manifest.
From S2P Require Import RowGroupMeta CommitDelta MutationWal Gc BTreeIndex SecondaryIndex DatabaseCatalog.
From S2P Require Import Commit Disk CommitSafe CommitDurable.
From Stdlib Require Import Ascii String.

#[local] Open Scope list_scope.
#[local] Open Scope Z_scope.

(** The files a manifest refers to. *)
Lemma refers_meta m e : e ∈ mf_row_groups m → rg_meta e ∈ manifest_referenced_files m.
Proof.
  intros He. apply elem_of_list_to_set, elem_of_app. left. apply list_elem_of_bind. exists e.
  split; [|done]. set_solver.
Qed.
Lemma refers_deletes m e p :
  e ∈ mf_row_groups m → rg_deletes e = Some p → p ∈ manifest_referenced_files m.
Proof.
  intros He Hp. apply elem_of_list_to_set, elem_of_app. right. apply elem_of_app. left.
  apply list_elem_of_bind. exists e. split; [|done]. rewrite Hp. cbn. set_solver.
Qed.

Section atomic.
Context `{!Sha256, !SerdeJson, !SerdeJsonLaws, !HashOrder, !Hex, !HexEncode, !Rkyv}
  {B : Type} `{!RoaringBitmap B} {St : Type} `{!Storage St, !DiskState St, !DiskLaws St}.
Implicit Types s : St.

(** ** Publishing *)

Lemma write_manifest_tmp_yields tmp d s b s' :
  clean tmp → write_manifest_tmp tmp d s = (Ok b, s') →
  staged s' tmp d ∧ ∀ q, q ≠ tmp → calm s s' q.
Proof.
  intros Hc E. unfold write_manifest_tmp in E.
  apply bind_inv in E as (u1&s1&Ew&E). apply bind_inv in E as (u2&s2&Es&E).
  destruct (write_sync_staged tmp d s u2 s2 Hc) as [Hst Hk]; [unfold m_bind; by rewrite Ew|].
  assert (∀ q, calm s2 s' q) as Hv.
  { intros q. eapply touches_nowhere_calm; [|exact E]. unfold verify_manifest_checksum. touch. }
  split; [by eapply calm_staged|]. intros q Hq. eapply calm_trans; [by apply Hk|apply Hv].
Qed.
(** Once published, the manifest is durable. *)
Lemma publish_manifest_yields table seq m on_mismatch s u s' :
  clean table → publish_manifest table seq m on_mismatch s = (Ok u, s') →
  settled s' (manifest_path table seq) (to_vec m).
Proof.
  intros Ht E. unfold publish_manifest in E. fold (manifest_path table seq) in E.
  set (tmp := manifest_path table seq +:+ ".tmp") in *.
  assert (clean tmp) as Htmp by by apply manifest_tmp_clean.
  apply bind_inv in E as (first&s1&E1&E). apply write_manifest_tmp_yields in E1 as [Hw1 _]; [|done].
  apply bind_inv in E as (second&s2&E2&E).
  assert (staged s2 tmp (to_vec m)) as Hw2.
  { destruct first; [by injection E2 as _ <-|]. by apply write_manifest_tmp_yields in E2 as [? _]. }
  apply bind_inv in E as (u3&s3&E3&E).
  assert (s3 = s2) as ->.
  { destruct second; [by injection E3|]. by apply bind_inv in E3 as (?&?&_&?). }
  apply bind_inv in E as (u4&s4&E4&E5).
  assert (staged s4 (manifest_path table seq) (to_vec m)) as Hw4.
  { eapply rename_staged; [exact Htmp|by apply manifest_path_clean|apply tmp_ne|exact E4|done]. }
  rewrite manifest_path_eq in Hw4 |- *. eapply sync_settles; [|apply Manifest_filename_piece|exact E5|exact Hw4].
  by apply clean_validate, manifests_dir_clean.
Qed.

(** The pointer holds one of two contents, now and after a loss of power. *)
Definition between s (p : string) (b b' : bytes) : Prop :=
  (disk_files s !! p = Some b ∨ disk_files s !! p = Some b')
  ∧ ∀ o, disk_after s p o → o = Some b ∨ o = Some b'.
Lemma between_calm s s' p b b' : calm s s' p → between s p b b' → between s' p b b'.
Proof.
  intros (Ef&_&Ha) [Hb Ho]. split; [by rewrite Ef|]. intros o [?| ->]%Ha; auto.
Qed.
Lemma settled_between s p b b' : settled s p b → between s p b b'.
Proof. intros (Hb&_&Ho). split; auto. Qed.

Lemma swap_pointer_outcome table seq old s r s' :
  clean table → settled s (pointer_path table) old → swap_pointer table seq s = (r, s') →
  (∀ q, q ≠ pointer_path table → q ≠ pointer_path table +:+ ".tmp" → calm s s' q)
  ∧ between s' (pointer_path table) old (pointer_bytes seq)
  ∧ (r = Ok tt → settled s' (pointer_path table) (pointer_bytes seq)).
Proof.
  intros Ht Hold E. unfold swap_pointer in E. set (ptr := pointer_path table) in *.
  set (tmp := ptr +:+ ".tmp") in *.
  assert (clean ptr) as Hp by by apply pointer_path_clean.
  assert (clean tmp) as Htmp by by apply tmp_path_clean.
  assert (tmp ≠ ptr) as Hne by apply tmp_ne_pointer.
  assert (∀ s1, (∀ q, q ≠ tmp → calm s s1 q) → settled s1 ptr old) as Hkeep
    by (intros s1 Hc; eapply calm_settled; [by apply Hc|done]).
  apply bind_cases in E as [(u1&s1&E1&E)|(r1&E1&_&Hr)].
  2: { assert (∀ q, q ≠ tmp → calm s s' q) as Hc by (intros q Hq; by eapply calm_write).
       split; [auto|]. split; [by apply settled_between, Hkeep|]. intros ->. by destruct (Hr tt). }
  apply bind_cases in E as [(u2&s2&E2&E)|(r2&E2&_&Hr)].
  2: { assert (∀ q, q ≠ tmp → calm s s' q) as Hc
         by (intros q Hq; eapply calm_trans; [by eapply calm_write|by eapply calm_sync_data]).
       split; [auto|]. split; [by apply settled_between, Hkeep|]. intros ->. by destruct (Hr tt). }
  destruct (write_sync_staged tmp (pointer_bytes seq) s u2 s2 Htmp) as [[Hd2 Hf2] Hc2];
    [unfold m_bind; by rewrite E1|].
  destruct (Hkeep s2 Hc2) as (Hd&Hfl&Ha).
  assert (∀ r3 s3, st_rename tmp ptr s2 = (r3, s3) →
    (∀ q, q ≠ ptr → q ≠ tmp → calm s s3 q) ∧ between s3 ptr old (pointer_bytes seq)
    ∧ (r3 = Ok tt → staged s3 ptr (pointer_bytes seq))) as Hren.
  { intros r3 s3 E3. split; [|split].
    - intros q ??. eapply calm_trans; [by apply Hc2|]. by eapply (calm_rename tmp ptr).
    - destruct (disk_rename _ _ _ _ _ _ _ (clean_validate _ Htmp) (clean_validate _ Hp) Hne E3)
        as (Hfiles&Hafter&_). rewrite Hd, Hd2 in *. split; [tauto|].
      intros o Ho. destruct (Hafter Hf2 o Ho) as [?|[?|?]]; auto.
    - intros ->. by eapply (rename_staged tmp ptr). }
  apply bind_cases in E as [(u3&s3&E3&E)|(r3&E3&_&Hr)].
  2: { destruct (Hren _ _ E3) as (Hc&Hb&_). split; [done|]. split; [done|]. intros ->. by destruct (Hr tt). }
  destruct (Hren _ _ E3) as (Hc&Hb&Hst). destruct u3. specialize (Hst eq_refl).
  assert (∀ q, calm s3 s' q) as Hsy by (intros q; by eapply calm_sync).
  split; [|split].
  - intros q ??. eapply calm_trans; [by apply Hc|apply Hsy].
  - by eapply between_calm.
  - intros ->. unfold ptr, pointer_path in *. change "/_manifest.json" with ("/" +:+ "_manifest.json") in *.
    eapply sync_settles; [by apply at_dir|by split|exact E|exact Hst].
Qed.

(** ** The immediate commit *)

Section one_delete.
Context (local : bool) (cached : string → option RowGroupMeta).
Context (w : Writer) (env : CommitEnv) (by_fragment : gmap Z (list u32)).
Notation table := (w_table w).
Definition txn_of (env : CommitEnv) : string := "txn_" +:+ ce_uuid env.
Context (n : u64) (m : Manifest).
Notation publishing_files := (publishing table (n + 1) (txn_of env)).
Notation staging_files := (staging table m (n + 1)).

Context (Ht : clean table) (Htxn : clean (intent_path table (txn_of env))).

(** The manifest a delete publishes. *)
Definition new_manifest (d : StagedDeletes) (parent : option string) : Manifest :=
  finalize parent (ce_committed_at env)
    (with_checkpoint (SnapshotCheckpoint_filename (n + 1)) (deleted_manifest m (n + 1) d)).
(** The pointer may have moved: the new manifest is in place. *)
Definition moved (d : StagedDeletes) (m' : Manifest) s' : Prop :=
  (∃ parent, m' = new_manifest d parent)
  ∧ settled s' (manifest_path table (n + 1)) (to_vec m')
  ∧ between s' (pointer_path table) (pointer_bytes n) (pointer_bytes (n + 1)).

Lemma write_checkpoint_path c files started schema_id s x s' :
  write_checkpoint local table c (n + 1) (intent_path table (txn_of env)) files (txn_of env) started
    schema_id s = (Ok x, s') → x.1 = SnapshotCheckpoint_filename (n + 1).
Proof.
  unfold write_checkpoint. intros E. do 6 apply bind_inv in E as (?&?&_&E). by injection E as <- _.
Qed.
Lemma finalize_manifest_yields now m0 s m' s' :
  finalize_manifest table now m0 (n + 1) s = (Ok m', s') → ∃ parent, m' = finalize parent now m0.
Proof. unfold finalize_manifest. intros (parent&s1&_&[= <- _])%bind_inv. eauto. Qed.

(** The last steps: the pointer, and the intent that is no longer needed. *)
Definition outcome s (d : StagedDeletes) (r : res Manifest) s' : Prop :=
  (∀ q, ¬ publishing_files q → q ≠ pointer_path table → calm s s' q)
  ∧ ((settled s' (pointer_path table) (pointer_bytes n) ∧ ∀ m', r ≠ Ok m')
     ∨ ∃ m', moved d m' s'
         ∧ ∀ m1, r = Ok m1 → m1 = m' ∧ settled s' (pointer_path table) (pointer_bytes (n + 1))).
Lemma finish_outcome d m' s6 r s' :
  (∃ parent, m' = new_manifest d parent) →
  settled s6 (manifest_path table (n + 1)) (to_vec m') →
  settled s6 (pointer_path table) (pointer_bytes n) →
  (let! _ := swap_pointer table (n + 1) in
   let! _ := best_effort (st_delete (intent_path table (txn_of env))) in m_ret m') s6 = (r, s') →
  outcome s6 d r s'.
Proof.
  intros Em Ep Hold6 E. unfold outcome.
  assert (∀ q, q ≠ intent_path table (txn_of env) → ∀ s7 r7 s8,
    best_effort (st_delete (intent_path table (txn_of env))) s7 = (r7, s8) → calm s7 s8 q) as Hdel.
  { intros q Hq s7 r7 s8 E7. eapply touches_best_effort; [apply touches_delete|exact E7|].
    by intros Ha%at_clean. }
  assert (∀ q, ¬ publishing_files q → q ≠ pointer_path table → q ≠ pointer_path table +:+ ".tmp") as Hptmp.
  { intros q Hq _ ->. apply Hq. constructor. }
  assert (manifest_path table (n + 1) ≠ pointer_path table
          ∧ manifest_path table (n + 1) ≠ pointer_path table +:+ ".tmp"
          ∧ manifest_path table (n + 1) ≠ intent_path table (txn_of env)
          ∧ pointer_path table ≠ intent_path table (txn_of env)) as (Hm1&Hm2&Hm3&Hm4).
  { split_and!; [intros E1; by apply (pointer_ne_manifest table (n + 1))|
                 intros E1; by apply (tmp_ne_manifest table (n + 1))| |];
      unfold intent_path, manifest_path, pointer_path; by intros E1%string_app_inj_l. }
  apply bind_cases in E as [(u7&s7&E7&E)|(r7&E7&_&Hr)];
    destruct (swap_pointer_outcome _ _ _ _ _ _ Ht Hold6 E7) as (Hc7&Hb7&Hok7).
  2: { split.
       - intros q Hq Hqp. by apply Hc7; auto.
       - right. exists m'. split; [|intros m1 ->; by destruct (Hr m1)].
         split; [done|]. split; [|done]. eapply calm_settled; [|exact Ep]. by apply Hc7. }
  destruct u7. specialize (Hok7 eq_refl).
  assert (∀ q, q ≠ intent_path table (txn_of env) → calm s7 s' q) as Hc8.
  { apply bind_cases in E as [(u8&s8&E8&E)|(r8&E8&_&_)]; [injection E as _ <-|]; eauto. }
  split.
  - intros q Hq Hqp. eapply calm_trans; [apply Hc7; auto|]. apply Hc8. intros ->. apply Hq. constructor.
  - right. exists m'. split.
    + split; [done|]. split.
      * eapply calm_settled; [by apply Hc8|]. eapply calm_settled; [by apply Hc7|done].
      * eapply between_calm; [by apply Hc8|done].
    + intros m1 ->. apply bind_inv in E as (u8&s8&_&E). injection E as -> ->.
      split; [done|]. by eapply calm_settled; [apply Hc8|].
Qed.
Lemma publish_deletes_outcome d s r s' :
  settled s (pointer_path table) (pointer_bytes n) →
  publish_deletes local cached w env m (n + 1) d s = (r, s') →
  outcome s d r s'.
Proof.
  intros Hold E. unfold publish_deletes in E. fold (txn_of env) in E.
  assert (∀ q, at_any publishing_files q ↔ publishing_files q) as HT.
  { intros q. apply at_own. intros raw. by apply publishing_clean. }
  assert (∀ q, ¬ at_any publishing_files q → calm s s q) as Hc by (intros; apply calm_refl).
  assert (∀ s1 r1, (∀ q, ¬ at_any publishing_files q → calm s s1 q) → (∀ b : Manifest, r1 ≠ Ok b) →
    outcome s d r1 s1) as Hstop.
  { intros s1 r1 Hc1 Hr1. split; [intros q Hq _; apply Hc1; by rewrite HT|].
    left. split; [|done]. eapply calm_settled; [|done]. apply Hc1. rewrite HT.
    by intros [? _]%publishing_apart. }
  eapply step_touches; [apply write_intent_touches|exact Hc|exact E|by apply Hstop|].
  clear Hc E. intros u1 s1 _ Hc E.
  eapply step_touches; [|exact Hc|exact E|by apply Hstop|]; [touch|]. clear Hc E. intros u2 s2 _ Hc E.
  eapply step_touches; [apply build_checkpoint_touches|exact Hc|exact E|by apply Hstop|].
  clear Hc E. intros c s3 _ Hc E.
  eapply step_touches; [apply write_checkpoint_touches|exact Hc|exact E|by apply Hstop|].
  clear Hc E. intros x s4 Ex Hc E. apply write_checkpoint_path in Ex.
  cbv beta zeta in E. rewrite Ex in E.
  eapply step_touches; [apply finalize_touches|exact Hc|exact E|by apply Hstop|].
  clear Hc E. intros m' s5 Em Hc E. apply finalize_manifest_yields in Em as [parent Em].
  eapply step_touches; [|exact Hc|exact E|by apply Hstop|].
  { apply publish_manifest_touches, touches_best_effort, own_delete. constructor. }
  clear Hc E. intros u s6 Ep Hc E. apply publish_manifest_yields in Ep; [|done].
  assert (settled s6 (pointer_path table) (pointer_bytes n)) as Hold6.
  { eapply calm_settled; [|exact Hold]. apply Hc. rewrite HT. by intros [? _]%publishing_apart. }
  destruct (finish_outcome d m' s6 r s') as [Hc8 Hout]; [by eauto|done..|].
  split; [|done]. intros q Hq Hqp. eapply calm_trans; [apply Hc; by rewrite HT|by apply Hc8].
Qed.

(** ** The whole delete *)

(** A file no commit writes and no recovery removes. *)
Definition spared (fs : gmap string bytes) (p : string) : Prop :=
  ¬ swept fs table n (manifest_referenced_files m) p ∧ ¬ staging_files p ∧ ¬ publishing_files p
  ∧ p ≠ pointer_path table.
(** What a delete starts from: a durable snapshot [n] with distinct fragments,
    whose files are not among those it is about to write, and leftover intents
    that do not claim files of the snapshot or of the database. *)
Record delete_ready s : Prop := {
  rd_pointed : pointed (disk_files s) table n m;
  rd_pointer : settled s (pointer_path table) (pointer_bytes n);
  rd_manifest : ∃ b, settled s (manifest_path table n) b;
  rd_tidy : tidy (disk_files s);
  rd_ids : NoDup (rg_fragment_id <$> mf_row_groups m);
  rd_names : ∀ name, is_Some (mf_index_generations m !! name) → clean (idx_dir table name);
  rd_files : ∀ f, f ∈ manifest_referenced_files m →
    clean f ∧ spared (disk_files s) (table +:+ "/" +:+ f);
  rd_intents : ∀ p, claimed (disk_files s) table (manifest_referenced_files m) p →
    p ≠ pointer_path table ∧ p ≠ manifest_path table n ∧ p ≠ CATALOG_PATH;
}.

(** Files with the same relevant contents make for the same staging. *)
Lemma staged_ok_files fs fs' d s' :
  (∀ e p, e ∈ mf_row_groups m → rg_deletes e = Some p →
     fs' !! (table +:+ "/" +:+ p) = fs !! (table +:+ "/" +:+ p)) →
  (∀ e, e ∈ mf_row_groups m →
     fs' !! (table +:+ "/" +:+ rg_meta e) = fs !! (table +:+ "/" +:+ rg_meta e)) →
  fs' !! CATALOG_PATH = fs !! CATALOG_PATH →
  staged_ok (B:=B) table m (n + 1) by_fragment fs' d s' →
  staged_ok (B:=B) table m (n + 1) by_fragment fs d s'.
Proof.
  intros Hdel Hmeta Hcat [He Hg Hd Ha Hi].
  assert (∀ e, e ∈ mf_row_groups m → current_dv (B:=B) table fs' e = current_dv table fs e) as Hdv.
  { intros e Hin. unfold current_dv. destruct (rg_deletes e) eqn:Ed; [|done]. by rewrite (Hdel e). }
  assert (deleted_row_ids table m by_fragment fs' = deleted_row_ids table m by_fragment fs) as Hids.
  { apply bind_ext_in. intros e Hin. unfold ids_of. by rewrite Hmeta. }
  assert (catalog_of fs' = catalog_of fs) as Hc by (unfold catalog_of; by rewrite Hcat).
  rewrite Hids, Hc in Hg. constructor; [|done| |done..].
  - apply Forall2_same_length_lookup. apply Forall2_same_length_lookup in He as [Hl He].
    split; [done|]. intros i e e' Hi1 Hi2. specialize (He i e e' Hi1 Hi2). unfold entry_deleted in *.
    by rewrite <-Hdv by by eapply list_elem_of_lookup_2.
  - apply Forall_forall. intros e Hin offsets dv v Ho Hv. rewrite Forall_forall in Hd.
    apply Hd; [done|done|]. by rewrite Hdv.
Qed.
(** What was staged stays while the commit is published. *)
Lemma staged_ok_calm fs d s1 s2 :
  (∀ q, ¬ publishing_files q → q ≠ pointer_path table → calm s1 s2 q) →
  staged_ok (B:=B) table m (n + 1) by_fragment fs d s1 →
  staged_ok (B:=B) table m (n + 1) by_fragment fs d s2.
Proof.
  intros Hc [He (cat&Hcat&Hg&Hs) Hd Ha Hi].
  assert (∀ p b, staging_files p → settled s1 p b → settled s2 p b) as Hkeep.
  { intros p b Hp. apply calm_settled. destruct (staging_apart table m (n + 1) (txn_of env) p Hp) as (?&?&_).
    by apply Hc. }
  constructor; [done| | |done..].
  - exists cat. split; [done|]. split; [done|]. intros Hne name e Hin Ht' Hn. apply Hkeep; [by constructor|eauto].
  - apply Forall_forall. intros e Hin offsets dv v Ho Hv Hver. rewrite Forall_forall in Hd.
    apply Hkeep; [by constructor|by apply Hd].
Qed.

Context (Hwal : w_wal_mode w = false).

(** A swept path is claimed by an intent or listed in a directory of the table. *)
Lemma swept_cases fs latest refs p :
  swept fs table latest refs p → claimed fs table refs p
  ∨ (∃ c, p = (intents_dir table +:+ "/") +:+ c)
  ∨ (∃ d c, d ∈ ["_staging/incoming"; "_staging/compact"] ∧ p = ((table +:+ "/" +:+ d) +:+ "/") +:+ c)
  ∨ (∃ c, p = ((table +:+ "/_manifests") +:+ "/") +:+ c ∧ orphan_manifest latest p = true).
Proof.
  intros [?|[Hp|[(d&Hd&Hp&_)|[Hp Ho]]]]; [by left|right..];
    apply elem_of_list_children in Hp as (key&b&_&Hc); apply child_of_prefix in Hc as (c&->&_).
  - left. eauto.
  - right; left. eauto.
  - right; right. eauto.
Qed.
Lemma pointer_spared s : delete_ready s → ¬ swept (disk_files s) table n (manifest_referenced_files m) (pointer_path table).
Proof.
  intros Hr Hs. apply swept_cases in Hs as [Hs|[[c E]|[(d&c&Hd&E)|(c&E&_)]]].
  - by apply (rd_intents s Hr) in Hs as [? _].
  - unfold pointer_path, intents_dir in E. rewrite <-!string_app_assoc in E. by apply string_app_inj_l in E.
  - unfold pointer_path in E. rewrite <-!string_app_assoc in E. apply string_app_inj_l in E.
    apply elem_of_cons in Hd as [->|Hd]; [done|]. by apply list_elem_of_singleton in Hd as ->.
  - unfold pointer_path in E. rewrite <-!string_app_assoc in E. by apply string_app_inj_l in E.
Qed.
Lemma manifest_spared s :
  delete_ready s → in_u64 n → ¬ swept (disk_files s) table n (manifest_referenced_files m) (manifest_path table n).
Proof.
  intros Hr Hn Hs. apply swept_cases in Hs as [Hs|[[c E]|[(d&c&Hd&E)|(c&E&Ho)]]].
  - by apply (rd_intents s Hr) in Hs as (_&?&_).
  - unfold manifest_path, intents_dir in E. rewrite <-!string_app_assoc in E. by apply string_app_inj_l in E.
  - unfold manifest_path in E. rewrite <-!string_app_assoc in E. apply string_app_inj_l in E.
    apply elem_of_cons in Hd as [->|Hd]; [done|]. by apply list_elem_of_singleton in Hd as ->.
  - unfold orphan_manifest, filename_of in Ho. rewrite manifest_path_eq, file_name_join in Ho
      by auto using manifests_dir_clean, Manifest_filename_piece. cbn [from_option] in Ho. unfold id in Ho.
    destruct (ends_with ".json.tmp" _) eqn:Ee.
    + apply ends_with_spec in Ee as [r Er].
      change ".json.tmp" with (".json" +:+ ".tmp") in Er. rewrite string_app_assoc in Er. by apply json_ne_tmp in Er.
    + rewrite strip_suffix_app in Ho. cbn [mbind option_bind] in Ho. rewrite parse_u64_fmt_09 in Ho by done.
      apply Z.ltb_lt in Ho. lia.
Qed.
Lemma catalog_spared s :
  delete_ready s → ¬ swept (disk_files s) table n (manifest_referenced_files m) CATALOG_PATH.
Proof.
  intros Hr Hs. apply swept_cases in Hs as [Hs|Hs]; [by apply (rd_intents s Hr) in Hs as (_&_&?)|].
  assert (contains_char "/" CATALOG_PATH = true) as Hx; [|done].
  assert (∀ a b, CATALOG_PATH = (a +:+ "/") +:+ b → contains_char "/" CATALOG_PATH = true) as Hc.
  { intros a b ->. rewrite !contains_char_app. cbn. by rewrite orb_true_r. }
  destruct Hs as [[c E]|[(d&c&_&E)|(c&E&_)]]; by apply Hc in E.
Qed.
Lemma catalog_not_staged : ¬ staging_files CATALOG_PATH.
Proof.
  intros Hs. apply staging_below in Hs as [[r E]|[r E]];
    (assert (contains_char "/" CATALOG_PATH = true) as Hx; [|done]);
    rewrite E, !contains_char_app; cbn; by rewrite orb_true_r.
Qed.

Lemma catalog_kept s : delete_ready s → spared (disk_files s) CATALOG_PATH.
Proof.
  intros Hr. split; [by apply catalog_spared|]. split; [apply catalog_not_staged|].
  assert (∀ a b, CATALOG_PATH = a +:+ "/" +:+ b → False) as Hc.
  { intros a b E. assert (contains_char "/" CATALOG_PATH = true) as Hx; [|done].
    rewrite E, !contains_char_app. cbn. by rewrite orb_true_r. }
  split.
  - intros Hp. apply publishing_below in Hp as [[r E]|[[r E]|[E|[E|E]]]].
    1,2,3: by apply Hc in E.
    + unfold manifest_path in E. rewrite <-!string_app_assoc in E. by apply Hc in E.
    + unfold pointer_path in E. rewrite <-string_app_assoc in E. by apply (Hc _ "_manifest.json.tmp") in E.
  - intros E. by apply (Hc table "_manifest.json").
Qed.

Lemma manifest_kept s : delete_ready s → spared (disk_files s) (manifest_path table n).
Proof.
  intros Hr. destruct (pt_seq _ _ _ _ (rd_pointed s Hr)) as [Hn0 Hn1].
  split; [apply manifest_spared; [done|unfold in_u64; lia]|]. split_and!.
  - intros Hs. by apply (staging_apart table m (n + 1) (txn_of env)) in Hs as (_&_&Hs); apply (Hs n).
  - intros Hp. apply publishing_apart in Hp as [_ Hp]. apply (Hp n); [unfold in_u64; lia..|done].
  - intros E. by apply (pointer_ne_manifest table n).
Qed.

(** The outcome of a delete, whatever happened. *)
Definition delete_outcome s (r : res (CommitDelta unit)) s' : Prop :=
  (∀ q, spared (disk_files s) q → calm s s' q)
  ∧ ((settled s' (pointer_path table) (pointer_bytes n) ∧ ∀ delta, r ≠ Ok delta)
     ∨ ∃ d m', staged_ok (B:=B) table m (n + 1) by_fragment (disk_files s) d s' ∧ moved d m' s'
         ∧ ∀ delta, r = Ok delta →
             delta = CommitDelta_new m m' Delete
             ∧ settled s' (pointer_path table) (pointer_bytes (n + 1))).

Lemma refused s r s' :
  settled s (pointer_path table) (pointer_bytes n) →
  (∀ q, spared (disk_files s) q ∨ q = pointer_path table → calm s s' q) →
  (∀ delta, r ≠ Ok delta) → delete_outcome s r s'.
Proof.
  intros Hold Hc Hr. split; [auto|]. left. split; [|done]. eapply calm_settled; [|done]. auto.
Qed.

(** What a successful staging computed, in terms of the files at the start. *)
Lemma staged_of_ready s s4 d s5 :
  delete_ready s →
  (∀ f, f ∈ manifest_referenced_files m → disk_files s4 !! (table +:+ "/" +:+ f)
                 = disk_files s !! (table +:+ "/" +:+ f)) →
  disk_files s4 !! CATALOG_PATH = disk_files s !! CATALOG_PATH →
  stage_deletes table false by_fragment m (n + 1) s4 = (Ok d, s5) →
  staged_ok (B:=B) table m (n + 1) by_fragment (disk_files s) d s5.
Proof.
  intros Hr Hf4 Hcat Ed.
  apply (staged_ok_files _ (disk_files s4)).
  - intros e p He Hp. apply Hf4. by eapply (refers_deletes m e).
  - intros e He. by apply Hf4, refers_meta.
  - done.
  - apply stage_deletes_yields; [done|apply (rd_ids s Hr)| | |apply (rd_names s Hr)| |apply catalog_not_staged|done].
    + pose proof (pt_manifest _ _ _ _ (rd_pointed s Hr)) as Hm.
      apply bind_Some in Hm as (b&_&Hm). apply from_slice_wf in Hm as (_&_&_&_&_&Hm&_).
      eapply Forall_impl; [exact Hm|]. by intros e [].
    + intros e p He Hp. destruct (rd_files s Hr p) as (?&_&?&_); [by eapply (refers_deletes m e)|done].
    + intros e He. destruct (rd_files s Hr (rg_meta e)) as (?&_&?&_); [by apply refers_meta|done].
Qed.
(** From a successful staging on. *)
Lemma published_outcome s s4 d s5 r s' :
  delete_ready s →
  (∀ q, spared (disk_files s) q ∨ q = pointer_path table → calm s s4 q) →
  (∀ q, spared (disk_files s) q ∨ q = pointer_path table → calm s s5 q) →
  disk_files s4 !! CATALOG_PATH = disk_files s !! CATALOG_PATH →
  stage_deletes table false by_fragment m (n + 1) s4 = (Ok d, s5) →
  (let! new_manifest := publish_deletes local cached w env m (n + 1) d in
   m_ret (CommitDelta_new m new_manifest Delete)) s5 = (r, s') →
  delete_outcome s r s'.
Proof.
  intros Hr Hc4 Hc5 Hcat Ed E.
  assert (∀ f, f ∈ manifest_referenced_files m → disk_files s4 !! (table +:+ "/" +:+ f)
                 = disk_files s !! (table +:+ "/" +:+ f)) as Hf4.
  { intros f Hf. destruct (rd_files s Hr f Hf) as [_ Hs]. by apply (Hc4 _ (or_introl Hs)). }
  pose proof (staged_of_ready s s4 d s5 Hr Hf4 Hcat Ed) as Hstaged.
  assert (settled s5 (pointer_path table) (pointer_bytes n)) as Hold5
    by (eapply calm_settled; [|apply (rd_pointer s Hr)]; auto).
  apply bind_cases in E as [(m1&s6&E6&E)|(r6&E6&Hr6&Hrr)];
    destruct (publish_deletes_outcome _ _ _ _ Hold5 E6) as [Hc6 Hout].
  - injection E as <- <-. split.
    + intros q Hq. eapply calm_trans; [by apply Hc5; left|]. by apply Hc6; apply Hq.
    + destruct Hout as [[_ Hno]|(m'&Hm'&Hok)]; [by destruct (Hno m1)|]. right. exists d, m'.
      split; [by eapply staged_ok_calm|]. split; [done|]. intros delta [= <-].
      by destruct (Hok m1 eq_refl) as [-> ?].
  - split; [intros q Hq; eapply calm_trans; [by apply Hc5; left|]; by apply Hc6; apply Hq|].
    destruct Hout as [[? _]|(m'&Hm'&_)]; [by left|]. right. exists d, m'.
    split; [by eapply staged_ok_calm|]. split; [done|]. intros delta ->. by destruct (Hrr delta).
Qed.
Lemma commit_deletes_locked_outcome s r s' :
  delete_ready s → commit_deletes_locked (B:=B) local cached w env by_fragment s = (r, s') →
  delete_outcome s r s'.
Proof.
  intros Hr E. pose proof (rd_pointed s Hr) as Hpt. destruct Hpt as [_ [Hn0 Hn1] _ Hpm _ Hseq _].
  pose proof (rd_pointer s Hr) as Hold. set (T := λ q, ¬ (spared (disk_files s) q ∨ q = pointer_path table)).
  assert (∀ s1, (∀ q, ¬ T q → calm s s1 q) → ∀ q, spared (disk_files s) q ∨ q = pointer_path table → calm s s1 q)
    as HT by (intros s1 Hc q Hq; apply Hc; intros HTq; by apply HTq).
  assert (∀ s1 r1, (∀ q, ¬ T q → calm s s1 q) → (∀ delta, r1 ≠ Ok delta) → delete_outcome s r1 s1) as Hstop
    by (intros s1 r1 Hc; apply refused; auto).
  unfold commit_deletes_locked in E. cbv zeta in E. rewrite Hwal in E.
  apply bind_cases in E as [([seq m0]&s1&E1&E)|(r1&E1&Hr1&Hrr)];
    destruct (load_current_fetches _ n m s (rd_pointed s Hr) _ _ E1) as [Hc1 Hcur]; [|by apply Hstop; auto].
  specialize (Hcur _ eq_refl). injection Hcur as -> ->. pose proof (calm_all_files _ _ Hc1) as Ef1.
  assert (prunes (disk_files s) T (cleanup_staging table n (manifest_referenced_files m))) as Hprune.
  { eapply prunes_mono; [|apply cleanup_staging_prunes; [apply (rd_tidy s Hr)|done]].
    intros p Hp [[Hs _]| ->]; [done|]. by apply (pointer_spared s). }
  rewrite (wrap64_small (n + 1)) in E by (unfold in_u64; lia).
  assert (∀ q, ¬ T q → calm s s1 q) as Hc by auto.
  apply bind_cases in E as [(u2&s2&E2&E)|(r2&E2&_&Hrr)];
    destruct (Hprune s1 _ _ (eq_ind_r (λ f, f ⊆ _) (reflexivity _) Ef1) E2) as [Hc2 _].
  2: { apply Hstop; [|done]. intros q Hq. eapply calm_trans; [by apply Hc|by apply Hc2]. }
  assert (∀ q, ¬ T q → calm s s2 q) as Hc' by (intros q Hq; eapply calm_trans; [by apply Hc|by apply Hc2]).
  clear Hc Hc2 E2. rename Hc' into Hc.
  assert (∀ q, at_any staging_files q → T q) as HTs.
  { intros q Hq. rewrite at_own in Hq by (intros raw; apply staging_clean; [done|apply (rd_names s Hr)]).
    intros [(_&Hns&_)| ->]; [done|]. by destruct (staging_apart table m (n + 1) (txn_of env) _ Hq) as (_&?&_). }
  eapply step_touches; [apply touches_nothing, touches_exists|exact Hc|exact E|by apply Hstop|].
  clear Hc E. intros taken s3 _ Hc E. destruct taken; [by injection E as <- <-; apply Hstop|].
  eapply step_touches; [eapply touches_mono; [exact HTs|]; apply ensure_dir_touches; constructor
    |exact Hc|exact E|by apply Hstop|].
  clear Hc E. intros u4 s4 _ Hc E.
  eapply step_touches; [eapply touches_mono; [exact HTs|]; apply stage_deletes_touches
    |exact Hc|exact E|by apply Hstop|].
  intros d s5 Ed Hc5 E5. clear E.
  apply (published_outcome s s4 d s5); [done|by apply HT|by apply HT| |done..].
  apply (HT _ Hc). left. by apply catalog_kept.
Qed.

Lemma ready_calm s s1 : (∀ q, calm s s1 q) → delete_ready s → delete_ready s1.
Proof.
  intros Hc Hr. pose proof (calm_all_files _ _ Hc) as E. constructor.
  - rewrite E. apply (rd_pointed s Hr).
  - eapply calm_settled; [apply Hc|apply (rd_pointer s Hr)].
  - destruct (rd_manifest s Hr) as [b Hb]. exists b. by eapply calm_settled.
  - rewrite E. apply (rd_tidy s Hr).
  - apply (rd_ids s Hr).
  - apply (rd_names s Hr).
  - intros f Hf. rewrite E. by apply (rd_files s Hr).
  - intros p. rewrite E. apply (rd_intents s Hr).
Qed.
Lemma outcome_calm s s1 r s2 s' :
  (∀ q, calm s s1 q) → (∀ q, calm s2 s' q) → delete_outcome s1 r s2 → delete_outcome s r s'.
Proof.
  intros Hc Hc' [Hk Hout]. pose proof (calm_all_files _ _ Hc) as E. unfold delete_outcome. rewrite E in *. split.
  - intros q Hq. eapply calm_trans; [apply Hc|]. eapply calm_trans; [by apply Hk|apply Hc'].
  - destruct Hout as [[Hs Hr]|(d&m'&Hst&(Hm&Hset&Hb)&Hok)]; [left|right].
    + split; [by eapply calm_settled|done].
    + exists d, m'. split; [by eapply staged_ok_calm; [intros; apply Hc'|]|]. split.
      * split; [done|]. split; [by eapply calm_settled|by eapply between_calm].
      * intros delta Hd. destruct (Hok delta Hd) as [? Hp]. split; [done|by eapply calm_settled].
Qed.

(** ... with the lock taken and released. *)
Lemma commit_deletes_outcome s r s' :
  delete_ready s → commit_deletes (B:=B) local cached w env by_fragment s = (r, s') →
  delete_outcome s r s'.
Proof.
  intros Hr E. unfold commit_deletes in E. apply bind_cases in E as [(l&s1&E1&E)|(r1&E1&_&Hrr)].
  - assert (∀ q, calm s s1 q) as Hc by (intros; eapply touches_nowhere_calm; [apply touches_lock|exact E1]).
    destruct (commit_deletes_locked local cached w env by_fragment s1) as [r2 s2] eqn:E2. injection E as <- <-.
    apply (outcome_calm s s1 r2 s2); [done|intros q; apply calm_unlock|].
    apply commit_deletes_locked_outcome; [by eapply ready_calm|done].
  - apply refused; [apply (rd_pointer s Hr)| |done].
    intros q _. eapply touches_nowhere_calm; [apply touches_lock|exact E1].
Qed.
End one_delete.
End atomic.
