(* ===== verification/CommitCrash.v ===== *)
(** * After a loss of power

    What [commit_deletes] leaves behind, seen by the next process: the files a
    working storage holds once power is back, each with something the medium may
    hold, load as the old snapshot or as the complete new one. *)

From S2P Require Import Prelude Bytes StableSort Text OrdMap RowId Storage Json Arrow Schema Manifest.
From S2P Require Import RowGroupMeta CommitDelta MutationWal Gc BTreeIndex SecondaryIndex DatabaseCatalog.
From S2P Require Import Commit Disk CommitSafe CommitDurable CommitAtomic.
From Stdlib Require Import Ascii String.

#[local] Open Scope list_scope.
#[local] Open Scope Z_scope.

Section crash.
Context `{!Sha256, !SerdeJson, !SerdeJsonLaws, !HashOrder, !Hex, !HexEncode, !Rkyv}
  {B : Type} `{!RoaringBitmap B} {St : Type} `{!Storage St, !DiskState St, !DiskLaws St}
  {St2 : Type} `{!Storage St2, !StorageLaws St2}.
Implicit Types (s : St) (t : St2).

Lemma load_checkpoint_ok table n b m t :
  clean table → 0 < n → in_u64 n → files t !! pointer_path table = Some (pointer_bytes n) →
  files t !! manifest_path table n = Some b → from_slice b = Some m → verify_checksum m = true →
  load_checkpoint_manifest table t = (Ok (n, m), t).
Proof.
  intros Ht Hn0 Hn Hp Hb Hm Hv. pose proof (clean_validate _ (pointer_path_clean table Ht)) as Hpp.
  unfold load_checkpoint_manifest. rewrite (m_bind_ok _ _ _ _ _ (st_exists_spec _ _ t Hpp)).
  rewrite Hp, bool_decide_eq_true_2 by done. cbn [negb].
  rewrite (m_try_eq _ _ _ _ _ (st_read_spec _ _ t Hpp)). unfold read_result. rewrite Hp. cbn [of_option].
  destruct (pointer_parses n Hn) as (p&->&->). destruct (Z.eqb_spec n 0); [lia|].
  unfold load_pointed. fold (manifest_path table n).
  assert (read_manifest_validated (manifest_path table n) t = (Ok m, t)) as E.
  { unfold read_manifest_validated.
    rewrite (m_bind_ok _ _ t b t) by (rewrite st_read_clean by (by apply manifest_path_clean);
      unfold read_result; by rewrite Hb).
    unfold parse_manifest. rewrite (m_bind_ok _ _ t m t) by (by rewrite Hm). by rewrite Hv. }
  by rewrite (m_try_eq _ _ _ _ _ E).
Qed.

(** The process dies in the state [s]; what comes up is a working storage that
    holds, of every file, what it held or, if power was lost too, something the
    medium may hold. *)
Definition comes_up s t : Prop :=
  ∀ p, files t !! p = disk_files s !! p ∨ disk_after s p (files t !! p).
Lemma settled_up s t p b : comes_up s t → settled s p b → files t !! p = Some b.
Proof. intros Hup (Hf&_&Hs). destruct (Hup p) as [->|?]; auto. Qed.
Lemma between_up s t p b b' :
  comes_up s t → between s p b b' → files t !! p = Some b ∨ files t !! p = Some b'.
Proof. intros Hup [Hf Hs]. destruct (Hup p) as [->|?]; auto. Qed.

Section recovery.
Context (table : string) (n : u64) (m : Manifest) (by_fragment : gmap Z (list u32)).

(** The delete as a reader of the recovered storage sees it: every entry carries
    the union of its old and new offsets, every new deletion file and tombstone
    delta is there, and nothing else of the snapshot changed. *)
Record recovered (fs fs2 : gmap string bytes) (m' : Manifest) : Prop := {
  rv_entries : Forall2 (entry_deleted (B:=B) table by_fragment fs) (mf_row_groups m) (mf_row_groups m');
  rv_deletions : Forall (del_written (B:=B) table by_fragment (λ p b, fs2 !! p = Some b) fs) (mf_row_groups m);
  rv_generations : ∃ catalog, catalog_of fs = Some catalog ∧
    let ids := deleted_row_ids table m by_fragment fs in
    mf_index_generations m'
      = (if is_empty ids then mf_index_generations m
         else tombstone_refs table (n + 1) (mf_index_generations m) (dc_indexes catalog))
    ∧ (ids ≠ [] → ∀ name e, (name, e) ∈ dc_indexes catalog → tombstoned table e = true →
         is_Some (mf_index_generations m !! name) →
         fs2 !! (table +:+ "/" +:+ TombstoneDelta_versioned_filename name (n + 1)) = Some (delta_bytes ids));
  rv_same : mf_sequence m' = n + 1 ∧ mf_schema_id m' = mf_schema_id m
    ∧ mf_row_counts m' = mf_row_counts m ∧ mf_partition_values m' = mf_partition_values m
    ∧ mf_next_row_id m' = mf_next_row_id m ∧ mf_next_fragment_id m' = mf_next_fragment_id m
    ∧ mf_rowindex_generation m' = mf_rowindex_generation m;
}.

Lemma new_manifest_wf env d parent fs :
  in_u64 (n + 1) → manifest_wf m →
  (∀ e dv offsets, e ∈ mf_row_groups m → current_dv (B:=B) table fs e = Some dv →
     offsets_for by_fragment (rg_fragment_id e) = Some offsets →
     in_u64 (cardinality (union_offsets dv offsets))) →
  Forall2 (entry_deleted (B:=B) table by_fragment fs) (mf_row_groups m) (sd_row_groups d) →
  manifest_wf (new_manifest env n m d parent).
Proof.
  intros Hn (_&_&?&?&?&Hrg&?&?) Hcard He. unfold manifest_wf, new_manifest. cbn.
  split_and!; try done. apply Forall_forall. intros e' [i Hi]%list_elem_of_lookup.
  destruct (Forall2_lookup_r _ _ _ _ _ He Hi) as (e&Hie&Hd). pose proof (list_elem_of_lookup_2 _ _ _ Hie) as Hin.
  rewrite Forall_forall in Hrg. destruct (Hrg e Hin) as [Hid Hc]. unfold entry_deleted in Hd.
  destruct (offsets_for by_fragment (rg_fragment_id e)) as [o|] eqn:Eo; [|by subst].
  destruct Hd as (dv&v&Hdv&_&->). split; [done|]. by eapply (Hcard e).
Qed.

Lemma recovered_new s s' t d env parent :
  comes_up s' t → staged_ok (B:=B) table m (n + 1) by_fragment (disk_files s) d s' →
  recovered (disk_files s) (files t) (new_manifest env n m d parent).
Proof.
  intros Hup [He (cat&Hcat&Hg&Hs) Hd _ _]. constructor; [done| | |done].
  - eapply Forall_impl; [exact Hd|]. intros e Hw offsets dv v ???. eapply settled_up; [done|by apply Hw].
  - exists cat. split; [done|]. split; [done|]. intros Hne name e ???. eapply settled_up; [done|].
    by apply (Hs Hne name e).
Qed.

End recovery.

End crash.
