(* ===== verification/CommitLive.v ===== *)
(** * A delete succeeds

    On a disk that works, a delete of rows of a readable snapshot is carried
    out, whatever failed commits left behind; it can only find the lock taken. *)

From S2P Require Import Prelude Bytes StableSort Text OrdMap RowId Storage Json Arrow Schema Manifest.
From S2P Require Import RowGroupMeta CommitDelta MutationWal Gc BTreeIndex SecondaryIndex DatabaseCatalog.
From S2P Require Import Commit Disk CommitSafe Total CommitDurable CommitAtomic CommitCrash.
From Stdlib Require Import Ascii String.

#[local] Open Scope list_scope.
#[local] Open Scope Z_scope.

(** ** The recovery of staging leftovers *)

Section cleanup.
Context `{!SerdeJson} {St : Type} `{!Storage St, !DiskState St, !DiskLaws St, !ReliableDisk St}.
Context (fs0 : gmap string bytes) (Htidy : tidy fs0).
Implicit Types s : St.
(** Files only go. *)
Definition within s : Prop := disk_files s ⊆ fs0.

Lemma within_calm s s' : (∀ p, calm s s' p) → within s → within s'.
Proof. intros Hc Hs. unfold within. by rewrite (calm_all_files s s' Hc). Qed.
Lemma delete_present_within p : clean p → total within (delete_present p) (λ _, within).
Proof.
  intros Hc s Hr Hs. destruct (rel_delete p p s (clean_validate _ Hc) Hr) as (s'&E&Hr').
  assert (delete_present p s = (Ok tt, s')) as Ed.
  { unfold delete_present, m_try. rewrite E. by destruct (disk_files s !! p). }
  exists tt, s'. split; [done|]. split; [done|].
  destruct (delete_present_prunes fs0 p s _ s' Hs Ed) as [_ Hf]. unfold within in *. etrans; [by apply (Hf tt)|done].
Qed.
Lemma list_within dir :
  clean dir → total within (list_or_empty dir)
    (λ l s, (∀ e, e ∈ l → e ∈ list_children fs0 (dir +:+ "/")) ∧ within s).
Proof.
  intros Hc s Hr Hs. destruct (rel_list dir dir s (clean_validate _ Hc) Hr) as (s'&E&Hr').
  assert (∃ l, list_or_empty dir s = (Ok l, s')) as [l El].
  { unfold list_or_empty, m_try. rewrite E. case_decide; eauto. }
  destruct (list_or_empty_found fs0 dir s _ s' Hc Hs El) as [Hcalm Hl].
  exists l, s'. split; [done|]. split; [done|]. split; [|by eapply within_calm].
  intros e He. rewrite (Hl l eq_refl) in He. by eapply list_children_mono.
Qed.
Lemma read_within p :
  clean p → total within (read_present p) (λ o s, (∀ b, o = Some b → fs0 !! p = Some b) ∧ within s).
Proof.
  intros Hc s Hr Hs. destruct (rel_read p p s (clean_validate _ Hc) Hr) as (s'&E&Hr').
  assert (within s') as Hs' by (eapply within_calm; [|done]; intros; by eapply calm_read).
  unfold read_present, m_try. rewrite E. unfold read_result.
  destruct (disk_files s !! p) as [b|] eqn:Eb; cbn; eexists _, s'; (split; [done|]); (split; [done|]);
    (split; [|done]); [|done]. intros b' [= <-]. by eapply lookup_weaken.
Qed.
Lemma entries_within dir (f : unit → string → M St unit) l :
  (∀ e, e ∈ l → e ∈ list_children fs0 (dir +:+ "/")) →
  (∀ a e, e ∈ list_children fs0 (dir +:+ "/") → clean e → total within (f a e) (λ _, within)) →
  total within (m_fold f tt l) (λ _, within).
Proof.
  intros Hl Hf. apply (total_fold (λ _, within)). intros a e He%Hl. apply Hf; [done|by eapply child_clean].
Qed.
(** The leftover intents name files of the table. *)
Definition intents_clean (table : string) (referenced : gset string) : Prop :=
  ∀ e d intent files f,
    e ∈ list_children fs0 (intents_dir table +:+ "/") → fs0 !! e = Some d →
    json_parse d = Some intent → get_key "files" intent = Some (VArray files) →
    VString f ∈ files → f ∉ referenced → clean f.
Lemma clean_intent_within table referenced e :
  clean table → intents_clean table referenced →
  e ∈ list_children fs0 (intents_dir table +:+ "/") → clean e →
  total within (clean_intent table referenced e) (λ _, within).
Proof.
  intros Ht Hi He Hc. unfold clean_intent. destruct (negb _); [by apply total_ret|].
  eapply total_bind; [by apply read_within|]. intros [d|]; [|by apply total_ret; intros s [_ ?]].
  intros s Hr [Hd Hs]. specialize (Hd d eq_refl). revert s Hr Hs.
  eapply (total_bind _ _ (λ _, within)); [|intros _; by apply delete_present_within].
  destruct (json_parse d) as [intent|] eqn:Ep; [|by apply total_ret]. unfold discard_intended.
  destruct (get_key "files" intent) as [[| | | |files|]|] eqn:Ef; try by apply total_ret.
  apply (total_fold (λ _, within)). intros _ file Hin. destruct file as [| | |f| |]; try by apply total_ret.
  case_bool_decide as Href; [by apply total_ret|]. apply delete_present_within, clean_join; [done|]. by eapply Hi.
Qed.
Lemma delete_if_within (b : bool) e : clean e → total within (if b then delete_present e else m_ret tt) (λ _, within).
Proof. destruct b; [by apply delete_present_within|]. intros _. by apply total_ret. Qed.
Lemma cleanup_total table latest_seq referenced :
  clean table → intents_clean table referenced →
  total within (cleanup_staging table latest_seq referenced) (λ _, within).
Proof.
  intros Ht Hi. unfold cleanup_staging, clean_parts, clean_manifests.
  assert (∀ d, clean d → clean (table +:+ "/" +:+ d)) as Hd by (intros; by apply clean_join).
  eapply total_bind; [apply (list_within (table +:+ "/" +:+ "_staging/intents")), Hd; by apply clean_bool|].
  intros l. apply total_pre. intros Hl. apply (total_bind _ _ (λ _, within)).
  { eapply entries_within; [exact Hl|]. intros. by apply clean_intent_within. }
  assert (∀ d, clean d → total within (let! entries := list_or_empty (table +:+ "/" +:+ d) in
    m_fold (λ _ entry, if ends_with ".part" entry then delete_present entry else m_ret tt) tt entries)
    (λ _, within)) as Hparts.
  { intros d Hcd. eapply total_bind; [by apply list_within, Hd|]. intros l'. apply total_pre. intros Hl'.
    eapply entries_within; [exact Hl'|]. intros. by apply delete_if_within. }
  intros ?. eapply total_bind; [apply (Hparts "_staging/incoming"); by apply clean_bool|].
  intros ?. eapply total_bind; [apply (Hparts "_staging/compact"); by apply clean_bool|].
  intros ?. eapply total_bind; [apply (list_within (table +:+ "/" +:+ "_manifests")), Hd; by apply clean_bool|].
  intros l'. apply total_pre. intros Hl'. eapply entries_within; [exact Hl'|]. intros. by apply delete_if_within.
Qed.

(** Afterwards the place of the next manifest is free. *)
Lemma delete_if_shrinks l (p : string → bool) s u s' :
  within s → m_fold (λ _ e, if p e then delete_present e else m_ret tt) tt l s = (Ok u, s') →
  disk_files s' ⊆ disk_files s.
Proof.
  intros Hs E. assert (prunes fs0 (λ _, True) (m_fold (St:=St) (λ _ e, if p e then delete_present e else m_ret tt) tt l))
    as Hp.
  { apply prunes_fold. intros _ e _. destruct (p e); [|apply prunes_nothing, touches_ret].
    eapply prunes_mono; [|apply delete_present_prunes]. done. }
  destruct (Hp s _ s' Hs E) as [_ Hf]. by apply (Hf u).
Qed.
Lemma delete_present_gone p s u s' :
  clean p → delete_present p s = (Ok u, s') → disk_files s' !! p = None.
Proof.
  intros Hc (r&s1&E1&E)%try_inv. pose proof (disk_delete _ _ _ _ _ (clean_validate _ Hc) E1) as Hd.
  destruct r as [|e|]; [|destruct (is_not_found e)|]; try done; injection E as _ <-; auto.
Qed.
Lemma delete_listed_gone l (p : string → bool) u s' e :
  (∀ e, e ∈ l → clean e) → e ∈ l → p e = true →
  ∀ s, within s → m_fold (λ _ e, if p e then delete_present e else m_ret tt) tt l s = (Ok u, s') →
  disk_files s' !! e = None.
Proof.
  intros Hl He Hp. induction l as [|x l IH]; intros s Hs E; [by apply elem_of_nil in He|]. cbn [m_fold] in E.
  apply bind_inv in E as (u1&s1&E1&E).
  assert (within s1) as Hs1.
  { unfold within. etrans; [|exact Hs]. apply (delete_if_shrinks [x] p s u1); [done|]. cbn [m_fold].
    unfold m_bind. rewrite E1. by destruct u1. }
  apply elem_of_cons in He as [<-|He]; [|destruct u1; by apply (IH (λ y Hy, Hl y (list_elem_of_further _ _ _ Hy)) He s1)].
  rewrite Hp in E1. destruct (disk_files s' !! e) eqn:Ee; [|done].
  destruct u1. apply delete_if_shrinks in E; [|done]. eapply lookup_weaken in Ee; [|exact E].
  rewrite (delete_present_gone _ _ _ _ (Hl e (list_elem_of_here _ _)) E1) in Ee. done.
Qed.
Lemma prunes_within {A} T (x : M St A) s a s' : prunes fs0 T x → within s → x s = (Ok a, s') → within s'.
Proof. intros Hx Hs E. destruct (Hx s _ s' Hs E) as [_ Hf]. unfold within in *. etrans; [by apply (Hf a)|done]. Qed.
Lemma manifest_listed table k s :
  in_u64 k → is_Some (disk_files s !! manifest_path table k) →
  manifest_path table k ∈ list_children (disk_files s) ((table +:+ "/_manifests") +:+ "/").
Proof.
  intros Hk [b Hb]. apply elem_of_list_children. exists (manifest_path table k), b. split; [done|].
  rewrite manifest_path_eq, string_app_assoc. apply child_of_file, Manifest_filename_piece.
Qed.
Lemma orphan_next table n k :
  clean table → in_u64 k → n < k → orphan_manifest n (manifest_path table k) = true.
Proof.
  intros Ht Hk Hlt. unfold orphan_manifest, filename_of. rewrite manifest_path_eq, file_name_join
    by auto using manifests_dir_clean, Manifest_filename_piece. cbn [from_option]. unfold id.
  case_match; [done|]. rewrite strip_suffix_app. cbn [mbind option_bind]. rewrite parse_u64_fmt_09 by done.
  by apply Z.ltb_lt.
Qed.
Lemma cleanup_clears table n k referenced s u s' :
  clean table → in_u64 k → n < k → within s → cleanup_staging table n referenced s = (Ok u, s') →
  disk_files s' !! manifest_path table k = None.
Proof.
  intros Ht Hk Hlt Hs E. unfold cleanup_staging, clean_parts in E.
  assert (∀ d, clean d → clean (table +:+ "/" +:+ d)) as Hd by (intros; by apply clean_join).
  assert (∀ dir s l s', clean dir → within s → list_or_empty dir s = (Ok l, s') →
    within s' ∧ l = list_children (disk_files s) (dir +:+ "/") ∧ disk_files s' = disk_files s) as Hlist.
  { intros dir s1 l s2 Hc Hs1 E1. destruct (list_or_empty_found fs0 dir s1 _ s2 Hc Hs1 E1) as [Hcalm Hl].
    split; [by eapply within_calm|]. split; [by apply Hl|]. by apply calm_all_files. }
  assert (∀ d l s1 s2, clean d → within s1 → (let! entries := list_or_empty (table +:+ "/" +:+ d) in
    m_fold (λ _ entry, if ends_with ".part" entry then delete_present entry else m_ret tt) tt entries) s1
    = (Ok l, s2) → within s2) as Hparts.
  { intros d l s1 s2 Hcd Hs1 E1. apply bind_inv in E1 as (l'&s1'&E1&E2).
    destruct (Hlist _ _ _ _ (Hd d Hcd) Hs1 E1) as (Hs1'&_&_).
    unfold within. etrans; [eapply (delete_if_shrinks l' (ends_with ".part")); [exact Hs1'|exact E2]|exact Hs1']. }
  apply bind_inv in E as (l1&s1&E1&E).
  assert (clean "_staging/intents" ∧ clean "_staging/incoming" ∧ clean "_staging/compact" ∧ clean "_manifests")
    as (Hc1&Hc2&Hc3&Hc4) by (split_and!; apply clean_bool; reflexivity).
  destruct (Hlist _ _ _ _ (Hd _ Hc1) Hs E1) as (Hs1&Hl1&_).
  apply bind_inv in E as (u2&s2&E2&E).
  assert (within s2) as Hs2.
  { eapply (prunes_within (swept fs0 table 0 referenced)); [|exact Hs1|exact E2]. apply prunes_fold.
    intros _ e He. apply clean_intent_prunes; [done|]. rewrite Hl1 in He. eapply list_children_mono; [exact Hs|exact He]. }
  apply bind_inv in E as (u3&s3&E3&E). apply (Hparts _ _ _ _ Hc2 Hs2) in E3.
  apply bind_inv in E as (u4&s4&E4&E). apply (Hparts _ _ _ _ Hc3 E3) in E4.
  unfold clean_manifests in E. apply bind_inv in E as (l5&s5&E5&E).
  destruct (Hlist _ _ _ _ (Hd _ Hc4) E4 E5) as (Hs5&Hl5&Ef5).
  destruct (disk_files s' !! manifest_path table k) as [b|] eqn:Eb; [exfalso|done].
  assert (is_Some (disk_files s5 !! manifest_path table k)) as Hin.
  { exists b. eapply lookup_weaken; [exact Eb|].
    eapply (delete_if_shrinks l5 (orphan_manifest n)); [exact Hs5|exact E]. }
  rewrite Ef5 in Hin. apply manifest_listed in Hin; [|done]. change (table +:+ "/_manifests") with
    (table +:+ "/" +:+ "_manifests") in Hin. rewrite <-Hl5 in Hin.
  assert (disk_files s' !! manifest_path table k = None) as En; [|congruence].
  eapply (delete_listed_gone l5 (orphan_manifest n)); [|exact Hin|by apply orphan_next|exact Hs5|exact E].
  intros e He. rewrite Hl5 in He. eapply child_clean; [exact Htidy|]. eapply list_children_mono; [exact E4|exact He].
Qed.
End cleanup.

(** ** Staging *)

Section live.
Context `{!Sha256, !SerdeJson, !SerdeJsonLaws, !HashOrder, !Hex, !HexEncode, !Rkyv}
  {B : Type} `{!RoaringBitmap B} {St : Type} `{!Storage St, !DiskState St, !DiskLaws St, !ReliableDisk St}.
Implicit Types s : St.

Section staged.
Context (table : string) (n : u64) (m : Manifest) (by_fragment : gmap Z (list u32)).
Notation next_seq := (n + 1).
Context (fs : gmap string bytes) (K : string → Prop).
Context (Ht : clean table) (Hfree : ∀ p, K p → ¬ staging table m next_seq p).
Context (Hnames : ∀ name, is_Some (mf_index_generations m !! name) → clean (idx_dir table name)).

(** What a delete needs to read: the deletion vectors of the fragments it adds
    to, the sidecars, the catalog, and row ids if there is a unique index. *)
Record readable : Prop := {
  rb_deleted : ∀ e o, e ∈ mf_row_groups m → offsets_for by_fragment (rg_fragment_id e) = Some o →
    is_Some (current_dv (B:=B) table fs e) ∧ ∃ v, next_version e = Ok v;
  rb_metas : ∀ e, e ∈ mf_row_groups m →
    is_Some (fs !! (table +:+ "/" +:+ rg_meta e) ≫= from_slice (A:=RowGroupMeta));
  rb_catalog : ∃ catalog, catalog_of fs = Some catalog
    ∧ (has_unique_index table (mf_index_generations m) (dc_indexes catalog) = true →
       ∀ e o meta, e ∈ mf_row_groups m → offsets_for by_fragment (rg_fragment_id e) = Some o →
         fs !! (table +:+ "/" +:+ rg_meta e) ≫= from_slice = Some meta → rm_row_ids meta ≠ []);
}.
Context (Hread : readable).
Context (Hk : ∀ f, f ∈ manifest_referenced_files m → clean f ∧ K (table +:+ "/" +:+ f)) (Hkc : K CATALOG_PATH).

Lemma staging_scratch p : staging table m next_seq p → ¬ K p.
Proof. intros Hp HK. by eapply Hfree. Qed.

Lemma existing_dv_total e :
  e ∈ mf_row_groups m → is_Some (current_dv (B:=B) table fs e) →
  total (kept fs K) (existing_dv (B:=B) table e) (λ _, kept fs K).
Proof.
  intros He [dv Hdv]. unfold existing_dv, current_dv in *.
  destruct (rg_deletes e) as [p|] eqn:Ep; [|by apply total_ret].
  apply bind_Some in Hdv as (b&Hb&Hdv). destruct (Hk p) as [Hp HKp]; [by eapply refers_deletes|].
  eapply total_bind; [eapply total_read; [by apply clean_join|done|exact Hb]|]. intros b'. apply total_pre. intros ->.
  eapply total_lift; [|done]. destruct (dv_deserialize b); by simplify_eq.
Qed.
Lemma delete_fragment_total acc e :
  e ∈ mf_row_groups m →
  total (kept fs K) (delete_fragment (B:=B) table false by_fragment acc e) (λ _, kept fs K).
Proof.
  intros He. unfold delete_fragment. destruct acc as [[rgs paths] arts].
  destruct (offsets_for by_fragment (rg_fragment_id e)) as [o|] eqn:Eo; [|by apply total_ret].
  destruct (rb_deleted Hread e o He Eo) as [Hdv [v Hv]].
  eapply total_bind; [by apply existing_dv_total|]. intros dv.
  eapply total_bind; [by apply (total_lift _ _ (λ v' s, v' = v ∧ kept fs K s) v)|]. intros v'.
  apply total_pre. intros ->. assert (clean (table +:+ "/" +:+ del_path (rg_fragment_id e) v)) as Hc
    by (apply clean_join; [done|apply del_path_clean]).
  eapply total_bind; [apply total_scratch; [done|apply staging_scratch; by constructor]|]. intros ?.
  eapply total_bind; [by apply total_sync_data|]. intros ?. by apply total_ret.
Qed.
Lemma deleted_ids_total (unique : Prop) acc e :
  e ∈ mf_row_groups m →
  (unique → ∀ o meta, offsets_for by_fragment (rg_fragment_id e) = Some o →
     fs !! (table +:+ "/" +:+ rg_meta e) ≫= from_slice = Some meta → rm_row_ids meta ≠ []) →
  (unique → acc.2 = []) →
  total (kept fs K) (deleted_ids table by_fragment acc e) (λ acc s, (unique → acc.2 = []) ∧ kept fs K s).
Proof.
  intros He Hu Hacc. unfold deleted_ids. destruct acc as [ids without].
  destruct (offsets_for by_fragment (rg_fragment_id e)) as [o|] eqn:Eo; [|by apply total_ret].
  destruct (rb_metas Hread e He) as [meta Hm]. pose proof Hm as Hm'. apply bind_Some in Hm as (b&Hb&Hm).
  destruct (Hk (rg_meta e)) as [Hp HKp]; [by apply refers_meta|].
  eapply total_bind; [eapply total_read; [by apply clean_join|done|exact Hb]|]. intros b'. apply total_pre. intros ->.
  eapply total_bind.
  { apply (total_lift _ _ (λ x s, x = meta ∧ kept fs K s) meta); [|done]. unfold parse_meta. by rewrite Hm. }
  intros x. apply total_pre. intros ->. destruct (is_empty (rm_row_ids meta)) eqn:Ei; apply total_ret; intros s Hs.
  - split; [|done]. intros U. specialize (Hu U o meta eq_refl Hm'). by destruct (rm_row_ids meta).
  - by split.
Qed.

Lemma catalog_total c :
  catalog_of fs = Some c → total (kept fs K) DatabaseCatalog.load (λ c' s, c' = c ∧ kept fs K s).
Proof.
  intros Hc. eapply (total_touches nowhere); [unfold DatabaseCatalog.load; touch|by intros ???|]. intros s Hr Hs.
  destruct (rel_read CATALOG_PATH CATALOG_PATH s eq_refl Hr) as (s'&E&Hr'). exists c, s'.
  split; [|done]. unfold DatabaseCatalog.load, m_try. rewrite E. unfold read_result. rewrite (Hs _ Hkc).
  unfold catalog_of in Hc. destruct (fs !! CATALOG_PATH); cbn; [|by simplify_eq]. unfold m_lift. by rewrite Hc.
Qed.
Lemma append_tombstones_total name ids r :
  is_Some (mf_index_generations m !! name) →
  total (kept fs K) (append_tombstones table name ids next_seq r true) (λ _, kept fs K).
Proof.
  intros Hn. pose proof (staging_scratch _ (sc_tombstone table m next_seq name Hn)) as HK.
  pose proof (staging_scratch _ (sc_tombstone_tmp table m next_seq name Hn)) as HKt.
  pose proof (staging_clean table m next_seq Ht Hnames _ (sc_tombstone table m next_seq name Hn)) as Hc.
  pose proof (staging_clean table m next_seq Ht Hnames _ (sc_tombstone_tmp table m next_seq name Hn)) as Hct.
  unfold append_tombstones, write_delta. apply (total_bind _ _ (λ _, kept fs K)); [|intros ?; by apply total_ret].
  eapply total_bind; [apply total_sync_dir_present; by apply Hnames|]. intros ?.
  eapply total_bind; [by apply total_write_renamed|]. intros ?. apply (total_sync _ (idx_dir table name)), clean_validate. by apply Hnames.
Qed.
Lemma tombstones_total ids arts0 indexes :
  total (kept fs K) (m_fold (tombstone_index table false ids next_seq) (mf_index_generations m, [], arts0) indexes)
    (λ _, kept fs K).
Proof.
  set (P := λ (acc : gmap string IndexRef * list string * list StagedArtifact) s,
    (∀ name, is_Some (acc.1.1 !! name) → is_Some (mf_index_generations m !! name)) ∧ kept fs K s).
  eapply (total_conseq (kept fs K)); [done| |apply (total_fold_inv P)]; [by intros acc s [_ ?]| |].
  - intros s Hs. by split.
  - intros [[gens paths] arts] [name e] _. apply total_pre. cbn [fst]. intros Hg. unfold tombstone_index.
    assert (∀ paths' arts' s, kept fs K s → P (gens, paths', arts') s) as Hsame by (by intros).
    destruct (negb _); [apply total_ret; auto|].
    destruct (gens !! name) as [r|] eqn:Er; [|apply total_ret; auto].
    eapply total_bind; [apply append_tombstones_total; eauto|]. intros r'.
    assert (∀ paths' arts' s, kept fs K s → P (<[name := r']> gens, paths', arts') s) as Hnew.
    { intros paths' arts' s Hs. split; [|done]. intros name'. cbn [fst]. destruct (decide (name' = name)) as [->|].
      - intros _. eauto.
      - rewrite lookup_insert_ne by done. apply Hg. }
    destruct (last _); [|apply total_ret; auto].
    eapply total_bind; [by apply (total_ret _ _ (λ _, kept fs K))|]. intros x. apply total_ret; auto.
Qed.
Lemma stage_deletes_total :
  total (kept fs K) (stage_deletes (B:=B) table false by_fragment m next_seq) (λ _, kept fs K).
Proof.
  destruct (rb_catalog Hread) as (catalog&Hcat&Hu). unfold stage_deletes.
  eapply total_bind; [apply (total_fold (λ _, kept fs K)); intros; by apply delete_fragment_total|].
  intros [[rgs paths] arts]. eapply total_bind; [by apply (total_sync _ (table +:+ "/_deletions")), clean_validate, (clean_join table "_deletions"), clean_bool|]. intros ?.
  set (unique := has_unique_index table (mf_index_generations m) (dc_indexes catalog) = true).
  eapply total_bind.
  { apply (total_fold_inv (λ acc s, (unique → acc.2 = []) ∧ kept fs K s)); [intros s Hs; by split|].
    intros acc e He. apply total_pre. intros Hacc. apply deleted_ids_total; [done| |exact Hacc].
    intros U o meta. by apply (Hu U). }
  intros [ids without]. apply total_pre. cbn [snd]. intros Hw.
  eapply total_bind; [by apply catalog_total|]. intros c'. apply total_pre. intros ->.
  destruct (has_unique_index _ _ _) eqn:Eu; [rewrite (Hw eq_refl)|]; cbn [andb is_empty negb].
  all: apply (total_bind _ _ (λ _, kept fs K)); [|intros [[? ?] ?]; by apply total_ret].
  all: destruct (is_empty ids); [by apply total_ret|apply tombstones_total].
Qed.
End staged.

(** ** Publishing *)

Lemma swap_pointer_total table seq fs K :
  clean table → ¬ K (pointer_path table) → ¬ K (pointer_path table +:+ ".tmp") →
  total (kept fs K) (swap_pointer table seq) (λ _, kept fs K).
Proof.
  intros Ht HKp HKt. unfold swap_pointer.
  apply total_write_rename_then; try done; [by apply tmp_path_clean|by apply pointer_path_clean|apply tmp_ne_pointer| |].
  - intros. by apply total_sync_data, tmp_path_clean.
  - by apply (total_sync _ table), at_dir.
Qed.

Section published.
Context (local : bool) (cached : string → option RowGroupMeta).
Context (w : Writer) (env : CommitEnv) (n : u64) (m : Manifest).
Notation table := (w_table w).
Notation publishing_files := (publishing table (n + 1) (txn_of env)).
Context (fs : gmap string bytes) (K : string → Prop).
Context (Ht : clean table) (Htxn : clean (intent_path table (txn_of env))).
Context (Hfree : ∀ p, K p → ¬ publishing_files p).
Context (Hk : ∀ f, f ∈ manifest_referenced_files m → clean f ∧ K (table +:+ "/" +:+ f)).

Lemma scratch_ok p : publishing_files p → clean p ∧ ¬ K p.
Proof. intros Hp. split; [exact (publishing_clean _ _ _ Ht Htxn _ Hp)|]. intros HK. exact (Hfree p HK Hp). Qed.

Lemma write_intent_total K' fs' started schema_id l :
  ¬ K' (intent_path table (txn_of env)) →
  total (kept fs' K') (write_intent (intent_path table (txn_of env)) (txn_of env) started schema_id l) (λ _, kept fs' K').
Proof.
  intros HK. unfold write_intent. eapply total_bind; [by apply total_scratch|]. intros ?. by apply total_sync_data.
Qed.
Lemma build_checkpoint_total m' :
  (∀ e, e ∈ mf_row_groups m' → ∃ e0, e0 ∈ mf_row_groups m ∧ rg_meta e = rg_meta e0
     ∧ is_Some (fs !! (table +:+ "/" +:+ rg_meta e0) ≫= from_slice (A:=RowGroupMeta))) →
  total (kept fs K) (build_snapshot_checkpoint cached table m m') (λ _, kept fs K).
Proof.
  intros Hm. unfold build_snapshot_checkpoint. apply (total_bind _ _ (λ _, kept fs K)).
  { unfold previous_summaries. destruct (mf_checkpoint m) as [prev|] eqn:Ep; [|by apply total_ret].
    assert (prev ∈ manifest_referenced_files m) as Hin.
    { apply elem_of_list_to_set. do 4 (apply elem_of_app; right). rewrite Ep. apply list_elem_of_here. }
    destruct (Hk prev Hin) as [Hc _]. apply total_read_any; [by apply clean_join|]. intros r Hr _.
    destruct r; [by apply total_ret..|done]. }
  intros prev. apply (total_bind _ _ (λ _, kept fs K)); [|intros ?; by apply total_ret].
  apply (total_fold (λ _, kept fs K)). intros acc e He.
  apply (total_bind _ _ (λ _, kept fs K)); [|intros ?; by apply total_ret].
  unfold fragment_summary. destruct (reusable _ _ _); [by apply total_ret|].
  apply (total_bind _ _ (λ _, kept fs K)); [|intros ?; by apply total_ret].
  unfold fragment_meta. destruct (cached _); [by apply total_ret|].
  destruct (Hm e He) as (e0&He0&->&[meta Hmeta]). apply bind_Some in Hmeta as (b&Hb&Hmeta).
  destruct (Hk (rg_meta e0) (refers_meta m e0 He0)) as [Hc HKm].
  eapply total_bind; [eapply total_read; [by apply clean_join|exact HKm|exact Hb]|].
  intros b'. apply total_pre. intros ->. eapply total_lift; [|done]. unfold parse_meta. by rewrite Hmeta.
Qed.
Lemma write_archive_total c : total (kept fs K) (write_archive table c (n + 1)) (λ _, kept fs K).
Proof.
  destruct (scratch_ok _ (sc_archive table (n + 1) (txn_of env))) as [Hca HKa].
  destruct (scratch_ok _ (sc_archive_tmp table (n + 1) (txn_of env))) as [Hct HKt].
  unfold write_archive. apply (total_bind _ _ (λ _, kept fs K)).
  - destruct (is_empty _); [by apply total_ret|].
    eapply total_and_ok; [by apply total_write|]. intros ?. eapply total_and_ok; [by apply total_sync_data|]. intros ?.
    eapply total_and_ok; [apply (total_rename _ _ (to_archive_bytes c)); [done..|apply tmp_ne|by right|by rewrite lookup_insert_eq]|].
    intros ?. apply total_ret. intros s. by apply kept_renamed.
  - intros written. destruct written; [by apply total_ret|].
    eapply total_bind; [by apply total_best_delete|]. intros ?. by apply total_ret.
Qed.
Lemma write_checkpoint_total c l started schema_id :
  total (kept fs K) (write_checkpoint local table c (n + 1) (intent_path table (txn_of env)) l (txn_of env)
    started schema_id) (λ x s, x.1 = SnapshotCheckpoint_filename (n + 1) ∧ kept fs K s).
Proof.
  destruct (scratch_ok _ (sc_checkpoints_keep table (n + 1) (txn_of env))) as [_ HKk].
  destruct (scratch_ok _ (sc_part table (n + 1) (txn_of env))) as [Hcp HKp].
  destruct (scratch_ok _ (sc_checkpoint table (n + 1) (txn_of env))) as [Hcc HKc].
  destruct (scratch_ok _ (sc_intent table (n + 1) (txn_of env))) as [_ HKi].
  assert (checkpoint_part_path table (n + 1) ≠ table +:+ "/" +:+ SnapshotCheckpoint_filename (n + 1)
          ∧ intent_path table (txn_of env) ≠ checkpoint_part_path table (n + 1)) as [Hne Hni].
  { unfold checkpoint_part_path, intent_path, SnapshotCheckpoint_filename.
    split; intros E; apply string_app_inj_l in E; by cbn in E. }
  unfold write_checkpoint. eapply total_bind.
  { apply total_ensure_dir; [|exact HKk]. apply (clean_join table "_checkpoints"); [done|by apply clean_bool]. }
  intros ?. eapply total_bind; [by apply total_write|]. intros ?. eapply total_bind; [by apply total_sync_data|]. intros ?.
  eapply total_bind; [apply write_intent_total; by intros [?|?]|]. intros ?.
  eapply total_bind; [apply (total_rename _ _ (to_vec c)); [done..|by right|by rewrite lookup_insert_eq]|]. intros ?.
  apply (total_pre_mono (kept fs K)); [intros s; by apply kept_renamed|].
  apply (total_bind _ _ (λ _, kept fs K)); [|intros arch; by apply total_ret].
  destruct local; [apply write_archive_total|by apply total_ret].
Qed.
Lemma finalize_total now m0 b :
  in_u64 n → n + 1 < 2 ^ 64 → 0 < n → K (manifest_path table n) →
  fs !! manifest_path table n = Some b → is_Some (from_slice (A:=Manifest) b) →
  total (kept fs K) (finalize_manifest table now m0 (n + 1))
    (λ m' s, (∃ parent, m' = finalize parent now m0) ∧ kept fs K s).
Proof.
  intros Hn Hn1 Hn0 HK Hb [m1 Hm]. unfold finalize_manifest.
  apply (total_bind _ _ (λ _, kept fs K)); [|intros parent; apply total_ret; intros s Hs; eauto].
  unfold parent_manifest_checksum. destruct (Z.leb_spec (n + 1) 1); [lia|].
  replace (n + 1 - 1) with n by lia. fold (manifest_path table n).
  assert (clean (manifest_path table n)) as Hc by by apply manifest_path_clean.
  intros s Hr Hs. destruct (total_read _ b fs K Hc HK Hb s Hr Hs) as (b'&s'&E&Hr'&->&Hs').
  unfold m_try. rewrite E, Hm. by eexists _, s'.
Qed.
Lemma publish_manifest_total m' on_mismatch :
  from_slice (to_vec m') = Some m' → verify_checksum m' = true →
  total (kept fs K) (publish_manifest table (n + 1) m' on_mismatch) (λ _, kept fs K).
Proof.
  intros Hm Hv. unfold publish_manifest. fold (manifest_path table (n + 1)).
  destruct (scratch_ok _ (sc_manifest table (n + 1) (txn_of env))) as [Hc HKc].
  destruct (scratch_ok _ (sc_manifest_tmp table (n + 1) (txn_of env))) as [Hct HKt].
  set (tmp := manifest_path table (n + 1) +:+ ".tmp") in *.
  set (written := kept (<[tmp := to_vec m']> fs) (λ q, K q ∨ q = tmp)).
  apply (total_bind _ _ (λ b s, b = true ∧ written s)).
  { unfold write_manifest_tmp. eapply total_bind; [by apply total_write|]. intros ?.
    eapply total_bind; [by apply total_sync_data|]. intros ?. unfold verify_manifest_checksum.
    eapply total_bind; [apply total_read; [done|by right|by rewrite lookup_insert_eq]|]. intros b. apply total_pre.
    intros ->. eapply total_bind; [apply (total_lift _ _ (λ x s, x = m' ∧ written s) m'); [|done]|].
    { unfold parse_manifest. by rewrite Hm. }
    intros x. apply total_pre. intros ->. by apply total_ret. }
  intros b. apply total_pre. intros ->. apply (total_bind _ _ (λ b s, b = true ∧ written s)); [by apply total_ret|].
  intros b. apply total_pre. intros ->. apply (total_bind _ _ (λ _, written)); [by apply total_ret|]. intros ?.
  eapply total_bind; [apply (total_rename _ _ (to_vec m')); [done..|apply tmp_ne|by right|by rewrite lookup_insert_eq]|].
  intros ?. apply (total_pre_mono (kept fs K)); [intros s; by apply kept_renamed|]. by apply (total_sync _ (table +:+ "/_manifests")), clean_validate, manifests_dir_clean.
Qed.

Lemma publish_deletes_total d b :
  in_u64 n → n + 1 < 2 ^ 64 → 0 < n → K (manifest_path table n) →
  fs !! manifest_path table n = Some b → is_Some (from_slice (A:=Manifest) b) →
  (∀ e, e ∈ sd_row_groups d → ∃ e0, e0 ∈ mf_row_groups m ∧ rg_meta e = rg_meta e0
     ∧ is_Some (fs !! (table +:+ "/" +:+ rg_meta e0) ≫= from_slice (A:=RowGroupMeta))) →
  (∀ parent, from_slice (to_vec (new_manifest env n m d parent)) = Some (new_manifest env n m d parent)) →
  total (kept fs K) (publish_deletes local cached w env m (n + 1) d) (λ _ _, True).
Proof.
  intros Hn Hn1 Hn0 HKm Hb Hm Hrgs Hparse. unfold publish_deletes. fold (txn_of env).
  destruct (scratch_ok _ (sc_intent table (n + 1) (txn_of env))) as [Hci HKi].
  eapply total_bind; [by apply write_intent_total|]. intros ?. eapply total_bind; [by apply (total_sync _ (table +:+ "/" +:+ "_staging/intents")), clean_validate, clean_join, clean_bool|]. intros ?.
  eapply total_bind; [by apply build_checkpoint_total|]. intros c.
  eapply total_bind; [apply write_checkpoint_total|]. intros x. apply total_pre. intros Ex.
  cbv beta zeta. rewrite Ex. eapply total_bind; [by apply (finalize_total _ _ b)|]. intros m'. apply total_pre.
  intros [parent ->]. eapply total_bind.
  { apply publish_manifest_total; [apply (Hparse parent)|apply finalize_verifies]. }
  intros ?. set (K' := λ q, K q ∧ q ≠ pointer_path table).
  apply (total_pre_mono (kept fs K')); [intros s; by apply kept_mono; intros q [? _]|].
  eapply total_bind; [apply swap_pointer_total; [done|by intros []|]|].
  { intros [HK _]. by apply (Hfree _ HK (sc_pointer_tmp table (n + 1) (txn_of env))). }
  intros ?. eapply total_bind; [apply total_best_delete; [done|by intros []]|]. intros ?. by apply total_ret.
Qed.
End published.

(** ** The whole delete *)

Lemma load_checkpoint_total table n m fs K :
  pointed fs table n m → K (pointer_path table) → K (manifest_path table n) →
  total (kept fs K) (load_checkpoint_manifest table) (λ x s, x = (n, m) ∧ kept fs K s).
Proof.
  intros [Ht [Hn0 Hn1] Hp Hm Hc _ _] HKp HKm. apply bind_Some in Hm as (b&Hb&Hm).
  pose proof (pointer_path_clean table Ht) as Hcp. unfold load_checkpoint_manifest.
  eapply total_bind; [by apply total_exists|]. intros x. apply total_pre. intros ->.
  rewrite Hp, bool_decide_eq_true_2 by done. cbn [negb]. apply total_read_known; [done..|].
  unfold read_result. rewrite Hp. cbn [of_option].
  destruct (pointer_parses n) as (v&->&->); [unfold in_u64; lia|]. destruct (Z.eqb_spec n 0); [lia|].
  unfold load_pointed. fold (manifest_path table n).
  eapply (total_try _ _ (λ x s, x = m ∧ kept fs K s)); [|intros x; apply total_pre; intros ->; by apply total_ret].
  unfold read_manifest_validated.
  eapply total_bind; [apply (total_read _ b); [by apply manifest_path_clean|done|done]|].
  intros b'. apply total_pre. intros ->. apply (total_bind _ _ (λ x s, x = m ∧ kept fs K s)).
  - apply (total_lift _ _ _ m); [|done]. unfold parse_manifest. by rewrite Hm.
  - intros x. apply total_pre. intros ->. rewrite Hc. by apply total_ret.
Qed.
Lemma load_current_total table n m fs K :
  pointed fs table n m → K (pointer_path table) → K (manifest_path table n) → K (wal_path table) →
  total (kept fs K) (load_current_manifest table) (λ x s, x = (n, m) ∧ kept fs K s).
Proof.
  intros Hpt HKp HKm HKw. unfold load_current_manifest.
  eapply total_bind; [by apply load_checkpoint_total|]. intros [seq m0]. apply total_pre. intros [= -> ->].
  destruct Hpt as [Ht [Hn0 Hn1] Hp Hm Hc Hs Hl]. destruct (Z.eqb_spec n 0); [lia|].
  apply (total_bind _ _ (λ x s, x = m ∧ kept fs K s)).
  - unfold live_manifest. apply (total_bind _ _ (λ l s, l = [] ∧ kept fs K s)).
    + unfold read_records. apply total_read_known; [by apply wal_path_clean|done|].
      unfold read_result. rewrite Hl. by apply total_ret.
    + intros l. apply total_pre. intros ->. by apply total_ret.
  - intros x. apply total_pre. intros ->. apply total_ret. intros s Hs'. by rewrite Hs.
Qed.

Section succeeds.
Context (local : bool) (cached : string → option RowGroupMeta).
Context (w : Writer) (env : CommitEnv) (by_fragment : gmap Z (list u32)) (n : u64) (m : Manifest).
Notation table := (w_table w).
Context (Hwal : w_wal_mode w = false) (Ht : clean table) (Htxn : clean (intent_path table (txn_of env))).
Context (Hex : manifest_exact m).

(** A delete can be carried out on the files [fs]. *)
Record deletable (fs : gmap string bytes) : Prop := {
  dl_intents : intents_clean fs table (manifest_referenced_files m);
  dl_readable : readable table m by_fragment fs;
  dl_counts : ∀ e dv offsets, e ∈ mf_row_groups m → current_dv (B:=B) table fs e = Some dv →
    offsets_for by_fragment (rg_fragment_id e) = Some offsets →
    in_u64 (cardinality (union_offsets dv offsets));
}.

(** What stays until the pointer is swapped. *)
Definition steady (fs : gmap string bytes) (p : string) : Prop :=
  spared w env n m fs p ∨ p = pointer_path table.
Lemma steady_staging fs p : steady fs p → ¬ staging table m (n + 1) p.
Proof.
  intros [(_&Hns&_)| ->] Hs; [by apply Hns|].
  by destruct (staging_apart table m (n + 1) (txn_of env) _ Hs) as (_&?&_).
Qed.
Lemma steady_publishing fs p : steady fs p → ¬ publishing table (n + 1) (txn_of env) p.
Proof. intros [(_&_&Hnp&_)| ->] Hs; [by apply Hnp|]. by apply publishing_apart in Hs as [? _]. Qed.
Lemma steady_referenced s f :
  delete_ready w env n m s → f ∈ manifest_referenced_files m →
  clean f ∧ steady (disk_files s) (table +:+ "/" +:+ f).
Proof. intros Hr Hf. destruct (rd_files _ _ _ _ _ Hr f Hf) as [??]. split; [done|by left]. Qed.

(** Up to the check that the next manifest does not exist. *)
Lemma start_succeeds s :
  delete_ready w env n m s → intents_clean (disk_files s) table (manifest_referenced_files m) → reliable s →
  ∃ s1 s2 s3, load_current_manifest table s = (Ok (n, m), s1)
    ∧ cleanup_staging table n (manifest_referenced_files m) s1 = (Ok tt, s2)
    ∧ st_exists (manifest_path table (n + 1)) s2 = (Ok false, s3)
    ∧ reliable s3 ∧ kept (disk_files s) (steady (disk_files s)) s3.
Proof.
  intros Hr Hi Hrel. set (fs := disk_files s) in *. pose proof (rd_tidy _ _ _ _ _ Hr) as Htidy.
  pose proof (rd_pointed _ _ _ _ _ Hr) as Hpt. destruct (pt_seq _ _ _ _ Hpt) as [Hn0 Hn1].
  destruct (load_current_total table n m fs (λ _, True) Hpt I I I s Hrel (λ p _, eq_refl))
    as (x&s1&E1&Hrel1&->&Hk1).
  assert (disk_files s1 = fs) as Ef1 by (apply map_eq; intros p; by apply Hk1).
  assert (within fs s1) as Hs1 by (unfold within; by rewrite Ef1).
  destruct (cleanup_total fs Htidy table n (manifest_referenced_files m) Ht Hi s1 Hrel1 Hs1) as ([]&s2&E2&Hrel2&Hs2).
  destruct (cleanup_staging_prunes fs Htidy table n (manifest_referenced_files m) Ht s1 _ s2 Hs1 E2) as [Hc2 _].
  assert (disk_files s2 !! manifest_path table (n + 1) = None) as Hgone.
  { apply (cleanup_clears fs Htidy table n (n + 1) (manifest_referenced_files m) s1 tt);
      [done|unfold in_u64; lia|lia|done..]. }
  destruct (total_exists (manifest_path table (n + 1)) (disk_files s2) (λ _, True)
    (manifest_path_clean table _ Ht) I s2 Hrel2 (λ p _, eq_refl)) as (taken&s3&E3&Hrel3&->&Hk3).
  rewrite Hgone, bool_decide_eq_false_2 in E3 by (by intros []).
  exists s1, s2, s3. repeat split; try done. intros p Hp. rewrite (Hk3 p I), <-Ef1. apply Hc2.
  destruct Hp as [Hp| ->]; [apply Hp|by apply (pointer_spared w env n m s)].
Qed.
(** From a successful staging on. *)
Lemma publish_succeeds s d s' :
  delete_ready w env n m s → deletable (disk_files s) →
  staged_ok (B:=B) table m (n + 1) by_fragment (disk_files s) d s' →
  total (kept (disk_files s) (steady (disk_files s))) (publish_deletes local cached w env m (n + 1) d) (λ _ _, True).
Proof.
  intros Hr [_ Hread Hcard] Hst. pose proof (rd_pointed _ _ _ _ _ Hr) as Hpt.
  destruct (pt_seq _ _ _ _ Hpt) as [Hn0 Hn1]. assert (in_u64 n) as Hu by (unfold in_u64; lia).
  destruct (rd_manifest _ _ _ _ _ Hr) as [b Hb]. pose proof (pt_manifest _ _ _ _ Hpt) as Hm.
  rewrite (proj1 Hb) in Hm. cbn [mbind option_bind] in Hm.
  eapply publish_deletes_total; [done|done|apply steady_publishing|intros; by apply steady_referenced|done..| |
    exact (proj1 Hb)|by eexists| |].
  - left. by apply manifest_kept.
  - intros e' [i Hi']%list_elem_of_lookup.
    destruct (Forall2_lookup_r _ _ _ _ _ (so_entries _ _ _ _ _ _ _ Hst) Hi') as (e&Hie&Hd).
    apply list_elem_of_lookup_2 in Hie. exists e. split; [done|].
    split; [|by apply (rb_metas _ _ _ _ Hread)]. unfold entry_deleted in Hd.
    destruct (offsets_for _ _); [|by subst]. by destruct Hd as (dv&v&_&_&->).
  - intros parent. apply from_to_slice; [|by apply manifest_value_exact].
    eapply new_manifest_wf; [unfold in_u64; lia|by apply from_slice_wf in Hm|exact Hcard|apply Hst].
Qed.
Lemma locked_succeeds s :
  delete_ready w env n m s → deletable (disk_files s) → reliable s →
  ∃ m' s', commit_deletes_locked (B:=B) local cached w env by_fragment s
           = (Ok (CommitDelta_new m m' Delete), s') ∧ reliable s'.
Proof.
  intros Hr Hd Hrel. set (fs := disk_files s) in *. pose proof (steady_staging fs) as Hfree.
  destruct (pt_seq _ _ _ _ (rd_pointed _ _ _ _ _ Hr)) as [Hn0 Hn1].
  destruct (start_succeeds s Hr (dl_intents _ Hd) Hrel) as (s1&s2&s3&E1&E2&E3&Hrel3&Hk3).
  unfold commit_deletes_locked. cbv zeta. rewrite Hwal, (m_bind_ok _ _ _ _ _ E1), wrap64_small by (unfold in_u64; lia).
  rewrite (m_bind_ok _ _ _ _ _ E2). fold (manifest_path table (n + 1)). rewrite (m_bind_ok _ _ _ _ _ E3).
  assert (clean (table +:+ "/_deletions")) as Hcd by (apply (clean_join table "_deletions"); [done|by apply clean_bool]).
  destruct (total_ensure_dir (table +:+ "/_deletions") fs (steady fs) Hcd
    (λ HK, Hfree _ HK (sc_deletions_keep table m (n + 1))) s3 Hrel3 Hk3) as (u4&s4&E4&Hrel4&Hk4).
  rewrite (m_bind_ok _ _ _ _ _ E4).
  destruct (stage_deletes_total table n m by_fragment fs (steady fs) Ht Hfree (rd_names _ _ _ _ _ Hr)
    (dl_readable _ Hd) (λ f, steady_referenced s f Hr) (or_introl (catalog_kept w env n m s Hr)) s4 Hrel4 Hk4)
    as (d&s5&E5&Hrel5&Hk5).
  rewrite (m_bind_ok _ _ _ _ _ E5).
  assert (staged_ok (B:=B) table m (n + 1) by_fragment fs d s5) as Hst.
  { apply (staged_of_ready w env by_fragment n m Ht s s4 d s5); [done| |apply Hk4; left; by apply catalog_kept|done].
    intros f Hf. by apply Hk4, steady_referenced. }
  destruct (publish_succeeds s d s5 Hr Hd Hst s5 Hrel5 Hk5) as (m'&s6&E6&Hrel6&_).
  rewrite (m_bind_ok _ _ _ _ _ E6). by exists m', s6.
Qed.
End succeeds.

End live.
