(* ===== verification/Instances.v ===== *)
(** * Concrete instances of the third-party interfaces

    The crates the code calls are parameters of the development.  This file
    shows that what is asked of them can be had: a roaring bitmap as a finite
    set, a JSON text format, a digest.  The witnesses evaluate with them. *)

From S2P Require Import Prelude Bytes RowId Text OrdMap Json Arrow AggCache RowGroupMeta MutationWal IndexMaintainer Schema PruneSound Stats StatsSound Commit.
From Stdlib Require Import Floats.SpecFloat.
From stdpp Require Import countable gmap.
From Stdlib Require Import String.

#[local] Open Scope list_scope.
#[local] Open Scope Z_scope.

(** ** Positive numbers as a line of text between braces *)

Fixpoint pos_digits (p : positive) : bytes :=
  match p with
  | xH => []
  | xO p => Byte.x30 :: pos_digits p
  | xI p => Byte.x31 :: pos_digits p
  end.
Fixpoint digits_pos (b : bytes) : option positive :=
  match b with
  | [] => None
  | [c] => if decide (c = Byte.x7d) then Some xH else None
  | c :: b =>
      p ← digits_pos b;
      if decide (c = Byte.x30) then Some (xO p)
      else if decide (c = Byte.x31) then Some (xI p) else None
  end.
Definition text_of_pos (p : positive) : bytes := Byte.x7b :: pos_digits p ++ [Byte.x7d].
Definition pos_of_text (b : bytes) : option positive :=
  match b with c :: b => if decide (c = Byte.x7b) then digits_pos b else None | [] => None end.

Lemma digits_pos_cons c b :
  b ≠ [] → is_Some (digits_pos (c :: b)) → is_Some (digits_pos b).
Proof.
  destruct b as [|d b]; [done|]. intros _ [p E]. simpl in *.
  by destruct (match b with [] => _ | _ => _ end).
Qed.
Lemma digits_pos_digits p : digits_pos (pos_digits p ++ [Byte.x7d]) = Some p.
Proof.
  induction p as [p IH|p IH|]; [| |done]; simpl; rewrite IH;
    by destruct (pos_digits p).
Qed.
Lemma pos_of_text_of_pos p : pos_of_text (text_of_pos p) = Some p.
Proof. simpl. apply digits_pos_digits. Qed.

Lemma digits_pos_last b p : digits_pos b = Some p → last b = Some Byte.x7d.
Proof.
  revert p. induction b as [|c b IH]; intros p; [done|]. destruct b as [|d b].
  - simpl. by case_decide; subst.
  - intros E. rewrite last_cons_cons.
    destruct (digits_pos_cons c (d :: b)) as [q Hq]; [done|by rewrite E|]. by eapply IH.
Qed.
Lemma pos_digits_no_brace p : Byte.x7d ∉ pos_digits p.
Proof.
  induction p as [p IH|p IH|]; simpl; [| |apply not_elem_of_nil];
    by intros [?|?]%elem_of_cons.
Qed.

Lemma text_prefix p a b : text_of_pos p = a ++ b → b ≠ [] → pos_of_text a = None.
Proof.
  intros E Hb. destruct a as [|c a]; [done|]. injection E as <- E. simpl.
  destruct (digits_pos a) as [q|] eqn:Hq; [|done]. apply digits_pos_last in Hq.
  destruct b as [|x b _] using rev_ind; [done|]. rewrite app_assoc in E.
  apply app_inj_tail in E as [E _]. apply last_Some in Hq as [a' ->].
  destruct (pos_digits_no_brace p). rewrite E. set_solver.
Qed.
Lemma text_line p : Byte.x0a ∉ text_of_pos p.
Proof.
  assert (Byte.x0a ∉ pos_digits p) as Hp.
  { induction p as [p IH|p IH|]; simpl; [| |apply not_elem_of_nil];
      by intros [?|?]%elem_of_cons. }
  unfold text_of_pos. intros [?|[?|?%list_elem_of_singleton]%elem_of_app]%elem_of_cons; done.
Qed.

(** ** JSON *)

Definition number_code (n : Number) : nat * Z :=
  match n with PosInt n => (0%nat, n) | NegInt n => (1%nat, n) | Float b => (2%nat, b) end.
Definition number_decode (c : nat * Z) : Number :=
  match c with (0%nat, n) => PosInt n | (1%nat, n) => NegInt n | (_, b) => Float b end.

Fixpoint value_tree (v : Value) : gen_tree (bool + (nat * Z) + string) :=
  match v with
  | VNull => GenNode 0 []
  | VBool b => GenLeaf (inl (inl b))
  | VNumber n => GenLeaf (inl (inr (number_code n)))
  | VString s => GenLeaf (inr s)
  | VArray l => GenNode 1 (map value_tree l)
  | VObject m => GenNode 2 (map (λ kv, GenNode 3 [GenLeaf (inr kv.1); value_tree kv.2]) m)
  end.
Fixpoint tree_value (t : gen_tree (bool + (nat * Z) + string)) : Value :=
  match t with
  | GenLeaf (inl (inl b)) => VBool b
  | GenLeaf (inl (inr c)) => VNumber (number_decode c)
  | GenLeaf (inr s) => VString s
  | GenNode 0 _ => VNull
  | GenNode 1 l => VArray (map tree_value l)
  | GenNode _ l =>
      VObject (map (λ t, match t with
                         | GenNode _ [GenLeaf (inr k); x] => (k, tree_value x)
                         | _ => (EmptyString, VNull)
                         end) l)
  end.
Lemma tree_value_tree v : tree_value (value_tree v) = v.
Proof.
  induction v as [| |n| |l IH|m IH] using value_ind; simpl; try done.
  - by destruct n.
  - f_equal. rewrite map_map. induction IH as [|x l Hx _ IHl]; [done|]. simpl. by f_equal.
  - f_equal. rewrite map_map. induction IH as [|[k x] m Hx _ IHm]; [done|]. simpl in *.
    by rewrite Hx, IHm.
Qed.

(** Deciding what can be printed. *)
Definition number_wfb (n : Number) : bool :=
  match n with
  | PosInt n => bool_decide (in_u64 n)
  | NegInt n => bool_decide (- 2 ^ 63 <= n < 0)
  | Float b => bool_decide (in_u64 b)
  end.
Fixpoint value_distinctb (v : Value) : bool :=
  match v with
  | VNumber n => number_wfb n
  | VArray l => forallb value_distinctb l
  | VObject m => bool_decide (NoDup m.*1) && forallb (λ kv, value_distinctb kv.2) m
  | _ => true
  end.
Lemma number_wfb_spec n : number_wfb n = true ↔ number_wf n.
Proof. destruct n; apply bool_decide_eq_true. Qed.
Lemma forallb_Forall {A} (p : A → bool) (P : A → Prop) l :
  Forall (λ x, p x = true ↔ P x) l → forallb p l = true ↔ Forall P l.
Proof.
  induction 1 as [|x l Hx _ IH]; simpl; [done|]. by rewrite andb_true_iff, Hx, IH, Forall_cons.
Qed.
Lemma value_distinctb_spec v : value_distinctb v = true ↔ value_distinct v.
Proof.
  induction v as [| |n| |l IH|m IH] using value_ind; simpl; try (split; [constructor|done]).
  - rewrite number_wfb_spec. split; [by constructor|by inversion 1].
  - rewrite (forallb_Forall _ value_distinct) by done.
    split; [by constructor|by inversion 1].
  - rewrite andb_true_iff, bool_decide_eq_true.
    rewrite (forallb_Forall _ (λ kv, value_distinct kv.2)) by done.
    split; [by intros []; constructor|by inversion 1].
Qed.

#[export] Instance text_json : SerdeJson := {
  json_to_vec v := text_of_pos (encode (value_tree v));
  json_to_vec_pretty v := text_of_pos (encode (value_tree v));
  json_parse b :=
    p ← pos_of_text b; t ← decode p;
    let v := tree_value t in if value_distinctb v then Some (canonicalize v) else None;
  json_float_exact _ := True;
}.
#[export] Instance text_json_laws : SerdeJsonLaws.
Proof.
  assert (∀ v, value_distinct v → json_parse (json_to_vec v) = Some (canonicalize v)) as Hr.
  { intros v Hv. cbn [json_parse json_to_vec text_json]. rewrite pos_of_text_of_pos. simpl.
    rewrite decode_encode. simpl. rewrite tree_value_tree.
    by rewrite (proj2 (value_distinctb_spec v) Hv). }
  split.
  - intros b v. cbn [json_parse text_json]. intros (p&_&(t&_&E)%bind_Some)%bind_Some.
    destruct (value_distinctb (tree_value t)) eqn:Hv; simplify_eq.
    by apply canonicalize_distinct, value_distinctb_spec.
  - intros v Hv _. by apply Hr.
  - intros v Hv _. by apply Hr.
  - intros v w Hv Hw E. pose proof (Hr v (value_wf_distinct v Hv)) as Ev.
    pose proof (Hr w (value_wf_distinct w Hw)) as Ew. rewrite E, Ew in Ev.
    rewrite !canonicalize_wf in Ev by done. congruence.
  - intros v. apply text_line.
  - done.
  - intros m p q E Hq. cbn [json_parse json_to_vec text_json] in *.
    by rewrite (text_prefix _ _ _ E Hq).
Qed.

(** ** A digest *)
#[export] Instance rolling_digest : Sha256 := λ b,
  fmt_u64 (foldl (λ h c, wrap64 (31 * h + Z.of_N (Byte.to_N c))) 7 b).

(** ** Roaring bitmaps *)

Definition sorted_elements (s : gset Z) : list Z := merge_sort Z.le (elements s).
Lemma sorted_elements_perm s : sorted_elements s ≡ₚ elements s.
Proof. apply merge_sort_Permutation. Qed.
Lemma strongly_sorted_lt (l : list Z) :
  StronglySorted Z.le l → NoDup l → StronglySorted Z.lt l.
Proof.
  induction 1 as [|x l Hl IH Hx]; intros Hn; constructor.
  - inversion Hn; auto.
  - rewrite Forall_forall in *. intros y Hy. inversion Hn; subst.
    specialize (Hx y Hy). assert (x ≠ y) by (by intros ->). lia.
Qed.

#[export] Instance gset_bitmap : RoaringBitmap (gset Z) := {
  rb_empty := ∅;
  rb_insert x b := {[x]} ∪ b;
  rb_len b := Z.of_nat (size b);
  rb_contains b x := bool_decide (x ∈ b);
  rb_iter := sorted_elements;
  rb_serialize b := text_of_pos (encode (sorted_elements b));
  rb_deserialize d := p ← pos_of_text d; l ← decode p; Some (list_to_set l);
}.
#[export] Instance gset_bitmap_laws : RoaringBitmapLaws (gset Z).
Proof.
  split.
  - intros x. by apply bool_decide_eq_false.
  - intros x b y. cbn. repeat case_bool_decide; simpl; try done; set_solver.
  - intros b. apply strongly_sorted_lt.
    + apply StronglySorted_merge_sort; [|apply _]. intros x y; lia.
    + cbn. rewrite sorted_elements_perm. apply NoDup_elements.
  - intros b x. cbn. rewrite bool_decide_eq_true, sorted_elements_perm.
    by rewrite elem_of_elements.
  - intros b. cbn. by rewrite sorted_elements_perm.
  - intros b. cbn [rb_serialize rb_deserialize gset_bitmap]. rewrite pos_of_text_of_pos. simpl. rewrite decode_encode. simpl.
    f_equal. apply set_eq. intros x.
    by rewrite elem_of_list_to_set, sorted_elements_perm, elem_of_elements.
Qed.

(** ** Hash maps, hexadecimal, archives *)

#[export] Instance key_order : HashOrder := λ l, l.
#[export] Instance key_order_laws : HashOrderLaws.
Proof. intros l. unfold hash_order, key_order. reflexivity. Qed.

Definition hex_digit (a : Ascii.ascii) : option N :=
  let n := Ascii.N_of_ascii a in
  if (48 <=? n)%N && (n <=? 57)%N then Some (n - 48)%N
  else if (97 <=? n)%N && (n <=? 102)%N then Some (n - 87)%N else None.
Fixpoint hex_bytes (s : string) : option bytes :=
  match s with
  | EmptyString => Some []
  | String a (String b s) =>
      x ← hex_digit a; y ← hex_digit b; c ← Byte.of_N (16 * x + y)%N;
      l ← hex_bytes s; Some (c :: l)
  | _ => None
  end.
#[export] Instance lower_hex : Hex := hex_bytes.
#[export] Instance lower_hex_encode : HexEncode := fix go b :=
  match b with
  | [] => ""
  | c :: b => fmt_hex 2 (Z.of_N (Byte.to_N c)) "" +:+ go b
  end.

(** An archive is its fields, as a number. *)
Definition stats_tuple (c : ArchColStats) : option string * option string * u64 :=
  (ac_min c, ac_max c, ac_nulls c).
Definition seg_tuple (s : ArchSeg) : u64 * u64 + list u64 :=
  match s with ArchRange a b => inl (a, b) | ArchSorted l => inr l end.
Definition fragment_tuple (f : ArchFragment) :=
  (af_row_group f, af_data f, af_meta f, af_agg f, af_deletes f,
   (af_fragment_id f, af_rows f, af_deleted_count f),
   map (prod_map id stats_tuple) (af_columns f),
   option_map (map (prod_map id (λ o, (ao_offset o, ao_length o)))) (af_column_offsets f),
   map seg_tuple (af_row_ids f), af_sort f, af_checksum f, af_meta_checksum f).
Definition archive_tuple (a : ArchCheckpoint) :=
  (ak_sequence a, ak_schema_id a, map fragment_tuple (ak_fragments a), ak_checksum a).

Definition tuple_stats (t : option string * option string * u64) : ArchColStats :=
  let '(a, b, n) := t in mkArchColStats a b n.
Definition tuple_seg (t : u64 * u64 + list u64) : ArchSeg :=
  match t with inl (a, b) => ArchRange a b | inr l => ArchSorted l end.
Definition tuple_fragment t : ArchFragment :=
  let '(row_group, data, meta, agg, deletes, (fragment_id, rows, deleted_count), columns,
        column_offsets, row_ids, sort, checksum, meta_checksum) := t in
  mkArchFragment row_group data meta agg deletes fragment_id rows deleted_count
    (map (prod_map id tuple_stats) columns)
    (option_map (map (prod_map id (λ o, mkArchOffset o.1 o.2))) column_offsets)
    (map tuple_seg row_ids) sort checksum meta_checksum.
Definition tuple_archive t : ArchCheckpoint :=
  let '(sequence, schema_id, fragments, checksum) := t in
  mkArchCheckpoint sequence schema_id (map tuple_fragment fragments) checksum.

Lemma fmap_inverse {A B} (f : A → B) (g : B → A) (l : list A) :
  (∀ a, g (f a) = a) → map g (map f l) = l.
Proof.
  intros E. rewrite map_map. rewrite <-(map_id l) at 2. by apply map_ext.
Qed.
Lemma tuple_fragment_tuple f : tuple_fragment (fragment_tuple f) = f.
Proof.
  destruct f. unfold tuple_fragment, fragment_tuple. cbn. f_equal.
  - apply fmap_inverse. by intros [? []].
  - destruct af_column_offsets as [l|]; [|done]. cbn. f_equal.
    apply fmap_inverse. by intros [? []].
  - apply fmap_inverse. by intros [].
Qed.
Lemma tuple_archive_tuple a : tuple_archive (archive_tuple a) = a.
Proof.
  destruct a. unfold tuple_archive, archive_tuple. cbn. f_equal.
  apply fmap_inverse, tuple_fragment_tuple.
Qed.

#[export] Instance tuple_rkyv : Rkyv := {
  rkyv_to_bytes a := Some (text_of_pos (encode (archive_tuple a)));
  rkyv_access b := p ← pos_of_text b; t ← decode p; Some (tuple_archive t);
}.
#[export] Instance tuple_rkyv_laws : RkyvLaws.
Proof.
  constructor. intros a b E. cbn [rkyv_to_bytes rkyv_access tuple_rkyv] in *. simplify_eq.
  rewrite pos_of_text_of_pos. cbn [mbind option_bind]. rewrite decode_encode.
  cbn [mbind option_bind]. f_equal. apply tuple_archive_tuple.
Qed.

(** ** Columns *)

(** A data file of one column ["k"], a byte per row, zero for a null. *)
#[export] Instance byte_column : Parquet := λ b column,
  if decide (column = "k")
  then Ok [(λ x, if decide (x = Byte.x00) then None
                 else Some (SInt64 (Z.of_N (Byte.to_N x)))) <$> b]
  else Err (Other "column not found").

(** A byte per row: the group in the high half, the value, zero for a null, in
    the low half. *)
Definition byte_group (b : bytes) : Array :=
  mkArray Int64 ((λ x, Some (CInt (Z.of_N (Byte.to_N x) / 16))) <$> b).
Definition byte_value (b : bytes) : Array :=
  mkArray Int64 ((λ x, let v := Z.of_N (Byte.to_N x) mod 16 in
                       if v =? 0 then None else Some (CInt v)) <$> b).
Definition byte_batch (b : bytes) : RecordBatch := [("g"%string, byte_group b); ("v"%string, byte_value b)].
#[export] Instance byte_reader : ParquetReader := {
  pq_schema b := Ok (schema_of (byte_batch b));
  pq_read b idxs sel := Ok [select_batch sel (project idxs (byte_batch b))];
}.

Lemma length_select_rows {A C} sel (l : list A) (k : list C) :
  List.length l = List.length k → List.length (select_rows sel l) = List.length (select_rows sel k).
Proof.
  revert l k. induction sel as [|[n|n] sel IH]; intros l k E; [done| |]; cbn [select_rows].
  - apply IH. by rewrite !length_drop, E.
  - rewrite !length_app, !length_take, E. f_equal. apply IH. by rewrite !length_drop, E.
Qed.
Lemma single_batch_of (b : RecordBatch) :
  Forall (λ kv, len (ar_cells kv.2) = num_rows b) b → batches_of b [b].
Proof.
  intros Hb. split.
  - repeat constructor. intros name a (kv&E&->)%fmap_Some.
    apply List.find_some in E as [Hin _]. rewrite Forall_forall in Hb. apply Hb. by apply list_elem_of_In.
  - intros name a E. simpl. rewrite app_nil_r. unfold column_cells. by rewrite E.
Qed.
#[export] Program Instance byte_reader_laws : ParquetReaderLaws := {
  pq_content b := Some (byte_batch b);
}.
Next Obligation. naive_solver. Qed.
Next Obligation.
  intros b content idxs sel [= <-]. eexists. split; [reflexivity|]. apply single_batch_of.
  assert (Forall (λ kv, List.length (ar_cells kv.2) = List.length b) (project idxs (byte_batch b))) as Hall.
  { apply Forall_forall. intros kv (ix&->&[_ Hin]%list_elem_of_filter)%list_elem_of_fmap.
    assert (ix.2 ∈ byte_batch b) as Hb.
    { destruct ix as [i x]. by apply elem_of_zip_r in Hin. }
    apply elem_of_cons in Hb as [->|Hb]; [apply length_fmap|].
    apply list_elem_of_singleton in Hb as ->. apply length_fmap. }
  unfold select_batch. destruct (project idxs (byte_batch b)) as [|kv0 kvs]; [constructor|].
  apply Forall_fmap. apply Forall_cons in Hall as [H0 Hall].
  assert (∀ kv : string * Array, List.length (ar_cells kv.2) = List.length b →
    len (select_rows sel (ar_cells kv.2)) = len (select_rows sel (ar_cells kv0.2))) as E.
  { intros kv Hkv. unfold len. f_equal. apply length_select_rows. congruence. }
  destruct kv0 as [k0 a0]. constructor; [done|]. eapply Forall_impl; [exact Hall|]. intros [k a] Hk. by apply E.
Qed.

(** ** Characters, type names and footers *)

(** Latin letters, and nothing else beyond ASCII. *)
#[export] Instance ascii_unicode : Unicode := {
  is_alphabetic := ascii_letter;
  is_alphanumeric c := ascii_letter c || ascii_digit c;
  is_whitespace := ascii_space;
}.
#[export] Instance ascii_unicode_laws : UnicodeLaws.
Proof. by split. Qed.
#[export] Instance type_name : DebugType := λ t, match t with OtherType n => n | _ => "?" end.
(** A file that is not Parquet has no footer. *)
#[export] Instance no_footer : ParquetFooter := λ _, None.

(** ** Kernels *)

(** All cells of a type as points of a line; a float of either width by exponent
    and mantissa. *)
Definition float_rank (f : spec_float) : Z :=
  match f with
  | S754_nan => 2 ^ 4001
  | S754_infinity s => cond_Zopp s (2 ^ 4000)
  | S754_zero _ => 0
  | S754_finite s m e => cond_Zopp s ((e + 2000) * 2 ^ 60 + Zpos m)
  end.
Definition cell_rank (c : Cell) : Z + string :=
  match c with
  | CFloat f => inl (float_rank f)
  | c => cell_key c
  end.
Definition extreme (o : comparison) (a : Array) : option Cell :=
  match omap id (ar_cells a) with
  | [] => None
  | x :: l => Some (foldl (λ m c, if decide (key_cmp (cell_rank c) (cell_rank m) = o) then c else m) x l)
  end.
#[export] Instance fold_kernels : ArrowCompute := {
  arrow_min := extreme Lt;
  arrow_max := extreme Gt;
}.

Lemma extreme_spec o (le : Z + string → Z + string → Prop) a :
  (∀ x, le x x) → (∀ x y z, le x y → le y z → le x z) →
  (∀ x y, if decide (key_cmp y x = o) then le y x else le x y) →
  match extreme o a with
  | Some m => Some m ∈ ar_cells a ∧ ∀ c, Some c ∈ ar_cells a → le (cell_rank m) (cell_rank c)
  | None => ∀ c, Some c ∉ ar_cells a
  end.
Proof.
  intros Hrefl Htrans Hle. unfold extreme.
  assert (∀ c, c ∈ omap id (ar_cells a) ↔ Some c ∈ ar_cells a) as Hin.
  { intros c. rewrite list_elem_of_omap. split; [|intros Hc; by exists (Some c)].
    intros (x&Hx&E). unfold id in E. by subst x. }
  destruct (omap id (ar_cells a)) as [|x l].
  { intros c Hc%Hin. by apply elem_of_nil in Hc. }
  setoid_rewrite <- Hin. clear Hin. revert x. induction l as [|y l IH]; intros x; cbn [foldl].
  - split; [set_solver|]. intros c ->%list_elem_of_singleton. apply Hrefl.
  - specialize (Hle (cell_rank x) (cell_rank y)).
    destruct (IH (if decide (key_cmp (cell_rank y) (cell_rank x) = o) then y else x)) as [Hm Hall].
    set (m := foldl _ _ l) in *. split; [destruct (decide _); set_solver|].
    intros c Hc. pose proof (Hall _ (list_elem_of_here _ _)) as Hh.
    destruct (decide _); apply elem_of_cons in Hc as [->|[->|Hc]%elem_of_cons];
      eauto using list_elem_of_further.
Qed.

Lemma valid_finite prec emax s m e :
  0 < prec <= 53 → 0 < emax <= 1024 → valid_binary prec emax (S754_finite s m e) = true →
  Zpos m < 2 ^ 60 ∧ -2000 < e < 1024.
Proof.
  intros Hp He. unfold valid_binary, bounded, canonical_mantissa, fexp, emin.
  rewrite andb_true_iff. intros [Hc%Zeq_bool_eq Hb%Zle_bool_imp_le].
  pose proof (digits2_pos_bounds m) as Hm. split; [|lia].
  eapply Z.lt_le_trans; [apply Hm|]. apply Z.pow_le_mono_r; lia.
Qed.
Lemma rank_compare prec emax f g :
  0 < prec <= 53 → 0 < emax <= 1024 → valid_binary prec emax f = true → valid_binary prec emax g = true →
  float_rank f <= float_rank g →
  match SFcompare f g with Some o => o ≠ Gt | None => g = S754_nan end.
Proof.
  intros Hp He Hf Hg.
  assert (1024 * 2 ^ 60 + 2000 * 2 ^ 60 + 2 ^ 60 < 2 ^ 4000) as Hbig by (by vm_compute).
  assert (2 ^ 4000 < 2 ^ 4001) as Hbig' by by vm_compute.
  revert Hbig Hbig'. unfold float_rank. generalize (2 ^ 4000) (2 ^ 4001). intros inf nan Hinf Hnan.
  destruct f as [s1|s1| |s1 m1 e1], g as [s2|s2| |s2 m2 e2]; cbn [SFcompare];
    try (pose proof (valid_finite _ _ _ _ _ Hp He Hf)); try (pose proof (valid_finite _ _ _ _ _ Hp He Hg));
    try destruct s1; try destruct s2; cbn [cond_Zopp]; intros Hle; try done; try (exfalso; lia).
  all: change (PosDef.Pos.compare_cont Eq m1 m2) with (Pos.compare m1 m2);
    destruct (Z.compare_spec e1 e2); try done; try (exfalso; lia);
    destruct (Pos.compare_spec m1 m2); simpl; try done; lia.
Qed.
Lemma rank_natural t c d :
  has_min_max t = true → cell_typed t c → cell_typed t d →
  key_le (cell_rank c) (cell_rank d) → natural_le c d.
Proof.
  intros Ht Hc Hd Hle.
  assert (∀ f g, c = CFloat f → d = CFloat g → ∃ prec emax, 0 < prec <= 53 ∧ 0 < emax <= 1024
    ∧ valid_binary prec emax f = true ∧ valid_binary prec emax g = true) as Hfl.
  { intros f g -> ->. destruct t as [| | | | | | | | | | | | | | | |[] []| | | | | |]; try done; cbn in Hc, Hd;
      repeat match goal with H : ∃ _, _ |- _ => destruct H | H : _ ∧ _ |- _ => destruct H end; simplify_eq;
      [exists 24, 128|exists 53, 1024]; (split; [lia|]); (split; [lia|done]). }
  assert (same_kind c d = true) as Hk.
  { destruct t as [| | | | | | | | | | | | | | | |[] []| | | | | |]; try done; cbn in Hc, Hd;
      destruct Hc as (?&Hc), Hd as (?&Hd); repeat match goal with H : _ ∧ _ |- _ => destruct H end;
      by simplify_eq/=. }
  unfold key_le in Hle. destruct c as [b|v|f|s|], d as [b'|v'|f'|s'|]; try done;
    cbn [natural_le cell_cmp cell_rank cell_key key_cmp] in *; try congruence.
  - by destruct b, b'.
  - destruct (Hfl f f' eq_refl eq_refl) as (prec&emax&Hp&He&Hf&Hf'). eapply rank_compare; [done..|].
    by apply Z.compare_le_iff.
Qed.
#[export] Instance fold_kernels_laws : ArrowComputeLaws.
Proof.
  assert (∀ x, key_le x x) as Hr by (intros x; unfold key_le; by rewrite (proj2 (key_cmp_eq x x) eq_refl)).
  split; intros a Hty Ht; unfold array_typed in Hty; rewrite Forall_forall in Hty.
  - cbn [arrow_min fold_kernels]. pose proof (extreme_spec Lt key_le a Hr key_le_trans) as Hs.
    destruct (extreme Lt a) as [m|].
    + destruct Hs as [Hm Hle]; [|split; [done|]].
      { intros x y. unfold key_le. rewrite (key_cmp_antisym y x). case_decide as E; destruct (key_cmp y x); done. }
      intros c Hc. apply (rank_natural (ar_type a)); [done|by apply (Hty _ Hm)|by apply (Hty _ Hc)|auto].
    + apply Hs. intros x y. unfold key_le. rewrite (key_cmp_antisym y x).
      case_decide as E; destruct (key_cmp y x); done.
  - cbn [arrow_max fold_kernels].
    pose proof (extreme_spec Gt (λ x y, key_le y x) a Hr (λ x y z H1 H2, key_le_trans _ _ _ H2 H1)) as Hs.
    destruct (extreme Gt a) as [m|].
    + destruct Hs as [Hm Hle]; [|split; [done|]].
      { intros x y. unfold key_le. rewrite (key_cmp_antisym y x). case_decide as E; destruct (key_cmp y x); done. }
      intros c Hc. apply (rank_natural (ar_type a)); [done|by apply (Hty _ Hc)|by apply (Hty _ Hm)|auto].
    + apply Hs. intros x y. unfold key_le. rewrite (key_cmp_antisym y x).
      case_decide as E; destruct (key_cmp y x); done.
Qed.
