(* ===== verification/Witnesses.v ===== *)
(** * Witnesses

    Every theorem with hypotheses is applied here at a concrete input where they
    hold.  The table ["t"] of these examples has two snapshots: the first with
    one row group of three rows, one of them deleted, the second with another
    row group added. *)

From S2P Require Import Prelude Bytes StableSort RowId RowIndex Text OrdMap Storage Json.
From S2P Require Import Manifest.
From S2P Require Import History CommitDelta RowGroupMeta RowIndexStore MutationWal Gc Instances.
From stdpp Require Import gmap.

#[local] Open Scope list_scope.
#[local] Open Scope string_scope.
#[local] Open Scope Z_scope.

(** Closed conjunctions and lists of closed facts. *)
Ltac closed :=
  try match goal with |- base_wf _ => unfold base_wf end;
  repeat match goal with
         | |- Forall _ _ => constructor
         | |- StronglySorted _ _ => constructor
         | |- _ ∧ _ => split
         | |- seg_fits _ => unfold seg_fits
         | |- seg_in_range _ => unfold seg_in_range
         end;
  try (vm_compute; done).

(** ** The table *)

Definition entry_a : RowGroupEntry :=
  mkEntry "data/rg_a.parquet" "data/rg_a.meta.json" 0 (Some "_deletions/a.dv") 1 None.
Definition entry_b : RowGroupEntry :=
  mkEntry "data/rg_b.parquet" "data/rg_b.meta.json" 1 None 0 None.
Definition first : Manifest := Eval vm_compute in
  finalize None "t1" (mkManifest 1 1 1 [entry_a] None None 3 1 None ∅ None None None "").
Definition second : Manifest := Eval vm_compute in
  finalize (Some (mf_checksum first)) "t2"
    (mkManifest 1 2 1 [entry_a; entry_b] None None 6 2 None ∅ None None None "").
Definition meta_a : RowGroupMeta :=
  mkMeta "rg_a" 1 3 ∅ None None [Range 0 3] "sha256:a" "".
Definition meta_b : RowGroupMeta :=
  mkMeta "rg_b" 1 2 ∅ None None [Sorted [7; 5]] "sha256:b" "".
Definition deleted_a : DeletionVector (gset Z) := mkDV {[ 1 ]}.

Definition table_files : gmap string bytes := Eval vm_compute in
  list_to_map [
    ("t/_schema.json", json_to_vec (VObject [("latest", VNumber (PosInt 1))]));
    ("t/_schemas/000001.json", []);
    ("t/_manifest.json", pointer_bytes 2);
    ("t/_manifests/000000001.json", to_vec first);
    ("t/_manifests/000000002.json", to_vec second);
    ("t/data/rg_a.meta.json", to_vec meta_a);
    ("t/data/rg_b.meta.json", to_vec meta_b);
    ("t/_deletions/a.dv", dv_serialize deleted_a);
    ("t/_deletions/old.bitmap", []);
    ("t/rg_old.parquet", []);
    ("t/_staging/incoming/x.part", [])].
Definition store (fs : gmap string bytes) : MemoryStorage := mkMem fs ∅.
Definition table_store : MemoryStorage := store table_files.

Lemma t_clean : clean "t".
Proof. by apply clean_bool. Qed.

(** ** Text, documents and row ids *)

Lemma validate_path_clean_witness : clean "a/b".
Proof. apply (validate_path_clean "a//./b"). vm_compute. reflexivity. Defined.

Lemma canonicalize_reordered_witness :
  canonicalize (VObject [("b", VNull); ("a", VObject [("d", VBool true); ("c", VNull)])])
  = canonicalize (VObject [("a", VObject [("c", VNull); ("d", VBool true)]); ("b", VNull)]).
Proof.
  apply canonicalize_reordered.
  apply (reordered_obj _ [("b", VNull); ("a", VObject [("c", VNull); ("d", VBool true)])]).
  - apply (bool_decide_unpack _). vm_compute. exact I.
  - repeat constructor. simpl.
    apply (reordered_obj _ [("d", VBool true); ("c", VNull)]).
    + apply (bool_decide_unpack _). vm_compute. exact I.
    + repeat constructor.
    + constructor.
  - constructor.
Defined.

Lemma allocate_ranges_ids_witness :
  concat (segment_ids <$> [Range 10 3; Range 13 2]) = [10; 11; 12; 13; 14] ∧ 15 = 10 + 5.
Proof.
  apply (allocate_ranges_ids 10 [3; 2] [Range 10 3; Range 13 2] 15); [done| |done|done].
  closed.
Defined.

Lemma union_offsets_cardinality_witness : cardinality (union_offsets deleted_a [1; 4; 4]) = 2.
Proof. rewrite (union_offsets_cardinality (B:=gset Z)). vm_compute. reflexivity. Defined.

(** ** The row index *)

Definition seg_a : AddrSegment := mkSeg 2 1 0 2.
Definition seg_b : AddrSegment := mkSeg 0 0 7 2.

Lemma decode_encode_idx_witness : decode_idx (encode_idx [seg_a; seg_b]) = Ok [seg_b; seg_a].
Proof. apply (decode_encode_idx [seg_a; seg_b]); closed. Defined.

Lemma decode_idx_detects_corruption_witness :
  ∃ e, decode_idx (<[40%nat:=Byte.x09]> (encode_idx [seg_a; seg_b])) = Err e.
Proof.
  apply (decode_idx_detects_corruption [seg_a; seg_b] 40 Byte.x00); [vm_compute; reflexivity|done].
Defined.

Lemma decode_idx_panics_only_on_capacity_witness :
  ∃ n, le_field crafted_idx 8 16 = Ok n ∧ 2 ^ 63 <= n * SEGMENT_LEN
       ∧ 2 ^ 64 <= HEADER_LEN + n * SEGMENT_LEN.
Proof.
  apply decode_idx_panics_only_on_capacity; [vm_compute; reflexivity|vm_compute; reflexivity].
Defined.

Lemma mmap_lookup_agrees_witness :
  (let? b := MmapBase_open (encode_idx [seg_a; seg_b]) in MmapBase_lookup b 3) = Ok (Some (1, 1)).
Proof. rewrite (mmap_lookup_agrees [seg_a; seg_b] 3); [vm_compute; reflexivity|closed..]. Defined.

Lemma lookup_in_base_spec_witness :
  lookup_in_base [seg_b; seg_a] 3 = Some (1, 1)
  ↔ ∃ seg, seg ∈ [seg_b; seg_a] ∧ seg_maps seg 3 1 1.
Proof.
  apply lookup_in_base_spec. closed.
Defined.

(** ** Row index of the table *)

Definition metas : list (RowGroupMeta * option (DeletionVector (gset Z))) :=
  [(meta_a, Some deleted_a); (meta_b, None)].

Lemma table_paths_clean : paths_clean "t" second.
Proof.
  apply Forall_cons. split; [split|apply Forall_cons; split; [split|by apply Forall_nil]].
  - by apply clean_bool.
  - intros d [= <-]. by apply clean_bool.
  - by apply clean_bool.
  - done.
Qed.
Lemma table_loaded : Forall2 (frag_loaded table_files "t") (mf_row_groups second) metas.
Proof.
  apply Forall2_cons. split; [|apply Forall2_cons; split; [|by apply Forall2_nil]];
    (split; [vm_compute; reflexivity|]); [|done].
  eexists _, deleted_a. split; [vm_compute; reflexivity|]. split; vm_compute; reflexivity.
Qed.
Lemma table_fits : rows_fit (mf_row_groups second) metas.
Proof. repeat (constructor; [closed|]). constructor. Qed.
Lemma table_rows_unique : NoDup (lr_row <$> table_rows (mf_row_groups second) metas).
Proof. apply (bool_decide_unpack _). vm_compute. exact I. Qed.

Lemma derive_base_correct_witness :
  ∃ segs, derive_base (B:=gset Z) "t" second table_store = (Ok segs, table_store)
    ∧ lookup_in_base segs 7 = Some (1, 0).
Proof.
  destruct (derive_base_correct "t" second metas table_store) as [Hd _];
    [exact table_paths_clean|exact table_loaded|exact table_fits|].
  destruct (Hd table_rows_unique) as (segs&E&_&Hl). exists segs. split; [exact E|].
  apply Hl. exists 1%nat, entry_b, (meta_b, None). closed.
Defined.

Lemma rebuild_then_verify_witness :
  ∃ gen s', rebuild (B:=gset Z) "t" second table_store = (Ok gen, s')
    ∧ verify (B:=gset Z) "t" (set_rowindex (Some gen) second) s' = (Ok tt, s').
Proof.
  destruct (rebuild_then_verify "t" second metas table_store) as (gen&s'&Hr&_&Hv);
    [exact t_clean|exact table_paths_clean|exact table_loaded|exact table_fits
    |exact table_rows_unique|vm_compute; reflexivity| |exists gen, s'; exact (conj Hr Hv)].
  apply Forall_cons. split; [split|apply Forall_cons; split; [split|by apply Forall_nil]].
  - done.
  - intros d [= <-]. done.
  - done.
  - done.
Defined.

Definition indexed : MemoryStorage := Eval vm_compute in
  snd (rebuild (B:=gset Z) "t" second table_store).
Definition indexed_second : Manifest := Eval vm_compute in
  set_rowindex (Some (mkRowIndexRef (Some "_rowindex/base__v000000002.idx") [])) second.

Lemma indexed_loaded : Forall2 (frag_loaded (files indexed) "t") (mf_row_groups indexed_second) metas.
Proof.
  apply Forall2_cons. split; [|apply Forall2_cons; split; [|by apply Forall2_nil]];
    (split; [vm_compute; reflexivity|]); [|done].
  eexists _, deleted_a. split; [vm_compute; reflexivity|]. split; vm_compute; reflexivity.
Qed.
Lemma verify_iff_witness :
  verify (B:=gset Z) "t" indexed_second indexed = (Ok tt, indexed)
  ↔ ∀ i e md o row, mf_row_groups indexed_second !! i = Some e → metas !! i = Some md → 0 <= o →
      frag_ids md.1 !! Z.to_nat o = Some row → deleted md.2 o = false →
      AddressMap_lookup (mkAddressMap [mkSeg 0 0 0 1; mkSeg 2 0 2 1; mkSeg 5 1 1 1; mkSeg 7 1 0 1] [])
        row = Some (rg_fragment_id e, o).
Proof.
  apply (verify_iff "t" indexed_second
           (mkRowIndexRef (Some "_rowindex/base__v000000002.idx") []) _ metas).
  - exact table_paths_clean.
  - exact indexed_loaded.
  - exact table_fits.
  - exact table_rows_unique.
  - reflexivity.
  - vm_compute. reflexivity.
Defined.

(** ** The manifest chain *)

Lemma parent_links_nearest_witness :
  parent_manifest_checksum "t" 5 table_store = (Ok (Some (mf_checksum second)), table_store).
Proof.
  destruct (parent_links_nearest "t" 5 table_store) as [Hp _]; [exact t_clean|done|done|].
  apply (Hp 2 second); [|vm_compute; reflexivity]. unfold nearest_below.
  assert (listed_seqs (files table_store) "t" = [1; 2]) as -> by (vm_compute; reflexivity).
  split; [by right; left|]. split; [done|].
  intros q [->|[->|[]%not_elem_of_nil]%elem_of_cons]%elem_of_cons _; done.
Defined.

Lemma table_history : history table_store "t" (retained table_store "t") [first; second].
Proof.
  assert (retained table_store "t" = [1; 2]) as -> by (vm_compute; reflexivity).
  apply Forall2_cons. split; [|apply Forall2_cons; split; [|by apply Forall2_nil]];
    (split; [vm_compute; reflexivity|discriminate]).
Qed.


(** The same chain in another store, with an unrelated file. *)
Definition copied : MemoryStorage := Eval vm_compute in
  store (<[ "t/note" := [] ]> table_files).

(** ** Commits and sidecars *)

Lemma commit_delta_complete_witness :
  replay (CommitDelta_new (R:=unit) first second Append) ≡ₚ [entry_a; entry_b].
Proof.
  apply (commit_delta_complete (CommitDelta_new (R:=unit) first second Append)).
  - apply (bool_decide_unpack _). vm_compute. exact I.
  - apply (bool_decide_unpack _). vm_compute. exact I.
  - intros e e' [->|[]%not_elem_of_nil]%elem_of_cons
      [->|[->|[]%not_elem_of_nil]%elem_of_cons]%elem_of_cons; done.
Defined.

Lemma meta_checksum_binds_witness :
  (let '(cs, stamped) := meta_compute_checksum [Byte.x00] meta_a in
   verify_against_data stamped [Byte.x00] = true ∧ verify_meta_checksum stamped = true).
Proof.
  destruct (meta_checksum_binds [Byte.x00] meta_a meta_b) as [Hs _].
  - repeat split; try done. repeat constructor; done.
  - repeat split; try done. repeat constructor; done.
  - exact (proj2 Hs).
Defined.

Definition checkpoint_a : SnapshotCheckpoint :=
  mkCheckpoint 1 1
    [mkSummary "rg_a" "data/rg_a.parquet" "data/rg_a.meta.json" None None 0 3 1
       (list_to_map [("x", mkStats (Some (VNumber (PosInt 1))) (Some (VNumber (PosInt 9))) 0);
                     ("s", mkStats (Some (VString "a")) None 1)])
       None [Range 0 3] (Some ["x"]) "sha256:a" "sha256:m"]
    "sha256:c".
Lemma archive_round_trip_witness :
  from_archive_bytes (to_archive_bytes checkpoint_a) = Some checkpoint_a.
Proof.
  apply archive_round_trip; [|intros [=]].
  constructor; [|constructor]. apply map_Forall_to_list. vm_compute map_to_list.
  repeat (constructor; [intros v [[= <-]|[= <-]]; split; repeat constructor; done|]). constructor.
Defined.

(** ** The mutation log *)

Definition delete_b : MutationRecord := Eval vm_compute in
  sealed (mkRecord 3 2 [mkFragmentDelete 1 "_deletions/b3.dv" 1] []
            [("ix", mkIndexRef (Some "_indexes/ix/g3.idx") [])] None 0 6
            [mkArtifact "_deletions/b3.dv" "00ff"] "").
Definition delete_more : MutationRecord := Eval vm_compute in
  sealed (mkRecord 4 3 [mkFragmentDelete 1 "_deletions/b4.dv" 2] [] [] None 0 6
            [mkArtifact "_deletions/b4.dv" "0a"] "").
Definition torn : bytes := Eval vm_compute in take 100 (record_line delete_more).
Definition with_log (b : bytes) : MemoryStorage := store (<[ "t/_wal/mutations.log" := b ]> table_files).

Lemma delete_b_committed : committed delete_b.
Proof.
  split; [|split; [unfold one_index; simpl; lia|vm_compute; reflexivity]].
  repeat split; closed; repeat split; done.
Qed.
Lemma delete_more_committed : committed delete_more.
Proof.
  split; [|split; [unfold one_index; simpl; lia|vm_compute; reflexivity]].
  repeat split; closed; repeat split; done.
Qed.
Lemma torn_is_torn : torn_line torn.
Proof.
  exists delete_more, (drop 100 (record_line delete_more)). split; vm_compute; [reflexivity|discriminate].
Qed.


Lemma wal_durable_prefix_witness :
  read_records "t" (with_log (log_of [delete_b] ++ torn))
  = (Ok [delete_b], with_log (log_of [delete_b] ++ torn)).
Proof.
  apply (wal_durable_prefix "t" [delete_b] torn); [exact t_clean| |exact torn_is_torn|].
  - constructor; [exact delete_b_committed|by constructor].
  - vm_compute. reflexivity.
Defined.

Lemma wal_append_after_torn_lost_witness :
  ∃ s', m_fold (λ _, append "t") tt [delete_more] (with_log (log_of [delete_b] ++ torn)) = (Ok tt, s')
    ∧ read_records "t" s' = (Ok [delete_b], s').
Proof.
  apply (wal_append_after_torn_lost "t" [delete_b] torn delete_more []);
    [exact t_clean| |exact torn_is_torn|vm_compute; discriminate| |vm_compute; reflexivity|].
  - constructor; [exact delete_b_committed|by constructor].
  - constructor; [exact delete_more_committed|by constructor].
  - vm_compute. reflexivity.
Defined.

Lemma apply_spec_witness : mf_sequence (MutationWal.apply second delete_b) = 3.
Proof.
  apply (apply_spec second delete_b). apply (bool_decide_unpack _). vm_compute. exact I.
Defined.

Lemma logged_artifacts : artifacts_ok "t" [delete_b].
Proof.
  constructor; [|constructor]. constructor; [|constructor]. split; [|split].
  - by apply clean_bool.
  - intros [E|[E|[E|[seq E]]]]; discriminate E.
  - by eexists.
Qed.

Definition logged : MemoryStorage := with_log (log_of [delete_b]).
Lemma checkpoint_preserves_live_witness :
  ∃ live' s', checkpoint_locked "t" "t3" logged = (Ok true, s')
    ∧ load_pointer_manifest "t" s' = (Ok live', s')
    ∧ same_snapshot live' (MutationWal.apply second delete_b)
    ∧ read_records "t" s' = (Ok [], s').
Proof.
  destruct (checkpoint_preserves_live "t" "t3" [delete_b] [] second logged)
    as (_&live'&s'&E&L&S&_&R&_).
  - exact t_clean.
  - constructor; [exact delete_b_committed|by constructor].
  - by left.
  - vm_compute. reflexivity.
  - exact logged_artifacts.
  - vm_compute. reflexivity.
  - repeat split; closed; repeat split; done.
  - exact I.
  - by constructor.
  - exists live', s'. exact (conj E (conj L (conj S R))).
Defined.

(** ** Two secondary indexes

    A writer whose map iterates one way, read back by a process whose map
    iterates the other way: the record was appended and synced, and is not read. *)
Definition two_indexes : MutationRecord := Eval vm_compute in
  sealed (mkRecord 3 2 [] [] (map_to_list (list_to_map
            [("a", mkIndexRef (Some "_indexes/a/g.idx") []);
             ("b", mkIndexRef (Some "_indexes/b/g.idx") [])] : gmap string IndexRef))
            None 0 6 [] "").
Definition other_order : HashOrder := @reverse _.


(** ** Garbage collection *)

Lemma table_tree b : gc_tree (<["t/_manifest.json" := b]> table_files) "t".
Proof.
  apply (gc_tree_same_paths table_files).
  - apply same_paths_insert. eexists. vm_compute. reflexivity.
  - apply gc_treeb_spec. vm_compute. reflexivity.
Qed.
Definition locked : MemoryStorage := mkMem table_files {["t/_write.lock"]}.

Lemma locked_valid valid sequences :
  load_valid_snapshots "t" locked = (Ok (valid, sequences), locked) → valid !! 2 = Some second.
Proof.
  assert (match fst (load_valid_snapshots "t" locked) with Ok (v, _) => v !! 2 | _ => None end
          = Some second) as E by (vm_compute; reflexivity).
  intros L. by rewrite L in E.
Qed.

