(* ===== verification/WitnessesIndex.v ===== *)
(** * Witnesses for the secondary indexes

    The index ["ix"] of the table ["t"] of [Witnesses.v], whose keys and row ids
    are arithmetic progressions, its learned model, its files and its deltas. *)

From S2P Require Import Prelude Bytes StableSort RowId RowIndex Text OrdMap Storage Json Manifest.
From S2P Require Import RowGroupMeta RowIndexStore BTreeIndex BinaryIndex SecondaryIndex.
From S2P Require Import DatabaseCatalog IndexMaintainer.
From S2P Require Import Instances Witnesses.

#[local] Open Scope list_scope.
#[local] Open Scope string_scope.
#[local] Open Scope Z_scope.

Definition ix : IndexDefinition := mkIndexDef "ix" "t" "k" true.
Definition index_t : BTreeIndex := mkBTree ix 2 [("10", [0]); ("20", [2]); ("30", [4])].

Lemma index_t_wf : index_wf index_t.
Proof. unfold index_wf, bm_sorted, index_t. cbn [bt_entries]. closed. Qed.
Lemma index_t_ok : index_ok index_t.
Proof.
  split; [vm_compute; split; congruence|].
  split; [exact (proj1 index_t_wf)|exact (proj1 (proj2 index_t_wf))].
Qed.
Lemma index_t_utf8 : Forall (λ e, utf8_valid (as_bytes e.1) = true) (bt_entries index_t).
Proof. unfold index_t. cbn [bt_entries]. closed. Qed.
Lemma index_t_fits : file_fits index_t.
Proof. split; vm_compute; reflexivity. Qed.

Lemma learned_model_sound_witness :
  fit index_t = Some (mkModel 10 10 0 2 3)
  ∧ Model_lookup (mkModel 10 10 0 2 3) (fmt_i64 20) = Ok (BTreeIndex_lookup index_t (fmt_i64 20)).
Proof.
  split; [vm_compute; reflexivity|].
  destruct (learned_model_sound index_t (mkModel 10 10 0 2 3)) as [_ H];
    [exact index_t_wf|vm_compute; reflexivity|]. apply H; [|vm_compute; split; congruence].
  intros key [ids E%bm_get_Some_elem]. unfold index_t in E. cbn [bt_entries] in E.
  apply elem_of_cons in E as [[= -> ->]|[[= -> ->]|[[= -> ->]|[]%not_elem_of_nil]%elem_of_cons]%elem_of_cons].
  - exists 10. split; [vm_compute; split; congruence|vm_compute; reflexivity].
  - exists 20. split; [vm_compute; split; congruence|vm_compute; reflexivity].
  - exists 30. split; [vm_compute; split; congruence|vm_compute; reflexivity].
Defined.

Lemma binary_index_refines_witness :
  ∃ file, serialize index_t = Ok file ∧ Mmap_lookup_checked file "20" = Some [2].
Proof.
  destruct (binary_index_refines index_t) as (file&b&E&_&_&_&_&_&H);
    [exact (proj1 index_t_wf)|vm_compute; split; congruence|exact index_t_utf8
    |exact (proj1 (proj2 index_t_wf))|exact index_t_fits|].
  exists file. split; [exact E|]. rewrite H. vm_compute. reflexivity.
Defined.

Definition file_t : bytes := Eval vm_compute in
  match serialize index_t with Ok b => b | _ => [] end.
Lemma lookup_checked_terminates_witness :
  ∃ b, parse file_t = Some b ∧ search_loop b "20" 0 3 (Some [2]).
Proof.
  destruct (parse file_t) as [b|] eqn:E; [|vm_compute in E; discriminate E].
  exists b. split; [reflexivity|]. destruct (lookup_checked_terminates file_t b "20" E) as [Hs _].
  assert (br_key_count b = 3) as Ek by (vm_compute in E; by injection E as <-).
  assert (lookup_checked b "20" = Some [2]) as El
    by (vm_compute in E; injection E as <-; vm_compute; reflexivity).
  by rewrite Ek, El in Hs.
Defined.

(** ** On storage *)

Lemma ix_dir_clean : clean (idx_dir "t" "ix").
Proof. by apply clean_bool. Qed.

Definition indexed_store : MemoryStorage := Eval vm_compute in
  snd (save_versioned true index_t table_store).
Definition base_rel : string := "_indexes/ix/base__v000000002.json".
Definition ref_two : IndexRef := mkIndexRef (Some base_rel) ["_indexes/ix/delta__v000000003.json"].
Definition delta_store : MemoryStorage := Eval vm_compute in
  snd (append_index_delta "t" "ix" [2] [("20", 9)] 3 (mkIndexRef (Some base_rel) []) indexed_store).
Definition index_u : BTreeIndex := mkBTree ix 2 [("10", [0]); ("20", [9]); ("30", [4])].
Definition overlay_u : IndexDeltaOverlay := mkOverlay {[ 2 ]} [("20", [9])].

Lemma ref_paths_clean : Forall clean (ref_paths "t" "ix" ref_two).
Proof. repeat (apply Forall_cons_2; [by apply clean_bool|]). by apply Forall_nil_2. Qed.

Lemma append_delta_loads_witness :
  ∃ r' rel s', append_index_delta "t" "ix" [9] [("20", 11)] 4 ref_two delta_store = (Ok (r', rel), s')
    ∧ load_index_by_ref "t" "ix" r' s'
      = (Ok (Some (mkBTree ix 2 [("10", [0]); ("20", [11]); ("30", [4])])), s')
    ∧ load_index_by_ref "t" "ix" ref_two s' = (Ok (Some index_u), s').
Proof.
  destruct (append_delta_loads "t" "ix" ref_two [9] [("20", 11)] 4 index_u overlay_u delta_store)
    as (r'&rel&s'&E&L&_&L').
  - exact ix_dir_clean.
  - split; closed.
  - exact ref_paths_clean.
  - apply (bool_decide_unpack _). vm_compute. exact I.
  - apply (bool_decide_unpack _). vm_compute. exact I.
  - vm_compute. reflexivity.
  - vm_compute. reflexivity.
  - exists r', rel, s'. exact (conj E (conj L L')).
Defined.

Lemma load_overlay_refines_witness :
  ∃ o i, load_index_overlay "t" ref_two delta_store = (Ok o, delta_store)
    ∧ load_index_by_ref "t" "ix" ref_two delta_store = (Ok (Some i), delta_store)
    ∧ overlay_merge o "20" (BTreeIndex_lookup index_t "20") = BTreeIndex_lookup i "20".
Proof.
  assert (load_index_overlay "t" ref_two delta_store = (Ok overlay_u, delta_store)) as Eo
    by (vm_compute; reflexivity).
  pose proof (load_overlay_refines "t" "ix" ref_two index_t delta_store ref_paths_clean) as H.
  rewrite Eo in H. destruct H as (_&i&L&Hm); [vm_compute; reflexivity|].
  exists overlay_u, i. split; [exact Eo|]. split; [exact L|exact (Hm "20")].
Defined.

Lemma resolve_storage_live_witness :
  resolve_live_addresses_storage (B:=gset Z) "t" indexed_second [7; 2] indexed
  = (Ok [(1, 0); (0, 2)], indexed).
Proof.
  destruct (resolve_storage_live "t" indexed_second
    (mkRowIndexRef (Some "_rowindex/base__v000000002.idx") [])
    (mkAddressMap [mkSeg 0 0 0 1; mkSeg 2 0 2 1; mkSeg 5 1 1 1; mkSeg 7 1 0 1] [])
    metas [7; 2] indexed) as (live&E&_&Hlive).
  - exact table_paths_clean.
  - exact indexed_loaded.
  - apply (bool_decide_unpack _). vm_compute. exact I.
  - exact table_fits.
  - exact table_rows_unique.
  - reflexivity.
  - vm_compute. reflexivity.
  - rewrite E. do 2 f_equal. apply (Hlive ltac:(vm_compute; reflexivity) [(7, 1, 0); (2, 0, 2)]);
      [|reflexivity].
    apply Forall_cons_2; [|apply Forall_cons_2; [|apply Forall_nil_2]];
      apply (bool_decide_unpack _); vm_compute; exact I.
Defined.

(** ** The catalog and maintenance *)

Definition catalog_t : DatabaseCatalogData :=
  mkCatalog [("t", mkTableEntry "t0")] [("ix", mkIndexEntry "t" "k" "btree" true)].
Definition maintain_files : gmap string bytes := Eval vm_compute in
  <["_catalog.json" := json_to_vec_pretty (catalog_value catalog_t)]>
  (<["t/data/rg_a.parquet" := [Byte.x0a; Byte.x14; Byte.x1e]]>
  (<["t/data/rg_b.parquet" := [Byte.x28; Byte.x00]]> table_files)).
Definition index_one : BTreeIndex := mkBTree ix 1 [("10", [0]); ("30", [2])].
Definition maintain_store : MemoryStorage := Eval vm_compute in
  snd (save_versioned true index_one (store maintain_files)).
Definition ref_one : IndexRef := mkIndexRef (Some "_indexes/ix/base__v000000001.json") [].
Definition columns : list (RowGroupMeta * DeletionVector (gset Z) * list (option Scalar)) :=
  [(meta_a, deleted_a, [Some (SInt64 10); Some (SInt64 20); Some (SInt64 30)]);
   (meta_b, dv_default, [Some (SInt64 40); None])].

Lemma catalog_refines_witness :
  ∃ s', catalog_run (CreateIndex "iy" (mkIndexEntry "t" "j" "btree" false)) maintain_store = (Ok tt, s')
    ∧ fst (list_tables s') = Ok ["t"].
Proof.
  destruct (catalog_refines (CreateIndex "iy" (mkIndexEntry "t" "j" "btree" false)) catalog_t
              maintain_store) as (s'&E&(c'&Hc'&Ha&L&_)&_); [vm_compute; reflexivity|].
  exists s'. split; [rewrite E; vm_compute; reflexivity|]. rewrite L. cbn [fst].
  assert (catalog_at (files s') = Ok (mkCatalog [("t", mkTableEntry "t0")]
    [("ix", mkIndexEntry "t" "k" "btree" true); ("iy", mkIndexEntry "t" "j" "btree" false)])) as Ec.
  { assert (s' = snd (catalog_run (CreateIndex "iy" (mkIndexEntry "t" "j" "btree" false)) maintain_store))
      as -> by by rewrite E. vm_compute. reflexivity. }
  rewrite Hc' in Ec. by injection Ec as ->.
Defined.

Lemma columns_loaded :
  Forall2 (column_loaded (files maintain_store) ix) (mf_row_groups second) columns.
Proof.
  apply Forall2_cons. split; [|apply Forall2_cons; split; [|by apply Forall2_nil]].
  - split; [vm_compute; reflexivity|]. split; [vm_compute; reflexivity|].
    split; [eexists _, _; split; [vm_compute; reflexivity|split; vm_compute; reflexivity]|].
    split; [vm_compute; congruence|]. split; [vm_compute; reflexivity|by repeat constructor].
  - split; [vm_compute; reflexivity|]. split; [vm_compute; reflexivity|].
    split; [eexists _, _; split; [vm_compute; reflexivity|split; vm_compute; reflexivity]|].
    split; [vm_compute; congruence|]. split; [vm_compute; reflexivity|by repeat constructor].
Qed.
Lemma column_paths_clean :
  Forall (λ e, Forall clean (column_paths ix e)) (mf_row_groups second).
Proof.
  apply Forall_cons_2; [|apply Forall_cons_2; [|apply Forall_nil_2]];
    repeat (apply Forall_cons_2; [by apply clean_bool|]); apply Forall_nil_2.
Qed.

Lemma build_btree_index_correct_witness :
  ∃ i, build_btree_index (B:=gset Z) ix second maintain_store = (Ok i, maintain_store)
    ∧ index_rows i [("10", 0); ("30", 2); ("40", 7)].
Proof.
  destruct (build_btree_index_correct (B:=gset Z) ix second columns maintain_store) as [Hok _];
    [exact column_paths_clean|exact columns_loaded|].
  destruct Hok as (i&E&_&_&Hr); [|exists i; split; [exact E|]].
  - intros _ v r r'. assert (live_entries columns = [("10", 0); ("30", 2); ("40", 7)]) as ->
      by (vm_compute; reflexivity). rewrite !elem_of_cons, !elem_of_nil. naive_solver.
  - assert (live_entries columns = [("10", 0); ("30", 2); ("40", 7)]) as E2 by (vm_compute; reflexivity).
    by rewrite E2 in Hr.
Defined.

Definition insert_plan (_ : string) : Plan := mkPlan ref_one index_one [("40", 7)].
Definition update_plan (_ : string) : Plan := mkPlan ref_one index_one [("35", 2)].
Lemma ref_one_ready row_ids plan :
  plan "ix" = mkPlan ref_one index_one (pl_adds (plan "ix")) →
  delta_ok (mkTombstone row_ids (pl_adds (plan "ix"))) →
  ready "t" 2 row_ids plan maintain_store "ix".
Proof.
  intros Hp Hd. split; [exact ix_dir_clean|]. rewrite Hp. cbn [pl_ref pl_index]. split; [|split].
  - apply Forall_cons_2; [|apply Forall_cons_2; [|apply Forall_nil_2]];
      (split; [by apply clean_bool|apply not_touched; vm_compute; reflexivity]).
  - exact Hd.
  - vm_compute. reflexivity.
Qed.

Lemma one_add_ok index ts key row :
  BTreeIndex_lookup index key = [] → adds_ok index ts [(key, row)].
Proof.
  intros Hl. split.
  - by intros k r r' [= -> ->]%list_elem_of_singleton [= ->]%list_elem_of_singleton.
  - intros k r id [= -> ->]%list_elem_of_singleton. rewrite Hl. by intros ?%elem_of_nil.
Qed.
Lemma maintain_on_insert_correct_witness :
  ∃ m' written s', maintain_on_insert (B:=gset Z) true "t" second {["ix" := ref_one]} [entry_b] 2
      maintain_store = (Ok (m', written), s')
    ∧ index_maintained "t" [] (insert_plan "ix") "ix" true m' s'.
Proof.
  destruct (maintain_on_insert_correct (B:=gset Z) true "t" second {["ix" := ref_one]} [entry_b] 2
              catalog_t insert_plan maintain_store) as [Hok _].
  - vm_compute. reflexivity.
  - intros name e [= -> ->]%list_elem_of_singleton _.
    split; [apply ref_one_ready; [reflexivity|split; closed]|].
    split; [vm_compute; reflexivity|]. split; [discriminate|]. split.
    + apply Forall_cons_2; [|apply Forall_nil_2].
      repeat (apply Forall_cons_2; [split; [by apply clean_bool|apply not_touched; vm_compute; reflexivity]|]).
      apply Forall_nil_2.
    + exists (drop 1 columns). split; [|vm_compute; reflexivity].
      pose proof columns_loaded as H. inversion H. subst. assumption.
  - destruct Hok as (m'&w&s'&E&Hm).
    + intros name e [= -> ->]%list_elem_of_singleton _ _. by apply one_add_ok.
    + exists m', w, s'. split; [exact E|].
      exact (Hm "ix" (mkIndexEntry "t" "k" "btree" true) (list_elem_of_here _ _) eq_refl).
Defined.

Definition second_ix : Manifest := with_generation "ix" ref_one second.
