(* ===== verification/WitnessesAgg.v ===== *)
(** * Witnesses for the aggregate partials and the caches

    A data file of five rows in two groups, one of them deleted; a cache of two
    keys under three threads' calls. *)

From S2P Require Import Prelude Bytes RowId Text OrdMap Storage Json Manifest.
From S2P Require Import Arrow AggCache AggRetract AggGroups LruCache.
From S2P Require Import Instances Witnesses.
From stdpp Require Import strings gmap.

#[local] Open Scope list_scope.
#[local] Open Scope string_scope.
#[local] Open Scope Z_scope.

(** Groups 1, 2, 1, 2, 1 with the values 5, null, 7, 3, 6. *)
Definition rows5 : bytes := Byte.x15 :: Byte.x20 :: Byte.x17 :: Byte.x23 :: [Byte.x16].
Definition batch5 : RecordBatch := byte_batch rows5.
Definition entry5 : RowGroupEntry := mkEntry "d" "d.meta.json" 0 (Some "x.dv") 1 None.
Definition store5 : MemoryStorage := store {[ "t/d" := rows5 ]}.
Definition dv5 : DeletionVector (gset Z) := mkDV {[ 2; 3 ]}.

Lemma column5 name a :
  column_by_name batch5 name = Some a → array_typed a ∧ len (ar_cells a) = 5.
Proof.
  unfold column_by_name, batch5, byte_batch. cbn [List.find fst].
  repeat case_bool_decide; intros [= <-]; (split; [|vm_compute; reflexivity]).
  all: unfold array_typed, byte_group, byte_value, rows5; cbn.
  all: repeat (apply Forall_cons; split); try apply Forall_nil; try exact I;
    (eexists; split; [reflexivity|split; vm_compute; congruence]).
Qed.
Lemma batch5_wf : content_wf batch5 5.
Proof. split; [|exact column5]. apply (bool_decide_unpack _). vm_compute. exact I. Qed.
Lemma file5 : data_file "t" entry5 batch5 store5.
Proof. exists "t/d", rows5. repeat split; vm_compute; reflexivity. Qed.
Lemma dv5_iter : dv_iter dv5 = [2; 3].
Proof. vm_compute. reflexivity. Qed.
Lemma offsets5 : offsets_in (dv_iter dv5) 0 5.
Proof. rewrite dv5_iter. split; repeat constructor; lia. Qed.

Lemma retract_live_witness :
  ∃ d, deleted_contribution "t" entry5 dv5 (fa_cols (compute_agg_state 0 "h" batch5)).*1 store5
       = (Ok d, store5)
    ∧ ∃ agg, bm_get "v" (fa_cols (retract (compute_agg_state 0 "h" batch5) d)) = Some agg
             ∧ ca_count_non_null agg = 2 ∧ ca_sum agg = AInt 11.
Proof.
  destruct (retract_live batch5 5 "t" entry5 store5 dv5 0 "h" batch5_wf file5 offsets5)
    as (d&E&Hd). exists d. split; [exact E|].
  specialize (Hd "v" (byte_value rows5) eq_refl eq_refl). rewrite decide_True in Hd by (vm_compute; reflexivity).
  destruct Hd as (agg&Ha&Hc&Hs&_). exists agg. split; [exact Ha|].
  rewrite Hc, Hs, dv5_iter. split; vm_compute; reflexivity.
Defined.

Lemma scoped_recompute_spec_witness :
  ∃ r, scoped_recompute_extremum "t" entry5 dv5 5 "v" Max store5 = (Ok r, store5)
       ∧ ∃ v, is_best Max [5; 6] v ∧ r = extremum_json v.
Proof.
  destruct (scoped_recompute_spec batch5 5 "t" entry5 store5 dv5 "v" (byte_value rows5) Max
    batch5_wf file5 offsets5 eq_refl eq_refl) as (r&E&Hr).
  exists r. split; [exact E|]. rewrite dv5_iter in Hr. exact Hr.
Defined.

Definition agg5 : ColAgg := Eval vm_compute in
  match column_agg (byte_value rows5) with Some a => a | None => NullAgg end.
Lemma extremum_deleted_spec_witness :
  extremum_deleted agg5 dv5 Max = true ∧ extremum_deleted agg5 dv5 Min = true.
Proof.
  assert (array_typed (byte_value rows5)) as Hty by (apply (column5 "v"); reflexivity).
  pose proof (extremum_deleted_spec (byte_value rows5) agg5 dv5 Max) as Hmax.
  pose proof (extremum_deleted_spec (byte_value rows5) agg5 dv5 Min) as Hmin.
  cbn [agg5 ca_min_off ca_max_off] in Hmax, Hmin. rewrite dv5_iter in Hmax, Hmin.
  split.
  - destruct Hmax as [-> _]; [reflexivity|exact Hty|vm_compute; congruence|vm_compute; reflexivity|].
    reflexivity.
  - destruct Hmin as [-> _]; [reflexivity|exact Hty|vm_compute; congruence|vm_compute; reflexivity|].
    reflexivity.
Defined.


Definition part_a : GroupedPartials := mkGrouped "g" [("1", [("v", exact_agg [5; 7])])].
Definition part_b : GroupedPartials := mkGrouped "g" [("1", [("v", exact_agg [6])]); ("2", [])].
Lemma merge_grouped_exact_witness :
  ∃ merged, merge_grouped [part_a; part_b] = Ok merged
            ∧ entry_of "1" "v" merged = Some (exact_agg [5; 7; 6]).
Proof.
  destruct (merge_grouped_exact [part_a; part_b] "g") as (m&E&H).
  - repeat constructor; apply (bool_decide_unpack _); vm_compute; exact I.
  - repeat constructor.
  - exists m. split; [exact E|]. apply (H "1" "v" [[5; 7]; [6]]); vm_compute; reflexivity.
Defined.

Definition grouped5 : GroupedPartials :=
  match fa_grouped (compute_agg_state_with_key 0 "h" batch5 (Some "g")) with
  | Some gp => gp | None => mkGrouped "" [] end.
Lemma retract_grouped_live_witness :
  ∃ live, retract_grouped "t" entry5 grouped5 dv5 ["v"] store5 = (Ok live, store5)
    ∧ ∀ k cols, bm_get k live = Some cols → ∃ agg, bm_get "v" cols = Some agg
        ∧ ca_count_non_null agg
          = len (ints (rows_cells (byte_value rows5) (live_key_rows (byte_group rows5) 5 [2; 3] k))).
Proof.
  destruct (retract_grouped_live batch5 5 "t" entry5 store5 dv5 0 "h" "g" (byte_group rows5) grouped5 ["v"]
    batch5_wf file5 offsets5) as (live&E&_&H);
    [reflexivity|vm_compute; reflexivity|apply NoDup_singleton|].
  exists live. split; [exact E|]. intros k cols Hk.
  destruct (H k cols Hk "v" (byte_value rows5)) as (agg&Ha&Hc&_);
    [apply list_elem_of_here|reflexivity|reflexivity|vm_compute; reflexivity|].
  exists agg. split; [exact Ha|]. rewrite Hc, dv5_iter. reflexivity.
Defined.

(** Two threads look up "a"; between them a third puts "c", which evicts "b". *)
Definition calls : list (Event (K:=string) (V:=Z) (T:=Z)) :=
  [EPut "a" 1; EPut "b" 2; ERead 0 "a" (Some 1); EPromote 0 (Some "a"); EPut "c" 3; ERead 1 "b" None].
Definition after_calls : Shared (K:=string) (V:=Z) (T:=Z) := mkShared (mkCache 2 {[ "a" := 1; "c" := 3 ]} ["a"; "c"]) ∅.
Lemma calls_run : cache_run (T:=Z) (mkShared (cache_new 2) ∅) calls after_calls.
Proof.
  refine (cache_run_snoc _ (take 5 calls) _ (ERead 1 "b" None) _ _ _).
  { refine (cache_run_snoc _ (take 4 calls) _ (EPut "c" 3) _ _ _).
    { refine (cache_run_snoc _ (take 3 calls) _ (EPromote 0 (Some "a")) _ _ _).
      { refine (cache_run_snoc _ (take 2 calls) _ (ERead 0 "a" (Some 1)) _ _ _).
        { refine (cache_run_snoc _ (take 1 calls) _ (EPut "b" 2) _ _ _).
          { refine (cache_run_snoc _ (take 0 calls) _ (EPut "a" 1) _ _ _); [apply cache_run_nil|apply step_put]. }
          apply step_put. }
        apply step_read_hit; vm_compute; reflexivity. }
      exact (step_promote (cache_put (cache_put (cache_new 2) "a" 1) "b" 2) (<[0 := "a"]> ∅) 0 "a" eq_refl). }
    apply step_put. }
  apply step_read_miss; vm_compute; reflexivity.
Qed.
Lemma lru_interleavings_witness :
  ci_order (sh_cache after_calls) = ["a"; "c"] ∧ ci_entries (sh_cache after_calls) !! "c" = Some 3.
Proof.
  destruct (lru_interleavings 2 calls after_calls) as (Ho&_&Hk&_); [lia|exact calls_run|].
  split; [exact Ho|]. rewrite Hk. vm_compute. reflexivity.
Defined.
