(* ===== verification/WitnessesMeta.v ===== *)
(** * Witnesses for schemas, statistics and pruning

    A table of one integer column, a batch of three rows, the metadata written
    for it, and a plan over it. *)

From S2P Require Import Prelude Bytes RowId Text OrdMap Json RowGroupMeta Arrow AggCache Schema FieldIds.
From S2P Require Import Prune PruneSound Stats StatsSound Instances.
From Stdlib Require Import Floats.SpecFloat.
From stdpp Require Import strings gmap.

#[local] Open Scope list_scope.
#[local] Open Scope string_scope.
#[local] Open Scope Z_scope.

(** ** Schemas *)

Definition decimals : DataType := List (mkField "item" (Decimal128 10 2) true).

Definition schema_of (cols : list Column) (by_ : option (list string)) (dropped : list string) : Schema :=
  mkSchema 1 cols by_ None None DEFAULT_ROW_GROUP_TARGET_ROWS DEFAULT_ROW_GROUP_TARGET_BYTES dropped 0.
Definition schema_a : Schema := schema_of [Column_new "a" "int64" true; Column_new "b" "utf8" true] None [].
(** [b] is dropped and [c] is added. *)
Definition schema_b : Schema := schema_of [Column_new "a" "int64" true; Column_new "c" "utf8" true] None ["b"].
Definition first : Schema := Eval vm_compute in assign_field_ids schema_a None.
Definition second : Schema := Eval vm_compute in assign_field_ids schema_b (Some first).
Lemma field_ids_stable_witness :
  co_field_id <$> sc_columns second = [1; 3] ∧ has_field_ids second = true.
Proof.
  split; [vm_compute; reflexivity|].
  apply (field_ids_stable [first] second). apply (versions_next [] first schema_b).
  - apply (versions_first schema_a). unfold id_room. vm_compute. reflexivity.
  - unfold id_room. vm_compute. reflexivity.
Defined.

(** ** Statistics *)

Definition column_c : Array := mkArray Int64 [Some (CInt 1); None; Some (CInt 5)].
Lemma column_c_describable : describable column_c.
Proof.
  split.
  - repeat (apply Forall_cons_2; [first [exact I | eexists; split; [reflexivity|lia]]|]). constructor.
  - intros c Hc. assert (c = CInt 1 ∨ c = CInt 5) as [->| ->] by (unfold column_c in Hc; set_solver).
    + split; [cbn; unfold in_i64; lia|done].
    + split; [cbn; unfold in_i64; lia|done].
Qed.
Lemma column_stats_exact_witness :
  ∃ mn mx, compute_min_max column_c = Ok (mn, mx)
    ∧ mn = Some (VNumber (PosInt 1)) ∧ stats_ok (mkStats mn mx 1) (seen_cells column_c).
Proof.
  destruct (column_stats_exact column_c column_c_describable) as (mn&mx&E&Hs&_).
  exists mn, mx. split; [exact E|]. split; [|exact Hs].
  assert (compute_min_max column_c = Ok (Some (VNumber (PosInt 1)), Some (VNumber (PosInt 5)))) as E'
    by (vm_compute; reflexivity).
  congruence.
Defined.

Definition batch_c : RecordBatch := [("c", column_c)].
Definition schema_c : Schema := schema_of [mkColumn "c" "int64" true 1] (Some ["c"]) [].
Definition meta_c : RowGroupMeta := Eval vm_compute in
  match compute_row_group_meta "a" 1 batch_c schema_c [] "t" [] with Ok m => m | _ => mkMeta "" 0 0 ∅ None None [] "" "" end.
Definition group_c : PlannedRowGroup :=
  mkPlanned "t/a.parquet" "t/a.meta.json" meta_c None 1 false None 0 0 None.
Definition plan_c : ScanPlan := mkPlan "t" schema_c [group_c].
Lemma batch_c_ok : batch_ok batch_c.
Proof.
  intros name a. unfold column_by_name, batch_c. cbn [List.find fst]. case_bool_decide; [|done].
  intros [= <-]. split; [reflexivity|exact column_c_describable].
Qed.
Lemma row_c_typed p v : pred_literals p = [LInt64 v] → pred_column p = "c" → in_i64 v →
  pred_typed p (batch_rows batch_c).
Proof.
  intros El Ec Hv. unfold pred_typed. rewrite El. apply Forall_singleton. split; [done|].
  intros r c Hr Hc. rewrite Ec in Hc.
  assert (Some c ∈ seen_cells column_c) as Hin.
  { rewrite <- (batch_column batch_c "c" column_c batch_c_ok eq_refl), list_elem_of_fmap. by exists r. }
  unfold seen_cells, column_c in Hin. cbn in Hin. by destruct c; set_solver.
Qed.

Lemma infinite_float_pruned_witness :
  ∃ mn mx, compute_min_max infinite_column = Ok (mn, mx)
    ∧ row_group_satisfies (PGt "c" (LFloat64 (f64_of_int 5))) (infinite_group (mkStats mn mx 0)) [] = Ok false.
Proof.
  destruct infinite_float_pruned as (mn&mx&E&Hs&_); [exact I|]. exists mn, mx. exact (conj E Hs).
Defined.

(** ** Footers *)

Definition footer_c : ParquetMetaData :=
  mkFooter ["c"]
    [[mkChunk (Some (mkStatistics (SbInt64 (Some 7) (Some 7)) (Some 0))) None 4 10];
     [mkChunk (Some (mkStatistics (SbInt64 (Some 7) (Some 7)) (Some 0))) None 14 10]] 3.
Definition cells_c (name : string) : list (list (option Cell)) :=
  if decide (name = "c") then [[Some (CInt 7); Some (CInt 7)]; [Some (CInt 7)]] else [].
Lemma footer_c_described : described footer_c cells_c (λ _, CInt 0) (mkColumn "c" "int64" true 1).
Proof.
  exists Int64, 0%nat. split; [vm_compute; reflexivity|]. split; [reflexivity|]. split; [reflexivity|].
  split; [|vm_compute; reflexivity].
  apply Forall2_cons; split; [|apply Forall2_cons; split; [|constructor]].
  all: do 2 eexists; split; [reflexivity|]; split; [reflexivity|]; split; [reflexivity|].
  all: cbv zeta; right; exists (CInt 7), (CInt 7); do 2 (split; [reflexivity|]).
  all: do 2 (split; [split; [cbn; unfold in_i64; lia|reflexivity]|]).
  all: intros c Hc; assert (c = CInt 7) as -> by set_solver.
  all: by repeat split; try (cbn; unfold in_i64; lia).
Qed.

(** ** Filters *)

Definition stats_c : ColumnStats := Eval vm_compute in
  match rm_columns meta_c !! "c" with Some s => s | None => mkStats None None 0 end.
Lemma stats_c_ok : bounds_ok stats_c (seen_cells column_c).
Proof. apply (column_stats_ok column_c); [exact column_c_describable|vm_compute; reflexivity]. Qed.
Lemma predicate_eval_exact_witness :
  predicate_disjoint (PLt "c" (LInt64 1)) (mkStats (Some (VNumber (int_number 1))) (Some (VNumber (int_number 5))) 0)
  = true.
Proof.
  apply (predicate_eval_exact (PLt "c" (LInt64 1)) 1 1 5 0).
  - exists "c". auto.
  - unfold in_i64. lia.
  - unfold in_i64. lia.
  - unfold in_i64. lia.
  - lia.
  - intros z Hz. unfold cell_holds. cbn [holds cell_test lit_cell cell_cmp is_lt].
    destruct (Z.compare_spec z 1); (reflexivity || lia).
Defined.
