(* ===== verification/WitnessesCommit.v ===== *)
(** * Witnesses for the commit protocol

    A table with one row group, one of whose rows was deleted before, on a disk
    that fails.  The delete of another row is interrupted after any number of
    operations. *)

From S2P Require Import Prelude Bytes StableSort Text OrdMap RowId Storage Json Arrow Schema Manifest.
From S2P Require Import RowGroupMeta CommitDelta MutationWal Gc BTreeIndex SecondaryIndex DatabaseCatalog.
From S2P Require Import Commit Disk CommitSafe FaultyDisk CommitDurable CommitAtomic CommitCrash CommitLive Instances.
From stdpp Require Import gmap.

#[local] Open Scope list_scope.
#[local] Open Scope string_scope.
#[local] Open Scope Z_scope.

Definition rg_entry : RowGroupEntry :=
  mkEntry "data/rg_a.parquet" "data/rg_a.meta.json" 0 (Some (del_path 0 1)) 1 None.
Definition snapshot : Manifest := Eval vm_compute in
  finalize None "t1" (mkManifest 1 1 1 [rg_entry] None None 3 1 None ∅ None None None "").
Definition rg_meta_file : RowGroupMeta := mkMeta "rg_a" 1 3 ∅ None None [Range 0 3] "sha256:a" "".
Definition deleted_one : DeletionVector (gset Z) := mkDV {[ 1 ]}.
Definition delete_files : gmap string bytes := Eval vm_compute in
  list_to_map [
    ("t/_manifest.json", pointer_bytes 1);
    ("t/_manifests/000000001.json", to_vec snapshot);
    ("t/data/rg_a.meta.json", to_vec rg_meta_file);
    ("t/_deletions/rg_0000000000000000__v1.del", dv_serialize deleted_one);
    ("t/_staging/intents/txn_old.json", []);
    ("t/_staging/incoming/x.part", [])].
(** All of it durable; the disk is going to fail as [faults] say. *)
Definition delete_disk (faults : list Fault) : FaultyDisk := mkDisk delete_files ∅ ∅ ∅ ∅ faults.
Definition the_writer : Writer :=
  mkWriter "t" (mkSchema 1 [] None None None 0 0 [] 0) false 8.
Definition the_env : CommitEnv := mkEnv "u" "t2" "t3" "t4".
Definition the_deletes : gmap Z (list Z) := {[ 0 := [2] ]}.
Definition delete_run (faults : list Fault) :=
  commit_deletes (B:=gset Z) true (λ _, None) the_writer the_env the_deletes (delete_disk faults).

Lemma delete_disk_settled faults p b :
  delete_files !! p = Some b → settled (delete_disk faults) p b.
Proof.
  intros Hp. split; [done|]. split; [apply not_elem_of_empty|]. intros o.
  change (o = delete_files !! p ∨ o ∈ default [] ((∅ : gmap string (list (option bytes))) !! p) ∨ p ∈ (∅ : gset string)
          ∨ p ∈ (∅ : gset string) → o = Some b).
  rewrite lookup_empty. intros [->|[H|[H|H]]]; [done|by apply elem_of_nil in H|by apply elem_of_empty in H..].
Qed.
Lemma delete_files_tidy : tidy delete_files.
Proof. apply tidyb_spec. vm_compute. done. Qed.
(** The leftover intent is torn. *)
Lemma torn_intent e d intent :
  e ∈ list_children delete_files (intents_dir "t" +:+ "/") → delete_files !! e = Some d →
  json_parse d = Some intent → False.
Proof.
  assert (list_children delete_files (intents_dir "t" +:+ "/") = ["t/_staging/intents/txn_old.json"]) as ->
    by (vm_compute; done).
  assert (delete_files !! "t/_staging/intents/txn_old.json" = Some []) as E by (vm_compute; done).
  intros ->%list_elem_of_singleton Hd Hj. rewrite E in Hd. injection Hd as <-.
  assert (json_parse [] = None) as En by (vm_compute; reflexivity). congruence.
Qed.
Lemma no_claims p : ¬ claimed delete_files "t" (manifest_referenced_files snapshot) p.
Proof. intros (e&d&intent&fs&f&He&Hd&Hj&_). by eapply torn_intent. Qed.
Lemma no_generations name : mf_index_generations snapshot !! name = None.
Proof. exact (lookup_empty name). Qed.
Lemma referenced_spared f :
  f ∈ ["data/rg_a.parquet"; "data/rg_a.meta.json"; "_deletions/rg_0000000000000000__v1.del"] →
  spared the_writer the_env 1 snapshot delete_files ("t/" +:+ f).
Proof.
  intros Hf. split_and!.
  - intros [Hc|[[c E]|[(d&c&Hd&E)|(c&E&_)]]]%swept_cases; [by apply no_claims in Hc|..];
      try (apply list_elem_of_In in Hd; destruct Hd as [<-|[<-|[]]]);
      apply list_elem_of_In in Hf; by destruct Hf as [<-|[<-|[<-|[]]]].
  - intros Hs. inversion Hs as [E|e v He Hv E|name [r Hr]|name [r Hr]].
    + apply list_elem_of_In in Hf; by destruct Hf as [<-|[<-|[<-|[]]]].
    + apply list_elem_of_singleton in He as ->. assert (v = 2) as -> by (vm_compute in Hv; congruence).
      apply list_elem_of_In in Hf; by destruct Hf as [<-|[<-|[<-|[]]]].
    + by rewrite no_generations in Hr.
    + by rewrite no_generations in Hr.
  - intros Hp. apply list_elem_of_In in Hf; destruct Hf as [<-|[<-|[<-|[]]]]; by inversion Hp.
  - apply list_elem_of_In in Hf; by destruct Hf as [<-|[<-|[<-|[]]]].
Qed.
Lemma delete_files_ready faults : delete_ready the_writer the_env 1 snapshot (delete_disk faults).
Proof.
  constructor.
  - constructor; [by apply clean_bool|done|vm_compute; done|vm_compute; done|vm_compute; done|done|vm_compute; done].
  - apply delete_disk_settled. vm_compute. done.
  - eexists. apply delete_disk_settled. vm_compute. done.
  - apply delete_files_tidy.
  - vm_compute. apply NoDup_singleton.
  - intros name [r Hr]. by rewrite no_generations in Hr.
  - intros f Hf. assert (manifest_referenced_files snapshot
      = list_to_set ["data/rg_a.parquet"; "data/rg_a.meta.json"; "_deletions/rg_0000000000000000__v1.del"]) as E
      by (vm_compute; done).
    rewrite E, elem_of_list_to_set in Hf. split; [|by apply referenced_spared].
    apply list_elem_of_In in Hf; destruct Hf as [<-|[<-|[<-|[]]]]; by apply clean_bool.
  - intros p Hp. by apply no_claims in Hp.
Qed.
Lemma delete_files_deletable : deletable (B:=gset Z) the_writer the_deletes snapshot delete_files.
Proof.
  constructor.
  - intros e d intent fs f He Hd Hj _ _ _. exfalso. by apply (torn_intent e d intent).
  - constructor.
    + intros e o He _. apply list_elem_of_singleton in He as ->.
      split; [exists deleted_one; vm_compute; reflexivity|exists 2; vm_compute; reflexivity].
    + intros e He. apply list_elem_of_singleton in He as ->. exists rg_meta_file. vm_compute. reflexivity.
    + exists DatabaseCatalogData_default. split; [vm_compute; reflexivity|]. intros Hu. vm_compute in Hu. done.
  - intros e dv offsets He Hdv Ho. apply list_elem_of_singleton in He as ->.
    assert (dv = deleted_one) as -> by (vm_compute in Hdv; injection Hdv as <-; vm_compute; done).
    assert (offsets = [2]) as -> by (vm_compute in Ho; congruence).
    assert (cardinality (union_offsets deleted_one [2]) = 2) as -> by (vm_compute; reflexivity).
    unfold in_u64. lia.
Qed.
