(* ===== verification/WitnessesTx.v ===== *)
(** * Witnesses for the snapshot catalog and the transactions

    A created table ["t"] without commits receives a row through a transaction; the
    writer of the example appends to a file of the table. *)

From S2P Require Import Prelude Bytes StableSort Text OrdMap Storage Json Arrow Schema FieldIds Manifest CommitDelta MutationWal.
From S2P Require Import SnapshotCatalog TransactionLog Transactions Instances Witnesses.
From Stdlib Require Import Strings.Byte.

#[local] Open Scope list_scope.
#[local] Open Scope string_scope.
#[local] Open Scope Z_scope.

(** ** The catalog *)

Definition schema_1 : Schema :=
  mkSchema 1 [mkColumn "id" "int64" false 0] None None None 1000 100000 [] 0.
(** The table of the other examples with its schema, and a pending deletion. *)
Definition catalog_files : gmap string bytes := Eval vm_compute in
  <["t/_schemas/000001.json" := to_vec schema_1]>
    (<["t/_wal/mutations.log" := (log_of [delete_b])%list]> table_files).
Definition catalog_store : MemoryStorage := store catalog_files.

Lemma stored_second : stored_snapshot "t" catalog_store second schema_1.
Proof.
  exists (pointer_bytes 2), (to_vec second), (to_vec schema_1).
  repeat split_and; vm_compute; first [reflexivity | discriminate].
Qed.

Lemma refresh_sound_witness :
  ∃ c s' m, Catalog_refresh (mkCatalog "t" None None) catalog_store = (Ok c, s')
    ∧ cat_latest_manifest c = Some m ∧ verify_checksum m = true.
Proof.
  assert (∃ c s', Catalog_refresh (mkCatalog "t" None None) catalog_store = (Ok c, s')) as (c&s'&E).
  { rewrite (refresh_snapshot_eq "t" None None catalog_store second schema_1 t_clean stored_second).
    destruct (live_manifest_ok "t" [delete_b] [] second catalog_store) as (s1&E&_).
    - exact t_clean.
    - constructor; [exact delete_b_committed|by constructor].
    - by left.
    - vm_compute. reflexivity.
    - exact logged_artifacts.
    - rewrite (m_bind_ok _ _ _ _ _ E). by eexists _, _. }
  exists c, s'.
  destruct (refresh_sound (mkCatalog "t" None None) catalog_store c s' t_clean E)
    as [(Hp&_)|[(p&Hp&Hl&_)|(base&schema&m&_&_&->&Hv&_)]].
  - exfalso. vm_compute in Hp. discriminate Hp.
  - exfalso. assert (files catalog_store !! pointer_path "t" = Some (pointer_bytes 2)) as E2
      by (vm_compute; reflexivity).
    cbn [cat_table] in Hp. assert (p = pointer_bytes 2) as -> by congruence.
    vm_compute in Hl. discriminate Hl.
  - exists m. split; [exact E|]. split; [reflexivity|exact Hv].
Defined.


(** ** The log *)

Definition entry_begin : LogEntry := mkLogEntry 0 (TxBegin "x").
Definition entry_commit : LogEntry := mkLogEntry 1 (TxCommit "x").
Lemma empty_log : wal_holds ∅ [].
Proof.
  constructor; [constructor|constructor|by intros e ?%elem_of_nil|].
  intros n Hn. vm_compute in Hn. by apply elem_of_nil in Hn.
Qed.
Definition begun : gmap string bytes :=
  <[entry_path entry_begin :=
      (default [] ((∅ : gmap string bytes) !! entry_path entry_begin) ++ entry_line entry_begin ++ [x0a])%list]> ∅.
Lemma begun_log : wal_holds begun [entry_begin].
Proof.
  apply (wal_holds_append ∅ [] entry_begin); [exact empty_log|split; [done|reflexivity]|constructor].
Qed.

Lemma wal_append_reopen_witness :
  ∃ s', append_entry 1 (TxCommit "x") (store begun) = (Ok entry_commit, s')
    ∧ wal_entries s' = (Ok [entry_begin; entry_commit], s') ∧ Wal_open s' = (Ok 2, s').
Proof.
  destruct (wal_append_reopen [entry_begin] 1 (TxCommit "x") (store begun)) as (s'&E&_&_&R&O).
  - exact begun_log.
  - by constructor.
  - split; [done|reflexivity].
  - done.
  - exists s'. exact (conj E (conj R O)).
Defined.

Definition logged_commit : gmap string bytes :=
  <[entry_path entry_commit :=
      (default [] (begun !! entry_path entry_commit) ++ entry_line entry_commit ++ [x0a])%list]> begun.
Lemma recover_decides_witness :
  ∃ st, recover (store logged_commit) = (Ok st, store logged_commit) ∧ "x" ∈ rs_committed st.
Proof.
  destruct (recover_decides [entry_begin; entry_commit] (store logged_commit)) as (st&E&H&_).
  - apply (wal_holds_append begun [entry_begin] entry_commit);
      [exact begun_log|split; [done|reflexivity]|by constructor].
  - discriminate.
  - exists st. split; [exact E|]. apply (H "x").
    exists [entry_begin], 1, []. split; [reflexivity|]. by constructor; [split|constructor].
Defined.

(** The tables of these witnesses are not written to. *)
#[export] Instance append_writer : TableWriter MemoryStorage unit := λ table _ _ batches,
  let! _ := st_append (table +:+ "/rows") ((λ _, x01) <$> batches) in
  m_ret (mkDelta 0 0 Append Manifest_default Manifest_default []).
#[export] Instance append_writer_laws : TableWriterLaws MemoryStorage unit.
Proof.
  intros table schema lock batches s r s' p Hc E Hp. unfold insert_and_commit, append_writer in E.
  assert (validate_path (table +:+ "/rows") = Ok (table +:+ "/rows")) as Hv
    by (apply clean_validate, (clean_join table "rows"); [done|by apply clean_bool]).
  destruct (st_append_spec _ _ ((λ _, x01) <$> batches) s Hv) as (s1&E1&Hf).
  rewrite (m_bind_ok _ _ _ _ _ E1) in E. injection E as _ <-. rewrite Hf.
  apply lookup_insert_ne. intros <-. apply Hp. by exists "rows".
Qed.
(** Batches of one integer. *)
Definition one_row (v : Z) : RecordBatch := [("id", mkArray Int64 [Some (CInt v)])].
#[export] Instance one_row_ipc : ArrowIpc := {
  ipc_write b :=
    match b with
    | [(name, mkArray Int64 [Some (CInt v)])] =>
        if decide (name = "id" ∧ in_u64 v) then Ok (to_le_bytes 8 v) else Err (Other "ipc")
    | _ => Err (Other "ipc")
    end;
  ipc_read d := Ok [one_row (from_le_bytes d)];
}.
#[export] Instance one_row_ipc_laws : ArrowIpcLaws.
Proof.
  constructor. intros b d. cbn [ipc_write ipc_read one_row_ipc].
  destruct b as [|[name [ty cells]] [|]]; [done| |by destruct ty, cells as [|[[]|] []]].
  destruct ty; try done. destruct cells as [|[[|v| | |]|] [|]]; try done.
  case_decide as Hd; [|done]. destruct Hd as [-> Hv]. intros [= <-]. by rewrite from_to_le_u64.
Qed.

(** ** The manager *)

Definition tx_files : gmap string bytes := Eval vm_compute in
  list_to_map [
    ("t/_manifest.json", pointer_bytes 0);
    ("t/_schema.json", pointer_bytes 1);
    ("t/_schemas/000001.json", to_vec schema_1)].
Definition manager_0 : TransactionManager MemoryStorage := mkManager (store tx_files) 0 [].
Definition manager_1 : TransactionManager MemoryStorage := snd (begin "x" manager_0).
Definition manager_2 : TransactionManager MemoryStorage := snd (add_insert "x" "t" (one_row 5) manager_1).

Lemma manager_0_inv : manager_inv manager_0 [].
Proof.
  constructor; try by constructor.
  - constructor; [constructor|constructor|by intros e ?%elem_of_nil|].
    intros n Hn. vm_compute in Hn. by apply elem_of_nil in Hn.
  - done.
Qed.
Lemma manager_1_inv : ∃ e, manager_inv manager_1 [e] ∧ le_lsn e = 0.
Proof.
  destruct (begin_inv "x" manager_0 [] manager_0_inv) as (tm'&e&E&Hi&_); [done|constructor|].
  exists e. unfold manager_1. rewrite E. split; [exact Hi|].
  pose proof (mi_fresh _ _ Hi) as Hf. pose proof (wal_lsns _ _ (mi_log _ _ Hi)) as Hl.
  inversion Hf as [|?? Hlt]; subst. inversion Hl as [|?? Hl0]; subst.
  assert (tm_next_lsn tm' = 1) as En by (replace tm' with manager_1 by (unfold manager_1; by rewrite E); reflexivity).
  unfold in_u64 in Hl0. lia.
Qed.
Lemma manager_2_inv : ∃ es, manager_inv manager_2 es.
Proof.
  destruct manager_1_inv as (e&Hi&_).
  destruct (add_insert_inv "x" "t" (one_row 5) (to_le_bytes 8 5) manager_1 [e] Hi) as (tm'&E&Hi');
    [reflexivity|reflexivity|].
  eexists. unfold manager_2. rewrite E. exact Hi'.
Qed.
Lemma manager_2_ready es : call_ready (CCommit "x") manager_2 es.
Proof.
  split; [reflexivity|]. intros t Ht.
  assert (bm_get "x" (tm_transactions manager_2) = Some (mkTransaction "x" [("t", [one_row 5])])) as E
    by reflexivity.
  rewrite E in Ht. injection Ht as <-. constructor; [|constructor]. split; [split; [exact t_clean|done]|].
  vm_compute. reflexivity.
Qed.
Definition deltas_x : list (string * CommitDelta unit) :=
  [("t", mkDelta 0 0 Append Manifest_default Manifest_default [])].
Definition manager_3 : TransactionManager MemoryStorage := snd (commit (R:=unit) "x" manager_2).
Lemma commit_x : commit (R:=unit) "x" manager_2 = (Ok deltas_x, manager_3).
Proof. vm_compute. reflexivity. Qed.




(** ** A torn line *)

Definition torn_begin : MemoryStorage := store (<[entry_path entry_begin :=
  (default [] ((∅ : gmap string bytes) !! entry_path entry_begin) ++ take 3 (entry_line entry_begin))%list]> ∅).
Lemma torn_log_blocks_witness :
  apply_committed_transactions (R:=unit) torn_begin = (Err TransactionLog.torn, torn_begin)
  ∧ Wal_open torn_begin = (Ok 0, torn_begin).
Proof.
  destruct (torn_log_blocks (R:=unit) [] ∅ entry_begin (take 3 (entry_line entry_begin))
    (drop 3 (entry_line entry_begin)) torn_begin) as (_&_&A&O).
  - exact empty_log.
  - split; [done|reflexivity].
  - vm_compute. reflexivity.
  - vm_compute. discriminate.
  - vm_compute. discriminate.
  - reflexivity.
  - exact (conj A O).
Defined.
